(* ===== verification/_CoqProject ===== *)
-Q . S2P
Prelude.v
GoStrings.v
Types.v
Naming.v
GoFloat.v
Kahuna.v
Placement.v
Roster.v
Plan.v
Conditions.v
Autoscaler.v
BackupSchedule.v
BackupRunner.v
Sha256.v
Entrypoint.v
Resources.v
Kube.v
Certificate.v
Backup.v
Status.v
Reconcile.v
Frame.v
Settle.v
Operator.v
DeepCopy.v
Main.v
