(* ===== verification/Prelude.v ===== *)
(** * A verified model of the Kahuna Kubernetes operator

    ** The program

    The operator drives a KahunaCluster resource toward its desired state: a StatefulSet of Kahuna nodes
    that form one Raft cluster.  One pass ([Reconcile] of internal/controller/kahunacluster_controller.go)
    pins the founding size, provisions TLS, creates the objects of the cluster, reads the committed
    roster and the replica placement from the nodes, lets the autoscaler choose a size, takes at most one
    safe membership step on the StatefulSet, runs the backup scheduler and writes the status.

    ** Files

    - [Prelude]: machine integers, record update, effects and triples, tactics and hints.
    - [GoStrings], [GoFloat]: what the source uses of Go's strings, strconv, slices and float64.
    - [Types]: the structs of api/v1alpha1/kahunacluster_types.go, field by field.
    - [Naming]: naming.go.  Names, endpoints, labels, ports, [desiredReplicas].
    - [Kahuna]: internal/kahuna/client.go.  The documents of a node's API, the class [Client] that is the
      Go interface, and its HTTP implementation over a parametric transport and JSON decoder.
    - [Placement]: the placement checks of autoscaler.go ([placementSettled], [placementConverged],
      [growthCeiling]).
    - [Roster]: membership.go and readPlacement.  Reading the roster, joining it to the pods, leaving.
    - [Plan]: plan.go.  [rosterMatches] and [buildPlan].
    - [Conditions]: setCondition over the apimachinery helpers.
    - [Autoscaler]: autoscaler.go.  Sampling, decision and recording.
    - [BackupSchedule], [BackupRunner], [Backup]: backup.go.  What is due and how results are recorded; the
      goroutines that run backups, as interleaved steps; the volume, the guards and one pass.
    - [Sha256], [Entrypoint]: entrypoint.go.  The command line, the startup script byte for byte, its
      hash, and what the script does when a pod runs it ([startup]).
    - [Resources]: resources.go.  The Kubernetes objects and their builders.
    - [Kube]: the API server as the controllers call it, a parameter.
    - [Certificate]: certificate.go.
    - [Status]: reconcileStatus and its helpers.
    - [Reconcile]: the rest of kahunacluster_controller.go, up to [Reconcile] itself.
    - [Frame], [Settle], [Operator]: theorems about the whole pass: the objects it writes, the rest its
      status comes to, and the abstract machine it refines.
    - [DeepCopy]: zz_generated.deepcopy.go, on a memory of cells.
    - [Main]: cmd/main.go, groupversion_info.go and SetupWithManager.

    ** How the code is modelled

    Definitions keep the names of the source; a Go pointer is an [option]; int32 and int64 are [Z] with
    the wrap-around written as [i32] and [i64]; float64 is binary64 of the standard library's SpecFloat;
    times and durations are nanoseconds.  A function with effects is a value of [go W A]: it passes the
    outside world [W] along and yields [None] when the Go code would panic (a nil dereference, a
    division by zero); errors are values of [result].  A long Go function is split at its blank lines
    into definitions that the mapped whole composes.  Code outside the repository (the API server,
    net/http, encoding/json, the cron parser, the PKCS#12 decoder, apimachinery) is a class parameter;
    what a theorem needs of it is a named law ([ConditionsLaws], [ConditionsStable], [ScheduleLaws],
    [SemanticLaws], [OwnerLaws], [UpdateLaws], [LibraryLaws]; for the refinement, [ClusterLaws], [SetLaws],
    [CachedReads], [RosterLaws] and [QuietView]; [EditLaws] for the walk), and every claim with hypotheses has a witness that
    instantiates them.  The mutable state of the reconciler (samples, running backups) is passed along
    explicitly.  A cluster is a value everywhere but in [DeepCopy], which proves that the copies the source
    makes are ones.

    ** What is proved

    - Scaling (Plan, Placement, Roster, Reconcile): the roster check is exactly set equality with the
      first n nodes, all Voters; the plan of a formed cluster moves by one node, only when the data has
      settled; successive passes reach the target after as many that may take their step as there are nodes
      to move, and a leaving node that refuses holds the size; a pod goes only after its node left the
      roster (or has no address to ask); the immutable fields of the StatefulSet stay.
    - Status (Status, Reconcile): the phase, the bootstrap latch, the rolled-out image and the conditions
      are characterized; no status write of a whole pass unlatches the bootstrap or revises the founding
      size; a status that equals the stored one is not written; a pass always asks for the next one.
    - Autoscaler: bounds, one node at a time, the stabilization window over every history of decisions,
      no shrinking on a partial view, rates only from two comparable readings.
    - Backups: what is due, wake-ups that miss nothing, increasing schedule times, the closed form of the
      backoff, delivery at most once and one backup at a time over every interleaving, and what a pass
      must have seen before it starts one.
    - Pods (Entrypoint, Resources, Certificate): quoting round-trips through the shell, an option is
      given twice exactly when extraArgs repeats it or names one the script adds, a node takes the identity the operator expects, scaling changes no pod template, volumes and
      ports fit together, the certificate covers every node, a keystore is deleted only when it is stale.

    - The whole pass (Operator, Frame, Settle): every pass refines one step of a small machine (founding
      size, formed, present and past sizes of the set), however old the cached read of the set is, so over
      any run, with others resizing the set in between, the founding size and the latch never go back and
      the size stays within the sizes asked for; with current reads a formed cluster moves by one node
      per pass, and a stale one is shown to undo a shrink.  A pass writes the objects of its own cluster only, and
      two clusters share one exactly when a name ends the other's with -peer.  After one write of the
      status no pass writes another while nothing that the passes read changes.
    - Around it (DeepCopy, Main): deep copies share no memory with their originals; flags parse back to
      what they print; the exit code tells what failed; HTTP/2 is off unless asked for.

    Theorems whose comment starts with C and a number are the development's claims.

    ** Bounds and fuel

    Loops are structural recursions on the list or the count the source iterates over: there is no fuel
    that could run out.  [latestDue] walks at most a hundred thousand schedule times because the source
    does; the theorem says what happens beyond.  The machine and the runs of [Operator] are relations, not
    functions with fuel, and [Reconcile_refines] speaks of every pass, however it ends.  Rosters and pod lists are assumed shorter than 2^31 where
    the source truncates a length to int32.

    ** What is not modelled

    Logging; the sampler's mutex (reconciles of one cluster are serialized, clusters have separate keys);
    the internals of controller-runtime's manager, work queue and cache (a cached read of the StatefulSet
    may be any version that was stored); other writers of a cluster's status or StatefulSet in the middle
    of a pass (between passes, the runs of [Operator] let others resize the set, but not delete it or write
    the status); the rounding of metav1.Time to whole seconds on its way through the API server; the new
    sample that a pass leaves in the sampler before it panics (a panicking pass yields no state); schedules
    of the form "@every d"; slices that
    share part of an array; and the interpretation of arbitrary shell beyond the constructs of the generated
    script. *)

From Stdlib Require Import ZArith Lia.
From stdpp Require Import base numbers strings pretty sorting gmap list.

Open Scope Z_scope.

Coercion Z.of_nat : nat >-> Z.

(** ** Machine integers

    Go's [int32] and [int64] are signed two's-complement integers whose arithmetic wraps.  They are
    kept as [Z] and every operation of the source that can leave the range is written with the
    conversion [i32] or [i64]. *)

Definition two31 : Z := 2147483648.
Definition two32 : Z := 4294967296.
Definition two63 : Z := 9223372036854775808.
Definition two64 : Z := 18446744073709551616.

Definition i32 (z : Z) : Z := (z + two31) `mod` two32 - two31.
Definition i64 (z : Z) : Z := (z + two63) `mod` two64 - two63.

Definition is_i32 (z : Z) : Prop := - two31 ≤ z < two31.
Definition is_i64 (z : Z) : Prop := - two63 ≤ z < two63.

#[export] Instance is_i32_dec z : Decision (is_i32 z).
Proof. unfold is_i32. apply _. Defined.
#[export] Instance is_i64_dec z : Decision (is_i64 z).
Proof. unfold is_i64. apply _. Defined.

Lemma i32_id z : is_i32 z → i32 z = z.
Proof. unfold is_i32, i32, two31, two32. intros. rewrite Z.mod_small; lia. Qed.

Lemma i64_id z : is_i64 z → i64 z = z.
Proof. unfold is_i64, i64, two63, two64. intros. rewrite Z.mod_small; lia. Qed.

Lemma i32_range z : is_i32 (i32 z).
Proof.
  unfold is_i32, i32. assert (0 ≤ (z + two31) `mod` two32 < two32)
    by (apply Z.mod_pos_bound; unfold two32; lia).
  unfold two31, two32 in *; lia.
Qed.

(** Side conditions about ranges: unfold the bounds and call [lia]. *)
Ltac range := unfold is_i32, is_i64, two31, two32, two63, two64 in *; lia.

(** Remove every [i32]/[i64] whose argument is in range. *)
Ltac unwrap_ints :=
  repeat (rewrite i32_id by range || rewrite i64_id by range).

(** Go's integer [range n]: the loop variable takes 0, 1, ..., n-1, and nothing when [n <= 0]. *)
Definition go_range (n : Z) : list Z := seqZ 0 n.

Lemma elem_of_go_range n i : i ∈ go_range n ↔ 0 ≤ i < n.
Proof. unfold go_range. rewrite elem_of_seqZ. lia. Qed.

Lemma NoDup_go_range n : NoDup (go_range n).
Proof. apply NoDup_seqZ. Qed.

Lemma length_go_range n : length (go_range n) = Z.to_nat n.
Proof. apply length_seqZ. Qed.

(** Go's [min] and [max] builtins on integers, and the clamp the sources build from them. *)
Definition clamp (lo hi z : Z) : Z := Z.min (Z.max z lo) hi.

Lemma clamp_bounds lo hi z : lo ≤ hi → lo ≤ clamp lo hi z ≤ hi.
Proof. unfold clamp. lia. Qed.

Lemma clamp_id lo hi z : lo ≤ z ≤ hi → clamp lo hi z = z.
Proof. unfold clamp. lia. Qed.

(** ** Record update

    [r <| f := v |>] is the Go assignment [r.f = v] on a copy of the struct.  An [Eta] instance
    lists a record's fields once; the setter of each field is found by abstracting that field's
    projection in the eta expansion. *)

Class Eta (R : Type) := eta : R → R.
Class Setter {R T : Type} (proj : R → T) := set : (T → T) → R → R.
Arguments set {R T} proj {_} _ _ /.

Ltac build_setter proj :=
  match type of proj with
  | ?R → ?T =>
      let cast := constr:(_ : Eta R) in
      let inst := match cast with ?i => i end in
      let e := eval unfold inst in inst in
      match eval pattern proj in e with
      | ?F _ => exact (fun (f : T → T) => F (fun r => f (proj r)))
      end
  end.

#[export] Hint Extern 0 (@Setter _ _ ?proj) => build_setter proj : typeclass_instances.

Notation "r '<|' f ':=' v '|>'" := (set f (λ _, v) r)
  (at level 1, left associativity, f at level 200, v at level 200,
   format "r  '<|'  f  ':='  v  '|>'").

(** ** Effects

    A call that can change the outside world (the API server, a Kahuna node) passes that world
    along explicitly.  [None] in the first component is a Go panic: a nil dereference or a division
    by zero unwinds the whole pass, and the world keeps what was done before it. *)

Definition go (W A : Type) : Type := W → option A * W.

#[export] Instance go_ret {W} : MRet (go W) := λ A a w, (Some a, w).
#[export] Instance go_bind {W} : MBind (go W) := λ A B f m w,
  match m w with
  | (Some a, w') => f a w'
  | (None, w') => (None, w')
  end.

Definition go_panic {W A} : go W A := λ w, (None, w).

(** Lift a pure computation that may panic. *)
Definition go_lift {W A} (o : option A) : go W A := λ w, (o, w).

Lemma go_bind_ret {W A B} (a : A) (f : A → go W B) : (mret a ≫= f) = f a.
Proof. done. Qed.

Lemma go_bind_Some {W A B} (m : go W A) (f : A → go W B) w b w' :
  (m ≫= f) w = (Some b, w') ↔ ∃ a w1, m w = (Some a, w1) ∧ f a w1 = (Some b, w').
Proof.
  unfold mbind, go_bind. destruct (m w) as [[a|] w1]; split.
  - eauto.
  - intros (a' & w2 & [= <- <-] & ?). done.
  - done.
  - by intros (a' & w2 & [=] & ?).
Qed.

(** *** Triples

    [triple I m Q]: from a world where [I] holds, [m] leads to one where [I] holds, also when it panics,
    and what it returns satisfies [Q].  [keeps I m] says nothing of the value. *)

Definition triple {W A} (I : W → Prop) (m : go W A) (Q : A → Prop) : Prop :=
  ∀ w, I w → I (m w).2 ∧ ∀ a, (m w).1 = Some a → Q a.

Definition keeps {W A} (I : W → Prop) (m : go W A) : Prop := triple I m (λ _, True).

Section triples.
Context {W : Type} (I : W → Prop).

Lemma triple_ret {A} (a : A) (Q : A → Prop) : Q a → triple I (mret a) Q.
Proof. intros HQ w Hw. split; [done|]. by intros ? [= <-]. Qed.

Lemma triple_bind {A B} (m : go W A) (f : A → go W B) (P : A → Prop) (Q : B → Prop) :
  triple I m P → (∀ a, P a → triple I (f a) Q) → triple I (m ≫= f) Q.
Proof.
  intros Hm Hf w Hw. destruct (Hm w Hw) as [HI HP]. unfold mbind, go_bind.
  destruct (m w) as [[a|] w1]; simpl in *; [|done]. by apply Hf; [apply HP|].
Qed.

Lemma triple_lift {A} (o : option A) (Q : A → Prop) : (∀ a, o = Some a → Q a) → triple I (go_lift o) Q.
Proof. intros HQ w Hw. done. Qed.

Lemma triple_weaken {A} (m : go W A) (P Q : A → Prop) : triple I m P → (∀ a, P a → Q a) → triple I m Q.
Proof. intros Hm HPQ w Hw. destruct (Hm w Hw). split; [done|]. eauto. Qed.

Lemma keeps_ret {A} (a : A) : keeps I (mret a).
Proof. by apply triple_ret. Qed.

Lemma keeps_lift {A} (o : option A) : keeps I (go_lift o).
Proof. by apply triple_lift. Qed.

Lemma keeps_bind {A B} (m : go W A) (f : A → go W B) :
  keeps I m → (∀ a, keeps I (f a)) → keeps I (m ≫= f).
Proof. intros Hm Hf. apply (triple_bind m f (λ _, True)); [done|]. intros a _. apply Hf. Qed.

(** The same with what is known of the value. *)
Lemma keeps_bind_post {A B} (m : go W A) (f : A → go W B) (P : A → Prop) :
  triple I m P → (∀ a, P a → keeps I (f a)) → keeps I (m ≫= f).
Proof. apply triple_bind. Qed.
End triples.

(** ** Options as Go pointers *)

Definition is_nil {A} (o : option A) : bool := match o with None => true | Some _ => false end.

Lemma is_nil_true {A} (o : option A) : is_nil o = true ↔ o = None.
Proof. destruct o; naive_solver. Qed.

(** ** Generic list lemmas *)

Section lists.
Context {A B : Type}.

(** A list of [n] pairwise distinct elements inside a list of length [n] is a permutation of it:
    the pigeonhole behind every "same size and nothing missing" check. *)
Lemma submseteq_same_length_Permutation (l k : list A) :
  NoDup l → (∀ x, x ∈ l → x ∈ k) → length k = length l → k ≡ₚ l.
Proof.
  intros Hnd Hsub Hlen. symmetry. apply submseteq_length_Permutation; [|lia].
  by apply NoDup_submseteq.
Qed.

Lemma existsb_elem_of (f : A → bool) (l : list A) :
  existsb f l = true ↔ ∃ x, x ∈ l ∧ f x = true.
Proof. rewrite existsb_exists. by setoid_rewrite <- list_elem_of_In. Qed.

Lemma forallb_elem_of (f : A → bool) (l : list A) :
  forallb f l = true ↔ ∀ x, x ∈ l → f x = true.
Proof. rewrite forallb_forall. by setoid_rewrite <- list_elem_of_In. Qed.

Lemma list_filter_all (P : A → Prop) `{!∀ x, Decision (P x)} (l : list A) :
  Forall P l → filter P l = l.
Proof. induction 1; [done|]. rewrite filter_cons_True by done. by f_equal. Qed.
End lists.

(** ** Automation *)

Create HintDb operator.
#[export] Hint Resolve i32_id i64_id i32_range NoDup_go_range clamp_bounds : operator.

Create HintDb quiet.
#[export] Hint Resolve keeps_ret keeps_lift : quiet.

(** Walk through a computation whose every call keeps the invariant. *)
Ltac keeping :=
  repeat first
    [ progress intros
    | solve [eauto with quiet]
    | apply keeps_bind
    | match goal with |- keeps _ (match ?x with _ => _ end) => destruct x end ].

(** Split the conjunctions and booleans of a guard. *)
Ltac bsimpl :=
  repeat match goal with
  | H : _ && _ = true |- _ => apply andb_true_iff in H; destruct H
  | H : _ || _ = false |- _ => apply orb_false_iff in H; destruct H
  | H : negb _ = true |- _ => apply negb_true_iff in H
  | H : negb _ = false |- _ => apply negb_false_iff in H
  | H : bool_decide _ = true |- _ => apply bool_decide_eq_true_1 in H
  | H : bool_decide _ = false |- _ => apply bool_decide_eq_false_1 in H
  | H : (_ =? _) = true |- _ => apply Z.eqb_eq in H
  | H : (_ =? _) = false |- _ => apply Z.eqb_neq in H
  | H : (_ <? _) = true |- _ => apply Z.ltb_lt in H
  | H : (_ <? _) = false |- _ => apply Z.ltb_ge in H
  | H : (_ <=? _) = true |- _ => apply Z.leb_le in H
  | H : (_ <=? _) = false |- _ => apply Z.leb_gt in H
  end.

(** Case on the innermost guard of the goal, keeping its equation. *)
Ltac split_guard :=
  match goal with
  | |- context [if ?b then _ else _] =>
      lazymatch b with
      | context [if _ then _ else _] => fail
      | _ => let E := fresh "E" in destruct b eqn:E
      end
  | |- context [match ?o with _ => _ end] =>
      lazymatch o with
      | context [match _ with _ => _ end] => fail
      | _ => let E := fresh "E" in destruct o eqn:E
      end
  end.
