(* ===== verification/GoStrings.v ===== *)
(** * Strings, numbers and sorting of the Go standard library

    Go strings are byte strings, and so is [string]: a list of 8-bit [ascii] characters.  This file
    holds the functions of [strings], [strconv], [fmt] and [slices] the operator calls, each with
    the argument shape it is called with (every separator in the sources is a single byte), and the
    lemmas the components share: printing and parsing of integers are inverse, a separator that
    does not occur in the tail is found by [LastIndex], and a stable sort permutes and orders. *)

From Stdlib Require Import ZArith Lia Ascii.
From stdpp Require Import base numbers strings pretty sorting gmap list.
From S2P Require Import Prelude.

Open Scope Z_scope.

#[global] Arguments String.append !_ _ /.

(** ** Bytes *)

Definition dq : string := String (ascii_of_nat 34) EmptyString.   (* the double quote *)
Definition nl : string := String (ascii_of_nat 10) EmptyString.   (* the newline *)
Definition bs : string := String (ascii_of_nat 92) EmptyString.   (* the backslash *)

(** ** fmt.Sprintf("%d", z) and strconv.Atoi *)

Definition itoa (z : Z) : string := pretty z.

Definition digit_val (c : ascii) : option Z :=
  let n := Z.of_nat (nat_of_ascii c) in
  if (48 <=? n) && (n <=? 57) then Some (n - 48) else None.

Definition is_digit (c : ascii) : bool := negb (is_nil (digit_val c)).

Fixpoint digits_val (acc : Z) (s : string) : option Z :=
  match s with
  | EmptyString => Some acc
  | String c s' => match digit_val c with
                   | Some d => digits_val (acc * 10 + d) s'
                   | None => None
                   end
  end.

(** strconv.Atoi: an optional sign, at least one digit, nothing else, and a range error outside
    int64 (int is 64 bits wide on every platform the operator image is built for). *)
Definition atoi (s : string) : option Z :=
  let '(neg, body) := match s with
                      | String "-" b => (true, b)
                      | String "+" b => (false, b)
                      | _ => (false, s)
                      end in
  match body with
  | EmptyString => None
  | _ => match digits_val 0 body with
         | Some v => let v := if (neg : bool) then - v else v in
                     if bool_decide (is_i64 v) then Some v else None
         | None => None
         end
  end.

(** ** strings *)

Fixpoint str_drop (n : nat) (s : string) : string :=
  match n, s with
  | O, _ => s
  | S n', String _ s' => str_drop n' s'
  | S _, EmptyString => EmptyString
  end.

Fixpoint str_take (n : nat) (s : string) : string :=
  match n, s with
  | S n', String c s' => String c (str_take n' s')
  | _, _ => EmptyString
  end.

Fixpoint str_forall (f : ascii → bool) (s : string) : bool :=
  match s with
  | EmptyString => true
  | String c s' => f c && str_forall f s'
  end.

(** strings.Contains with a one-byte needle. *)
Definition contains_byte (s : string) (c : ascii) : bool :=
  negb (str_forall (λ d, negb (Ascii.eqb d c)) s).

(** strings.Index and strings.LastIndex with a one-byte needle; [None] is Go's -1. *)
Fixpoint index_byte (s : string) (c : ascii) : option nat :=
  match s with
  | EmptyString => None
  | String d s' => if Ascii.eqb d c then Some O else S <$> index_byte s' c
  end.

Fixpoint last_index_byte (s : string) (c : ascii) : option nat :=
  match s with
  | EmptyString => None
  | String d s' =>
      match last_index_byte s' c with
      | Some i => Some (S i)
      | None => if Ascii.eqb d c then Some O else None
      end
  end.

(** strings.HasPrefix and strings.HasSuffix. *)
Definition has_prefix (s p : string) : bool := String.prefix p s.

Definition has_suffix (s p : string) : bool :=
  (String.length p <=? String.length s)%nat &&
  String.eqb (str_drop (String.length s - String.length p)%nat s) p.

(** The part of strings.Cut(s, sep) before the separator: the whole string when there is none. *)
Definition cut_before (s : string) (c : ascii) : string :=
  match index_byte s c with Some i => str_take i s | None => s end.

(** strings.ReplaceAll with a one-byte needle. *)
Fixpoint replace_byte (s : string) (c : ascii) (new : string) : string :=
  match s with
  | EmptyString => EmptyString
  | String d s' => (if Ascii.eqb d c then new else String d EmptyString) +:+ replace_byte s' c new
  end.

(** strings.Join. *)
Fixpoint str_join (sep : string) (l : list string) : string :=
  match l with
  | [] => EmptyString
  | [x] => x
  | x :: l' => x +:+ sep +:+ str_join sep l'
  end.

(** The %v verb on a slice of strings and of integers. *)
Definition fmt_strings (l : list string) : string := "[" +:+ str_join " " l +:+ "]".
Definition fmt_ints (l : list Z) : string := fmt_strings (itoa <$> l).

(** ** slices.SortStableFunc and slices.SortFunc

    Both are specified for a comparison that is a strict weak ordering, for which the stable sorted
    list is unique; insertion from the right computes it. *)

Section sort.
Context {A : Type} (cmp : A → A → Z).

Fixpoint sort_insert (x : A) (l : list A) : list A :=
  match l with
  | [] => [x]
  | y :: l' => if cmp x y <=? 0 then x :: y :: l' else y :: sort_insert x l'
  end.

Definition stable_sort (l : list A) : list A := foldr sort_insert [] l.

Lemma sort_insert_perm x l : sort_insert x l ≡ₚ x :: l.
Proof.
  induction l as [|y l IH]; simpl; [done|]. destruct (cmp x y <=? 0); [done|].
  rewrite IH. by apply Permutation_swap.
Qed.

Lemma stable_sort_perm l : stable_sort l ≡ₚ l.
Proof. induction l as [|x l IH]; simpl; [done|]. by rewrite sort_insert_perm, IH. Qed.

(** [le] is the order the comparison decides on the elements satisfying [P]. *)
Context (P : A → Prop) (le : relation A) `{!Transitive le}.
Context (cmp_le : ∀ x y, P x → P y → cmp x y ≤ 0 → le x y).
Context (cmp_gt : ∀ x y, P x → P y → 0 < cmp x y → le y x).

Lemma sort_insert_sorted x l :
  P x → Forall P l → StronglySorted le l → StronglySorted le (sort_insert x l).
Proof using Transitive0 cmp_le cmp_gt.
  intros Hx Hl Hs. induction Hs as [|y l Hs IH Hy]; simpl; [by repeat constructor|].
  inversion Hl as [|?? Py Pl]; subst. destruct (Z.leb_spec (cmp x y) 0).
  - constructor; [by constructor|]. constructor; [auto|].
    eapply Forall_impl; [exact Hy|]. intros z Hz. by transitivity y; [auto|].
  - constructor; [auto|]. rewrite sort_insert_perm. constructor; [auto|done].
Qed.

Lemma stable_sort_sorted l : Forall P l → StronglySorted le (stable_sort l).
Proof using Transitive0 cmp_le cmp_gt.
  induction 1; simpl; [constructor|]. apply sort_insert_sorted; [done| |done].
  by rewrite stable_sort_perm.
Qed.
End sort.

(** strings.Compare: bytewise lexicographic order. *)
Definition str_compare (a b : string) : Z :=
  match String.compare a b with Lt => -1 | Eq => 0 | Gt => 1 end.

Lemma str_compare_le a b : (str_compare a b ≤ 0 → String.le a b) ∧ (0 < str_compare a b → String.le b a).
Proof.
  unfold str_compare, String.le, String.leb. rewrite (String.compare_antisym b a).
  destruct (String.compare a b); simpl; split; try done; lia.
Qed.

(** ** Lemmas *)

Lemma app_str_nil_r (s : string) : s +:+ "" = s.
Proof. induction s; simpl; congruence. Qed.

Lemma app_str_assoc (a b c : string) : a +:+ (b +:+ c) = (a +:+ b) +:+ c.
Proof. induction a; simpl; congruence. Qed.

Lemma str_forall_app f a b : str_forall f (a +:+ b) = str_forall f a && str_forall f b.
Proof. induction a; simpl; [done|]. by rewrite IHa, andb_assoc. Qed.

Lemma str_forall_impl (f g : ascii → bool) s :
  (∀ c, f c = true → g c = true) → str_forall f s = true → str_forall g s = true.
Proof. intros Hfg. induction s; simpl; [done|]. intros; bsimpl. by rewrite Hfg, IHs. Qed.

Lemma digit_char_val (d : N) : (d < 10)%N → digit_val (pretty_N_char d) = Some (Z.of_N d).
Proof.
  intros ?. assert (d = 0 ∨ d = 1 ∨ d = 2 ∨ d = 3 ∨ d = 4 ∨ d = 5 ∨ d = 6 ∨ d = 7 ∨ d = 8 ∨ d = 9)%N
    as Hd by lia. destruct_or!; by subst.
Qed.

Lemma digits_val_pretty_go (x : N) s :
  digits_val 0 (pretty_N_go x s) = digits_val (Z.of_N x) s.
Proof.
  revert s. induction (N.lt_wf_0 x) as [x _ IH]; intros s.
  assert (x = 0 ∨ 0 < x)%N as [->|Hx] by lia; [by rewrite pretty_N_go_0|].
  rewrite pretty_N_go_step by done. rewrite IH by (by apply N.div_lt). simpl.
  rewrite digit_char_val by (by apply N.mod_lt). f_equal.
  rewrite (N.div_mod x 10) at 3 by done. lia.
Qed.

Lemma digits_pretty_go (x : N) s :
  str_forall is_digit s = true → str_forall is_digit (pretty_N_go x s) = true.
Proof.
  revert s. induction (N.lt_wf_0 x) as [x _ IH]; intros s Hs.
  assert (x = 0 ∨ 0 < x)%N as [->|Hx] by lia; [by rewrite pretty_N_go_0|].
  rewrite pretty_N_go_step by done. apply IH; [by apply N.div_lt|]. simpl. rewrite Hs, andb_true_r.
  unfold is_digit. by rewrite digit_char_val by (by apply N.mod_lt).
Qed.

Lemma itoa_digits z : 0 ≤ z → str_forall is_digit (itoa z) = true.
Proof.
  intros. destruct z as [|p|p]; [done| |lia]. unfold itoa, pretty, pretty_Z, pretty, pretty_positive.
  unfold pretty, pretty_N. case_decide; [done|]. by apply digits_pretty_go.
Qed.

Lemma itoa_not_empty z : itoa z ≠ "".
Proof.
  intros H. assert (Hd : digits_val 0 (itoa z) = Some 0) by by rewrite H.
  destruct z as [|p|p]; [done| |done]. revert Hd.
  unfold itoa, pretty, pretty_Z, pretty, pretty_positive, pretty, pretty_N.
  case_decide; [done|]. rewrite digits_val_pretty_go. simpl. congruence.
Qed.

Lemma itoa_nonneg_val z : 0 ≤ z → digits_val 0 (itoa z) = Some z.
Proof.
  intros. destruct z as [|p|p]; [done| |lia].
  unfold itoa, pretty, pretty_Z, pretty, pretty_positive, pretty, pretty_N.
  case_decide; [done|]. by rewrite digits_val_pretty_go.
Qed.

(** Printing a non-negative integer and parsing it back. *)
Lemma atoi_itoa z : 0 ≤ z < two63 → atoi (itoa z) = Some z.
Proof.
  intros Hz. pose proof (itoa_digits z ltac:(lia)) as Hd.
  pose proof (itoa_nonneg_val z ltac:(lia)) as Hv. pose proof (itoa_not_empty z) as Hne.
  unfold atoi. destruct (itoa z) as [|c s] eqn:E; [done|].
  assert (is_digit c = true) as Hc by (simpl in Hd; by bsimpl).
  assert (c ≠ "-"%char ∧ c ≠ "+"%char) as [? ?] by (split; intros ->; done).
  assert (match String c s with String "-" b => (true, b) | String "+" b => (false, b)
          | _ => (false, String c s) end = (false, String c s)) as ->.
  { destruct c as [[] [] [] [] [] [] [] []]; done. }
  rewrite Hv. by rewrite bool_decide_eq_true_2 by range.
Qed.

#[export] Instance itoa_inj : Inj (=) (=) itoa.
Proof. unfold itoa. apply _. Qed.

Lemma last_index_none s c : str_forall (λ d, negb (Ascii.eqb d c)) s = true → last_index_byte s c = None.
Proof.
  induction s as [|d s IH]; simpl; [done|]. intros; bsimpl. rewrite IH by done.
  by destruct (Ascii.eqb d c).
Qed.

Lemma last_index_app a c b :
  str_forall (λ d, negb (Ascii.eqb d c)) b = true →
  last_index_byte (a +:+ String c b) c = Some (String.length a).
Proof.
  intros Hb. induction a as [|d a IH]; simpl.
  - by rewrite last_index_none, Ascii.eqb_refl.
  - by rewrite IH.
Qed.

Lemma str_drop_app a b : str_drop (String.length a) (a +:+ b) = b.
Proof. induction a; simpl; [by destruct b|done]. Qed.

Lemma str_drop_S_app a c b : str_drop (S (String.length a)) (a +:+ String c b) = b.
Proof. induction a; simpl; [by destruct b|done]. Qed.

Lemma is_digit_not c d : is_digit c = false → is_digit d = true → Ascii.eqb d c = false.
Proof. intros Hc Hd. apply Ascii.eqb_neq. congruence. Qed.

#[export] Hint Resolve itoa_digits atoi_itoa : operator.
