(* ===== verification/Types.v ===== *)
(** * The KahunaCluster resource and the Kubernetes objects the operator reads

    One record per Go struct of [api/v1alpha1/kahunacluster_types.go], with the source's fields in
    the source's order, and records for the fields of the core Kubernetes objects that the
    controllers look at.  A Go pointer is an [option]; a [time.Time] is a number of nanoseconds
    since Go's zero time, so that the zero time is [0]; a [time.Duration] is a number of
    nanoseconds.  Values of foreign Kubernetes types that the operator only copies into a pod
    template are kept as their serialized text. *)

From Stdlib Require Import ZArith Lia.
From stdpp Require Import base numbers strings pretty sorting gmap list.
From S2P Require Import Prelude GoStrings.

Open Scope Z_scope.

(** ** Representation of foreign values *)

(** A value that is only copied: its serialized form. *)
Definition Opaque : Type := string.

(** resource.Quantity: an exact decimal, in units of 10^-9 (its finest precision).  Its methods belong
    to the apimachinery library and are a parameter. *)
Definition Quantity : Type := Z.

Class QuantityAPI := {
  quantity_Value : Quantity → Z;               (* Value(), an int64 *)
  quantity_Cmp : Quantity → Quantity → Z;      (* Cmp(), -1, 0 or 1 *)
}.

Definition Time : Type := Z.
Definition Duration : Type := Z.

Definition Second : Duration := 1000000000.
Definition Millisecond : Duration := 1000000.
Definition Minute : Duration := 60 * Second.
Definition Hour : Duration := 60 * Minute.

Definition zero_time : Time := 0.
Definition time_is_zero (t : Time) : bool := t =? 0.
Definition time_add (t : Time) (d : Duration) : Time := t + d.
Definition time_after (t u : Time) : bool := u <? t.
Definition time_before (t u : Time) : bool := t <? u.
(** Time.Sub saturates at the bounds of Duration. *)
Definition time_sub (t u : Time) : Duration := clamp (- two63) (two63 - 1) (t - u).

Record SecretKeySelector := mkSecretKeySelector { sks_Name : string; sks_Key : string }.

(** ** Storage and TLS (kahunacluster_types.go) *)

Definition StorageBackendRocksDB : string := "rocksdb".
Definition StorageBackendSQLite : string := "sqlite".
Definition StorageBackendMemory : string := "memory".

Inductive ClusterPhase :=
  | PhaseUnset | PhasePending | PhaseBootstrapping | PhaseRunning | PhaseScalingUp
  | PhaseScalingDown | PhaseUpgrading | PhaseDegraded.

#[export] Instance ClusterPhase_eq_dec : EqDecision ClusterPhase.
Proof. solve_decision. Defined.

Definition ConditionAvailable : string := "Available".
Definition ConditionProgressing : string := "Progressing".
Definition ConditionRosterConverged : string := "RosterConverged".
Definition ConditionAutoscalingLimited : string := "AutoscalingLimited".
Definition ConditionBackupFailing : string := "BackupFailing".
Definition ConditionBackupVolumeReady : string := "BackupVolumeReady".

Definition PVCRetentionRetain : string := "Retain".
Definition PVCRetentionDelete : string := "Delete".

Record VolumeSpec := mkVolumeSpec {
  vol_Size : Quantity;
  vol_StorageClassName : option string;
  vol_AccessModes : list string;
}.

Record StorageSpec := mkStorageSpec {
  sto_Backend : string;
  sto_Revision : string;
  sto_WALBackend : string;
  sto_WALRevision : string;
  sto_Data : VolumeSpec;
  sto_WAL : option VolumeSpec;
  sto_SyncWrites : option bool;
  sto_DirectReads : option bool;
  sto_SharedMemory : option bool;
  sto_SharedMemoryBudgetMB : option Z;
  sto_SharedMemtableBudgetMB : option Z;
  sto_PVCRetentionPolicy : string;
}.

Record CertManagerIssuerRef := mkIssuerRef {
  iss_Name : string;
  iss_Kind : string;
  iss_Group : string;
}.

Record CertManagerSpec := mkCertManagerSpec {
  cm_IssuerRef : CertManagerIssuerRef;
  cm_Duration : option Duration;
  cm_RenewBefore : option Duration;
}.

Record TLSSpec := mkTLSSpec {
  tls_SecretRef : option string;          (* LocalObjectReference: its name *)
  tls_KeystoreKey : string;
  tls_PasswordSecretRef : option SecretKeySelector;
  tls_CertManager : option CertManagerSpec;
  tls_InsecureSkipVerify : option bool;
}.

Record PortsSpec := mkPortsSpec {
  port_HTTP : Z;
  port_HTTPS : Z;
  port_InternalHTTP : Z;
  port_Raft : Z;
}.

(** ** Server tuning *)

Record RaftSpec := mkRaftSpec {
  raft_HeartbeatIntervalMs : option Z;
  raft_VotingTimeoutMs : option Z;
  raft_StartElectionTimeoutMs : option Z;
  raft_EndElectionTimeoutMs : option Z;
  raft_EnableCheckQuorum : option bool;
  raft_GossipIntervalMs : option Z;
  raft_GossipFanout : option Z;
  raft_PingTimeoutMs : option Z;
  raft_IndirectPingFanout : option Z;
  raft_SuspicionTimeoutMs : option Z;
  raft_DeadMemberEvictionGraceMs : option Z;
  raft_BackfillThreshold : option Z;
  raft_MaxBackfillEntriesPerRound : option Z;
  raft_LearnerPromotionLag : option Z;
  raft_LearnerPromotionStableWindowMs : option Z;
}.

Record TransactionsSpec := mkTransactionsSpec {
  tx_DefaultTimeoutMs : option Z;
  tx_DefaultAdmissionWaitMs : option Z;
  tx_MaxAdmissionWaitMs : option Z;
  tx_MaxConcurrentTransactions : option Z;
  tx_MaxConcurrentSessions : option Z;
}.

Record WorkersSpec := mkWorkersSpec {
  wk_Locks : option Z;
  wk_KeyValue : option Z;
  wk_Sequencer : option Z;
  wk_BackgroundWriter : option Z;
}.

Record ReplicationSpec := mkReplicationSpec { rep_Factor : Z }.

Record AutoscalingSpec := mkAutoscalingSpec {
  as_MinReplicas : Z;
  as_MaxReplicas : Z;
  as_TargetWritesPerSecond : option Z;
  as_TargetQueueDepth : option Z;
  as_ScaleUpStabilizationSeconds : option Z;
  as_ScaleDownStabilizationSeconds : option Z;
  as_TolerancePercent : option Z;
}.

(** ** Backups *)

Record BackupVolumeSpec := mkBackupVolumeSpec {
  bv_ClaimName : option string;
  bv_Claim : option VolumeSpec;
}.

Record BackupRetentionSpec := mkBackupRetentionSpec {
  br_MaxChains : option Z;
  br_MaxAge : option Duration;
  br_MaxBytes : option Quantity;
}.

Record BackupSpec := mkBackupSpec {
  bk_Schedule : string;
  bk_IncrementalSchedule : string;
  bk_Suspend : option bool;
  bk_Timeout : option Duration;
  bk_Volume : BackupVolumeSpec;
  bk_ClusterID : string;
  bk_MACKeySecretRef : option SecretKeySelector;
  bk_Retention : option BackupRetentionSpec;
}.

(** ** The spec *)

Record KahunaClusterSpec := mkKahunaClusterSpec {
  spec_Replicas : option Z;
  spec_Replication : option ReplicationSpec;
  spec_Autoscaling : option AutoscalingSpec;
  spec_Backup : option BackupSpec;
  spec_Image : string;
  spec_ImagePullPolicy : string;
  spec_ImagePullSecrets : list string;
  spec_Partitions : option Z;
  spec_Storage : StorageSpec;
  spec_TLS : TLSSpec;
  spec_Ports : option PortsSpec;
  spec_Raft : option RaftSpec;
  spec_Transactions : option TransactionsSpec;
  spec_Workers : option WorkersSpec;
  spec_LogLevel : string;
  spec_ExtraArgs : list string;
  spec_Resources : Opaque;
  spec_NodeSelector : gmap string string;
  spec_Tolerations : list Opaque;
  spec_Affinity : option Opaque;
  spec_TopologySpreadConstraints : list Opaque;
  spec_PodAnnotations : gmap string string;
  spec_PodLabels : gmap string string;
  spec_ServiceAccountName : string;
  spec_PodSecurityContext : option Opaque;
  spec_SecurityContext : option Opaque;
  spec_TerminationGracePeriodSeconds : option Z;
  spec_PodDisruptionBudget : option bool;
}.

(** ** The status *)

Record MemberStatus := mkMemberStatus {
  ms_PodName : string;
  ms_Endpoint : string;
  ms_NodeID : Z;
  ms_Role : string;
  ms_JoinedVersion : Z;
  ms_Ready : bool;
}.

Record AutoscalingStatus := mkAutoscalingStatus {
  ast_DesiredReplicas : Z;
  ast_RecommendedReplicas : Z;
  ast_WritesPerSecondPerNode : option Z;
  ast_QueueDepthPerNode : option Z;
  ast_AboveTargetSince : option Time;
  ast_BelowTargetSince : option Time;
  ast_LastScaleTime : option Time;
}.

Record BackupStatus := mkBackupStatus {
  bst_LastFullScheduleTime : option Time;
  bst_LastIncrementalScheduleTime : option Time;
  bst_LastSuccessfulTime : option Time;
  bst_LastBackupID : string;
  bst_LastBackupType : string;
  bst_ConsecutiveFailures : Z;
  bst_LastFailureTime : option Time;
  bst_LastFailureMessage : string;
  bst_UnclaimedSince : option Time;
  bst_LastUnclaimedTime : option Time;
}.

(** metav1.Condition: [cond_Status] is whether the status is "True". *)
Record Condition := mkCondition {
  cond_Type : string;
  cond_Status : bool;
  cond_LastTransitionTime : Time;
  cond_Reason : string;
  cond_Message : string;
}.

Record KahunaClusterStatus := mkKahunaClusterStatus {
  st_ObservedGeneration : Z;
  st_Phase : ClusterPhase;
  st_Replicas : Z;
  st_ReadyReplicas : Z;
  st_Voters : Z;
  st_Learners : Z;
  st_MembershipVersion : Z;
  st_Members : list MemberStatus;
  st_Bootstrapped : bool;
  st_BootstrapSize : Z;
  st_CurrentImage : string;
  st_LabelSelector : string;
  st_UpdatePartition : option Z;
  st_Autoscaling : option AutoscalingStatus;
  st_Backup : option BackupStatus;
  st_Conditions : list Condition;
}.

Record KahunaCluster := mkKahunaCluster {
  kc_Name : string;
  kc_Namespace : string;
  kc_Generation : Z;
  kc_Spec : KahunaClusterSpec;
  kc_Status : KahunaClusterStatus;
}.

(** ** Zero values and field updates *)

Definition zero_AutoscalingStatus : AutoscalingStatus :=
  mkAutoscalingStatus 0 0 None None None None None.
Definition zero_BackupStatus : BackupStatus :=
  mkBackupStatus None None None "" "" 0 None "" None None.
Definition zero_Status : KahunaClusterStatus :=
  mkKahunaClusterStatus 0 PhaseUnset 0 0 0 0 0 [] false 0 "" "" None None None [].

#[export] Instance eta_AutoscalingStatus : Eta AutoscalingStatus := λ r,
  mkAutoscalingStatus (ast_DesiredReplicas r) (ast_RecommendedReplicas r)
    (ast_WritesPerSecondPerNode r) (ast_QueueDepthPerNode r) (ast_AboveTargetSince r)
    (ast_BelowTargetSince r) (ast_LastScaleTime r).

#[export] Instance eta_BackupStatus : Eta BackupStatus := λ r,
  mkBackupStatus (bst_LastFullScheduleTime r) (bst_LastIncrementalScheduleTime r)
    (bst_LastSuccessfulTime r) (bst_LastBackupID r) (bst_LastBackupType r)
    (bst_ConsecutiveFailures r) (bst_LastFailureTime r) (bst_LastFailureMessage r)
    (bst_UnclaimedSince r) (bst_LastUnclaimedTime r).

#[export] Instance eta_Condition : Eta Condition := λ r,
  mkCondition (cond_Type r) (cond_Status r) (cond_LastTransitionTime r) (cond_Reason r)
    (cond_Message r).

#[export] Instance eta_Status : Eta KahunaClusterStatus := λ r,
  mkKahunaClusterStatus (st_ObservedGeneration r) (st_Phase r) (st_Replicas r) (st_ReadyReplicas r)
    (st_Voters r) (st_Learners r) (st_MembershipVersion r) (st_Members r) (st_Bootstrapped r)
    (st_BootstrapSize r) (st_CurrentImage r) (st_LabelSelector r) (st_UpdatePartition r)
    (st_Autoscaling r) (st_Backup r) (st_Conditions r).

#[export] Instance eta_KahunaCluster : Eta KahunaCluster := λ r,
  mkKahunaCluster (kc_Name r) (kc_Namespace r) (kc_Generation r) (kc_Spec r) (kc_Status r).

#[export] Instance eta_Spec : Eta KahunaClusterSpec := λ r,
  mkKahunaClusterSpec (spec_Replicas r) (spec_Replication r) (spec_Autoscaling r) (spec_Backup r)
    (spec_Image r) (spec_ImagePullPolicy r) (spec_ImagePullSecrets r) (spec_Partitions r)
    (spec_Storage r) (spec_TLS r) (spec_Ports r) (spec_Raft r) (spec_Transactions r)
    (spec_Workers r) (spec_LogLevel r) (spec_ExtraArgs r) (spec_Resources r) (spec_NodeSelector r)
    (spec_Tolerations r) (spec_Affinity r) (spec_TopologySpreadConstraints r)
    (spec_PodAnnotations r) (spec_PodLabels r) (spec_ServiceAccountName r)
    (spec_PodSecurityContext r) (spec_SecurityContext r) (spec_TerminationGracePeriodSeconds r)
    (spec_PodDisruptionBudget r).

#[export] Instance MemberStatus_eq_dec : EqDecision MemberStatus.
Proof. solve_decision. Defined.
#[export] Instance AutoscalingStatus_eq_dec : EqDecision AutoscalingStatus.
Proof. solve_decision. Defined.
#[export] Instance BackupStatus_eq_dec : EqDecision BackupStatus.
Proof. solve_decision. Defined.
#[export] Instance Condition_eq_dec : EqDecision Condition.
Proof. solve_decision. Defined.
#[export] Instance Status_eq_dec : EqDecision KahunaClusterStatus.
Proof. solve_decision. Defined.

(** ** Core Kubernetes objects, as far as the controllers read them *)

Record PodCondition := mkPodCondition { pc_Type : string; pc_Status : string }.
Record Container := mkContainer { c_Name : string; c_Image : string }.

Record Pod := mkPod {
  pod_Name : string;
  pod_UID : string;
  pod_Annotations : gmap string string;
  pod_DeletionTimestamp : option Time;
  pod_Containers : list Container;
  pod_PodIP : string;
  pod_Conditions : list PodCondition;
}.
