(* ===== verification/GoFloat.v ===== *)
(** * float64

    Go's float64 is IEEE 754 binary64 with round-to-nearest-even.  It is modelled with the binary
    floating-point specification of the standard library ([SpecFloat], precision 53, maximal exponent
    1024), which computes with sign, mantissa and exponent in [Z] and needs no axiom.  Added here are
    the conversions and the functions of [math] the autoscaler calls.  A conversion of a value that
    the integer type cannot hold is implementation-dependent in Go; it is the parameter [oob]. *)

From Stdlib Require Import ZArith Lia SpecFloat.
From stdpp Require Import base numbers strings pretty sorting gmap list.
From S2P Require Import Prelude.

Open Scope Z_scope.

Definition float64 : Type := spec_float.

Definition fadd : float64 → float64 → float64 := SFadd 53 1024.
Definition fsub : float64 → float64 → float64 := SFsub 53 1024.
Definition fmul : float64 → float64 → float64 := SFmul 53 1024.
Definition fdiv : float64 → float64 → float64 := SFdiv 53 1024.
Definition fabs : float64 → float64 := SFabs.
Definition fltb : float64 → float64 → bool := SFltb.

Definition fzero : float64 := S754_zero false.

(** float64(z). *)
Definition f_of_Z (z : Z) : float64 := binary_normalize 53 1024 z 0 false.

Definition f_is_nan (x : float64) : bool := match x with S754_nan => true | _ => false end.
Definition f_sign (x : float64) : bool :=
  match x with
  | S754_zero s | S754_infinity s | S754_finite s _ _ => s
  | S754_nan => false
  end.

(** The builtin max: NaN when either argument is, and +0 above -0. *)
Definition fmax (x y : float64) : float64 :=
  if f_is_nan x || f_is_nan y then S754_nan
  else if SFltb x y then y
  else if SFeqb x y then (if f_sign x then y else x)
  else x.

(** A whole number with the sign of zero taken from [s]. *)
Definition f_of_integer (s : bool) (z : Z) : float64 :=
  if z =? 0 then S754_zero s else f_of_Z z.

(** The exact value m * 2^e, rounded up, for a negative exponent. *)
Definition ceil_shift (s : bool) (m : positive) (e : Z) : Z :=
  let d := 2 ^ (- e) in
  if s then - (Z.pos m `div` d) else - ((- Z.pos m) `div` d).

(** math.Ceil *)
Definition f_ceil (x : float64) : float64 :=
  match x with
  | S754_finite s m e => if 0 <=? e then x else f_of_integer s (ceil_shift s m e)
  | _ => x
  end.

(** math.Round: half away from zero. *)
Definition f_round (x : float64) : float64 :=
  match x with
  | S754_finite s m e =>
      if 0 <=? e then x
      else let d := 2 ^ (- e) in
           let r := (2 * Z.pos m + d) `div` (2 * d) in
           f_of_integer s (if s then - r else r)
  | _ => x
  end.

(** The value truncated toward zero, when it is a number. *)
Definition f_trunc (x : float64) : option Z :=
  match x with
  | S754_zero _ => Some 0
  | S754_finite s m e =>
      let a := if 0 <=? e then Z.pos m * 2 ^ e else Z.pos m `div` 2 ^ (- e) in
      Some (if s then - a else a)
  | _ => None
  end.

(** int32(x) and int64(x). *)
Definition f_to_i32 (oob : float64 → Z) (x : float64) : Z :=
  match f_trunc x with
  | Some z => if bool_decide (is_i32 z) then z else i32 (oob x)
  | None => i32 (oob x)
  end.

Definition f_to_i64 (oob : float64 → Z) (x : float64) : Z :=
  match f_trunc x with
  | Some z => if bool_decide (is_i64 z) then z else i64 (oob x)
  | None => i64 (oob x)
  end.

(** Keep [simpl] from unfolding the arithmetic. *)
#[global] Arguments fadd : simpl never.
#[global] Arguments fsub : simpl never.
#[global] Arguments fmul : simpl never.
#[global] Arguments fdiv : simpl never.
#[global] Arguments fltb : simpl never.
#[global] Arguments fmax : simpl never.
#[global] Arguments f_of_Z : simpl never.
#[global] Arguments f_ceil : simpl never.
#[global] Arguments f_round : simpl never.
#[global] Arguments f_to_i32 : simpl never.
#[global] Arguments f_to_i64 : simpl never.

Lemma f_to_i32_range oob x : is_i32 (f_to_i32 oob x).
Proof. unfold f_to_i32. repeat case_match; try apply i32_range. by bsimpl. Qed.

#[export] Hint Resolve f_to_i32_range : operator.

Lemma fltb_irrefl x : fltb x x = false.
Proof.
  unfold fltb, SFltb, SFcompare. destruct x as [[]|[]| |[] m e]; try done;
    rewrite Z.compare_refl; simpl; by rewrite Pos.compare_cont_refl.
Qed.

(** Values used in the tests: 0.1, 2.5, -0.5, 1e9. *)
Example f_tenth : fdiv (f_of_Z 10) (f_of_Z 100) = S754_finite false 7205759403792794 (-56).
Proof. vm_compute. reflexivity. Qed.
Example f_ceil_2_5 : f_ceil (fdiv (f_of_Z 5) (f_of_Z 2)) = f_of_Z 3.
Proof. vm_compute. reflexivity. Qed.
Example f_ceil_neg : f_ceil (fdiv (f_of_Z (-1)) (f_of_Z 2)) = S754_zero true.
Proof. vm_compute. reflexivity. Qed.
Example f_round_2_5 : f_round (fdiv (f_of_Z 5) (f_of_Z 2)) = f_of_Z 3.
Proof. vm_compute. reflexivity. Qed.
Example f_to_i32_ok : f_to_i32 (λ _, 0) (f_of_Z (-7)) = -7.
Proof. vm_compute. reflexivity. Qed.
