(* ===== verification/Kahuna.v ===== *)
(** * The client of the Kahuna server (internal/kahuna/client.go)

    The documents the server answers with, the classification of its refusals, the [Client]
    interface the controllers are written against, and the HTTP implementation of it.  The HTTP
    transport and the JSON decoder are parameters: [Transport] and [Unmarshal] state what the client
    gets from them, and every theorem holds for any instance. *)

From Stdlib Require Import ZArith Lia.
From stdpp Require Import base numbers strings pretty sorting gmap list.
From S2P Require Import Prelude GoStrings Types GoFloat.

Open Scope Z_scope.

(** ** Roster *)

Definition RoleVoter : string := "Voter".
Definition RoleLearner : string := "Learner".
Definition RoleLeaving : string := "Leaving".
Definition RoleNotMember : string := "NotMember".

Record Member := mkMember {
  mem_Endpoint : string;
  mem_NodeID : Z;
  mem_Role : string;
  mem_JoinedVersion : Z;
}.

#[export] Instance Member_eq_dec : EqDecision Member.
Proof. solve_decision. Defined.

Definition IsWitness (m : Member) : bool :=
  (mem_NodeID m =? 0) && has_suffix (mem_Endpoint m) ":0".

Record Membership := mkMembership {
  m_MembershipVersion : Z;
  m_Members : list Member;
  m_LocalRole : string;
  m_Initialized : bool;
}.

#[export] Instance eta_Membership : Eta Membership := λ r,
  mkMembership (m_MembershipVersion r) (m_Members r) (m_LocalRole r) (m_Initialized r).

Definition Voters (m : Membership) : list Member :=
  filter (λ mem, mem_Role mem = RoleVoter) (m_Members m).

Definition HasVoter (m : Membership) (endpoint : string) : bool :=
  existsb (λ mem, String.eqb (mem_Endpoint mem) endpoint && String.eqb (mem_Role mem) RoleVoter)
    (m_Members m).

Definition Contains (m : Membership) (endpoint : string) : bool :=
  existsb (λ mem, String.eqb (mem_Endpoint mem) endpoint) (m_Members m).

Record Health := mkHealth { h_Ready : bool; h_Initialized : bool; h_LocalRole : string }.

(** ** Leaving *)

Definition OutcomeCommitted : string := "Committed".
Definition OutcomeNotAMember : string := "NotAMember".
Definition OutcomeRefusedInsufficientVoters : string := "RefusedInsufficientVoters".

Record LeaveResult := mkLeaveResult {
  lr_Left : bool;
  lr_Outcome : string;
  lr_MembershipVersion : Z;
  lr_Retryable : bool;
  lr_Reason : string;
}.

Definition Removed (l : LeaveResult) : bool :=
  String.eqb (lr_Outcome l) OutcomeCommitted || String.eqb (lr_Outcome l) OutcomeNotAMember.

(** ** Placement *)

Definition PartitionStateActive : string := "Active".

Record ReplicaPlacement := mkReplica { rp_Endpoint : string; rp_Role : string }.

Record PartitionPlacement := mkPartition {
  pp_PartitionID : Z;
  pp_State : string;
  pp_EffectiveReplicationFactor : Z;
  pp_Replicas : list ReplicaPlacement;
}.

Record Placement := mkPlacement {
  pl_ReplicationFactor : Z;
  pl_RebalancerEnabled : bool;
  pl_Initialized : bool;
  pl_Partitions : list PartitionPlacement;
}.

(** The receiver is a pointer that the method dereferences: a nil one panics. *)
Definition FullyReplicated (p : option Placement) : option (list Z) :=
  match p with
  | None => None
  | Some p =>
      Some (pp_PartitionID <$>
              filter (λ part, 0 < pp_PartitionID part ∧ pp_State part = PartitionStateActive ∧
                              length (pp_Replicas part) = 0%nat) (pl_Partitions p))
  end.

(** ** Backups *)

Definition BackupTypeFull : string := "Full".
Definition BackupTypeIncremental : string := "Incremental".

Definition BackupOutcomeNotBackupCoordinator : string := "NotBackupCoordinator".
Definition BackupOutcomeRetryableLeadershipLoss : string := "RetryableLeadershipLoss".
Definition BackupOutcomeCutUnverified : string := "CutUnverified".
Definition BackupOutcomeNotConfigured : string := "NotConfigured".
Definition BackupOutcomeParentMissing : string := "ParentMissing".
Definition BackupOutcomeTopologyChanged : string := "TopologyChanged".
Definition BackupOutcomePartitionCaptureFailed : string := "PartitionCaptureFailed".

Record BackupInfo := mkBackupInfo {
  bi_BackupID : string;
  bi_Type : string;
  bi_ParentBackupID : string;
  bi_ClusterID : string;
  bi_CoordinatorNode : string;
  bi_ActualKind : string;
  bi_SubstitutionReason : string;
}.

Record BackupError := mkBackupError {
  be_StatusCode : Z;
  be_Outcome : string;
  be_Detail : string;
}.

Definition BackupError_Error (e : BackupError) : string :=
  if String.eqb (be_Detail e) "" then
    "backup refused with HTTP " +:+ itoa (be_StatusCode e) +:+ " (" +:+ be_Outcome e +:+ ")"
  else
    "backup refused with HTTP " +:+ itoa (be_StatusCode e) +:+ " (" +:+ be_Outcome e +:+ "): "
      +:+ be_Detail e.

Definition TryAnotherNode (e : BackupError) : bool :=
  bool_decide (be_Outcome e ∈ [BackupOutcomeNotBackupCoordinator;
    BackupOutcomeRetryableLeadershipLoss; BackupOutcomeCutUnverified; BackupOutcomeNotConfigured;
    BackupOutcomeTopologyChanged; BackupOutcomePartitionCaptureFailed]).

Definition ClearsOnRetry (e : BackupError) : bool :=
  bool_decide (be_Outcome e ∈ [BackupOutcomeNotBackupCoordinator;
    BackupOutcomeRetryableLeadershipLoss; BackupOutcomeCutUnverified;
    BackupOutcomeTopologyChanged; BackupOutcomePartitionCaptureFailed]).

(** ** Errors

    The errors that flow through the operator: plain texts (errors.New, fmt.Errorf and the errors of
    the transport), [fmt.Errorf] with a trailing %w, the sentinel and the two typed errors the code
    asks for with errors.Is and errors.As, and the API server's status errors by reason. *)

Inductive StatusReason := ReasonNotFound | ReasonAlreadyExists | ReasonConflict | ReasonNoMatch | ReasonOther.

Inductive error :=
  | ErrorText (msg : string)
  | ErrorWrap (prefix : string) (cause : error)
  | ErrPlacementUnsupported
  | ErrBackup (e : BackupError)
  | ErrUnclaimed (refusals : list string)
  | ErrStatus (reason : StatusReason) (msg : string).

Fixpoint error_Error (e : error) : string :=
  match e with
  | ErrorText msg => msg
  | ErrorWrap prefix cause => prefix +:+ error_Error cause
  | ErrPlacementUnsupported => "the server does not support replica placement"
  | ErrBackup e => BackupError_Error e
  | ErrUnclaimed refusals => "no node took the backup: " +:+ str_join "; " refusals
  | ErrStatus _ msg => msg
  end.

(** errors.Is(err, ErrPlacementUnsupported). *)
Fixpoint is_placement_unsupported (e : error) : bool :=
  match e with
  | ErrPlacementUnsupported => true
  | ErrorWrap _ cause => is_placement_unsupported cause
  | _ => false
  end.

(** errors.As(err, *BackupError) and errors.As(err, *unclaimedBackupError). *)
Fixpoint as_backup_error (e : error) : option BackupError :=
  match e with
  | ErrBackup be => Some be
  | ErrorWrap _ cause => as_backup_error cause
  | _ => None
  end.

Fixpoint as_unclaimed_error (e : error) : option (list string) :=
  match e with
  | ErrUnclaimed refusals => Some refusals
  | ErrorWrap _ cause => as_unclaimed_error cause
  | _ => None
  end.

Inductive result (A : Type) := Ok (a : A) | Err (e : error).
Arguments Ok {A} a.
Arguments Err {A} e.

(** ** Metrics *)

Definition MetricKindCounter : string := "Counter".
Definition MetricKindGauge : string := "Gauge".

Record MetricRow := mkMetricRow {
  mr_Metric : string;
  mr_Tags : string;
  mr_Kind : string;
  mr_Count : Z;
  mr_Total : option float64;
  mr_Last : option float64;
}.

Record Metrics := mkMetrics {
  mt_Rows : list MetricRow;
  mt_MonotonicMs : Z;
}.

Definition CounterTotal (m : Metrics) (metric : string) : float64 * bool :=
  foldl (λ '(sum, found) r,
    if String.eqb (mr_Metric r) metric && String.eqb (mr_Kind r) MetricKindCounter then
      match mr_Total r with Some v => (fadd sum v, true) | None => (sum, found) end
    else (sum, found)) (fzero, false) (mt_Rows m).

Definition GaugeSum (m : Metrics) (metric : string) : float64 * bool :=
  foldl (λ '(sum, found) r,
    if String.eqb (mr_Metric r) metric && String.eqb (mr_Kind r) MetricKindGauge then
      match mr_Last r with Some v => (fadd sum v, true) | None => (sum, found) end
    else (sum, found)) (fzero, false) (mt_Rows m).

(** ** The interface the controllers use *)

Class Client (W : Type) := {
  client_Membership : string → go W (result Membership);
  client_Health : string → go W (result Health);
  client_Leave : string → go W (result LeaveResult);
  client_Placement : string → go W (result Placement);
  client_Metrics : string → go W (result Metrics);
  client_TakeCoordinatedBackup : string → go W (result BackupInfo);
  client_TakeIncrementalBackup : string → string → go W (result BackupInfo);
}.

(** ** The HTTP implementation *)

Definition DefaultReadTimeout : Duration := 5 * Second.
Definition DefaultLeaveTimeout : Duration := 150 * Second.

Definition StatusOK : Z := 200.
Definition StatusNotFound : Z := 404.
Definition StatusServiceUnavailable : Z := 503.

Definition backupOutcomeHeader : string := "X-Kahuna-Backup-Outcome".

(** [rq_deadline] is the bound the call itself attaches to the context, if any. *)
Record request := mkRequest {
  rq_method : string;
  rq_url : string;
  rq_contentType : string;
  rq_body : option string;
  rq_deadline : option Duration;
}.

(** [rs_bodyErr] is an error that ends the body stream after [rs_body]. *)
Record response := mkResponse {
  rs_StatusCode : Z;
  rs_header : string → string;
  rs_body : string;
  rs_bodyErr : option error;
}.

(** http.NewRequestWithContext followed by http.Client.Do. *)
Class Transport (W : Type) := http_do : request → go W (result response).

(** json.Unmarshal into a zero value: the value it leaves behind, and the error, if any. *)
Class Unmarshal (A : Type) := json_unmarshal : string → A * option error.

Record problem := mkProblem { pb_Detail : string; pb_Outcome : string }.

(** json.Marshal(map[string]string{...}) of the one map the client sends. *)
Class MarshalParent := json_marshal_parent : string → string.

(** io.LimitReader: at most [n] bytes, after which the stream looks finished. *)
Fixpoint limit_bytes (n : Z) (s : string) : string :=
  match s with
  | EmptyString => EmptyString
  | String c s' => if n <=? 0 then EmptyString else String c (limit_bytes (n - 1) s')
  end.

Definition read_limit : Z := 1048576.

Definition read_all (r : response) : result string :=
  match rs_bodyErr r with
  | Some e => if read_limit <=? String.length (rs_body r) then Ok (limit_bytes read_limit (rs_body r))
              else Err e
  | None => Ok (limit_bytes read_limit (rs_body r))
  end.

(** bound: a non-positive duration adds no limit. *)
Definition bound (d : Duration) : option Duration := if d <=? 0 then None else Some d.

Record HTTPClient := mkHTTPClient { hc_ReadTimeout : Duration; hc_LeaveTimeout : Duration }.

Definition NewHTTPClient (readTimeout leaveTimeout : Duration) : HTTPClient :=
  mkHTTPClient readTimeout leaveTimeout.

Section http.
Context {W : Type} `{!Transport W}.
Context `{!Unmarshal Membership, !Unmarshal Health, !Unmarshal Placement, !Unmarshal Metrics}.
Context `{!Unmarshal LeaveResult, !Unmarshal BackupInfo, !Unmarshal problem, !MarshalParent}.

Definition http_get {A} `{!Unmarshal A} (url : string) (deadline : option Duration)
    : go W (result (Z * A)) :=
  r ← http_do (mkRequest "GET" url "" None deadline);
  mret match r with
  | Err e => Err e
  | Ok resp =>
      match read_all resp with
      | Err e => Err e
      | Ok body =>
          match json_unmarshal body with
          | (out, None) => Ok (rs_StatusCode resp, out)
          | (out, Some e) =>
              if negb (rs_StatusCode resp =? StatusOK) then Ok (rs_StatusCode resp, out)
              else Err (ErrorWrap ("decoding " +:+ url +:+ " (status " +:+ itoa (rs_StatusCode resp)
                                     +:+ "): ") e)
          end
      end
  end.

Definition http_Membership (c : HTTPClient) (baseURL : string) : go W (result Membership) :=
  r ← http_get (A := Membership) (baseURL +:+ "/v1/cluster/membership") (bound (hc_ReadTimeout c));
  mret match r with
  | Err e => Err e
  | Ok (code, m) =>
      if negb (code =? StatusOK) then
        Err (ErrorText ("membership query returned HTTP " +:+ itoa code))
      else Ok (m <| m_Members := filter (λ mem, IsWitness mem = false) (m_Members m) |>)
  end.

Definition http_Health (c : HTTPClient) (baseURL : string) : go W (result Health) :=
  r ← http_get (A := Health) (baseURL +:+ "/v1/cluster/health") (bound (hc_ReadTimeout c));
  mret match r with
  | Err e => Err e
  | Ok (code, h) =>
      if negb (code =? StatusOK) && negb (code =? StatusServiceUnavailable) then
        Err (ErrorText ("health query returned HTTP " +:+ itoa code))
      else Ok h
  end.

Definition http_Placement (c : HTTPClient) (baseURL : string) : go W (result Placement) :=
  r ← http_get (A := Placement) (baseURL +:+ "/v1/cluster/placement") (bound (hc_ReadTimeout c));
  mret match r with
  | Err e => Err e
  | Ok (code, p) =>
      if code =? StatusOK then Ok p
      else if code =? StatusNotFound then Err ErrPlacementUnsupported
      else Err (ErrorText ("placement query returned HTTP " +:+ itoa code))
  end.

Definition http_Metrics (c : HTTPClient) (baseURL : string) : go W (result Metrics) :=
  r ← http_get (A := Metrics) (baseURL +:+ "/v1/dashboard/metrics") (bound (hc_ReadTimeout c));
  mret match r with
  | Err e => Err e
  | Ok (code, m) =>
      if negb (code =? StatusOK) then
        Err (ErrorText ("metrics query returned HTTP " +:+ itoa code))
      else Ok m
  end.

Definition http_postBackup (url : string) (body : option string) : go W (result BackupInfo) :=
  r ← http_do (mkRequest "POST" url (match body with Some _ => "application/json" | None => "" end)
                 body None);
  mret match r with
  | Err e => Err e
  | Ok resp =>
      match read_all resp with
      | Err e => Err e
      | Ok raw =>
          if negb (rs_StatusCode resp =? StatusOK) then
            let pb := (json_unmarshal (A := problem) raw).1 in
            let h := rs_header resp backupOutcomeHeader in
            let outcome := if String.eqb h "" then pb_Outcome pb else h in
            Err (ErrBackup (mkBackupError (rs_StatusCode resp) outcome (pb_Detail pb)))
          else
            match json_unmarshal (A := BackupInfo) raw with
            | (_, Some e) => Err (ErrorWrap "decoding backup response: " e)
            | (info, None) =>
                if String.eqb (bi_BackupID info) "" then
                  Err (ErrorText "backup response carries no backup id")
                else Ok info
            end
      end
  end.

Definition http_TakeCoordinatedBackup (c : HTTPClient) (baseURL : string) : go W (result BackupInfo) :=
  http_postBackup (baseURL +:+ "/v1/backups/coordinated") None.

Definition http_TakeIncrementalBackup (c : HTTPClient) (baseURL parent : string)
    : go W (result BackupInfo) :=
  http_postBackup (baseURL +:+ "/v1/backups/incremental") (Some (json_marshal_parent parent)).

Definition http_Leave (c : HTTPClient) (baseURL : string) : go W (result LeaveResult) :=
  r ← http_do (mkRequest "POST" (baseURL +:+ "/v1/cluster/leave") "" None (bound (hc_LeaveTimeout c)));
  mret match r with
  | Err e => Err e
  | Ok resp =>
      match read_all resp with
      | Err e => Err e
      | Ok body =>
          match json_unmarshal (A := LeaveResult) body with
          | (_, Some e) =>
              Err (ErrorWrap ("decoding leave response (status " +:+ itoa (rs_StatusCode resp)
                                +:+ "): ") e)
          | (out, None) =>
              if String.eqb (lr_Outcome out) "" then
                Err (ErrorText ("leave returned HTTP " +:+ itoa (rs_StatusCode resp)
                                  +:+ " with no outcome"))
              else Ok out
          end
      end
  end.

(** The HTTP client implements the interface. *)
Definition HTTPClient_Client (c : HTTPClient) : Client W := {|
  client_Membership := http_Membership c;
  client_Health := http_Health c;
  client_Leave := http_Leave c;
  client_Placement := http_Placement c;
  client_Metrics := http_Metrics c;
  client_TakeCoordinatedBackup := http_TakeCoordinatedBackup c;
  client_TakeIncrementalBackup := http_TakeIncrementalBackup c;
|}.

(** ** Properties *)

(** A roster read through the HTTP client never contains a phantom witness, and contains every
    other entry the server listed, in order; it is returned only for a 200 answer that decodes. *)
Theorem http_Membership_no_witness c url w m w' :
  http_Membership c url w = (Some (Ok m), w') →
  ∃ doc, Forall (λ mem, IsWitness mem = false) (m_Members m) ∧
         m_Members m = filter (λ mem, IsWitness mem = false) (m_Members doc) ∧
         http_get (A := Membership) (url +:+ "/v1/cluster/membership") (bound (hc_ReadTimeout c)) w
           = (Some (Ok (StatusOK, doc)), w').
Proof.
  unfold http_Membership. intros (r & w1 & Hget & Hr)%go_bind_Some.
  destruct r as [[code doc]|e]; [|done]. revert Hr. destruct (Z.eqb_spec code StatusOK) as [->|];
    simpl; intros [= <- <-]. exists doc. split_and!; [|done|done].
  simpl. apply Forall_forall. intros mem. by intros [? _]%list_elem_of_filter.
Qed.

(** [Placement] answers "unsupported" only for a 404: an unreadable answer is never taken for a
    server without the feature (provided the transport itself does not produce that sentinel). *)
Theorem http_Placement_unsupported c url w e w' :
  (∀ rq w r w', http_do rq w = (Some (Err r), w') → is_placement_unsupported r = false) →
  (∀ rq w resp w' r, http_do rq w = (Some (Ok resp), w') → rs_bodyErr resp = Some r →
     is_placement_unsupported r = false) →
  (∀ s r, (json_unmarshal (A := Placement) s).2 = Some r → is_placement_unsupported r = false) →
  http_Placement c url w = (Some (Err e), w') →
  is_placement_unsupported e = true →
  ∃ p, http_get (A := Placement) (url +:+ "/v1/cluster/placement") (bound (hc_ReadTimeout c)) w
         = (Some (Ok (StatusNotFound, p)), w').
Proof.
  intros Hdo Hbody Hjson. unfold http_Placement.
  intros (r & w1 & Hget & Hr)%go_bind_Some Hun. destruct r as [[code p]|e'].
  - revert Hr. destruct (code =? StatusOK); [done|].
    destruct (Z.eqb_spec code StatusNotFound) as [->|]; intros [= <- <-]; [|done]. by exists p.
  - injection Hr as <- <-. exfalso. revert Hget. unfold http_get.
    intros (r & w2 & Hd & Hr)%go_bind_Some. destruct r as [resp|e].
    + unfold read_all in Hr. destruct (rs_bodyErr resp) as [be|] eqn:Hb; [destruct (_ <=? _)|].
      all: simpl in Hr; try (destruct (json_unmarshal _) as [out [je|]] eqn:Hj; simpl in Hr;
             [destruct (negb _); [done|]; injection Hr as <- <-; simpl in Hun;
              pose proof (Hjson _ je ltac:(by rewrite Hj)); congruence|done]).
      injection Hr as <- <-. pose proof (Hbody _ _ _ _ _ Hd Hb). congruence.
    + injection Hr as <- <-. pose proof (Hdo _ _ _ _ Hd). congruence.
Qed.
End http.

(** ** Lemmas on the roster *)

Lemma HasVoter_elem m e :
  HasVoter m e = true ↔
  ∃ mem, mem ∈ m_Members m ∧ mem_Endpoint mem = e ∧ mem_Role mem = RoleVoter.
Proof.
  unfold HasVoter. rewrite existsb_elem_of.
  setoid_rewrite andb_true_iff. by setoid_rewrite String.eqb_eq.
Qed.

Lemma Contains_elem m e : Contains m e = true ↔ e ∈ mem_Endpoint <$> m_Members m.
Proof.
  unfold Contains. rewrite existsb_elem_of, list_elem_of_fmap. setoid_rewrite String.eqb_eq.
  naive_solver.
Qed.

(** ** A client with fixed answers

    The concrete instance the witnesses use: no state, one answer per URL. *)

Definition fixedClient (membership : string → result Membership) (leave : string → result LeaveResult)
    (placement : string → result Placement) (metrics : string → result Metrics)
    (backup : string → result BackupInfo) : Client unit := {|
  client_Membership url := mret (membership url);
  client_Health url := mret (Err (ErrorText "connection refused"));
  client_Leave url := mret (leave url);
  client_Placement url := mret (placement url);
  client_Metrics url := mret (metrics url);
  client_TakeCoordinatedBackup url := mret (backup url);
  client_TakeIncrementalBackup url parent := mret (backup url);
|}.

Definition refused {A} (url : string) : result A := Err (ErrorText "connection refused").

Lemma http_Membership_no_witness_witness :
  let doc := mkMembership 4 [mkMember "kahuna-0:8082" 1 RoleVoter 1; mkMember "ghost:0" 0 RoleVoter 2] RoleVoter true in
  let _ : Transport unit := λ _, mret (Ok (mkResponse StatusOK (λ _, "") "{}" None)) in
  let _ : Unmarshal Membership := λ _, (doc, None) in
  ∃ m, http_Membership (NewHTTPClient Second Minute) "http://10.0.0.1" tt = (Some (Ok m), tt) ∧
       length (m_Members m) = 1%nat ∧ Forall (λ mem, IsWitness mem = false) (m_Members m).
Proof.
  intros doc T U. set (m := mkMembership 4 [mkMember "kahuna-0:8082" 1 RoleVoter 1] RoleVoter true).
  assert (http_Membership (NewHTTPClient Second Minute) "http://10.0.0.1" tt = (Some (Ok m), tt)) as E
    by (vm_compute; reflexivity).
  exists m. split; [exact E|]. split; [reflexivity|].
  destruct (http_Membership_no_witness (NewHTTPClient Second Minute) "http://10.0.0.1" tt m tt E)
    as (d & Hall & _). exact Hall.
Defined.
