(* ===== verification/Placement.v ===== *)
(** * Replica placement (internal/controller/autoscaler.go)

    Whether the server has finished acting on the last membership change, and how far the cluster may
    grow under the replication cap.  [placementSettled] is proved equivalent to "every replica of an
    active, placed partition is a Voter on a current member", its per-member counts are proved to be
    counts, and [placementConverged] without a timeout is proved to give every node its share. *)

From Stdlib Require Import ZArith Lia.
From stdpp Require Import base numbers strings pretty sorting gmap list.
From S2P Require Import Prelude GoStrings Types Naming Kahuna.

Open Scope Z_scope.

Definition maxReplicationFactor : Z := 3.
Definition replicaRoleVoter : string := "Voter".

(** ** growthCeiling *)

Definition growthCeiling (p : option Placement) : option (Z * string) :=
  full ← FullyReplicated p;
  mret (if (0 <? length full)%nat then
          (maxReplicationFactor,
           "partitions " +:+ fmt_ints full +:+ " are fully replicated, so growing past "
             +:+ itoa maxReplicationFactor +:+ " nodes would exceed " +:+ itoa maxReplicationFactor
             +:+ " copies; Kahuna 1.12.3 or later converts them shortly after start; an older server needs a cluster "
             +:+ "created with more nodes than its replication factor")
        else (0, "")).

(** ** placementSettled *)

(** What the loop over the replicas accumulates. *)
Record settle_acc := mkSettle {
  sa_hosted : gmap string Z;
  sa_total : Z;
  sa_inFlight : list Z;
  sa_stranded : list Z;
}.

(** The body of the inner loop. *)
Definition settle_replica (members : gset string) (id : Z) (acc : settle_acc)
    (rep : ReplicaPlacement) : settle_acc :=
  if negb (String.eqb (rp_Role rep) replicaRoleVoter) then
    mkSettle (sa_hosted acc) (sa_total acc) (sa_inFlight acc ++ [id]) (sa_stranded acc)
  else if negb (bool_decide (rp_Endpoint rep ∈ members)) then
    mkSettle (sa_hosted acc) (sa_total acc) (sa_inFlight acc) (sa_stranded acc ++ [id])
  else
    mkSettle (<[rp_Endpoint rep := default 0 (sa_hosted acc !! rp_Endpoint rep) + 1]> (sa_hosted acc))
      (sa_total acc + 1) (sa_inFlight acc) (sa_stranded acc).

(** The body of the outer loop. *)
Definition settle_partition (members : gset string) (acc : settle_acc)
    (part : PartitionPlacement) : settle_acc :=
  if negb (String.eqb (pp_State part) PartitionStateActive) || (length (pp_Replicas part) =? 0)%nat
  then acc
  else foldl (settle_replica members (pp_PartitionID part)) acc (pp_Replicas part).

Definition memberSet (cluster : KahunaCluster) (current : Z) : gset string :=
  list_to_set (expectedEndpoints cluster current).

Definition placementSettled (cluster : KahunaCluster) (p : option Placement) (current : Z)
    : gmap string Z * Z * string :=
  match p with
  | None => (∅, 0, "")
  | Some p =>
      let acc := foldl (settle_partition (memberSet cluster current)) (mkSettle ∅ 0 [] [])
                   (pl_Partitions p) in
      if (0 <? length (sa_inFlight acc))%nat then
        (sa_hosted acc, sa_total acc,
         "replica moves in flight on partitions " +:+ fmt_ints (sa_inFlight acc))
      else if (0 <? length (sa_stranded acc))%nat then
        (sa_hosted acc, sa_total acc,
         "partitions " +:+ fmt_ints (sa_stranded acc) +:+ " still have replicas on nodes that left")
      else (sa_hosted acc, sa_total acc, "")
  end.

(** ** placementConverged *)

(** The loop over the ordinals: the first node below its share. *)
Fixpoint first_underfilled (cluster : KahunaCluster) (hosted : gmap string Z) (minShare : Z)
    (ordinals : list Z) : option (Z * Z) :=
  match ordinals with
  | [] => None
  | i :: rest =>
      let n := default 0 (hosted !! raftEndpoint cluster i) in
      if n <? minShare then Some (i, n) else first_underfilled cluster hosted minShare rest
  end.

(** [None] is the panic of an integer division by zero. *)
Definition placementConverged (cluster : KahunaCluster) (p : option Placement) (current : Z)
    (now : Time) (settleBy : option Time) : option (bool * string) :=
  let '(hosted, total, reason) := placementSettled cluster p current in
  if negb (String.eqb reason "") then Some (false, reason)
  else if current =? 0 then None
  else
    let share := Z.quot total current in
    if (share =? 0) ||
       match settleBy with Some t => negb (time_before now t) | None => false end
    then Some (true, "")
    else
      let minShare := Z.max 1 (Z.quot share 2) in
      match first_underfilled cluster hosted minShare (go_range current) with
      | Some (i, n) =>
          Some (false, podName cluster i +:+ " holds " +:+ itoa n +:+ " of the " +:+ itoa share
                         +:+ " data replicas it should carry")
      | None => Some (true, "")
      end.

(** ** Specification *)

(** The replicas the server still has to account for: those of the active, placed partitions. *)
Definition activeReplicas (p : Placement) : list ReplicaPlacement :=
  pl_Partitions p ≫= λ part,
    if String.eqb (pp_State part) PartitionStateActive then pp_Replicas part else [].

(** A replica that has come to rest on a current member. *)
Definition atRest (cluster : KahunaCluster) (current : Z) (rep : ReplicaPlacement) : Prop :=
  rp_Role rep = replicaRoleVoter ∧ rp_Endpoint rep ∈ expectedEndpoints cluster current.

#[export] Instance atRest_dec cluster current rep : Decision (atRest cluster current rep).
Proof. unfold atRest. apply _. Defined.

Definition settled (cluster : KahunaCluster) (p : option Placement) (current : Z) : Prop :=
  match p with
  | None => True
  | Some p => Forall (atRest cluster current) (activeReplicas p)
  end.

(** How many resting replicas a node holds. *)
Definition restingOn (cluster : KahunaCluster) (p : Placement) (current : Z) (e : string) : nat :=
  length (filter (λ rep, atRest cluster current rep ∧ rp_Endpoint rep = e) (activeReplicas p)).

(** ** Lemmas *)

Section settle.
Context (ms : gset string).

Definition rest (rep : ReplicaPlacement) : Prop :=
  rp_Role rep = replicaRoleVoter ∧ rp_Endpoint rep ∈ ms.

#[local] Instance rest_dec rep : Decision (rest rep).
Proof. unfold rest. apply _. Defined.

Definition quiet (acc : settle_acc) : Prop := sa_inFlight acc = [] ∧ sa_stranded acc = [].

Definition hostedOn (acc : settle_acc) (e : string) : Z := default 0 (sa_hosted acc !! e).

Definition restCount (reps : list ReplicaPlacement) (e : string) : nat :=
  length (filter (λ rep, rest rep ∧ rp_Endpoint rep = e) reps).

Lemma settle_replica_cases id acc rep :
  (rest rep ∧ sa_inFlight (settle_replica ms id acc rep) = sa_inFlight acc ∧
   sa_stranded (settle_replica ms id acc rep) = sa_stranded acc ∧
   sa_total (settle_replica ms id acc rep) = sa_total acc + 1 ∧
   sa_hosted (settle_replica ms id acc rep) =
     <[rp_Endpoint rep := hostedOn acc (rp_Endpoint rep) + 1]> (sa_hosted acc)) ∨
  (¬ rest rep ∧ ¬ quiet (settle_replica ms id acc rep) ∧
   sa_total (settle_replica ms id acc rep) = sa_total acc ∧
   sa_hosted (settle_replica ms id acc rep) = sa_hosted acc).
Proof.
  unfold settle_replica, rest, quiet. destruct (String.eqb_spec (rp_Role rep) replicaRoleVoter) as [->|];
    simpl; [case_bool_decide; simpl|]; [left; done|right..];
    (split_and!; [naive_solver| |done..]); intros [H1 H2]; by destruct (sa_inFlight acc), (sa_stranded acc).
Qed.

Lemma settle_replica_quiet id acc rep :
  quiet (settle_replica ms id acc rep) ↔ quiet acc ∧ rest rep.
Proof.
  destruct (settle_replica_cases id acc rep) as [(Hr & H1 & H2 & _)|(Hr & Hq & _)]; [|naive_solver].
  unfold quiet. rewrite H1, H2. naive_solver.
Qed.

Lemma settle_replica_hosted id acc rep e :
  hostedOn (settle_replica ms id acc rep) e = hostedOn acc e + restCount [rep] e.
Proof.
  unfold restCount. rewrite filter_cons, filter_nil. unfold hostedOn.
  destruct (settle_replica_cases id acc rep) as [(Hr & _ & _ & _ & ->)|(Hr & _ & _ & ->)].
  - destruct (decide (rp_Endpoint rep = e)) as [<-|Hne].
    + rewrite decide_True by done. rewrite lookup_insert_eq. simpl. unfold hostedOn. lia.
    + rewrite decide_False by naive_solver. rewrite lookup_insert_ne by done. simpl. lia.
  - rewrite decide_False by naive_solver. simpl. lia.
Qed.

Lemma settle_replica_total id acc rep :
  sa_total (settle_replica ms id acc rep) = sa_total acc + length (filter rest [rep]).
Proof.
  rewrite filter_cons, filter_nil.
  destruct (settle_replica_cases id acc rep) as [(Hr & _ & _ & -> & _)|(Hr & _ & -> & _)];
    by rewrite ?decide_True, ?decide_False by done; simpl; lia.
Qed.

Lemma restCount_app l k e : restCount (l ++ k) e = (restCount l e + restCount k e)%nat.
Proof. unfold restCount. by rewrite filter_app, length_app. Qed.

(** One partition's replicas, then all partitions'. *)
Lemma settle_replicas_spec id reps acc :
  (quiet (foldl (settle_replica ms id) acc reps) ↔ quiet acc ∧ Forall rest reps) ∧
  (∀ e, hostedOn (foldl (settle_replica ms id) acc reps) e = hostedOn acc e + restCount reps e) ∧
  sa_total (foldl (settle_replica ms id) acc reps) = sa_total acc + length (filter rest reps).
Proof.
  revert acc. induction reps as [|rep reps IH]; intros acc; simpl.
  { split_and!; [rewrite Forall_nil; tauto|intros e; unfold restCount; simpl; lia|simpl; lia]. }
  destruct (IH (settle_replica ms id acc rep)) as (IH1 & IH2 & IH3). split_and!.
  - rewrite IH1, settle_replica_quiet, Forall_cons. tauto.
  - intros e. rewrite IH2, settle_replica_hosted. pose proof (restCount_app [rep] reps e). simpl in *. lia.
  - rewrite IH3, settle_replica_total, ?filter_cons, ?filter_nil.
    case_decide; simpl; lia.
Qed.

Definition activeOf (part : PartitionPlacement) : list ReplicaPlacement :=
  if String.eqb (pp_State part) PartitionStateActive then pp_Replicas part else [].

Lemma settle_partition_active acc part :
  settle_partition ms acc part =
  foldl (settle_replica ms (pp_PartitionID part)) acc (activeOf part).
Proof.
  unfold settle_partition, activeOf. destruct (String.eqb _ _); simpl; [|done].
  by destruct (pp_Replicas part).
Qed.

Lemma settle_partitions_spec parts acc :
  (quiet (foldl (settle_partition ms) acc parts) ↔ quiet acc ∧ Forall rest (parts ≫= activeOf)) ∧
  (∀ e, hostedOn (foldl (settle_partition ms) acc parts) e =
        hostedOn acc e + restCount (parts ≫= activeOf) e) ∧
  sa_total (foldl (settle_partition ms) acc parts) =
    sa_total acc + length (filter rest (parts ≫= activeOf)).
Proof.
  revert acc. induction parts as [|part parts IH]; intros acc; cbn [foldl].
  { split_and!; [rewrite Forall_nil; tauto|intros e; unfold restCount; simpl; lia|simpl; lia]. }
  rewrite bind_cons. destruct (IH (settle_partition ms acc part)) as (IH1 & IH2 & IH3).
  rewrite settle_partition_active in *.
  destruct (settle_replicas_spec (pp_PartitionID part) (activeOf part) acc) as (H1 & H2 & H3).
  split_and!.
  - rewrite IH1, H1, Forall_app. tauto.
  - intros e. rewrite IH2, H2, restCount_app. lia.
  - rewrite IH3, H3, filter_app, length_app. lia.
Qed.
End settle.

Lemma elem_of_memberSet cluster n e : e ∈ memberSet cluster n ↔ e ∈ expectedEndpoints cluster n.
Proof. unfold memberSet. by rewrite elem_of_list_to_set. Qed.

Lemma rest_atRest cluster n rep : rest (memberSet cluster n) rep ↔ atRest cluster n rep.
Proof. unfold rest, atRest. by rewrite elem_of_memberSet. Qed.

Lemma activeReplicas_bind p : activeReplicas p = pl_Partitions p ≫= activeOf.
Proof. done. Qed.

(** The three results of [placementSettled] on a placement. *)
Lemma placementSettled_spec cluster p n :
  let '(hosted, total, reason) := placementSettled cluster (Some p) n in
  (reason = "" ↔ settled cluster (Some p) n) ∧
  (∀ e, default 0 (hosted !! e) = restingOn cluster p n e) ∧
  total = length (filter (atRest cluster n) (activeReplicas p)).
Proof.
  unfold placementSettled.
  destruct (settle_partitions_spec (memberSet cluster n) (pl_Partitions p) (mkSettle ∅ 0 [] []))
    as (H1 & H2 & H3).
  set (acc := foldl _ _ _) in *. rewrite <- activeReplicas_bind in *.
  assert (Hq : quiet acc ↔ settled cluster (Some p) n).
  { rewrite H1. simpl. rewrite !Forall_forall. setoid_rewrite rest_atRest. unfold quiet. naive_solver. }
  assert (Hh : ∀ e, default 0 (sa_hosted acc !! e) = restingOn cluster p n e).
  { intros e. etrans; [exact (H2 e)|]. unfold hostedOn, restingOn, restCount. simpl.
    rewrite lookup_empty. simpl. rewrite Z.add_0_l. do 2 f_equal. apply list_filter_iff.
    intros rep. by rewrite rest_atRest. }
  assert (Ht : sa_total acc = length (filter (atRest cluster n) (activeReplicas p))).
  { rewrite H3. simpl sa_total. rewrite Z.add_0_l. do 2 f_equal. apply list_filter_iff.
    intros rep. apply rest_atRest. }
  unfold quiet in Hq. destruct (sa_inFlight acc) as [|x l]; simpl.
  - destruct (sa_stranded acc) as [|y k]; simpl; split_and!; try done.
    + rewrite <- Hq. tauto.
    + rewrite <- Hq. split; [done|]. intros [_ ?]. done.
  - split_and!; try done. rewrite <- Hq. split; [done|]. intros [? _]. done.
Qed.

Lemma first_underfilled_None cluster hosted minShare l :
  first_underfilled cluster hosted minShare l = None ↔
  ∀ i, i ∈ l → minShare ≤ default 0 (hosted !! raftEndpoint cluster i).
Proof.
  induction l as [|i l IH]; simpl; [set_solver|].
  destruct (Z.ltb_spec (default 0 (hosted !! raftEndpoint cluster i)) minShare) as [Hlt|Hge].
  - split; [done|]. intros H. specialize (H i ltac:(left)). lia.
  - rewrite IH. split; [|set_solver]. intros H j [->|?]%elem_of_cons; auto.
Qed.

Lemma settled_None_reason cluster n : (placementSettled cluster None n).2 = "".
Proof. done. Qed.

Lemma placementSettled_settled cluster p n :
  (placementSettled cluster p n).2 = "" ↔ settled cluster p n.
Proof.
  destruct p as [p|]; [|done]. pose proof (placementSettled_spec cluster p n) as H.
  destruct (placementSettled cluster (Some p) n) as [[h t] r]. by destruct H.
Qed.

(** ** Properties *)

(** C24: the reason [placementSettled] reports is empty exactly when every replica of every active
    partition is a Voter on one of the first [n] nodes; the [hosted] count of an endpoint is the
    number of replicas at rest on it, and [total] is the number of replicas at rest. *)
Theorem placementSettled_correct cluster p n :
  let '(hosted, total, reason) := placementSettled cluster p n in
  (reason = "" ↔ settled cluster p n) ∧
  (∀ e, default 0 (hosted !! e) = match p with Some q => restingOn cluster q n e | None => 0%nat end) ∧
  total = match p with Some q => length (filter (atRest cluster n) (activeReplicas q)) | None => 0%nat end.
Proof.
  destruct p as [p|]; [apply placementSettled_spec|]. simpl.
  split_and!; [done| |done]. intros e. by rewrite lookup_empty.
Qed.

(** When [placementConverged] lets the autoscaler go on and no settle clock ran out, the placement
    has settled, and either the placed replicas are fewer than the nodes or every node carries at
    least half of the even share, and never nothing. *)
Theorem placementConverged_share cluster p n now msg :
  0 < n →
  placementConverged cluster (Some p) n now None = Some (true, msg) →
  settled cluster (Some p) n ∧
  let share := Z.of_nat (length (activeReplicas p)) `quot` n in
  share = 0 ∨
  ∀ i, 0 ≤ i < n → Z.max 1 (share `quot` 2) ≤ restingOn cluster p n (raftEndpoint cluster i).
Proof.
  intros Hn. unfold placementConverged. pose proof (placementSettled_spec cluster p n) as Hs.
  destruct (placementSettled cluster (Some p) n) as [[hosted total] reason].
  destruct Hs as (Hr & Hh & Ht).
  destruct (String.eqb_spec reason "") as [He|]; simpl; [|done].
  assert ((n =? 0) = false) as -> by (apply Z.eqb_neq; lia).
  assert (settled cluster (Some p) n) as Hset by (by apply Hr). split; [done|].
  assert (length (filter (atRest cluster n) (activeReplicas p)) = length (activeReplicas p)) as Hl.
  { f_equal. by apply list_filter_all. }
  rewrite Ht, Hl in *. rewrite orb_false_r in *.
  destruct (_ =? 0) eqn:E0; [left; by bsimpl|]. right.
  destruct (first_underfilled _ _ _ _) as [[??]|] eqn:Ef; [done|].
  intros i Hi. rewrite first_underfilled_None in Ef. rewrite <- Hh. apply Ef.
  by rewrite elem_of_go_range.
Qed.

(** The growth ceiling is the replication cap exactly when some active data partition has no
    replica set, it is "no ceiling" otherwise, and it cannot be computed without a placement. *)
Theorem growthCeiling_spec p :
  match growthCeiling p with
  | None => p = None
  | Some (c, _) => ∃ q, p = Some q ∧
      (c = maxReplicationFactor ∧
         (∃ part, part ∈ pl_Partitions q ∧ 0 < pp_PartitionID part ∧
                  pp_State part = PartitionStateActive ∧ pp_Replicas part = []) ∨
       c = 0 ∧ ∀ part, part ∈ pl_Partitions q → 0 < pp_PartitionID part →
                  pp_State part = PartitionStateActive → pp_Replicas part ≠ [])
  end.
Proof.
  destruct p as [q|]; [|done]. unfold growthCeiling, FullyReplicated. simpl.
  rewrite length_fmap. destruct (filter _ _) as [|part l] eqn:E; simpl.
  - exists q. split; [done|]. right. split; [done|]. intros part Hin Hid Hst Hr.
    assert (part ∈ filter (λ part, 0 < pp_PartitionID part ∧ pp_State part = PartitionStateActive ∧
              length (pp_Replicas part) = 0%nat) (pl_Partitions q)) as Hf.
    { apply list_elem_of_filter. by rewrite Hr. }
    rewrite E in Hf. by apply elem_of_nil in Hf.
  - assert (part ∈ part :: l) as Hf by left. rewrite <- E in Hf.
    apply list_elem_of_filter in Hf as [(? & ? & Hl) Hin].
    exists q. split; [done|]. left. split; [done|]. exists part. split_and!; try done.
    by apply length_zero_iff_nil in Hl.
Qed.

(** Two partitions, each with a Voter on both nodes. *)
Definition demoPlacement : Placement :=
  let reps := (λ i, mkReplica (raftEndpoint (demoCluster 2) i) RoleVoter) <$> go_range 2 in
  mkPlacement 2 true true [mkPartition 1 PartitionStateActive 2 reps; mkPartition 2 PartitionStateActive 2 reps].

Lemma placementConverged_share_witness :
  settled (demoCluster 2) (Some demoPlacement) 2 ∧
  ∃ msg, placementConverged (demoCluster 2) (Some demoPlacement) 2 0 None = Some (true, msg).
Proof.
  split.
  - apply (placementConverged_share (demoCluster 2) demoPlacement 2 0 ""); [lia|vm_compute; reflexivity].
  - eexists. vm_compute. reflexivity.
Defined.
