(* ===== verification/Roster.v ===== *)
(** * Pods and the committed roster (internal/controller/membership.go)

    Which pod answers for which ordinal, reading the roster and the placement from the pods, joining
    the roster to the pods for status, and asking a node to leave.  The client of the Kahuna server
    is the interface [Client]; nothing is assumed about its answers. *)

From Stdlib Require Import ZArith Lia Ascii.
From stdpp Require Import base numbers strings pretty sorting gmap list.
From S2P Require Import Prelude GoStrings Types Naming Kahuna.

Open Scope Z_scope.

(** ** Pods *)

Definition podBaseURL (cluster : KahunaCluster) (pod : Pod) : string :=
  "http://" +:+ pod_PodIP pod +:+ ":" +:+ itoa (port_HTTP (ports cluster)).

Definition ordinalOf (pod : string) : Z :=
  match last_index_byte pod "-" with
  | None => -1
  | Some idx =>
      match atoi (str_drop (S idx) pod) with
      | None => -1
      | Some n => if n <? 0 then -1 else i32 n
      end
  end.

Definition PodReady : string := "Ready".
Definition ConditionTrue : string := "True".

(** The first condition of type Ready decides. *)
Fixpoint readyCondition (conds : list PodCondition) : bool :=
  match conds with
  | [] => false
  | c :: rest => if String.eqb (pc_Type c) PodReady then String.eqb (pc_Status c) ConditionTrue
                 else readyCondition rest
  end.

Definition podIsReady (pod : Pod) : bool := readyCondition (pod_Conditions pod).

(** ** Reading the roster *)

Definition membershipEligible (p : Pod) : bool :=
  negb (String.eqb (pod_PodIP p) "") && is_nil (pod_DeletionTimestamp p).

Definition candidateCmp (a b : Pod) : Z :=
  let ra := podIsReady a in
  let rb := podIsReady b in
  if negb (Bool.eqb ra rb) then (if ra then -1 else 1)
  else i32 (ordinalOf (pod_Name a) - ordinalOf (pod_Name b)).

Definition membershipCandidates (pods : list Pod) : list Pod :=
  stable_sort candidateCmp (filter (λ p, membershipEligible p = true) pods).

Section effects.
Context {W : Type} `{!Client W}.

Fixpoint askMembership (cluster : KahunaCluster) (lastErr : option error) (candidates : list Pod)
    : go W (result Membership) :=
  match candidates with
  | [] => mret (Err (default (ErrorText "no pod was reachable") lastErr))
  | p :: rest =>
      r ← client_Membership (podBaseURL cluster p);
      match r with
      | Err e => askMembership cluster (Some e) rest
      | Ok m => mret (Ok m)
      end
  end.

Definition readMembership (cluster : KahunaCluster) (pods : list Pod) : go W (result Membership) :=
  askMembership cluster None (membershipCandidates pods).

(** ** Reading the placement (readPlacement of kahunacluster_controller.go) *)

Fixpoint askPlacement (cluster : KahunaCluster) (lastErr : option error) (pods : list Pod)
    : go W (result Placement) :=
  match pods with
  | [] => mret (Err (default (ErrorText "no ready pod to read placement from") lastErr))
  | pod :: rest =>
      if String.eqb (pod_PodIP pod) "" || negb (is_nil (pod_DeletionTimestamp pod)) ||
         negb (podIsReady pod)
      then askPlacement cluster lastErr rest
      else
        r ← client_Placement (podBaseURL cluster pod);
        match r with
        | Err e => if is_placement_unsupported e then mret (Err e)
                   else askPlacement cluster (Some e) rest
        | Ok p => mret (Ok p)
        end
  end.

Definition readPlacement (cluster : KahunaCluster) (pods : list Pod) : go W (result Placement) :=
  askPlacement cluster None pods.

(** ** Leaving *)

Definition decommissionTarget (cluster : KahunaCluster) (pods : list Pod) (ordinal : Z) : option Pod :=
  snd <$> list_find (λ p, pod_Name p = podName cluster ordinal ∧ pod_PodIP p ≠ "") pods.

Definition decommission (cluster : KahunaCluster) (pods : list Pod) (ordinal : Z)
    : go W (bool * string) :=
  let name := podName cluster ordinal in
  match decommissionTarget cluster pods ordinal with
  | None => mret (true, "")
  | Some pod =>
      r ← client_Leave (podBaseURL cluster pod);
      mret match r with
      | Err e => (false, "could not ask " +:+ name +:+ " to leave the cluster: " +:+ error_Error e)
      | Ok l =>
          if Removed l then (true, "")
          else if negb (lr_Retryable l) then
            (false, name +:+ " refused to leave: " +:+ lr_Reason l)
          else (false, "waiting for " +:+ name +:+ " to leave the cluster: " +:+ lr_Reason l)
      end
  end.
End effects.

(** ** Joining the roster to the pods *)

Definition podsByName (pods : list Pod) : gmap string Pod :=
  foldl (λ m p, <[pod_Name p := p]> m) ∅ pods.

Definition endpointToPod (cluster : KahunaCluster) (pods : list Pod) : gmap string string :=
  foldl (λ m i, <[raftEndpoint cluster i := podName cluster i]> m) ∅
    (go_range (i32 (i32 (length pods) + desiredReplicas cluster))).

Definition memberStatusOf (cluster : KahunaCluster) (pods : list Pod) (mem : Member) : MemberStatus :=
  match endpointToPod cluster pods !! mem_Endpoint mem with
  | Some name =>
      mkMemberStatus name (mem_Endpoint mem) (mem_NodeID mem) (mem_Role mem) (mem_JoinedVersion mem)
        (match podsByName pods !! name with Some pod => podIsReady pod | None => false end)
  | None =>
      mkMemberStatus "" (mem_Endpoint mem) (mem_NodeID mem) (mem_Role mem) (mem_JoinedVersion mem) false
  end.

(** SortFunc leaves the order of equal endpoints open; the stable order stands for it. *)
Definition buildMemberStatus (cluster : KahunaCluster) (m : Membership) (pods : list Pod)
    : list MemberStatus :=
  stable_sort (λ a b, str_compare (ms_Endpoint a) (ms_Endpoint b))
    (memberStatusOf cluster pods <$> m_Members m).

Definition countRoles (members : list MemberStatus) : Z * Z :=
  foldl (λ '(voters, learners) m,
    if String.eqb (ms_Role m) RoleVoter then (i32 (voters + 1), learners)
    else if String.eqb (ms_Role m) RoleLearner then (voters, i32 (learners + 1))
    else (voters, learners)) (0, 0) members.

(** ** Lemmas *)

Lemma last_index_podName cluster i :
  0 ≤ i → last_index_byte (podName cluster i) "-" = Some (String.length (kc_Name cluster)).
Proof.
  intros Hi. unfold podName, stsName. apply (last_index_app (kc_Name cluster) "-" (itoa i)).
  eapply str_forall_impl; [|by apply itoa_digits].
  intros c Hc. apply negb_true_iff. by apply is_digit_not.
Qed.

Lemma ordinalOf_podName_eq cluster i : 0 ≤ i < two31 → ordinalOf (podName cluster i) = i.
Proof.
  intros Hi. unfold ordinalOf. rewrite last_index_podName by lia.
  change (podName cluster i) with (kc_Name cluster +:+ String "-" (itoa i)).
  rewrite str_drop_S_app, atoi_itoa by range.
  assert ((i <? 0) = false) as -> by (apply Z.ltb_ge; lia). apply i32_id. range.
Qed.

Lemma ordinalOf_is_i32 s : is_i32 (ordinalOf s).
Proof. unfold ordinalOf. repeat case_match; try apply i32_range; range. Qed.

Lemma fold_insert_lookup {A K V} `{Countable K} (f : A → K) (g : A → V) (l : list A) (m : gmap K V) k :
  (∀ x y, x ∈ l → y ∈ l → f x = f y → g x = g y) →
  ∀ x, x ∈ l → f x = k →
  foldl (λ m a, <[f a := g a]> m) m l !! k = Some (g x).
Proof.
  intros Hfun x Hx Hk. revert m x Hx Hk Hfun.
  induction l as [|a l IH]; intros m x Hx Hk Hfun; [by apply elem_of_nil in Hx|]. simpl.
  destruct (decide (k ∈ f <$> l)) as [(y & -> & Hy)%list_elem_of_fmap|Hnot].
  - rewrite (IH _ y) by (try done; intros ????; apply Hfun; by right).
    f_equal. apply Hfun; [by right|done|done].
  - apply elem_of_cons in Hx as [->|Hx].
    + assert (∀ m, foldl (λ m a, <[f a := g a]> m) m l !! k = m !! k) as ->.
      { clear IH Hfun. induction l as [|b l IHl]; intros m'; simpl; [done|].
        rewrite IHl by set_solver. apply lookup_insert_ne. set_solver. }
      rewrite Hk. apply lookup_insert_eq.
    + exfalso. apply Hnot. apply list_elem_of_fmap. eauto.
Qed.

Lemma fold_insert_lookup_None {A K V} `{Countable K} (f : A → K) (g : A → V) (l : list A) (m : gmap K V) k :
  k ∉ f <$> l → foldl (λ m a, <[f a := g a]> m) m l !! k = m !! k.
Proof.
  revert m. induction l as [|a l IH]; intros m Hk; simpl; [done|].
  rewrite IH by set_solver. apply lookup_insert_ne. set_solver.
Qed.

Lemma endpointToPod_lookup cluster pods e name :
  endpointToPod cluster pods !! e = Some name ↔
  ∃ i, 0 ≤ i < i32 (i32 (length pods) + desiredReplicas cluster) ∧
       e = raftEndpoint cluster i ∧ name = podName cluster i.
Proof.
  unfold endpointToPod. set (n := i32 _).
  assert (∀ i, 0 ≤ i < n → foldl (λ m i, <[raftEndpoint cluster i := podName cluster i]> m)
    (∅ : gmap string string) (go_range n) !! raftEndpoint cluster i = Some (podName cluster i)) as Hlk.
  { intros i Hi. apply (fold_insert_lookup (raftEndpoint cluster) (podName cluster));
      [|by apply elem_of_go_range|done]. by intros x y _ _ ->%(inj (raftEndpoint cluster)). }
  split.
  - intros H. destruct (decide (e ∈ raftEndpoint cluster <$> go_range n)) as [Hin|Hnot].
    + apply list_elem_of_fmap in Hin as (i & -> & Hi). exists i.
      rewrite elem_of_go_range in Hi. split_and!; [lia..|done|].
      rewrite (Hlk i Hi) in H. by injection H.
    + rewrite fold_insert_lookup_None in H by done. by rewrite lookup_empty in H.
  - intros (i & Hi & -> & ->). by apply Hlk.
Qed.

Lemma candidateCmp_ready a b : podIsReady a = true → podIsReady b = false → candidateCmp a b = -1.
Proof. unfold candidateCmp. by intros -> ->. Qed.

(** The order [readMembership] asks in: ready pods first, then by ordinal. *)
Definition askedBefore (a b : Pod) : Prop :=
  (podIsReady a = true ∧ podIsReady b = false) ∨
  (podIsReady a = podIsReady b ∧ ordinalOf (pod_Name a) ≤ ordinalOf (pod_Name b)).

#[export] Instance askedBefore_trans : Transitive askedBefore.
Proof. intros a b c. unfold askedBefore. intuition (try congruence); try lia; naive_solver lia. Qed.

(** A pod name whose ordinal leaves room for the subtraction of the comparison. *)
Definition smallOrdinal (p : Pod) : Prop := -1 ≤ ordinalOf (pod_Name p) < two31 - 1.

Lemma candidateCmp_spec a b : smallOrdinal a → smallOrdinal b →
  (candidateCmp a b ≤ 0 → askedBefore a b) ∧ (0 < candidateCmp a b → askedBefore b a).
Proof.
  intros Ha Hb. unfold smallOrdinal, candidateCmp, askedBefore in *.
  destruct (podIsReady a), (podIsReady b); simpl; rewrite ?i32_id by range; naive_solver lia.
Qed.

Lemma countRoles_acc l v n :
  0 ≤ v → 0 ≤ n → v + n + length l < two31 →
  foldl (λ '(voters, learners) m,
    if String.eqb (ms_Role m) RoleVoter then (i32 (voters + 1), learners)
    else if String.eqb (ms_Role m) RoleLearner then (voters, i32 (learners + 1))
    else (voters, learners)) (v, n) l =
  (v + length (filter (λ m, ms_Role m = RoleVoter) l), n + length (filter (λ m, ms_Role m = RoleLearner) l)).
Proof.
  revert v n. induction l as [|m l IH]; intros v n Hv Hn Hlen; simpl in *.
  { f_equal; lia. }
  rewrite !filter_cons.
  destruct (String.eqb_spec (ms_Role m) RoleVoter) as [Hr|Hr].
  - rewrite (decide_True _ _ Hr), decide_False by (rewrite Hr; done).
    rewrite i32_id by range. rewrite IH by lia. simpl. f_equal; lia.
  - rewrite (decide_False _ _ Hr). destruct (String.eqb_spec (ms_Role m) RoleLearner) as [Hl|Hl].
    + rewrite decide_True by done. rewrite i32_id by range. rewrite IH by lia. simpl. f_equal; lia.
    + rewrite decide_False by done. apply IH; lia.
Qed.

Lemma countRoles_eq l : length l < two31 →
  countRoles l = (Z.of_nat (length (filter (λ m, ms_Role m = RoleVoter) l)),
                  Z.of_nat (length (filter (λ m, ms_Role m = RoleLearner) l))).
Proof. intros. unfold countRoles. by rewrite countRoles_acc by lia. Qed.

(** ** Properties *)

(** The ordinal recovered from the name of a pod is the ordinal the name was built from, for every
    ordinal a StatefulSet can have; two ordinals never share a name or a Raft endpoint. *)
Theorem ordinalOf_podName cluster i :
  0 ≤ i < two31 →
  ordinalOf (podName cluster i) = i ∧
  (∀ j, podName cluster j = podName cluster i → j = i) ∧
  (∀ j, raftEndpoint cluster j = raftEndpoint cluster i → j = i).
Proof.
  intros Hi. split_and!; [by apply ordinalOf_podName_eq|intros j; apply (inj _)..].
Qed.

Lemma ordinalOf_podName_witness : ordinalOf (podName (demoCluster 3) 12) = 12.
Proof. apply ordinalOf_podName. unfold two31. lia. Defined.

(** [readMembership] asks exactly the pods that have an IP and are not being deleted, each of
    them once, the ready ones first and in the order of their ordinals. *)
Theorem membershipCandidates_order pods :
  Forall smallOrdinal pods →
  membershipCandidates pods ≡ₚ filter (λ p, membershipEligible p = true) pods ∧
  StronglySorted askedBefore (membershipCandidates pods).
Proof.
  intros Hsmall. split; [apply stable_sort_perm|].
  apply (stable_sort_sorted candidateCmp smallOrdinal); [apply _|..].
  - intros x y Hx Hy. by apply candidateCmp_spec.
  - intros x y Hx Hy. by apply candidateCmp_spec.
  - apply Forall_forall. intros p [_ Hp]%list_elem_of_filter. by eapply Forall_forall in Hsmall.
Qed.

Definition demoPod (name ip : string) (ready : bool) : Pod :=
  mkPod name ("uid-" +:+ name) ∅ None [mkContainer containerName "kahunakv/kahuna:1.12.9"] ip
    [mkPodCondition PodReady (if ready then "True" else "False")].

Lemma membershipCandidates_order_witness :
  pod_Name <$> membershipCandidates
    [demoPod "kahuna-1" "10.0.0.2" false; demoPod "kahuna-10" "10.0.0.9" true;
     demoPod "kahuna-2" "10.0.0.3" true; demoPod "kahuna-3" "" true]
  = ["kahuna-2"; "kahuna-10"; "kahuna-1"] ∧
  StronglySorted askedBefore (membershipCandidates
    [demoPod "kahuna-1" "10.0.0.2" false; demoPod "kahuna-10" "10.0.0.9" true;
     demoPod "kahuna-2" "10.0.0.3" true; demoPod "kahuna-3" "" true]).
Proof.
  split; [vm_compute; reflexivity|]. apply membershipCandidates_order.
  repeat constructor; vm_compute; done.
Defined.

Section effects_spec.
Context {W : Type} `{!Client W}.

(** Every pod of [ps] was asked for the roster in turn and answered with an error. *)
Inductive allFailed (cluster : KahunaCluster) : list Pod → W → W → Prop :=
  | allFailed_nil w : allFailed cluster [] w w
  | allFailed_cons p ps e w w1 w2 :
      client_Membership (podBaseURL cluster p) w = (Some (Err e), w1) →
      allFailed cluster ps w1 w2 →
      allFailed cluster (p :: ps) w w2.

Lemma askMembership_Ok cluster lastErr ps w m w' :
  askMembership cluster lastErr ps w = (Some (Ok m), w') ↔
  ∃ pre p post w1, ps = pre ++ p :: post ∧ allFailed cluster pre w w1 ∧
    client_Membership (podBaseURL cluster p) w1 = (Some (Ok m), w').
Proof.
  revert lastErr w. induction ps as [|p ps IH]; intros lastErr w; simpl.
  { split; [done|]. intros (pre & p & post & w1 & Heq & _). by destruct pre. }
  rewrite go_bind_Some. split.
  - intros (r & w1 & Hc & Hr). destruct r as [m'|e].
    + injection Hr as <- <-. exists [], p, ps, w. split_and!; [done|constructor|done].
    + apply IH in Hr as (pre & q & post & w2 & -> & Hf & Hq).
      exists (p :: pre), q, post, w2. split_and!; [done|by econstructor|done].
  - intros (pre & q & post & w1 & Heq & Hf & Hq). destruct pre as [|p' pre]; simplify_eq/=.
    + inversion Hf; subst. exists (Ok m), w'. done.
    + inversion Hf as [|?? e ? w2 ? Hc Hf']; subst. exists (Err e), w2. split; [done|].
      apply IH. exists pre, q, post, w1. done.
Qed.

(** [readMembership] returns a roster exactly when some candidate answered with it and every
    candidate before it in the asking order had failed; one failing node never hides the others. *)
Theorem readMembership_first_answer cluster pods w m w' :
  readMembership cluster pods w = (Some (Ok m), w') ↔
  ∃ pre p post w1, membershipCandidates pods = pre ++ p :: post ∧ allFailed cluster pre w w1 ∧
    client_Membership (podBaseURL cluster p) w1 = (Some (Ok m), w').
Proof. apply askMembership_Ok. Qed.

(** The node of the given ordinal is out of the way: no listed pod of that name has an IP address (the
    source asks nobody then, also when the pod exists), or it was asked to leave and answered that it is
    out of the roster. *)
Definition departed (cluster : KahunaCluster) (pods : list Pod) (ordinal : Z) (w w' : W) : Prop :=
  (w' = w ∧ ∀ p, p ∈ pods → pod_Name p = podName cluster ordinal → pod_PodIP p = "") ∨
  (∃ p l, p ∈ pods ∧ pod_Name p = podName cluster ordinal ∧ pod_PodIP p ≠ "" ∧
     client_Leave (podBaseURL cluster p) w = (Some (Ok l), w') ∧ Removed l = true).

Lemma decommissionTarget_None cluster pods ordinal :
  decommissionTarget cluster pods ordinal = None →
  ∀ p, p ∈ pods → pod_Name p = podName cluster ordinal → pod_PodIP p = "".
Proof.
  unfold decommissionTarget. rewrite fmap_None, list_find_None, Forall_forall. intros H p Hp Hn.
  specialize (H p Hp). destruct (decide (pod_PodIP p = "")); naive_solver.
Qed.

Lemma decommissionTarget_Some cluster pods ordinal p :
  decommissionTarget cluster pods ordinal = Some p →
  p ∈ pods ∧ pod_Name p = podName cluster ordinal ∧ pod_PodIP p ≠ "".
Proof.
  unfold decommissionTarget. intros ([i q] & (Hl & ? & _)%list_find_Some & ->)%fmap_Some.
  split; [by eapply list_elem_of_lookup_2|done].
Qed.

(** A yes means the node is out of the way. *)
Lemma decommission_departed cluster pods ordinal w msg w' :
  decommission cluster pods ordinal w = (Some (true, msg), w') →
  msg = "" ∧ departed cluster pods ordinal w w'.
Proof.
  unfold decommission. destruct (decommissionTarget cluster pods ordinal) as [p|] eqn:Ht.
  - intros (r & w1 & Hl & Hr)%go_bind_Some. apply decommissionTarget_Some in Ht as (? & ? & ?).
    destruct r as [l|e]; [|discriminate Hr].
    destruct (Removed l) eqn:Hrm; [|by destruct (lr_Retryable l)].
    injection Hr as <- <-. split; [done|]. right. by exists p, l.
  - intros [= <- <-]. split; [done|]. left. split; [done|]. by apply decommissionTarget_None.
Qed.

(** [decommission] reports that a pod may be taken away only when the node is out of the way:
    it has no reachable pod, or its own leave request came back as committed or already gone.  Every
    other answer, an error included, holds with a message. *)
Theorem decommission_safe cluster pods ordinal w ok msg w' :
  decommission cluster pods ordinal w = (Some (ok, msg), w') →
  (ok = true → msg = "" ∧ departed cluster pods ordinal w w') ∧
  (ok = false → msg ≠ "").
Proof.
  intros Hd. split; intros ->; [by apply decommission_departed|].
  revert Hd. unfold decommission. destruct (decommissionTarget cluster pods ordinal) as [p|]; [|done].
  intros ([l|e] & w1 & _ & Hr)%go_bind_Some; [|by injection Hr as <- _].
  destruct (Removed l); [done|]. destruct (lr_Retryable l); injection Hr as <- _; [done|].
  simpl. unfold podName, stsName. by destruct (kc_Name cluster).
Qed.
End effects_spec.

(** ** The join *)

Definition rosterEntry (st : MemberStatus) : Member :=
  mkMember (ms_Endpoint st) (ms_NodeID st) (ms_Role st) (ms_JoinedVersion st).

Lemma rosterEntry_memberStatusOf cluster pods mem : rosterEntry (memberStatusOf cluster pods mem) = mem.
Proof. unfold memberStatusOf. destruct mem. by case_match. Qed.

Lemma buildMemberStatus_perm cluster m pods :
  rosterEntry <$> buildMemberStatus cluster m pods ≡ₚ m_Members m.
Proof.
  unfold buildMemberStatus. rewrite stable_sort_perm, <- list_fmap_compose.
  replace (rosterEntry ∘ memberStatusOf cluster pods <$> m_Members m) with (m_Members m); [done|].
  induction (m_Members m) as [|mem l IH]; [done|]. rewrite fmap_cons, <- IH. simpl.
  by rewrite rosterEntry_memberStatusOf.
Qed.

Lemma podsByName_lookup pods name pod :
  NoDup (pod_Name <$> pods) →
  podsByName pods !! name = Some pod ↔ pod ∈ pods ∧ pod_Name pod = name.
Proof.
  intros Hnd. assert (∀ x y, x ∈ pods → y ∈ pods → pod_Name x = pod_Name y → x = y) as Hinj.
  { intros x y (i & Hi)%list_elem_of_lookup (j & Hj)%list_elem_of_lookup Heq.
    assert (i = j); [|by simplify_eq]. eapply NoDup_lookup; [exact Hnd|..];
      rewrite list_lookup_fmap, ?Hi, ?Hj; simpl; by rewrite ?Heq. }
  unfold podsByName. split.
  - intros H. destruct (decide (name ∈ pod_Name <$> pods)) as [Hin|Hnot].
    + apply list_elem_of_fmap in Hin as (q & -> & Hq).
      rewrite (fold_insert_lookup pod_Name id pods ∅ (pod_Name q) Hinj q Hq eq_refl) in H.
      by injection H as <-.
    + rewrite (fold_insert_lookup_None pod_Name id pods) in H by done.
      by rewrite lookup_empty in H.
  - intros [Hp <-]. by apply (fold_insert_lookup pod_Name id pods ∅ _ Hinj).
Qed.

Lemma memberStatusOf_spec cluster pods mem :
  NoDup (pod_Name <$> pods) →
  let st := memberStatusOf cluster pods mem in
  (∃ i, 0 ≤ i < i32 (i32 (length pods) + desiredReplicas cluster) ∧
        ms_Endpoint st = raftEndpoint cluster i ∧ ms_PodName st = podName cluster i ∧
        (ms_Ready st = true ↔ ∃ pod, pod ∈ pods ∧ pod_Name pod = podName cluster i ∧
                                     podIsReady pod = true)) ∨
  ((∀ i, 0 ≤ i < i32 (i32 (length pods) + desiredReplicas cluster) →
         ms_Endpoint st ≠ raftEndpoint cluster i) ∧
   ms_PodName st = "" ∧ ms_Ready st = false).
Proof.
  intros Hnd. unfold memberStatusOf. destruct (endpointToPod cluster pods !! _) as [name|] eqn:E; simpl.
  - left. apply endpointToPod_lookup in E as (i & Hi & He & ->). exists i. do 3 (split; [done|]).
    destruct (podsByName pods !! podName cluster i) as [pod|] eqn:Ep.
    + pose proof (proj1 (podsByName_lookup pods _ _ Hnd) Ep) as [Hpod Hn]. split; [naive_solver|].
      intros (q & Hq & Hqn & Hr).
      assert (podsByName pods !! podName cluster i = Some q) as Eq by (by apply podsByName_lookup).
      congruence.
    + split; [done|]. intros (q & Hq & Hqn & Hr).
      assert (podsByName pods !! podName cluster i = Some q) as Eq by (by apply podsByName_lookup).
      congruence.
  - right. split_and!; [|done..]. intros i Hi Heq.
    assert (endpointToPod cluster pods !! mem_Endpoint mem = Some (podName cluster i)) as H.
    { apply endpointToPod_lookup. eauto. }
    congruence.
Qed.

(** The member list of status is the committed roster: the same entries, sorted by endpoint, each
    joined to the pod of its ordinal and to that pod's readiness, or to no pod when the endpoint is
    none of the operator's own. *)
Theorem buildMemberStatus_spec cluster m pods :
  NoDup (pod_Name <$> pods) →
  rosterEntry <$> buildMemberStatus cluster m pods ≡ₚ m_Members m ∧
  StronglySorted (λ a b, String.le (ms_Endpoint a) (ms_Endpoint b)) (buildMemberStatus cluster m pods) ∧
  ∀ st, st ∈ buildMemberStatus cluster m pods →
    (∃ i, 0 ≤ i < i32 (i32 (length pods) + desiredReplicas cluster) ∧
          ms_Endpoint st = raftEndpoint cluster i ∧ ms_PodName st = podName cluster i ∧
          (ms_Ready st = true ↔ ∃ pod, pod ∈ pods ∧ pod_Name pod = podName cluster i ∧
                                       podIsReady pod = true)) ∨
    ((∀ i, 0 ≤ i < i32 (i32 (length pods) + desiredReplicas cluster) →
           ms_Endpoint st ≠ raftEndpoint cluster i) ∧
     ms_PodName st = "" ∧ ms_Ready st = false).
Proof.
  intros Hnd. split_and!.
  - apply buildMemberStatus_perm.
  - apply (stable_sort_sorted _ (λ _, True)).
    + intros a b c ? ?. by etrans.
    + intros x y _ _. apply str_compare_le.
    + intros x y _ _. apply str_compare_le.
    + by apply Forall_true.
  - intros st Hst. unfold buildMemberStatus in Hst. rewrite stable_sort_perm in Hst.
    apply list_elem_of_fmap in Hst as (mem & -> & _). by apply memberStatusOf_spec.
Qed.

Lemma buildMemberStatus_spec_witness :
  StronglySorted (λ a b, String.le (ms_Endpoint a) (ms_Endpoint b))
    (buildMemberStatus (demoCluster 3)
       (mkMembership 1 [mkMember (raftEndpoint (demoCluster 3) 2) 3 RoleVoter 1;
                        mkMember (raftEndpoint (demoCluster 3) 0) 1 RoleVoter 1] RoleVoter true)
       [demoPod "kahuna-0" "10.0.0.1" true]).
Proof. apply buildMemberStatus_spec. repeat constructor; set_solver. Defined.

Lemma countRoles_buildMemberStatus cluster m pods :
  length (m_Members m) < two31 →
  countRoles (buildMemberStatus cluster m pods) =
  (Z.of_nat (length (filter (λ mem, mem_Role mem = RoleVoter) (m_Members m))),
   Z.of_nat (length (filter (λ mem, mem_Role mem = RoleLearner) (m_Members m)))).
Proof.
  intros Hlen. pose proof (buildMemberStatus_perm cluster m pods) as Hp.
  assert (∀ role l, length (filter (λ st, ms_Role st = role) l) =
                    length (filter (λ mem, mem_Role mem = role) (rosterEntry <$> l))) as Hf.
  { intros role l. induction l as [|st l IH]; [done|]. rewrite fmap_cons, !filter_cons. simpl.
    case_decide; simpl; by rewrite ?IH. }
  rewrite countRoles_eq.
  - by rewrite !Hf, !Hp.
  - apply Permutation_length in Hp. rewrite length_fmap in Hp. lia.
Qed.

Lemma decommission_safe_witness :
  let c := fixedClient refused (λ _, Ok (mkLeaveResult true OutcomeCommitted 7 false "")) refused refused refused in
  (decommission (demoCluster 3) [demoPod "kahuna-2" "10.0.0.3" true] 2 tt).1 = Some (true, "") ∧
  departed (demoCluster 3) [demoPod "kahuna-2" "10.0.0.3" true] 2 tt tt.
Proof.
  intros c. split; [vm_compute; reflexivity|].
  apply (decommission_safe (demoCluster 3) [demoPod "kahuna-2" "10.0.0.3" true] 2 tt true "" tt);
    [vm_compute; reflexivity|done].
Defined.
