(* ===== verification/Plan.v ===== *)
(** * The scaling plan (internal/controller/plan.go)

    What the operator wants the StatefulSet to look like on one pass.  [rosterMatches] is proved to be
    exactly "the committed roster is the set of the first n nodes, all Voters"; [buildPlan] is proved
    to change the size by at most one node, only then, and only when the data has settled; and a held
    cluster is told what it is waiting for. *)

From Stdlib Require Import ZArith Lia.
From stdpp Require Import base numbers strings pretty sorting gmap list.
From S2P Require Import Prelude GoStrings Types Naming Kahuna Placement.

Open Scope Z_scope.

Record plan := mkPlan {
  p_Replicas : Z;
  p_Partition : Z;
  p_Reason : string;
}.

#[export] Instance eta_plan : Eta plan := λ r, mkPlan (p_Replicas r) (p_Partition r) (p_Reason r).

Definition rosterMatches (cluster : KahunaCluster) (m : option Membership) (replicas : Z) : bool :=
  match m with
  | None => false
  | Some m =>
      if negb (i32 (length (m_Members m)) =? replicas) then false
      else forallb (λ i, HasVoter m (raftEndpoint cluster i)) (go_range replicas)
  end.

Definition missingVoters (cluster : KahunaCluster) (m : Membership) (replicas : Z) : list string :=
  podName cluster <$>
    filter (λ i, HasVoter m (raftEndpoint cluster i) = false) (go_range replicas).

Definition extraMembers (cluster : KahunaCluster) (m : Membership) (replicas : Z) : list string :=
  filter (λ e, e ∉ memberSet cluster replicas) (mem_Endpoint <$> m_Members m).

Definition rosterHoldReason (cluster : KahunaCluster) (m : option Membership) (replicas : Z) : string :=
  match m with
  | None => "waiting for cluster membership to become readable"
  | Some m =>
      let missing := missingVoters cluster m replicas in
      let extra := extraMembers cluster m replicas in
      if (0 <? length missing)%nat && (0 <? length extra)%nat then
        "waiting for " +:+ fmt_strings missing +:+ " to become voters and " +:+ fmt_strings extra
          +:+ " to be evicted"
      else if (0 <? length missing)%nat then
        "waiting for " +:+ fmt_strings missing +:+ " to become voters"
      else if (0 <? length extra)%nat then
        "waiting for the cluster to evict " +:+ fmt_strings extra
      else "waiting for the roster to converge"
  end.

Definition buildPlan (cluster : KahunaCluster) (currentReplicas : Z) (bootstrapped : bool)
    (m : option Membership) (placement : option Placement) (placementErr : option error) : plan :=
  let target := desiredReplicas cluster in
  if negb bootstrapped then mkPlan target 0 ""
  else
    let converged := rosterMatches cluster m currentReplicas in
    let p := mkPlan currentReplicas 0 "" in
    if negb converged then
      p <| p_Partition := currentReplicas |>
        <| p_Reason := rosterHoldReason cluster m currentReplicas |>
    else
      match placementErr with
      | Some e =>
          p <| p_Reason := "waiting for replica placement to become readable: " +:+ error_Error e |>
      | None =>
          let '(_, _, reason) := placementSettled cluster placement currentReplicas in
          if negb (String.eqb reason "") then
            p <| p_Reason := "waiting for replica placement to settle: " +:+ reason |>
          else if currentReplicas <? target then p <| p_Replicas := i32 (currentReplicas + 1) |>
          else if target <? currentReplicas then
            if 1 <? currentReplicas then p <| p_Replicas := i32 (currentReplicas - 1) |> else p
          else p
      end.

(** ** Specification *)

(** The committed roster is exactly the first [n] nodes, every one of them a Voter. *)
Definition rosterIs (cluster : KahunaCluster) (m : Membership) (n : Z) : Prop :=
  0 ≤ n ∧ mem_Endpoint <$> m_Members m ≡ₚ expectedEndpoints cluster n ∧
  Forall (λ mem, mem_Role mem = RoleVoter) (m_Members m).

(** The size that one completed step takes a cluster of [current] nodes to. *)
Definition nextSize (current target : Z) : Z :=
  if current <? target then current + 1
  else if (target <? current) && (1 <? current) then current - 1
  else current.

(** ** Lemmas *)

Lemma rosterMatches_true cluster m n :
  rosterMatches cluster (Some m) n = true ↔
  i32 (length (m_Members m)) = n ∧ ∀ i, 0 ≤ i < n → HasVoter m (raftEndpoint cluster i) = true.
Proof.
  unfold rosterMatches. destruct (Z.eqb_spec (i32 (length (m_Members m))) n) as [H|H]; simpl.
  - rewrite forallb_elem_of. setoid_rewrite elem_of_go_range. naive_solver.
  - naive_solver.
Qed.

Lemma rosterIs_NoDup cluster m n : rosterIs cluster m n → NoDup (mem_Endpoint <$> m_Members m).
Proof. intros (_ & Hp & _). rewrite Hp. apply NoDup_expectedEndpoints. Qed.

Lemma NoDup_fmap_elem_inj {A B} (f : A → B) (l : list A) x y :
  NoDup (f <$> l) → x ∈ l → y ∈ l → f x = f y → x = y.
Proof.
  intros Hnd (i & Hi)%list_elem_of_lookup (j & Hj)%list_elem_of_lookup Heq.
  assert (i = j); [|by simplify_eq].
  eapply NoDup_lookup; [exact Hnd|..]; rewrite list_lookup_fmap, ?Hi, ?Hj; simpl; by rewrite ?Heq.
Qed.

Lemma rosterIs_length cluster m n : rosterIs cluster m n → Z.of_nat (length (m_Members m)) = n.
Proof.
  intros (? & Hp%Permutation_length & _). rewrite length_fmap, length_expectedEndpoints in Hp. lia.
Qed.

Lemma rosterMatches_rosterIs cluster m n :
  length (m_Members m) < two31 →
  rosterMatches cluster (Some m) n = true ↔ rosterIs cluster m n.
Proof.
  intros Hlen. rewrite rosterMatches_true, i32_id by range. unfold rosterIs. split.
  - intros [Hn Hv].
    assert (mem_Endpoint <$> m_Members m ≡ₚ expectedEndpoints cluster n) as Hp.
    { apply submseteq_same_length_Permutation; [apply NoDup_expectedEndpoints| |].
      - intros e (i & Hi & ->)%elem_of_expectedEndpoints. apply list_elem_of_fmap.
        apply Hv in Hi. apply HasVoter_elem in Hi as (mem & ? & ? & ?). eauto.
      - rewrite length_fmap, length_expectedEndpoints. lia. }
    split_and!; [lia|done|]. apply Forall_forall. intros mem Hmem.
    assert (mem_Endpoint mem ∈ expectedEndpoints cluster n) as (i & Hi & He)%elem_of_expectedEndpoints.
    { rewrite <- Hp. by apply list_elem_of_fmap_2. }
    apply Hv, HasVoter_elem in Hi as (mem' & Hmem' & He' & Hr).
    assert (mem = mem') as ->; [|done].
    eapply (NoDup_fmap_elem_inj mem_Endpoint); [|done|done|congruence].
    rewrite Hp. apply NoDup_expectedEndpoints.
  - intros (Hn & Hp & Hr). split.
    + apply Permutation_length in Hp. rewrite length_fmap, length_expectedEndpoints in Hp. lia.
    + intros i Hi. apply HasVoter_elem.
      assert (raftEndpoint cluster i ∈ mem_Endpoint <$> m_Members m) as H.
      { rewrite Hp. apply elem_of_expectedEndpoints. eauto. }
      apply list_elem_of_fmap in H as (mem & -> & Hmem). exists mem. split_and!; try done.
      by eapply Forall_forall in Hr.
Qed.

Lemma rosterHoldReason_nonempty cluster m n : rosterHoldReason cluster m n ≠ "".
Proof. unfold rosterHoldReason. repeat case_match; done. Qed.

(** Everything a membership change waits for: the roster is the current set of Voters, the placement
    was read (or the server has none), and the data has settled on the current nodes. *)
Definition stepReady (cluster : KahunaCluster) (n : Z) (m : option Membership)
    (placement : option Placement) (placementErr : option error) : Prop :=
  (∃ r, m = Some r ∧ rosterIs cluster r n) ∧ placementErr = None ∧ settled cluster placement n.

(** A roster of fewer than 2^31 entries, so that its length is not truncated. *)
Definition smallRoster (m : option Membership) : Prop :=
  match m with Some r => length (m_Members r) < two31 | None => True end.

(** The roster of [n] Voters, in ordinal order. *)
Definition fullRoster (cluster : KahunaCluster) (n : Z) : Membership :=
  mkMembership 1 ((λ i, mkMember (raftEndpoint cluster i) (nodeIDForOrdinal i) RoleVoter 1) <$> go_range n)
    RoleVoter true.

Lemma rosterIs_fullRoster cluster n : 0 ≤ n → rosterIs cluster (fullRoster cluster n) n.
Proof.
  intros Hn. unfold rosterIs, fullRoster, expectedEndpoints. simpl. split_and!; [done| |].
  - by rewrite <- list_fmap_compose.
  - apply Forall_fmap. by apply Forall_true.
Qed.

Lemma rosterMatches_ready cluster m n : smallRoster m →
  rosterMatches cluster m n = true ↔ ∃ r, m = Some r ∧ rosterIs cluster r n.
Proof.
  intros Hs. destruct m as [r|]; [|simpl; naive_solver].
  rewrite rosterMatches_rosterIs by done. naive_solver.
Qed.

(** The size of the plan, on a bootstrapped cluster. *)
Lemma buildPlan_size cluster n m placement perr :
  smallRoster m → 0 ≤ n < two31 → is_i32 (desiredReplicas cluster) →
  (stepReady cluster n m placement perr ∧
   buildPlan cluster n true m placement perr = mkPlan (nextSize n (desiredReplicas cluster)) 0 "") ∨
  (¬ stepReady cluster n m placement perr ∧
   ∃ reason, reason ≠ "" ∧
   buildPlan cluster n true m placement perr =
     mkPlan n (if rosterMatches cluster m n then 0 else n) reason).
Proof.
  intros Hs Hn Ht. pose proof (rosterMatches_ready cluster m n Hs) as Hm.
  unfold buildPlan, stepReady; simpl. destruct (rosterMatches cluster m n); simpl; cycle 1.
  { right. split; [naive_solver|]. eexists. split; [|done]. apply rosterHoldReason_nonempty. }
  destruct perr as [e|]; simpl; [right; split; [naive_solver|]; eexists; split; [|reflexivity]; done|].
  pose proof (placementSettled_settled cluster placement n) as Hp.
  destruct (placementSettled cluster placement n) as [[h t] reason]; simpl in *.
  destruct (String.eqb_spec reason "") as [He|Hne]; simpl; cycle 1.
  { right. split; [naive_solver|]. eexists. split; [|reflexivity]. done. }
  left. split; [naive_solver|]. unfold nextSize.
  destruct (Z.ltb_spec n (desiredReplicas cluster)); [by rewrite i32_id by range|].
  destruct (Z.ltb_spec (desiredReplicas cluster) n); simpl; [|done].
  destruct (Z.ltb_spec 1 n); [|done]. by rewrite i32_id by range.
Qed.

(** What the hold message lists. *)
Lemma elem_of_missingVoters cluster m n i :
  podName cluster i ∈ missingVoters cluster m n ↔
  0 ≤ i < n ∧ HasVoter m (raftEndpoint cluster i) = false.
Proof.
  unfold missingVoters. rewrite list_elem_of_fmap. split.
  - intros (j & ->%(inj (podName cluster)) & [? Hj]%list_elem_of_filter).
    by rewrite elem_of_go_range in Hj.
  - intros [Hi Hv]. exists i. split; [done|]. by rewrite list_elem_of_filter, elem_of_go_range.
Qed.

Lemma elem_of_extraMembers cluster m n e :
  e ∈ extraMembers cluster m n ↔
  e ∈ mem_Endpoint <$> m_Members m ∧ ∀ i, 0 ≤ i < n → e ≠ raftEndpoint cluster i.
Proof.
  unfold extraMembers. rewrite list_elem_of_filter, elem_of_memberSet, elem_of_expectedEndpoints.
  naive_solver.
Qed.

(** The catch-all text is used only when both lists are empty. *)
Lemma rosterHoldReason_text cluster m n (Q : Prop) :
  (missingVoters cluster m n ≠ [] ∨ extraMembers cluster m n ≠ []) ∧ Q →
  rosterHoldReason cluster (Some m) n ≠ "waiting for the roster to converge" ∧
  (missingVoters cluster m n ≠ [] ∨ extraMembers cluster m n ≠ []) ∧ Q.
Proof.
  intros [H HQ]. split; [|done]. unfold rosterHoldReason.
  destruct (missingVoters cluster m n), (extraMembers cluster m n); naive_solver.
Qed.

Lemma nextSize_toward n target : 1 ≤ n → 1 ≤ target →
  Z.abs (target - nextSize n target) = Z.max 0 (Z.abs (target - n) - 1) ∧
  Z.abs (nextSize n target - n) ≤ 1 ∧
  Z.min n target ≤ nextSize n target ≤ Z.max n target.
Proof.
  intros. unfold nextSize. destruct (Z.ltb_spec n target); [lia|].
  destruct (Z.ltb_spec target n), (Z.ltb_spec 1 n); simpl; lia.
Qed.

(** ** Properties *)

(** C4: [rosterMatches] holds exactly when the committed roster, as a set of endpoints, is the set of
    the first [n] nodes and every entry of it is a Voter: no member is missing, none is extra, none is
    listed twice, none is still a Learner or Leaving. *)
Theorem rosterMatches_correct cluster m n :
  length (m_Members m) < two31 →
  rosterMatches cluster (Some m) n = true ↔ rosterIs cluster m n.
Proof. apply rosterMatches_rosterIs. Qed.

Lemma rosterMatches_correct_witness :
  rosterMatches (demoCluster 3) (Some (fullRoster (demoCluster 3) 3)) 3 = true.
Proof.
  apply rosterMatches_correct; [unfold two31; vm_compute; done|]. apply rosterIs_fullRoster. lia.
Defined.

(** C3: the whole behaviour of [buildPlan].  A cluster that has not formed yet gets its target size at
    once.  A formed one changes size only when the roster is exactly the current set of Voters, the
    placement is readable and the data has settled, and then by one node toward the target; it is
    otherwise held at its size with a reason, and rolling updates are frozen for every pod exactly
    when the roster is what is wrong. *)
Theorem buildPlan_correct cluster n bootstrapped m placement perr :
  smallRoster m → 0 ≤ n < two31 → is_i32 (desiredReplicas cluster) →
  let p := buildPlan cluster n bootstrapped m placement perr in
  let formed := ∃ r, m = Some r ∧ rosterIs cluster r n in
  (bootstrapped = false → p = mkPlan (desiredReplicas cluster) 0 "") ∧
  (bootstrapped = true →
    (stepReady cluster n m placement perr → p = mkPlan (nextSize n (desiredReplicas cluster)) 0 "") ∧
    (¬ stepReady cluster n m placement perr → p_Replicas p = n ∧ p_Reason p ≠ "") ∧
    (formed → p_Partition p = 0) ∧ (¬ formed → p_Partition p = n)).
Proof.
  intros Hs Hn Ht. split; [by intros ->|]. intros ->.
  pose proof (rosterMatches_ready cluster m n Hs) as Hm.
  destruct (buildPlan_size cluster n m placement perr Hs Hn Ht) as [[Hr ->]|[Hr (reason & Hne & ->)]].
  - destruct Hr as (Hf & ? & ?). split_and!; try done. intros []. by split_and!.
  - simpl. split_and!; [done|done|..]; rewrite <- Hm; by destruct (rosterMatches cluster m n).
Qed.

Lemma buildPlan_correct_witness :
  buildPlan (demoCluster 5) 3 true (Some (fullRoster (demoCluster 5) 3)) None None = mkPlan 4 0 "".
Proof.
  apply (buildPlan_correct (demoCluster 5) 3 true (Some (fullRoster (demoCluster 5) 3)) None None);
    [vm_compute; done|vm_compute; done|vm_compute; done|done|].
  split; [|done]. eexists. split; [done|]. apply rosterIs_fullRoster. lia.
Defined.

(** A held cluster's reason is complete.  When the roster (which lists an endpoint once) is not the
    set of the first [n] Voters, some expected pod is not a Voter or some member is not expected, the
    message lists exactly those pods and those members, and the catch-all text is never used. *)
Theorem rosterHoldReason_complete cluster m n :
  length (m_Members m) < two31 → 0 ≤ n → NoDup (mem_Endpoint <$> m_Members m) →
  ¬ rosterIs cluster m n →
  rosterHoldReason cluster (Some m) n ≠ "waiting for the roster to converge" ∧
  (missingVoters cluster m n ≠ [] ∨ extraMembers cluster m n ≠ []) ∧
  (∀ i, podName cluster i ∈ missingVoters cluster m n ↔
        0 ≤ i < n ∧ ¬ ∃ mem, mem ∈ m_Members m ∧ mem_Endpoint mem = raftEndpoint cluster i ∧
                             mem_Role mem = RoleVoter) ∧
  (∀ e, e ∈ extraMembers cluster m n ↔
        e ∈ mem_Endpoint <$> m_Members m ∧ ∀ i, 0 ≤ i < n → e ≠ raftEndpoint cluster i).
Proof.
  intros Hlen Hn Hnd Hne.
  pose proof (elem_of_missingVoters cluster m n) as Hmiss.
  pose proof (elem_of_extraMembers cluster m n) as Hextra.
  apply rosterHoldReason_text. split_and!; [|intros i; rewrite Hmiss, <- HasVoter_elem, not_true_iff_false; done|done].
  destruct (missingVoters cluster m n) as [|x l] eqn:E1; [|by left].
  destruct (extraMembers cluster m n) as [|y k] eqn:E2; [|by right].
  exfalso. apply Hne, rosterMatches_rosterIs; [done|]. apply rosterMatches_true.
  assert (∀ i, 0 ≤ i < n → HasVoter m (raftEndpoint cluster i) = true) as Hall.
  { intros i Hi. apply not_false_iff_true. intros Hf.
    assert (podName cluster i ∈ []) as []%elem_of_nil by (apply Hmiss; done). }
  split; [|done]. rewrite i32_id by range.
  assert (mem_Endpoint <$> m_Members m ≡ₚ expectedEndpoints cluster n) as Hp%Permutation_length.
  { apply NoDup_Permutation; [done|apply NoDup_expectedEndpoints|]. intros e. split.
    - intros He. apply dec_stable. rewrite elem_of_expectedEndpoints. intros Hno.
      assert (e ∈ []) as []%elem_of_nil. apply Hextra. split; [done|]. naive_solver.
    - intros (i & Hi & ->)%elem_of_expectedEndpoints.
      apply Hall, HasVoter_elem in Hi as (mem & ? & <- & _). by apply list_elem_of_fmap_2. }
  rewrite length_fmap, length_expectedEndpoints in Hp. lia.
Qed.

Lemma rosterHoldReason_complete_witness :
  rosterHoldReason (demoCluster 3) (Some (fullRoster (demoCluster 3) 2)) 3
    = "waiting for [kahuna-2] to become voters" ∧
  (missingVoters (demoCluster 3) (fullRoster (demoCluster 3) 2) 3 ≠ [] ∨
   extraMembers (demoCluster 3) (fullRoster (demoCluster 3) 2) 3 ≠ []).
Proof.
  split; [vm_compute; reflexivity|]. apply rosterHoldReason_complete.
  - vm_compute. done.
  - lia.
  - apply (rosterIs_NoDup (demoCluster 3) _ 2), rosterIs_fullRoster. lia.
  - intros (_ & Hp%Permutation_length & _). vm_compute in Hp. done.
Defined.
