(* ===== verification/Conditions.v ===== *)
(** * Status conditions

    The operator records a condition with [setCondition] (kahunacluster_controller.go), which hands
    the bookkeeping to the apimachinery helpers SetStatusCondition and RemoveStatusCondition.  Those
    are a parameter here, [ConditionsAPI], and [ConditionsLaws] states the documented behaviour that
    theorems rely on: after setting, the condition of that type has the given status, reason and
    message, conditions of other types are untouched; after removing, there is none of that type. *)

From Stdlib Require Import ZArith Lia.
From stdpp Require Import base numbers strings pretty sorting gmap list.
From S2P Require Import Prelude GoStrings Types Naming.

Open Scope Z_scope.

(** time.Now(). *)
Class Clock (W : Type) := time_Now : go W Time.

(** The [Time] argument is the clock reading SetStatusCondition takes for a transition. *)
Class ConditionsAPI := {
  SetStatusCondition : Time → list Condition → Condition → list Condition;
  RemoveStatusCondition : list Condition → string → list Condition;
}.

Definition findCondition (conds : list Condition) (ty : string) : option Condition :=
  snd <$> list_find (λ c, cond_Type c = ty) conds.

(** What a reader of the status sees of a condition, its transition time aside. *)
Definition conditionIs (conds : list Condition) (ty : string) (active : bool) (reason msg : string) : Prop :=
  ∃ c, findCondition conds ty = Some c ∧ cond_Status c = active ∧ cond_Reason c = reason ∧
       cond_Message c = msg.

Class ConditionsLaws `{!ConditionsAPI} : Prop := {
  set_same : ∀ now conds c,
    conditionIs (SetStatusCondition now conds c) (cond_Type c) (cond_Status c) (cond_Reason c) (cond_Message c);
  set_other : ∀ now conds c ty, ty ≠ cond_Type c →
    findCondition (SetStatusCondition now conds c) ty = findCondition conds ty;
  remove_same : ∀ conds ty, findCondition (RemoveStatusCondition conds ty) ty = None;
  remove_other : ∀ conds ty ty', ty' ≠ ty →
    findCondition (RemoveStatusCondition conds ty) ty' = findCondition conds ty';
}.

(** Setting a condition to the status, reason and message it already has changes nothing: the transition
    time moves only with the status.  Nor does removing a condition that is not there. *)
Class ConditionsStable `{!ConditionsAPI} : Prop := {
  set_unchanged : ∀ now conds c,
    conditionIs conds (cond_Type c) (cond_Status c) (cond_Reason c) (cond_Message c) →
    SetStatusCondition now conds c = conds;
  remove_absent : ∀ conds ty, findCondition conds ty = None → RemoveStatusCondition conds ty = conds;
}.

Section conditions.
Context `{!ConditionsAPI}.

Definition setCondition (now : Time) (status : KahunaClusterStatus) (condType : string) (active : bool)
    (trueReason falseReason message : string) : KahunaClusterStatus :=
  let reason := if active then trueReason else falseReason in
  status <| st_Conditions :=
    SetStatusCondition now (st_Conditions status) (mkCondition condType active zero_time reason message) |>.

Lemma setCondition_is `{!ConditionsLaws} now status ty active tr fr msg :
  conditionIs (st_Conditions (setCondition now status ty active tr fr msg)) ty active
    (if active then tr else fr) msg.
Proof. apply (set_same now (st_Conditions status) (mkCondition ty active zero_time _ msg)). Qed.

Lemma setCondition_other `{!ConditionsLaws} now status ty active tr fr msg ty' :
  ty' ≠ ty →
  findCondition (st_Conditions (setCondition now status ty active tr fr msg)) ty' =
  findCondition (st_Conditions status) ty'.
Proof. intros. simpl. by rewrite set_other. Qed.

Lemma conditionIs_other `{!ConditionsLaws} now status ty active tr fr msg ty' a r m :
  ty' ≠ ty → conditionIs (st_Conditions status) ty' a r m →
  conditionIs (st_Conditions (setCondition now status ty active tr fr msg)) ty' a r m.
Proof. unfold conditionIs. intros. by rewrite setCondition_other. Qed.
End conditions.

(** ** A concrete implementation, for the witnesses: replace in place or append. *)

Fixpoint replaceCondition (now : Time) (conds : list Condition) (c : Condition) : list Condition :=
  match conds with
  | [] => [c <| cond_LastTransitionTime := now |>]
  | d :: rest =>
      if decide (cond_Type d = cond_Type c) then
        (c <| cond_LastTransitionTime :=
           if Bool.eqb (cond_Status d) (cond_Status c) then cond_LastTransitionTime d else now |>) :: rest
      else d :: replaceCondition now rest c
  end.

Definition plainConditions : ConditionsAPI := {|
  SetStatusCondition := replaceCondition;
  RemoveStatusCondition conds ty := filter (λ c, cond_Type c ≠ ty) conds;
|}.

Lemma findCondition_cons c conds ty :
  findCondition (c :: conds) ty = if decide (cond_Type c = ty) then Some c else findCondition conds ty.
Proof.
  unfold findCondition. simpl. case_decide; [done|].
  by destruct (list_find _ conds) as [[? ?]|].
Qed.

Lemma plainConditions_laws : @ConditionsLaws plainConditions.
Proof.
  split; simpl.
  - intros now conds c. unfold conditionIs. induction conds as [|d conds IH]; simpl.
    + rewrite findCondition_cons, decide_True by done. by eexists.
    + case_decide; rewrite findCondition_cons; simpl.
      * rewrite decide_True by done. by eexists.
      * by rewrite decide_False by done.
  - intros now conds c ty Hne. induction conds as [|d conds IH]; simpl.
    + rewrite findCondition_cons. simpl. by rewrite decide_False by congruence.
    + case_decide; rewrite !findCondition_cons; simpl.
      * by rewrite !decide_False by congruence.
      * by rewrite IH.
  - intros conds ty. induction conds as [|d conds IH]; [done|]. rewrite filter_cons.
    case_decide; [|done]. rewrite findCondition_cons. by rewrite decide_False.
  - intros conds ty ty' Hne. induction conds as [|d conds IH]; [done|]. rewrite filter_cons.
    case_decide; rewrite !findCondition_cons, IH; [done|]. by rewrite decide_False by congruence.
Qed.

Lemma plainConditions_stable : @ConditionsStable plainConditions.
Proof.
  split.
  - intros now conds c (d & Hf & Hs & Hr & Hm). simpl. induction conds as [|e conds IH]; [done|].
    rewrite findCondition_cons in Hf. simpl. case_decide as Ht.
    + injection Hf as ->. rewrite Hs. f_equal. destruct c, d; simpl in *. subst. by rewrite Bool.eqb_reflx.
    + by rewrite IH.
  - intros conds ty. simpl. induction conds as [|e conds IH]; [done|]. rewrite findCondition_cons, filter_cons.
    case_decide as Ht; [done|]. intros Hf. rewrite decide_True by done. by rewrite IH.
Qed.
