(* ===== verification/Autoscaler.v ===== *)
(** * The autoscaler (internal/controller/autoscaler.go)

    Counter readings become rates ([observeSample], [measure]), a decision is made from them
    ([decideAutoscale]) and recorded in the status of the cluster ([reconcileAutoscaling]).  The
    sampler the source keeps behind a mutex is passed along explicitly.  Proved: the size stays inside
    its bounds and moves by one node, only on a converged cluster, only when the recommendation held
    for the whole stabilization window (over every history of decisions), never down on a partial
    view of the traffic and never up past the replication ceiling; a rate always comes from two
    readings of one pod far enough apart; the sampler holds exactly the pods that are alive. *)

From Stdlib Require Import ZArith Lia.
From stdpp Require Import base numbers strings pretty sorting gmap list.
From S2P Require Import Prelude GoStrings Types Naming GoFloat Kahuna Placement Roster Plan Conditions.

Open Scope Z_scope.

(** ** Constants *)

Definition metricWritesAdmitted : string := "kahuna.kv.write.admitted".
Definition metricClientQueueDepth : string := "raft.executor.client_queue_depth".
Definition minSampleInterval : Duration := 10 * Second.
Definition requeueAutoscaling : Duration := 15 * Second.
Definition defaultScaleUpStabilization : Duration := 60 * Second.
Definition defaultScaleDownStabilization : Duration := 300 * Second.
Definition defaultTolerancePercent : Z := 10.
Definition placementSettleTimeout : Duration := 5 * Minute.

(** ** The traffic sampler *)

Record podSample := mkPodSample {
  ps_writesTotal : float64;
  ps_monotonicMs : Z;
  ps_rate : float64;
  ps_hasRate : bool;
}.

(** types.NamespacedName as (namespace, name). *)
Abbreviation NamespacedName := (string * string)%type.
Definition clusterKey (cluster : KahunaCluster) : NamespacedName := (kc_Namespace cluster, kc_Name cluster).

(** The map of the samples of one cluster, by pod UID, and the map of those. *)
Abbreviation samples := (gmap string podSample).
Abbreviation trafficSampler := (gmap NamespacedName samples).

Definition observeSample (ss : samples) (uid : string) (total : float64) (monotonicMs : Z)
    : samples * (float64 * bool) :=
  match ss !! uid with
  | None => (<[uid := mkPodSample total monotonicMs fzero false]> ss, (fzero, false))
  | Some prev =>
      if fltb total (ps_writesTotal prev) || (monotonicMs <=? ps_monotonicMs prev) then
        (<[uid := mkPodSample total monotonicMs fzero false]> ss, (fzero, false))
      else if i64 (i64 (monotonicMs - ps_monotonicMs prev) * Millisecond) <? minSampleInterval then
        (ss, (ps_rate prev, ps_hasRate prev))
      else
        let rate := fdiv (fsub total (ps_writesTotal prev))
                      (fdiv (f_of_Z (i64 (monotonicMs - ps_monotonicMs prev))) (f_of_Z 1000)) in
        (<[uid := mkPodSample total monotonicMs rate true]> ss, (rate, true))
  end.

Record trafficSignal := mkSignal {
  sig_writesPerNode : option float64;
  sig_queuePerNode : option float64;
}.

Definition noSignal : trafficSignal := mkSignal None None.

(** The pods whose metrics are read. *)
Definition metricsReady (p : Pod) : bool :=
  negb (String.eqb (pod_PodIP p) "") && is_nil (pod_DeletionTimestamp p) && podIsReady p.

(** The body of the loop over the readings: writes, queue, whether every rate is known, samples. *)
Definition sampleReading (acc : float64 * float64 * bool * samples) (r : Pod * Metrics)
    : float64 * float64 * bool * samples :=
  let '(writes, queue, known, ss) := acc in
  let '(pod, m) := r in
  let total := (CounterTotal m metricWritesAdmitted).1 in
  let depth := (GaugeSum m metricClientQueueDepth).1 in
  let '(ss', (rate, ok)) := observeSample ss (pod_UID pod) total (mt_MonotonicMs m) in
  (fadd writes rate, fadd queue depth, known && ok, ss').

(** What happens under the lock: the readings are turned into a signal, and the samples of pods that
    are gone are dropped. *)
Definition sampleReadings (ss : samples) (readings : list (Pod * Metrics)) : trafficSignal * samples :=
  let '(writes, queue, known, ss') := foldl sampleReading (fzero, fzero, true, ss) readings in
  let live : gset string := list_to_set ((λ r, pod_UID r.1) <$> readings) in
  let n := f_of_Z (length readings) in
  (mkSignal (if known then Some (fdiv writes n) else None) (Some (fdiv queue n)),
   filter (λ kv, kv.1 ∈ live) ss').

Definition forget (s : trafficSampler) (key : NamespacedName) : trafficSampler := delete key s.

(** ** The decision *)

Record autoscaleInput := mkAutoscaleInput {
  in_spec : AutoscalingSpec;
  in_prev : option AutoscalingStatus;
  in_initial : Z;
  in_signal : trafficSignal;
  in_converged : bool;
  in_growthCeiling : Z;
  in_ceilingReason : string;
  in_now : Time;
}.

Record autoscaleDecision := mkAutoscaleDecision {
  ad_status : AutoscalingStatus;
  ad_limited : bool;
  ad_reason : string;
}.

#[export] Instance eta_autoscaleDecision : Eta autoscaleDecision := λ r,
  mkAutoscaleDecision (ad_status r) (ad_limited r) (ad_reason r).

Definition secondsOr (v : option Z) (fallback : Duration) : Duration :=
  match v with None => fallback | Some v => i64 (v * Second) end.

(** Conversions that leave the range of their type are implementation-dependent: [oob]. *)
Class Conversions := oob : float64 → Z.

Section decision.
Context `{!Conversions}.

Definition roundedPtr (v : option float64) : option Z :=
  match v with None => None | Some v => Some (f_to_i64 oob (f_round v)) end.

(** The state the decision starts from: the previous one, its size defaulted and brought into the
    bounds of the spec. *)
Definition startStatus (inp : autoscaleInput) : AutoscalingStatus :=
  let st := match in_prev inp with Some prev => prev | None => zero_AutoscalingStatus end in
  let st := if ast_DesiredReplicas st =? 0 then st <| ast_DesiredReplicas := in_initial inp |> else st in
  let clamped := Z.min (Z.max (ast_DesiredReplicas st) (as_MinReplicas (in_spec inp)))
                   (as_MaxReplicas (in_spec inp)) in
  let st := if negb (clamped =? ast_DesiredReplicas st) then
              st <| ast_DesiredReplicas := clamped |> <| ast_LastScaleTime := Some (in_now inp) |>
            else st in
  st <| ast_WritesPerSecondPerNode := roundedPtr (sig_writesPerNode (in_signal inp)) |>
     <| ast_QueueDepthPerNode := roundedPtr (sig_queuePerNode (in_signal inp)) |>.

(** One target against its signal: the ratio, if both are known, and whether the signal is missing. *)
Definition targetRatio (target : option Z) (v : option float64) : list float64 * bool :=
  match target with
  | None => ([], true)
  | Some t => match v with
              | Some x => ([fdiv x (f_of_Z t)], true)
              | None => ([], false)
              end
  end.

Definition ratios (inp : autoscaleInput) : list float64 * bool :=
  let '(r1, k1) := targetRatio (as_TargetWritesPerSecond (in_spec inp)) (sig_writesPerNode (in_signal inp)) in
  let '(r2, k2) := targetRatio (as_TargetQueueDepth (in_spec inp)) (sig_queuePerNode (in_signal inp)) in
  (r1 ++ r2, k1 && k2).

Definition tolerance (spec : AutoscalingSpec) : float64 :=
  match as_TolerancePercent spec with
  | None => fdiv (f_of_Z defaultTolerancePercent) (f_of_Z 100)
  | Some t => fdiv (f_of_Z t) (f_of_Z 100)
  end.

(** The recommended size. *)
Definition recommend (spec : AutoscalingSpec) (current : Z) (ratio : float64) (allKnown : bool) : Z :=
  let rec := if fltb (tolerance spec) (fabs (fsub ratio (f_of_Z 1)))
             then f_to_i32 oob (f_ceil (fmul (f_of_Z current) ratio)) else current in
  let rec := if (rec <? current) && negb allKnown then current else rec in
  Z.min (Z.max rec (as_MinReplicas spec)) (as_MaxReplicas spec).

Definition decideAutoscale (inp : autoscaleInput) : autoscaleDecision :=
  let spec := in_spec inp in
  let st := startStatus inp in
  let current := ast_DesiredReplicas st in
  let hold reason :=
    mkAutoscaleDecision
      (st <| ast_RecommendedReplicas := current |>
          <| ast_AboveTargetSince := None |> <| ast_BelowTargetSince := None |>)
      (negb (String.eqb reason "")) reason in
  if negb (in_converged inp) then hold ""
  else
    match ratios inp with
    | ([], _) => hold "no traffic signal is available yet"
    | (r0 :: rest, allKnown) =>
        let ratio := foldl fmax r0 rest in
        let rec := recommend spec current ratio allKnown in
        let st := st <| ast_RecommendedReplicas := rec |> in
        let now := in_now inp in
        let upWindow := secondsOr (as_ScaleUpStabilizationSeconds spec) defaultScaleUpStabilization in
        let downWindow := secondsOr (as_ScaleDownStabilizationSeconds spec) defaultScaleDownStabilization in
        let finish st :=
          if (rec =? as_MaxReplicas spec) && fltb (fadd (f_of_Z 1) (tolerance spec)) ratio then
            mkAutoscaleDecision st true
              ("traffic asks for more than maxReplicas (" +:+ itoa (as_MaxReplicas spec) +:+ ")")
          else mkAutoscaleDecision st false "" in
        if current <? rec then
          let st := st <| ast_BelowTargetSince := None |> in
          if (0 <? in_growthCeiling inp) && (in_growthCeiling inp <=? current) then
            mkAutoscaleDecision (st <| ast_AboveTargetSince := None |>) true (in_ceilingReason inp)
          else
            let since := default now (ast_AboveTargetSince st) in
            let st := st <| ast_AboveTargetSince := Some since |> in
            finish (if upWindow <=? time_sub now since then
                      st <| ast_DesiredReplicas := i32 (current + 1) |>
                         <| ast_LastScaleTime := Some now |> <| ast_AboveTargetSince := None |>
                    else st)
        else if rec <? current then
          let st := st <| ast_AboveTargetSince := None |> in
          let since := default now (ast_BelowTargetSince st) in
          let st := st <| ast_BelowTargetSince := Some since |> in
          finish (if downWindow <=? time_sub now since then
                    st <| ast_DesiredReplicas := i32 (current - 1) |>
                       <| ast_LastScaleTime := Some now |> <| ast_BelowTargetSince := None |>
                  else st)
        else finish (st <| ast_AboveTargetSince := None |> <| ast_BelowTargetSince := None |>)
    end.
End decision.

(** ** One pass *)

Section effects.
Context {W : Type} `{!Client W, !Clock W, !Conversions, !ConditionsAPI}.

(** Every ready pod must answer; the first error ends the reading. *)
Fixpoint readMetrics (cluster : KahunaCluster) (ready : list Pod) : go W (result (list (Pod * Metrics))) :=
  match ready with
  | [] => mret (Ok [])
  | pod :: rest =>
      r ← client_Metrics (podBaseURL cluster pod);
      match r with
      | Err e => mret (Err (ErrorWrap ("reading metrics from " +:+ pod_Name pod +:+ ": ") e))
      | Ok m =>
          rs ← readMetrics cluster rest;
          mret match rs with
          | Err e => Err e
          | Ok l => Ok ((pod, m) :: l)
          end
      end
  end.

Definition measure (cluster : KahunaCluster) (pods : list Pod) (traffic : trafficSampler)
    : go W (result trafficSignal * trafficSampler) :=
  let ready := filter (λ p, metricsReady p = true) pods in
  if (length ready =? 0)%nat then
    mret (Err (ErrorText "no ready pod to read metrics from"), traffic)
  else
    rs ← readMetrics cluster ready;
    mret match rs with
    | Err e => (Err e, traffic)
    | Ok readings =>
        let '(sig, ss) := sampleReadings (default ∅ (traffic !! clusterKey cluster)) readings in
        (Ok sig, <[clusterKey cluster := ss]> traffic)
    end.

(** The pods the cluster is being sized to. *)
Definition sizedPods (current : Z) (pods : list Pod) : list Pod :=
  filter (λ p, 0 ≤ ordinalOf (pod_Name p) < current) pods.

Definition readyCount (pods : list Pod) : Z :=
  i32 (length (filter (λ p, podIsReady p = true ∧ pod_DeletionTimestamp p = None) pods)).

(** [converged] and [waiting] of the source: is the previous step finished, and if only the
    placement is missing, what it is waiting for. *)
Definition convergence (cluster : KahunaCluster) (bootstrapped : bool) (membership : option Membership)
    (placement : option Placement) (placementErr : option error) (members : list Pod) (now : Time)
    : option (bool * string) :=
  let current := desiredReplicas cluster in
  let converged := bootstrapped && rosterMatches cluster membership current
                   && (readyCount members =? current) in
  if converged then
    match placementErr with
    | Some e => Some (false, "replica placement could not be read: " +:+ error_Error e)
    | None =>
        let settleBy :=
          as_ ← st_Autoscaling (kc_Status cluster);
          t ← ast_LastScaleTime as_;
          mret (time_add t placementSettleTimeout) in
        placementConverged cluster placement current now settleBy
    end
  else Some (false, "").

Definition setAutoscaling (cluster : KahunaCluster) (d : autoscaleDecision) (condNow : Time) : KahunaCluster :=
  let st := (kc_Status cluster) <| st_Autoscaling := Some (ad_status d) |> in
  let msg := if String.eqb (ad_reason d) "" then
               "desired " +:+ itoa (ast_DesiredReplicas (ad_status d)) +:+ ", recommended "
                 +:+ itoa (ast_RecommendedReplicas (ad_status d))
             else ad_reason d in
  cluster <| kc_Status := setCondition condNow st ConditionAutoscalingLimited (ad_limited d)
                            "Limited" "WithinLimits" msg |>.

Definition reconcileAutoscaling (cluster : KahunaCluster) (bootstrapped : bool)
    (membership : option Membership) (placement : option Placement) (placementErr : option error)
    (pods : list Pod) (traffic : trafficSampler) : go W (KahunaCluster * trafficSampler) :=
  match spec_Autoscaling (kc_Spec cluster) with
  | None =>
      mret (cluster <| kc_Status := (kc_Status cluster) <| st_Autoscaling := None |>
              <| st_Conditions := RemoveStatusCondition (st_Conditions (kc_Status cluster))
                                    ConditionAutoscalingLimited |> |>,
            forget traffic (clusterKey cluster))
  | Some spec =>
      let current := desiredReplicas cluster in
      let members := sizedPods current pods in
      now ← time_Now;
      '(converged, waiting) ← go_lift (convergence cluster bootstrapped membership placement
                                         placementErr members now);
      let inp signal ceiling reason :=
        mkAutoscaleInput spec (st_Autoscaling (kc_Status cluster))
          (initialAutoscaledReplicas cluster spec) signal converged ceiling reason now in
      '(d, traffic') ←
        (if converged : bool then
           '(m, traffic') ← measure cluster members traffic;
           '(ceiling, creason) ← go_lift (growthCeiling placement);
           mret match m with
           | Err e =>
               ((decideAutoscale (inp noSignal ceiling creason))
                  <| ad_limited := true |>
                  <| ad_reason := "traffic metrics could not be read: " +:+ error_Error e |>, traffic')
           | Ok sig =>
               let d := decideAutoscale (inp sig ceiling creason) in
               (if String.eqb waiting "" then d
                else d <| ad_reason := "waiting for replica placement to settle: " +:+ waiting |>,
                traffic')
           end
         else
           let d := decideAutoscale (inp noSignal 0 "") in
           mret (if String.eqb waiting "" then d
                 else d <| ad_reason := "waiting for replica placement to settle: " +:+ waiting |>,
                 traffic));
      condNow ← time_Now;
      mret (setAutoscaling cluster d condNow, traffic')
  end.
End effects.

(** ** What a decision can be *)

Section decision_spec.
Context `{!Conversions}.

(** The size the decision starts from. *)
Definition currentSize (inp : autoscaleInput) : Z := ast_DesiredReplicas (startStatus inp).

Definition upWindow (spec : AutoscalingSpec) : Duration :=
  secondsOr (as_ScaleUpStabilizationSeconds spec) defaultScaleUpStabilization.
Definition downWindow (spec : AutoscalingSpec) : Duration :=
  secondsOr (as_ScaleDownStabilizationSeconds spec) defaultScaleDownStabilization.

(** Every target of the spec has a signal on this pass. *)
Definition fullView (inp : autoscaleInput) : Prop :=
  (is_Some (as_TargetWritesPerSecond (in_spec inp)) → is_Some (sig_writesPerNode (in_signal inp))) ∧
  (is_Some (as_TargetQueueDepth (in_spec inp)) → is_Some (sig_queuePerNode (in_signal inp))).

Inductive decided (inp : autoscaleInput) (st : AutoscalingStatus) : Prop :=
  | decided_stay :
      ast_DesiredReplicas st = currentSize inp →
      ast_AboveTargetSince st = None → ast_BelowTargetSince st = None →
      (ast_RecommendedReplicas st = currentSize inp ∨
       currentSize inp < ast_RecommendedReplicas st ∧ 0 < in_growthCeiling inp ≤ currentSize inp) →
      decided inp st
  | decided_up since :
      in_converged inp = true →
      currentSize inp < ast_RecommendedReplicas st →
      (in_growthCeiling inp ≤ 0 ∨ currentSize inp < in_growthCeiling inp) →
      since = default (in_now inp) (ast_AboveTargetSince (startStatus inp)) →
      ast_BelowTargetSince st = None →
      (upWindow (in_spec inp) ≤ time_sub (in_now inp) since ∧
         ast_DesiredReplicas st = i32 (currentSize inp + 1) ∧ ast_AboveTargetSince st = None ∨
       time_sub (in_now inp) since < upWindow (in_spec inp) ∧
         ast_DesiredReplicas st = currentSize inp ∧ ast_AboveTargetSince st = Some since) →
      decided inp st
  | decided_down since :
      in_converged inp = true →
      ast_RecommendedReplicas st < currentSize inp →
      (ratios inp).2 = true →
      since = default (in_now inp) (ast_BelowTargetSince (startStatus inp)) →
      ast_AboveTargetSince st = None →
      (downWindow (in_spec inp) ≤ time_sub (in_now inp) since ∧
         ast_DesiredReplicas st = i32 (currentSize inp - 1) ∧ ast_BelowTargetSince st = None ∨
       time_sub (in_now inp) since < downWindow (in_spec inp) ∧
         ast_DesiredReplicas st = currentSize inp ∧ ast_BelowTargetSince st = Some since) →
      decided inp st.

Lemma currentSize_bounds inp :
  as_MinReplicas (in_spec inp) ≤ as_MaxReplicas (in_spec inp) →
  as_MinReplicas (in_spec inp) ≤ currentSize inp ≤ as_MaxReplicas (in_spec inp).
Proof.
  intros Hb. unfold currentSize, startStatus. simpl.
  set (st := if ast_DesiredReplicas _ =? 0 then _ else _).
  destruct (Z.eqb_spec (Z.min (Z.max (ast_DesiredReplicas st) (as_MinReplicas (in_spec inp)))
    (as_MaxReplicas (in_spec inp))) (ast_DesiredReplicas st)); simpl; lia.
Qed.

Lemma recommend_bounds spec cur ratio known :
  as_MinReplicas spec ≤ as_MaxReplicas spec →
  as_MinReplicas spec ≤ recommend spec cur ratio known ≤ as_MaxReplicas spec.
Proof. unfold recommend. lia. Qed.

Lemma recommend_partial spec cur ratio :
  as_MinReplicas spec ≤ cur ≤ as_MaxReplicas spec → cur ≤ recommend spec cur ratio false.
Proof.
  unfold recommend. intros.
  destruct (fltb _ _); simpl; [destruct (Z.ltb_spec (f_to_i32 oob (f_ceil (fmul (f_of_Z cur) ratio))) cur)|];
    simpl; rewrite ?andb_false_r; try lia. destruct (cur <? cur); simpl; lia.
Qed.

#[local] Arguments startStatus : simpl never.
#[local] Arguments recommend : simpl never.

#[local] Ltac stay Hst :=
  split; [apply decided_stay; unfold currentSize; rewrite ?Hst; bsimpl; simpl; auto with lia|simpl; lia].

(** Every decision is one of these, and recommends a size inside the bounds. *)
Lemma decideAutoscale_decided inp :
  as_MinReplicas (in_spec inp) ≤ as_MaxReplicas (in_spec inp) →
  decided inp (ad_status (decideAutoscale inp)) ∧
  as_MinReplicas (in_spec inp) ≤ ast_RecommendedReplicas (ad_status (decideAutoscale inp))
    ≤ as_MaxReplicas (in_spec inp).
Proof.
  intros Hb. pose proof (currentSize_bounds inp Hb) as Hcur. unfold decideAutoscale.
  fold (upWindow (in_spec inp)) (downWindow (in_spec inp)).
  unfold currentSize in Hcur. destruct (startStatus inp) as [cur r w q above below last] eqn:Hst.
  cbn in Hcur. cbn [ast_DesiredReplicas].
  destruct (in_converged inp) eqn:Hc; cbn [negb]; [|stay Hst].
  destruct (ratios inp) as [[|r0 rest] known] eqn:Hr; [stay Hst|].
  set (ratio := foldl fmax r0 rest).
  pose proof (recommend_bounds (in_spec inp) cur ratio known Hb) as Hrec.
  assert (known = false → cur ≤ recommend (in_spec inp) cur ratio known) as Hpart.
  { intros ->. by apply recommend_partial. }
  set (rec := recommend (in_spec inp) cur ratio known) in *. 
  set (over := (rec =? _) && _). clearbody rec ratio over.
  destruct (Z.ltb_spec cur rec) as [Hup|Hnup].
  { destruct ((0 <? in_growthCeiling inp) && (in_growthCeiling inp <=? cur)) eqn:Hg; [stay Hst|].
    assert (in_growthCeiling inp ≤ 0 ∨ cur < in_growthCeiling inp)
      by (apply andb_false_iff in Hg as [Hg|Hg]; bsimpl; lia).
    simpl. destruct (Z.leb_spec (upWindow (in_spec inp)) (time_sub (in_now inp) (default (in_now inp) above)));
      (destruct over; simpl; (split; [|lia]);
       apply (decided_up inp _ (default (in_now inp) above)); unfold currentSize; rewrite ?Hst; simpl; auto). }
  destruct (Z.ltb_spec rec cur) as [Hdown|Hndown].
  { assert (known = true) by (destruct known; [done|]; specialize (Hpart eq_refl); lia).
    simpl. destruct (Z.leb_spec (downWindow (in_spec inp)) (time_sub (in_now inp) (default (in_now inp) below)));
      (destruct over; simpl; (split; [|lia]);
       apply (decided_down inp _ (default (in_now inp) below)); unfold currentSize; rewrite ?Hst, ?Hr; simpl; auto). }
  destruct over; stay Hst.
Qed.

Lemma ratios_fullView inp : (ratios inp).2 = true ↔ fullView inp.
Proof.
  unfold ratios, fullView, targetRatio.
  destruct (as_TargetWritesPerSecond _), (as_TargetQueueDepth _), (sig_writesPerNode _),
    (sig_queuePerNode _); simpl; rewrite <- ?not_eq_None_Some; naive_solver.
Qed.
End decision_spec.

(** ** Histories of decisions *)

Inductive direction := Up | Down.

Definition clock (d : direction) (st : AutoscalingStatus) : option Time :=
  match d with Up => ast_AboveTargetSince st | Down => ast_BelowTargetSince st end.
Definition beyond (d : direction) (size rec : Z) : Prop :=
  match d with Up => size < rec | Down => rec < size end.
Definition moved (d : direction) (size : Z) : Z := match d with Up => size + 1 | Down => size - 1 end.
Definition window (d : direction) (spec : AutoscalingSpec) : Duration :=
  match d with Up => upWindow spec | Down => downWindow spec end.

(** The optional windows, as the API server validates them. *)
Definition valid_windows (spec : AutoscalingSpec) : Prop :=
  (∀ v, as_ScaleUpStabilizationSeconds spec = Some v → 0 ≤ v < two31) ∧
  (∀ v, as_ScaleDownStabilizationSeconds spec = Some v → 0 ≤ v < two31).

(** What one pass feeds the decision, besides the spec and the previous state. *)
Record observation := mkObservation {
  ob_signal : trafficSignal;
  ob_converged : bool;
  ob_ceiling : Z;
  ob_ceilingReason : string;
  ob_now : Time;
}.

Definition inputOf (spec : AutoscalingSpec) (initial : Z) (prev : option AutoscalingStatus)
    (ob : observation) : autoscaleInput :=
  mkAutoscaleInput spec prev initial (ob_signal ob) (ob_converged ob) (ob_ceiling ob)
    (ob_ceilingReason ob) (ob_now ob).

Definition entry : Type := observation * AutoscalingStatus.

(** The saturating difference of two instants reaches a window only when the difference does. *)
Lemma time_sub_window w t u : 0 ≤ w < two63 → w ≤ time_sub t u → w ≤ t - u.
Proof. unfold time_sub, clamp. range. Qed.

Lemma secondsOr_window v fallback :
  0 ≤ fallback < two63 → (∀ x, v = Some x → 0 ≤ x < two31) → 0 ≤ secondsOr v fallback < two63.
Proof.
  intros Hf Hv. destruct v as [x|]; simpl; [|done]. specialize (Hv x eq_refl).
  unfold Second. rewrite i64_id; range.
Qed.

Lemma window_nonneg d spec : valid_windows spec → 0 ≤ window d spec < two63.
Proof. intros [? ?]. destruct d; apply secondsOr_window; done. Qed.

Section histories.
Context `{!Conversions} (spec : AutoscalingSpec) (initial : Z).

Definition prevStatus (l : list entry) : option AutoscalingStatus := snd <$> head l.

(** The decisions of successive passes, the newest first, each starting from the state the one
    before it left. *)
Inductive history : list entry → Prop :=
  | history_nil : history []
  | history_pass l ob :
      history l →
      history ((ob, ad_status (decideAutoscale (inputOf spec initial (prevStatus l) ob))) :: l).

(** A run of passes that kept recommending a size beyond [size], the oldest at time [since]. *)
Definition heldRun (d : direction) (size : Z) (since : Time) (run : list entry) : Prop :=
  (∃ e, last run = Some e ∧ ob_now e.1 = since) ∧
  Forall (λ e, ob_converged e.1 = true ∧ beyond d size (ast_RecommendedReplicas e.2)) run.

Lemma decided_clock d inp st since :
  decided inp st → clock d st = Some since →
  in_converged inp = true ∧ beyond d (currentSize inp) (ast_RecommendedReplicas st) ∧
  ast_DesiredReplicas st = currentSize inp ∧ since = default (in_now inp) (clock d (startStatus inp)).
Proof.
  destruct d; simpl; intros [? Ha Hb ?|s ? ? ? ? Hb [(? & ? & Ha)|(? & ? & Ha)]|s ? ? ? ? Ha [(? & ? & Hb)|(? & ? & Hb)]] Hs;
    simplify_eq/=; try congruence; split_and!; congruence.
Qed.

Lemma decided_moved d inp st :
  decided inp st → is_i32 (currentSize inp) → is_i32 (ast_RecommendedReplicas st) →
  ast_DesiredReplicas st = moved d (currentSize inp) →
  in_converged inp = true ∧ beyond d (currentSize inp) (ast_RecommendedReplicas st) ∧
  window d (in_spec inp) ≤ time_sub (in_now inp) (default (in_now inp) (clock d (startStatus inp))).
Proof.
  intros [Hd ? ? ?|s ? ? ? -> ? [(? & Hd & ?)|(? & Hd & ?)]|s ? ? ? -> ? [(? & Hd & ?)|(? & Hd & ?)]] Hr Hr';
    rewrite Hd, ?i32_id by range; destruct d; simpl; intros; try lia; done.
Qed.

Lemma startStatus_clock d inp :
  clock d (startStatus inp) = in_prev inp ≫= clock d.
Proof.
  unfold startStatus. destruct d, (in_prev inp) as [p|]; simpl; repeat case_match; done.
Qed.

Lemma startStatus_size inp :
  currentSize inp =
  clamp (as_MinReplicas (in_spec inp)) (as_MaxReplicas (in_spec inp))
    (match in_prev inp with
     | Some p => if ast_DesiredReplicas p =? 0 then in_initial inp else ast_DesiredReplicas p
     | None => in_initial inp
     end).
Proof.
  unfold currentSize, startStatus, clamp.
  destruct (in_prev inp) as [p|]; simpl;
    [destruct (Z.eqb_spec (ast_DesiredReplicas p) 0)|]; simpl;
    match goal with |- context [negb (?a =? ?b)] => destruct (Z.eqb_spec a b) as [He|He] end; simpl; auto.
Qed.

Context (Hspec : valid_autoscaling spec).

Lemma decide_bounds prev ob :
  let st := ad_status (decideAutoscale (inputOf spec initial prev ob)) in
  let cur := currentSize (inputOf spec initial prev ob) in
  decided (inputOf spec initial prev ob) st ∧
  as_MinReplicas spec ≤ cur ≤ as_MaxReplicas spec ∧
  as_MinReplicas spec ≤ ast_RecommendedReplicas st ≤ as_MaxReplicas spec ∧
  as_MinReplicas spec ≤ ast_DesiredReplicas st ≤ as_MaxReplicas spec ∧
  Z.abs (ast_DesiredReplicas st - cur) ≤ 1.
Proof.
  destruct Hspec as (? & ? & _).
  destruct (decideAutoscale_decided (inputOf spec initial prev ob)) as [Hd Hr]; [simpl; lia|].
  pose proof (currentSize_bounds (inputOf spec initial prev ob)) as Hc. simpl in *.
  split_and!; try done; try lia;
    destruct Hd as [Hd ? ? ?|s ? ? ? ? ? [(? & Hd & ?)|(? & Hd & ?)]|s ? ? ? ? ? [(? & Hd & ?)|(? & Hd & ?)]];
    rewrite Hd, ?i32_id by range; lia.
Qed.

(** A decision made right after another starts from the size the other left. *)
Lemma currentSize_next prev ob prev' ob' :
  let st := ad_status (decideAutoscale (inputOf spec initial prev ob)) in
  prev' = Some st → currentSize (inputOf spec initial prev' ob') = ast_DesiredReplicas st.
Proof.
  intros st ->. destruct (decide_bounds prev ob) as (_ & _ & _ & Hb & _). fold st in Hb.
  destruct Hspec as (? & ? & _). rewrite startStatus_size. simpl.
  assert ((ast_DesiredReplicas st =? 0) = false) as -> by (apply Z.eqb_neq; lia).
  apply clamp_id. lia.
Qed.

Lemma history_size l ob st :
  history l → prevStatus l = Some st →
  currentSize (inputOf spec initial (prevStatus l) ob) = ast_DesiredReplicas st.
Proof. intros [|l' ob' Hl] [= <-]. by eapply currentSize_next. Qed.

(** While a clock runs, the passes since it started all wanted the same step. *)
Lemma history_held d l since :
  history l → prevStatus l ≫= clock d = Some since →
  ∃ st run older, prevStatus l = Some st ∧ l = run ++ older ∧
    heldRun d (ast_DesiredReplicas st) since run ∧
    Forall (λ e, ast_DesiredReplicas e.2 = ast_DesiredReplicas st) run.
Proof.
  intros Hl. revert since. induction Hl as [|l ob Hl IH]; intros since Hs; [done|].
  set (inp := inputOf spec initial (prevStatus l) ob) in *. simpl in Hs.
  pose proof (decide_bounds (prevStatus l) ob) as (Hd & _). fold inp in Hd.
  set (st := ad_status (decideAutoscale inp)) in *.
  destruct (decided_clock d inp st since Hd Hs) as (Hc & Hb & Hz & ->).
  exists st. rewrite startStatus_clock in *. simpl in *.
  destruct (prevStatus l ≫= clock d) as [s|] eqn:E.
  - destruct (IH s eq_refl) as (st' & run & older & Hp & -> & [(e & Hlast & He) Hrun] & Hsize).
    assert (currentSize inp = ast_DesiredReplicas st') as Hcur.
    { by apply history_size. }
    exists ((ob, st) :: run), older. rewrite Hz, Hcur in *. split_and!; try done.
    + split; [|by constructor]. exists e. split; [|done]. by rewrite last_cons, Hlast.
    + by constructor.
  - exists [(ob, st)], l. rewrite Hz in *. split_and!; try done.
    + split; [by eexists|]. by repeat constructor.
    + by repeat constructor.
Qed.
End histories.

(** ** Properties of the decision *)

(** C12: a decision keeps the size and the recommendation inside the bounds of the spec and moves at
    most one node away from where it started (the previous size brought into the bounds).  It grows
    only on a converged cluster that was recommended to grow and is below the replication ceiling; it
    shrinks only on a converged cluster that was recommended to shrink with every signal of the spec
    known; and it steps whenever it may, once the window has passed. *)
Theorem decideAutoscale_safe `{!Conversions} inp :
  valid_autoscaling (in_spec inp) →
  let st := ad_status (decideAutoscale inp) in
  let size := currentSize inp in
  as_MinReplicas (in_spec inp) ≤ ast_DesiredReplicas st ≤ as_MaxReplicas (in_spec inp) ∧
  as_MinReplicas (in_spec inp) ≤ ast_RecommendedReplicas st ≤ as_MaxReplicas (in_spec inp) ∧
  Z.abs (ast_DesiredReplicas st - size) ≤ 1 ∧
  (size < ast_DesiredReplicas st →
     in_converged inp = true ∧ size < ast_RecommendedReplicas st ∧
     (in_growthCeiling inp ≤ 0 ∨ size < in_growthCeiling inp)) ∧
  (ast_DesiredReplicas st < size →
     in_converged inp = true ∧ ast_RecommendedReplicas st < size ∧ fullView inp) ∧
  (∀ d since, in_prev inp ≫= clock d = Some since →
     beyond d size (ast_RecommendedReplicas st) →
     (in_growthCeiling inp ≤ 0 ∨ size < in_growthCeiling inp) →
     window d (in_spec inp) ≤ time_sub (in_now inp) since →
     ast_DesiredReplicas st = moved d size).
Proof.
  intros Hs st size. rewrite <- ratios_fullView.
  destruct inp as [spec prev initial sig conv ceil creason now]; simpl in Hs.
  destruct (decide_bounds spec initial Hs prev (mkObservation sig conv ceil creason now))
    as (Hd & Hcur & Hrec & Hdes & Hmv).
  unfold inputOf in *. cbn [ob_signal ob_converged ob_ceiling ob_ceilingReason ob_now] in *.
  set (inp := mkAutoscaleInput _ _ _ _ _ _ _ _) in *. destruct Hs as (? & ? & _).
  fold st in Hd, Hdes, Hrec, Hmv. clearbody st.
  assert (size = currentSize inp) as Hz by done. clearbody size. subst size.
  change (in_spec inp) with spec.
  split_and!; try done; try lia.
  - destruct Hd as [Hd ? ? ?|s ? ? ? ? ? [(? & Hd & ?)|(? & Hd & ?)]|s ? ? ? ? ? [(? & Hd & ?)|(? & Hd & ?)]];
      intros Hlt; rewrite Hd, ?i32_id in Hlt by range; (exfalso; lia) || (split_and!; assumption).
  - destruct Hd as [Hd ? ? ?|s ? ? ? ? ? [(? & Hd & ?)|(? & Hd & ?)]|s ? ? ? ? ? [(? & Hd & ?)|(? & Hd & ?)]];
      intros Hlt; rewrite Hd, ?i32_id in Hlt by range; (exfalso; lia) || (split_and!; assumption).
  - intros d since Hp Hb Hg Hw. rewrite <- (startStatus_clock d inp) in Hp.
    destruct Hd as [Hd ? ? [?|[? ?]]|s ? ? ? Hs ? [(? & Hd & ?)|(? & Hd & ?)]|s ? ? ? Hs ? [(? & Hd & ?)|(? & Hd & ?)]];
      destruct d; simpl in *; try subst s; rewrite ?Hp in *; simpl in *;
      rewrite ?Hd, ?i32_id by range; lia.
Qed.

(** A spec and two passes used by the witnesses: 3 to 5 nodes, 1000 writes per second per node. *)
Definition demoAutoscaling : AutoscalingSpec := mkAutoscalingSpec 3 5 (Some 1000) None None None None.
Definition demoObservation (writes : Z) (now : Time) : observation :=
  mkObservation (mkSignal (Some (f_of_Z writes)) (Some fzero)) true 0 "" now.
#[local] Instance demoConversions : Conversions := λ _, 0.

Lemma valid_demoAutoscaling : valid_autoscaling demoAutoscaling.
Proof. unfold valid_autoscaling, two31. simpl. split_and!; try lia. left. by eexists. Qed.

Lemma decideAutoscale_safe_witness :
  let inp := inputOf demoAutoscaling 3 None (demoObservation 2000 Second) in
  as_MinReplicas (in_spec inp) ≤ ast_DesiredReplicas (ad_status (decideAutoscale inp)).
Proof.
  intros inp. exact (proj1 (proj1 (decideAutoscale_safe inp valid_demoAutoscaling))).
Defined.

(** C11: a size is changed only when the recommendation held for the whole stabilization window.  Over
    every history of passes: when a pass moves the size, the passes since some earlier one, at least
    a window ago, were all converged, all recommended a size beyond the current one in that
    direction, and none of them changed the size. *)
Theorem stabilization_window `{!Conversions} spec initial d l ob :
  valid_autoscaling spec → valid_windows spec → history spec initial l →
  let inp := inputOf spec initial (prevStatus l) ob in
  let st := ad_status (decideAutoscale inp) in
  ast_DesiredReplicas st = moved d (currentSize inp) →
  ∃ (run older : list entry) (first : entry), (ob, st) :: l = run ++ older ∧ last run = Some first ∧
    window d spec ≤ ob_now ob - ob_now first.1 ∧
    Forall (λ e, ob_converged e.1 = true ∧ beyond d (currentSize inp) (ast_RecommendedReplicas e.2)) run ∧
    Forall (λ e, ast_DesiredReplicas e.2 = currentSize inp) (tail run).
Proof.
  intros Hs Hw Hl inp st Hm.
  destruct (decide_bounds spec initial Hs (prevStatus l) ob) as (Hd & Hc & Hr & _ & _).
  fold inp in Hd, Hc, Hr. fold st in Hd, Hr.
  destruct (decided_moved d inp st Hd) as (Hconv & Hb & Hwin); [destruct Hs as (? & ? & _); range..|done|].
  rewrite startStatus_clock in Hwin. apply time_sub_window in Hwin; [|by apply window_nonneg].
  simpl in Hwin, Hconv. destruct (prevStatus l ≫= clock d) as [s|] eqn:E; simpl in Hwin.
  - destruct (history_held spec initial Hs d l s Hl E)
      as (st' & run & older & Hp & -> & [(e & Hlast & <-) Hrun] & Hsize).
    assert (currentSize inp = ast_DesiredReplicas st') as Hcur by (by apply history_size).
    exists ((ob, st) :: run), older, e. rewrite Hcur in *. rewrite last_cons, Hlast.
    split_and!; [done|done|done|by constructor|done].
  - exists [(ob, st)], l, (ob, st). split_and!; try done. by repeat constructor.
Qed.

Lemma stabilization_window_witness :
  let l : list entry := [(demoObservation 2000 Second, ad_status (decideAutoscale
             (inputOf demoAutoscaling 3 None (demoObservation 2000 Second))))] in
  let ob := demoObservation 2000 (61 * Second) in
  let st := ad_status (decideAutoscale (inputOf demoAutoscaling 3 (prevStatus l) ob)) in
  ast_DesiredReplicas st = 4 ∧
  ∃ (run older : list entry) (first : entry), (ob, st) :: l = run ++ older ∧ last run = Some first ∧
    window Up demoAutoscaling ≤ ob_now ob - ob_now first.1.
Proof.
  intros l ob st. split; [vm_compute; reflexivity|].
  destruct (stabilization_window demoAutoscaling 3 Up l ob) as (run & older & first & ? & ? & ? & _);
    [apply valid_demoAutoscaling|by split
    |exact (history_pass demoAutoscaling 3 [] (demoObservation 2000 Second) (history_nil _ _))
    |vm_compute; reflexivity|].
  by exists run, older, first.
Defined.

(** ** Properties of the sampler *)

(** The readings of one pod, oldest first, fed to the sampler. *)
Definition observed (ss : samples) (uid : string) (readings : list (float64 * Z)) : samples :=
  foldl (λ ss r, (observeSample ss uid r.1 r.2).1) ss readings.

(** A rate computed from two readings of one uninterrupted run of the counter and the clock. *)
Definition rateBetween (r1 r2 : float64 * Z) (rate : float64) : Prop :=
  fltb r2.1 r1.1 = false ∧ r1.2 < r2.2 ∧
  minSampleInterval ≤ i64 (i64 (r2.2 - r1.2) * Millisecond) ∧
  rate = fdiv (fsub r2.1 r1.1) (fdiv (f_of_Z (i64 (r2.2 - r1.2))) (f_of_Z 1000)).

(** What the sample kept for a pod says about the readings [seen] so far. *)
Definition sampleOf (seen : list (float64 * Z)) (s : podSample) : Prop :=
  (ps_writesTotal s, ps_monotonicMs s) ∈ seen ∧
  (ps_hasRate s = true → ∃ r1 r2, r1 ∈ seen ∧ r2 ∈ seen ∧ rateBetween r1 r2 (ps_rate s)).

Lemma observeSample_step ss uid seen total ms :
  (∀ s, ss !! uid = Some s → sampleOf seen s) →
  let '(ss', (rate, ok)) := observeSample ss uid total ms in
  (∀ s, ss' !! uid = Some s → sampleOf (seen ++ [(total, ms)]) s) ∧
  is_Some (ss' !! uid) ∧ (∀ u, u ≠ uid → ss' !! u = ss !! u) ∧
  (ok = true → ∃ r1 r2, r1 ∈ seen ++ [(total, ms)] ∧ r2 ∈ seen ++ [(total, ms)] ∧ rateBetween r1 r2 rate).
Proof.
  intros Hs. unfold observeSample.
  assert (∀ s, <[uid := mkPodSample total ms fzero false]> ss !! uid = Some s →
            sampleOf (seen ++ [(total, ms)]) s) as Hfresh.
  { intros s. rewrite lookup_insert_eq. intros [= <-]. split; [set_solver|done]. }
  destruct (ss !! uid) as [prev|] eqn:E; cycle 1.
  { simpl. split_and!; [exact Hfresh|rewrite lookup_insert_eq; eauto|intros; by apply lookup_insert_ne|done]. }
  destruct (fltb total (ps_writesTotal prev)) eqn:Hf; simpl.
  { simpl. split_and!; [exact Hfresh|rewrite lookup_insert_eq; eauto|intros; by apply lookup_insert_ne|done]. }
  destruct (Z.leb_spec ms (ps_monotonicMs prev)) as [|Hms].
  { simpl. split_and!; [exact Hfresh|rewrite lookup_insert_eq; eauto|intros; by apply lookup_insert_ne|done]. }
  destruct (Hs prev eq_refl) as [Hin Hrate].
  destruct (Z.ltb_spec (i64 (i64 (ms - ps_monotonicMs prev) * Millisecond)) minSampleInterval) as [|Hint].
  - assert (ps_hasRate prev = true → ∃ r1 r2, r1 ∈ seen ++ [(total, ms)] ∧
              r2 ∈ seen ++ [(total, ms)] ∧ rateBetween r1 r2 (ps_rate prev)) as Hrate'.
    { intros Hr. destruct (Hrate Hr) as (r1 & r2 & ? & ? & ?). exists r1, r2.
      rewrite !elem_of_app. auto. }
    rewrite E. split_and!; [|done|done|done]. intros s [= <-]. split; [apply elem_of_app; by left|done].
  - assert (∃ r1 r2, r1 ∈ seen ++ [(total, ms)] ∧ r2 ∈ seen ++ [(total, ms)] ∧ rateBetween r1 r2
      (fdiv (fsub total (ps_writesTotal prev))
         (fdiv (f_of_Z (i64 (ms - ps_monotonicMs prev))) (f_of_Z 1000)))) as Hb.
    { exists (ps_writesTotal prev, ps_monotonicMs prev), (total, ms). rewrite !elem_of_app. 
      split_and!; [by left|by right; left|done]. }
    split_and!; [|rewrite lookup_insert_eq; eauto|intros; by apply lookup_insert_ne|done].
    intros s. rewrite lookup_insert_eq. intros [= <-]. split; [set_solver|done].
Qed.

(** A rate the sampler reports for a pod was computed from two readings of that pod's counter, at
    least the minimum interval apart on the server's own clock, between which neither the counter
    nor the clock went backwards; before two such readings exist the rate is unknown. *)
Theorem sampler_rate uid readings total ms rate :
  (observeSample (observed ∅ uid readings) uid total ms).2 = (rate, true) →
  ∃ r1 r2, r1 ∈ readings ++ [(total, ms)] ∧ r2 ∈ readings ++ [(total, ms)] ∧ rateBetween r1 r2 rate.
Proof.
  assert (∀ ss seen, (∀ s, ss !! uid = Some s → sampleOf seen s) →
    ∀ s, observed ss uid readings !! uid = Some s → sampleOf (seen ++ readings) s) as Hinv.
  { induction readings as [|[t m] rs IH]; intros ss seen Hss; simpl; [by rewrite app_nil_r|].
    pose proof (observeSample_step ss uid seen t m Hss) as Hst.
    destruct (observeSample ss uid t m) as [ss' [rt ok]]. destruct Hst as (Hst & _).
    rewrite (cons_middle (t, m)). rewrite app_assoc. by apply IH. }
  pose proof (observeSample_step (observed ∅ uid readings) uid readings total ms
                (Hinv ∅ [] ltac:(by intros s; rewrite lookup_empty))) as Hlast.
  destruct (observeSample _ _ _ _) as [ss' [rt ok]]. intros [= <- ->].
  destruct Hlast as (_ & _ & _ & Hr). by apply Hr.
Qed.

Lemma sampler_rate_witness :
  ∃ r1 r2, r1 ∈ [(f_of_Z 100, 1000)] ++ [(f_of_Z 400, 21000)] ∧
           r2 ∈ [(f_of_Z 100, 1000)] ++ [(f_of_Z 400, 21000)] ∧ rateBetween r1 r2 (f_of_Z 15).
Proof.
  apply (sampler_rate "uid-0" [(f_of_Z 100, 1000)] (f_of_Z 400) 21000 (f_of_Z 15)).
  vm_compute. reflexivity.
Defined.

(** Every pod of the list was asked for its metrics in turn and answered. *)
Inductive answered {W} `{!Client W} (cluster : KahunaCluster) : list (Pod * Metrics) → W → W → Prop :=
  | answered_nil w : answered cluster [] w w
  | answered_cons pod m rs w w1 w2 :
      client_Metrics (podBaseURL cluster pod) w = (Some (Ok m), w1) →
      answered cluster rs w1 w2 →
      answered cluster ((pod, m) :: rs) w w2.

Lemma readMetrics_Ok {W} `{!Client W} cluster ready w readings w' :
  readMetrics cluster ready w = (Some (Ok readings), w') →
  readings.*1 = ready ∧ answered cluster readings w w'.
Proof.
  revert w readings. induction ready as [|pod ready IH]; intros w readings; simpl.
  { intros [= <- <-]. split; [done|constructor]. }
  intros (r & w1 & Hc & Hr)%go_bind_Some. destruct r as [m|e]; [|done].
  apply go_bind_Some in Hr as (rs & w2 & Hrs & Hr). destruct rs as [l|e]; [|done].
  injection Hr as <- <-. destruct (IH _ _ Hrs) as [<- Ha]. split; [done|by econstructor].
Qed.

Lemma observeSample_dom ss uid total ms :
  dom (observeSample ss uid total ms).1 = {[uid]} ∪ dom ss.
Proof.
  unfold observeSample. destruct (ss !! uid) as [prev|] eqn:E; [|apply dom_insert_L].
  repeat case_match; simpl; try apply dom_insert_L.
  apply elem_of_dom_2 in E. set_solver.
Qed.

Lemma sampleReading_dom readings acc :
  dom (foldl sampleReading acc readings).2 = list_to_set ((λ r, pod_UID r.1) <$> readings) ∪ dom acc.2.
Proof.
  revert acc. induction readings as [|[pod m] rs IH]; intros acc; simpl; [set_solver|].
  rewrite IH. destruct acc as [[[wr q] k] ss]. simpl.
  pose proof (observeSample_dom ss (pod_UID pod) (CounterTotal m metricWritesAdmitted).1 (mt_MonotonicMs m)).
  destruct (observeSample _ _ _ _) as [ss' [rate ok]]. simpl in *. set_solver.
Qed.

Lemma sampleReadings_dom ss readings :
  dom (sampleReadings ss readings).2 = list_to_set ((λ r, pod_UID r.1) <$> readings).
Proof.
  unfold sampleReadings. pose proof (sampleReading_dom readings (fzero, fzero, true, ss)) as Hd.
  destruct (foldl _ _ _) as [[[wr q] k] ss']. simpl in *. apply set_eq. intros u.
  rewrite elem_of_dom. split.
  - intros [s Hs]. apply map_lookup_filter_Some in Hs. set_solver.
  - intros Hu. assert (is_Some (ss' !! u)) as [s Hs] by (apply elem_of_dom; set_solver).
    exists s. by apply map_lookup_filter_Some.
Qed.

(** [measure] answers only when every ready pod it was given answered, and then the samples of
    that cluster belong to exactly those pods; an error leaves the sampler as it was; in no case are
    another cluster's samples touched. *)
Theorem measure_spec {W} `{!Client W} cluster pods traffic w r traffic' w' :
  measure cluster pods traffic w = (Some (r, traffic'), w') →
  let ready := filter (λ p, metricsReady p = true) pods in
  (∀ key, key ≠ clusterKey cluster → traffic' !! key = traffic !! key) ∧
  match r with
  | Err _ => traffic' = traffic
  | Ok sig =>
      ready ≠ [] ∧ (∃ readings, readings.*1 = ready ∧ answered cluster readings w w') ∧
      is_Some (sig_queuePerNode sig) ∧
      dom <$> traffic' !! clusterKey cluster = Some (list_to_set (pod_UID <$> ready) : gset string)
  end.
Proof.
  unfold measure. destruct (Nat.eqb_spec (length (filter (λ p, metricsReady p = true) pods)) 0) as [|Hne].
  { intros [= <- <- <-]. done. }
  intros (rs & w1 & Hrs & Hr)%go_bind_Some. destruct rs as [readings|e]; cycle 1.
  { injection Hr as <- <- <-. done. }
  apply readMetrics_Ok in Hrs as [Hfst Ha].
  pose proof (sampleReadings_dom (default ∅ (traffic !! clusterKey cluster)) readings) as Hd.
  destruct (sampleReadings _ _) as [sig ss] eqn:Es. injection Hr as <- <- <-. simpl in *.
  split; [intros key Hk; by apply lookup_insert_ne|]. split_and!.
  - intros H0. by rewrite H0 in Hne.
  - by exists readings.
  - unfold sampleReadings in Es. destruct (foldl _ _ _) as [[[wr q] k] ss']. injection Es as <- _. by eexists.
  - rewrite lookup_insert_eq. simpl. rewrite Hd, <- Hfst, <- list_fmap_compose. done.
Qed.

Lemma measure_spec_witness :
  let c := fixedClient refused refused refused (λ _, Ok (mkMetrics [] 5000)) refused in
  match (measure (demoCluster 3) [demoPod "kahuna-0" "10.0.0.1" true] ∅ tt).1 with
  | Some (Ok _, traffic') =>
      dom <$> traffic' !! clusterKey (demoCluster 3) = Some (list_to_set ["uid-kahuna-0"] : gset string)
  | _ => False
  end.
Proof.
  intros c.
  assert (match (measure (demoCluster 3) [demoPod "kahuna-0" "10.0.0.1" true] ∅ tt).1 with
          | Some (Ok _, _) => true | _ => false end = true) as Hok by (vm_compute; reflexivity).
  destruct (measure (demoCluster 3) [demoPod "kahuna-0" "10.0.0.1" true] ∅ tt) as [[[[sig|e] t]|] w] eqn:E;
    try (simpl in Hok; done).
  exact (proj2 (proj2 (proj2 (proj2 (measure_spec _ _ _ _ _ _ _ E))))).
Defined.

(** ** Properties of a pass *)

Section pass.
Context {W : Type} `{!Client W, !Clock W, !Conversions, !ConditionsAPI}.

Lemma convergence_true cluster bootstrapped m placement perr members now waiting :
  convergence cluster bootstrapped m placement perr members now = Some (true, waiting) →
  bootstrapped = true ∧ rosterMatches cluster m (desiredReplicas cluster) = true ∧
  readyCount members = desiredReplicas cluster ∧ perr = None ∧
  settled cluster placement (desiredReplicas cluster).
Proof.
  unfold convergence. destruct (_ && _) eqn:E; [|done]. bsimpl. destruct perr as [e|]; [done|].
  unfold placementConverged.
  pose proof (placementSettled_settled cluster placement (desiredReplicas cluster)) as Hs.
  destruct (placementSettled _ _ _) as [[h t] reason]. simpl in Hs.
  destruct (String.eqb_spec reason "") as [->|]; simpl; [|done]. intros _. split_and!; try done. by apply Hs.
Qed.

(** A pass over an autoscaled cluster records one decision, made from what was observed. *)
Lemma reconcileAutoscaling_inv cluster bootstrapped m placement perr pods traffic w cluster' traffic' w' spec :
  spec_Autoscaling (kc_Spec cluster) = Some spec →
  reconcileAutoscaling cluster bootstrapped m placement perr pods traffic w
    = (Some (cluster', traffic'), w') →
  ∃ now condNow converged waiting d sig ceil creason,
    convergence cluster bootstrapped m placement perr (sizedPods (desiredReplicas cluster) pods) now
      = Some (converged, waiting) ∧
    cluster' = setAutoscaling cluster d condNow ∧
    ad_status d = ad_status (decideAutoscale (mkAutoscaleInput spec (st_Autoscaling (kc_Status cluster))
      (initialAutoscaledReplicas cluster spec) sig converged ceil creason now)).
Proof.
  intros Hspec. unfold reconcileAutoscaling. rewrite Hspec.
  intros (now & w1 & _ & ([converged waiting] & w2 & Hc & Hrest)%go_bind_Some)%go_bind_Some.
  unfold go_lift in Hc. injection Hc as Hc _.
  apply go_bind_Some in Hrest as ([d t] & w3 & Hd & (condNow & w4 & _ & Hrest)%go_bind_Some).
  injection Hrest as <- <- <-. exists now, condNow, converged, waiting, d. destruct converged.
  - apply go_bind_Some in Hd as ([r t'] & w5 & _ & ([ceil creason] & w6 & _ & Hd)%go_bind_Some).
    destruct r as [sig|e]; injection Hd as <- _ _; eexists _, ceil, creason; (split_and!; [done..|]).
    + by case_match.
    + done.
  - injection Hd as <- _ _. eexists _, _, _. split_and!; [done..|]. by case_match.
Qed.

(** The size kept in status is inside the bounds. *)
Definition autoscaledSize (cluster : KahunaCluster) (spec : AutoscalingSpec) : Prop :=
  match st_Autoscaling (kc_Status cluster) with
  | Some st => as_MinReplicas spec ≤ ast_DesiredReplicas st ≤ as_MaxReplicas spec
  | None => True
  end.

Lemma desiredReplicas_autoscaled cluster spec :
  spec_Autoscaling (kc_Spec cluster) = Some spec → valid_autoscaling spec → autoscaledSize cluster spec →
  ∀ sig conv ceil creason now,
  currentSize (mkAutoscaleInput spec (st_Autoscaling (kc_Status cluster))
    (initialAutoscaledReplicas cluster spec) sig conv ceil creason now) = desiredReplicas cluster.
Proof.
  intros Hs Hv Ha sig conv ceil creason now. rewrite startStatus_size. simpl.
  pose proof (initialAutoscaledReplicas_bounds cluster spec Hv). destruct Hv as (? & ? & _).
  unfold desiredReplicas, autoscaledSize in *. rewrite Hs.
  destruct (st_Autoscaling _) as [st|]; [|by apply clamp_id].
  assert ((ast_DesiredReplicas st =? 0) = false) as -> by (apply Z.eqb_neq; lia).
  assert ((0 <? ast_DesiredReplicas st) = true) as -> by (apply Z.ltb_lt; lia). by apply clamp_id.
Qed.

(** The size a pass leaves in status is the one it decided, which is the one the rest of it reads. *)
Lemma reconcileAutoscaling_size cluster bootstrapped m placement perr pods traffic w cluster' traffic' w' spec :
  spec_Autoscaling (kc_Spec cluster) = Some spec → valid_autoscaling spec →
  reconcileAutoscaling cluster bootstrapped m placement perr pods traffic w
    = (Some (cluster', traffic'), w') →
  autoscaledSize cluster' spec ∧ as_MinReplicas spec ≤ desiredReplicas cluster' ≤ as_MaxReplicas spec.
Proof.
  intros Hs Hv Hr.
  destruct (reconcileAutoscaling_inv _ _ _ _ _ _ _ _ _ _ _ _ Hs Hr)
    as (now & condNow & conv & waiting & d & sig & ceil & creason & _ & -> & Hd).
  destruct (decide_bounds spec (initialAutoscaledReplicas cluster spec) Hv (st_Autoscaling (kc_Status cluster))
    (mkObservation sig conv ceil creason now)) as (_ & _ & _ & Hb & _).
  unfold inputOf in Hb; cbn [ob_signal ob_converged ob_ceiling ob_ceilingReason ob_now] in Hb.
  rewrite <- Hd in Hb. split; [done|]. unfold desiredReplicas, setAutoscaling. simpl. rewrite Hs.
  destruct Hv as (? & ? & _). destruct (Z.ltb_spec 0 (ast_DesiredReplicas (ad_status d))); lia.
Qed.

(** C13: a pass over an autoscaled cluster leaves the size it decided in status, inside the bounds of
    the spec, and that is the size the rest of the pass drives toward.  From a size inside the
    bounds (one outside them, after an edit of the spec, is clamped) it moves by at most one node, and
    only on a bootstrapped cluster whose roster is that size, all of whose pods up to that size are
    ready and not being deleted, whose placement was read (or does not exist) and whose data has
    settled. *)
Theorem reconcileAutoscaling_safe cluster bootstrapped m placement perr pods traffic w cluster' traffic' w' spec :
  spec_Autoscaling (kc_Spec cluster) = Some spec → valid_autoscaling spec →
  reconcileAutoscaling cluster bootstrapped m placement perr pods traffic w
    = (Some (cluster', traffic'), w') →
  kc_Spec cluster' = kc_Spec cluster ∧ autoscaledSize cluster' spec ∧
  as_MinReplicas spec ≤ desiredReplicas cluster' ≤ as_MaxReplicas spec ∧
  (autoscaledSize cluster spec → desiredReplicas cluster' ≠ desiredReplicas cluster →
     Z.abs (desiredReplicas cluster' - desiredReplicas cluster) = 1 ∧ bootstrapped = true ∧
     rosterMatches cluster m (desiredReplicas cluster) = true ∧
     readyCount (sizedPods (desiredReplicas cluster) pods) = desiredReplicas cluster ∧ perr = None ∧
     settled cluster placement (desiredReplicas cluster)).
Proof.
  intros Hs Hv Hr. destruct (reconcileAutoscaling_size _ _ _ _ _ _ _ _ _ _ _ _ Hs Hv Hr) as [Hsize Hbounds].
  destruct (reconcileAutoscaling_inv _ _ _ _ _ _ _ _ _ _ _ _ Hs Hr)
    as (now & condNow & conv & waiting & d & sig & ceil & creason & Hc & -> & Hd).
  destruct (decide_bounds spec (initialAutoscaledReplicas cluster spec) Hv (st_Autoscaling (kc_Status cluster))
    (mkObservation sig conv ceil creason now)) as (Hdec & _ & _ & Hb & Hmv).
  unfold inputOf in *; cbn [ob_signal ob_converged ob_ceiling ob_ceilingReason ob_now] in *.
  rewrite <- Hd in *. split; [done|]. split; [done|]. split; [done|].
  assert (desiredReplicas (setAutoscaling cluster d condNow) = ast_DesiredReplicas (ad_status d)) as ->.
  { unfold desiredReplicas, setAutoscaling. simpl. rewrite Hs. destruct Hv as (? & ? & _).
    destruct (Z.ltb_spec 0 (ast_DesiredReplicas (ad_status d))); [done|lia]. }
  intros Ha Hne. rewrite (desiredReplicas_autoscaled cluster spec Hs Hv Ha) in Hmv.
  assert (conv = true) as ->.
  { destruct Hdec as [Hdec ? ? ?|? Hcv|? Hcv]; [|done..]. exfalso. apply Hne. rewrite Hdec.
    by apply desiredReplicas_autoscaled. }
  apply convergence_true in Hc as (? & ? & ? & ? & ?). split_and!; try done. lia.
Qed.

(** C38: On a server without replica placement an autoscaled cluster never finishes a pass once its
    roster has converged: the pass panics while it computes the growth ceiling, whatever the
    server answers. *)
Theorem reconcileAutoscaling_no_placement cluster m pods traffic w spec :
  spec_Autoscaling (kc_Spec cluster) = Some spec →
  0 < desiredReplicas cluster → rosterMatches cluster m (desiredReplicas cluster) = true →
  readyCount (sizedPods (desiredReplicas cluster) pods) = desiredReplicas cluster →
  (reconcileAutoscaling cluster true m None None pods traffic w).1 = None.
Proof.
  intros Hs Hpos Hm Hrc. unfold reconcileAutoscaling. rewrite Hs.
  assert (∀ now, convergence cluster true m None None (sizedPods (desiredReplicas cluster) pods) now
            = Some (true, "")) as Hc.
  { intros now. unfold convergence. rewrite Hm, Hrc, Z.eqb_refl. simpl.
    unfold placementConverged. simpl.
    assert ((desiredReplicas cluster =? 0) = false) as -> by (apply Z.eqb_neq; lia).
    done. }
  destruct (time_Now w) as [[now|] w1] eqn:Et; unfold mbind, go_bind; rewrite Et; [|done].
  unfold go_lift. rewrite Hc. by destruct (measure _ _ _ _) as [[[r t]|] w2].
Qed.
End pass.

(** A three-node autoscaled cluster with a converged roster, for the witnesses. *)
Definition demoAutoscaled : KahunaCluster :=
  (demoCluster 3) <| kc_Spec := (demoSpec 3) <| spec_Autoscaling := Some demoAutoscaling |> |>.
Definition demoPods : list Pod :=
  [demoPod "kahuna-0" "10.0.0.1" true; demoPod "kahuna-1" "10.0.0.2" true; demoPod "kahuna-2" "10.0.0.3" true].
Definition fixedClock (t : Time) : Clock unit := mret t.

(** The same cluster, sized by its queue, which has been too long for two minutes. *)
Definition demoQueue : AutoscalingSpec := mkAutoscalingSpec 3 5 None (Some 10) None None None.
Definition demoBusy : KahunaCluster :=
  (demoCluster 3) <| kc_Spec := (demoSpec 3) <| spec_Autoscaling := Some demoQueue |> |>
    <| kc_Status := zero_Status <| st_Autoscaling :=
         Some (mkAutoscalingStatus 3 4 None (Some 15) (Some Second) None None) |> |>.
Definition demoMetrics : Metrics :=
  mkMetrics [mkMetricRow metricClientQueueDepth "" MetricKindGauge 1 None (Some (f_of_Z 15))] 5000.

(** The pass grows it to four nodes, and every condition of the theorem held. *)
Lemma reconcileAutoscaling_safe_witness :
  let c := fixedClient refused refused refused (λ _, Ok demoMetrics) refused in
  let k := fixedClock (121 * Second) in
  let a := plainConditions in
  let pl := mkPlacement 3 true true [] in
  match reconcileAutoscaling demoBusy true (Some (fullRoster demoBusy 3)) (Some pl) None demoPods ∅ tt with
  | (Some (cluster', _), _) =>
      desiredReplicas cluster' = 4 ∧ Z.abs (desiredReplicas cluster' - desiredReplicas demoBusy) = 1 ∧
      readyCount (sizedPods (desiredReplicas demoBusy) demoPods) = 3 ∧ settled demoBusy (Some pl) 3
  | _ => False
  end.
Proof.
  intros c k a pl.
  destruct (reconcileAutoscaling demoBusy true (Some (fullRoster demoBusy 3)) (Some pl) None demoPods ∅ tt)
    as [[[cl t]|] w] eqn:E; [|vm_compute in E; discriminate E].
  assert (desiredReplicas cl = 4) as H4.
  { assert (match reconcileAutoscaling demoBusy true (Some (fullRoster demoBusy 3)) (Some pl) None demoPods ∅ tt with
            | (Some (cl, _), _) => desiredReplicas cl | _ => 0 end = 4) as H by (vm_compute; reflexivity).
    by rewrite E in H. }
  assert (valid_autoscaling demoQueue) as Hv
    by (unfold valid_autoscaling, two31; simpl; split_and!; try lia; right; by eexists).
  destruct (reconcileAutoscaling_safe demoBusy _ _ _ _ _ _ _ _ _ _ demoQueue eq_refl Hv E) as (_ & _ & _ & Hmove).
  destruct Hmove as (H1 & _ & _ & Hready & _ & Hset); [unfold autoscaledSize; simpl; lia|rewrite H4; done|].
  split_and!; [exact H4|exact H1|exact Hready|exact Hset].
Defined.

Lemma reconcileAutoscaling_no_placement_witness :
  let c := fixedClient refused refused refused (λ _, Ok (mkMetrics [] 5000)) refused in
  let k := fixedClock Second in
  let a := plainConditions in
  (reconcileAutoscaling demoAutoscaled true (Some (fullRoster demoAutoscaled 3)) None None demoPods ∅ tt).1 = None.
Proof.
  intros c k a. apply (reconcileAutoscaling_no_placement _ _ _ _ _ demoAutoscaling); vm_compute; reflexivity.
Defined.
