(* ===== verification/BackupSchedule.v ===== *)
(** * The backup schedule (internal/controller/backup.go)

    Which backup is due, when to look again, how a finished backup changes the status, and the
    backoff after a failure: the pure part of the backup scheduler.  A cron schedule is a parameter,
    the function from a time to the next activation (zero when there is none); [ScheduleLaws] is its
    documented behaviour.  Proved: [latestDue] finds the last activation that is not in the future and
    the first one that is; a decision never starts a backup inside the backoff, never misses a wake-up,
    and two successful backups never cover the same activation; the backoff has its closed form;
    results of every kind keep the status well-formed. *)

From Stdlib Require Import ZArith Lia.
From stdpp Require Import base numbers strings pretty sorting gmap list.
From S2P Require Import Prelude GoStrings Types Naming Kahuna.

Open Scope Z_scope.

(** ** Constants *)

Definition backupMACKey : string := "key".
Definition backupMACKeyBytes : Z := 32.
Definition backupPollInterval : Duration := 10 * Second.
Definition defaultBackupTimeout : Duration := Hour.
Definition backupRetryInitial : Duration := Minute.
Definition backupRetryMax : Duration := 30 * Minute.
Definition unclaimedRetryDelay : Duration := 15 * Second.
Definition unclaimedFailAfter : Duration := 5 * Minute.
Definition maxMissedSchedules : Z := 100000.
Definition maxFailureMessage : nat := 1024.

Inductive backupKind := backupNone | backupFull | backupIncremental.

#[export] Instance backupKind_eq_dec : EqDecision backupKind.
Proof. solve_decision. Defined.

Definition backupKind_string (k : backupKind) : string :=
  match k with backupNone => "" | backupFull => "Full" | backupIncremental => "Incremental" end.

(** cron.Schedule, by its one method. *)
Definition Schedule : Type := Time → Time.

(** ** When a backup is due *)

(** The loop of [latestDue]: [n] is the number of iterations left. *)
Fixpoint walkDue (n : nat) (s : Schedule) (t now : Time) : Time * Time :=
  match n with
  | O => (t, zero_time)
  | S n' =>
      let u := s t in
      if time_is_zero u || time_after u now then (t, u) else walkDue n' s u now
  end.

Definition latestDue (s : Schedule) (base now : Time) : Time * Time :=
  let t := s base in
  if time_is_zero t || time_after t now then (zero_time, t)
  else walkDue (Z.to_nat maxMissedSchedules) s t now.

Definition earliest (a b : Time) : Time :=
  if time_is_zero a then b
  else if time_is_zero b then a
  else if time_before b a then b
  else a.

(** The doubling loop of [backupRetryDelay]: [n] is [failures - i]. *)
Fixpoint retryLoop (n : nat) (d : Duration) : Duration :=
  match n with
  | O => d
  | S n' => if d <? backupRetryMax then retryLoop n' (i64 (d * 2)) else d
  end.

Definition backupRetryDelay (failures : Z) : Duration :=
  Z.min (retryLoop (Z.to_nat (failures - 1)) backupRetryInitial) backupRetryMax.

Record backupInput := mkBackupInput {
  bin_full : Schedule;
  bin_incremental : option Schedule;
  bin_status : BackupStatus;
  bin_now : Time;
}.

Record backupDecision := mkBackupDecision {
  bd_kind : backupKind;
  bd_scheduled : Time;
  bd_retryAt : Time;
  bd_next : Time;
}.

#[export] Instance eta_backupDecision : Eta backupDecision := λ r,
  mkBackupDecision (bd_kind r) (bd_scheduled r) (bd_retryAt r) (bd_next r).

(** Where the incremental schedule is counted from. *)
Definition incrementalBase (st : BackupStatus) (lastFull : Time) : Time :=
  match bst_LastIncrementalScheduleTime st with
  | Some t => if time_after t lastFull then t else lastFull
  | None => lastFull
  end.

(** The part of [decideBackup] before the backoff. *)
Definition dueBackup (inp : backupInput) : backupDecision :=
  let st := bin_status inp in
  match bst_LastFullScheduleTime st with
  | None => mkBackupDecision backupFull (bin_now inp) zero_time zero_time
  | Some lastFull =>
      let '(fullDue, fullNext) := latestDue (bin_full inp) lastFull (bin_now inp) in
      let d := mkBackupDecision backupNone zero_time zero_time fullNext in
      if negb (time_is_zero fullDue) then
        d <| bd_kind := backupFull |> <| bd_scheduled := fullDue |>
      else
        match bin_incremental inp with
        | Some inc =>
            if negb (String.eqb (bst_LastBackupID st) "") then
              let '(incDue, incNext) := latestDue inc (incrementalBase st lastFull) (bin_now inp) in
              let d := d <| bd_next := earliest (bd_next d) incNext |> in
              if negb (time_is_zero incDue) then
                d <| bd_kind := backupIncremental |> <| bd_scheduled := incDue |>
              else d
            else d
        | None => d
        end
  end.

(** When a due backup may go out after a failure or a refusal; zero when at once. *)
Definition retryTime (st : BackupStatus) : Time :=
  match bst_LastFailureTime st with
  | Some t => if 0 <? bst_ConsecutiveFailures st then time_add t (backupRetryDelay (bst_ConsecutiveFailures st))
              else match bst_LastUnclaimedTime st with
                   | Some u => time_add u unclaimedRetryDelay
                   | None => zero_time
                   end
  | None => match bst_LastUnclaimedTime st with
            | Some u => time_add u unclaimedRetryDelay
            | None => zero_time
            end
  end.

Definition decideBackup (inp : backupInput) : backupDecision :=
  let d := dueBackup inp in
  if negb (bool_decide (bd_kind d = backupNone)) then
    let retryAt := retryTime (bin_status inp) in
    if time_after retryAt (bin_now inp) then
      d <| bd_kind := backupNone |> <| bd_scheduled := zero_time |>
        <| bd_retryAt := retryAt |> <| bd_next := retryAt |>
    else d
  else d.

Definition untilDue (next now : Time) : Duration :=
  if time_is_zero next then 0 else Z.max (time_sub next now) Second.

(** ** The result of a backup *)

(** [done], [info] and [err] of the source as one field: [None] while the backup runs, then what the
    client returned. *)
Record backupJob := mkBackupJob {
  job_kind : backupKind;
  job_scheduled : Time;
  job_parent : string;
  job_result : option (result BackupInfo);
}.

#[export] Instance eta_backupJob : Eta backupJob := λ r,
  mkBackupJob (job_kind r) (job_scheduled r) (job_parent r) (job_result r).

Definition recordSuccess (st : BackupStatus) (job : backupJob) (info : BackupInfo) (now : Time) : BackupStatus :=
  let typ := if String.eqb (bi_ActualKind info) "" then bi_Type info else bi_ActualKind info in
  let st := st <| bst_LastSuccessfulTime := Some now |> <| bst_LastBackupID := bi_BackupID info |>
               <| bst_LastBackupType := typ |> <| bst_ConsecutiveFailures := 0 |>
               <| bst_LastFailureTime := None |> <| bst_LastFailureMessage := "" |>
               <| bst_UnclaimedSince := None |> <| bst_LastUnclaimedTime := None |> in
  if bool_decide (job_kind job = backupFull) then
    st <| bst_LastFullScheduleTime := Some (job_scheduled job) |>
       <| bst_LastIncrementalScheduleTime := Some now |>
  else st <| bst_LastIncrementalScheduleTime := Some (job_scheduled job) |>.

(** The tail of [applyBackupResult]: the error is a failure, unless the parent of an incremental is
    gone, in which case a new chain starts. *)
Definition recordFailure (st : BackupStatus) (job : backupJob) (e : error) (now : Time) : BackupStatus :=
  let st := st <| bst_UnclaimedSince := None |> <| bst_LastUnclaimedTime := None |> in
  if bool_decide (job_kind job = backupIncremental) &&
     match as_backup_error e with
     | Some be => String.eqb (be_Outcome be) BackupOutcomeParentMissing
     | None => false
     end
  then st <| bst_LastBackupID := "" |> <| bst_LastFullScheduleTime := None |>
  else
    let msg := error_Error e in
    let msg := if (maxFailureMessage <? String.length msg)%nat then str_take maxFailureMessage msg else msg in
    st <| bst_ConsecutiveFailures := i32 (bst_ConsecutiveFailures st + 1) |>
       <| bst_LastFailureTime := Some now |>
       <| bst_LastFailureMessage := backupKind_string (job_kind job) +:+ " backup: " +:+ msg |>.

(** [r] is the result of the job, which the caller has checked to be finished. *)
Definition applyBackupResult (st : BackupStatus) (job : backupJob) (r : result BackupInfo) (now : Time)
    : BackupStatus :=
  match r with
  | Ok info => recordSuccess st job info now
  | Err e =>
      match as_unclaimed_error e with
      | Some _ =>
          if bst_ConsecutiveFailures st =? 0 then
            let since := default now (bst_UnclaimedSince st) in
            if time_sub now since <? unclaimedFailAfter then
              st <| bst_UnclaimedSince := Some since |> <| bst_LastUnclaimedTime := Some now |>
            else recordFailure (st <| bst_UnclaimedSince := Some since |>) job e now
          else recordFailure st job e now
      | None => recordFailure st job e now
      end
  end.

(** ** Schedules

    [fires] is the set of activations of a schedule.  Next returns the first one strictly after its
    argument, or the zero time when there is none.  That is the behaviour of the five-field cron specs
    the CRD documents; the descriptor "@every d", which the parser also takes, counts from the time it is
    asked about and has no fixed activations, so no [fires] satisfies the law for it. *)

Class ScheduleLaws (fires : Time → Prop) (s : Schedule) : Prop :=
  schedule_next : ∀ t, 0 ≤ t →
    (s t = zero_time ∧ ∀ v, t < v → ¬ fires v) ∨
    (t < s t ∧ fires (s t) ∧ ∀ v, t < v < s t → ¬ fires v).

(** [next] is the first activation after [t], or zero when there is none. *)
Definition firstAfter (fires : Time → Prop) (t next : Time) : Prop :=
  (next = zero_time ∧ ∀ v, t < v → ¬ fires v) ∨
  (t < next ∧ fires next ∧ ∀ v, t < v < next → ¬ fires v).

Section schedules.
Context (fires : Time → Prop) (s : Schedule) `{!ScheduleLaws fires s}.

Lemma walkDue_spec n t now :
  0 ≤ t ≤ now → fires t →
  let '(due, next) := walkDue n s t now in
  t ≤ due ≤ now ∧ fires due ∧
  (((∀ v, due < v ≤ now → ¬ fires v) ∧ firstAfter fires now next) ∨
   (next = zero_time ∧ due = Nat.iter n s t)).
Proof.
  revert t. induction n as [|n IH]; intros t Ht Hf; simpl; [split_and!; try lia; by auto|].
  pose proof (schedule_next t (proj1 Ht)) as Hn. unfold time_is_zero, time_after.
  destruct (Z.eqb_spec (s t) 0) as [E|E]; simpl.
  { split_and!; [lia|lia|done|]. left. unfold zero_time in *.
    destruct Hn as [[_ Hn]|(? & _)]; [|lia]. split; [intros v Hv; apply Hn; lia|].
    left. split; [done|]. intros v Hv. apply Hn. lia. }
  destruct Hn as [[? _]|(Hlt & Hfn & Hno)]; [by unfold zero_time in *|].
  destruct (Z.ltb_spec now (s t)) as [Hnow|Hnow].
  { split_and!; [lia|lia|done|]. left. split; [intros v Hv; apply Hno; lia|].
    right. split_and!; [lia|done|]. intros v Hv. apply Hno. lia. }
  specialize (IH (s t) ltac:(lia) Hfn). destruct (walkDue n s (s t) now) as [due next].
  destruct IH as ([? ?] & Hfd & Hor). split_and!; [lia|lia|done|].
  destruct Hor as [?|[? ->]]; [by left|right]. split; [done|].
  by rewrite <- Nat.iter_succ_r.
Qed.

Lemma latestDue_spec base now :
  0 ≤ base →
  let '(due, next) := latestDue s base now in
  (due = zero_time ∧ (∀ v, base < v ≤ now → ¬ fires v) ∧ firstAfter fires (Z.max base now) next) ∨
  (base < due ≤ now ∧ fires due ∧
   (((∀ v, due < v ≤ now → ¬ fires v) ∧ firstAfter fires now next) ∨
    (next = zero_time ∧ due = Nat.iter (S (Z.to_nat maxMissedSchedules)) s base))).
Proof.
  intros Hb. unfold latestDue. pose proof (schedule_next base Hb) as Hn.
  unfold time_is_zero, time_after.
  destruct (Z.eqb_spec (s base) 0) as [E|E]; cbn [orb].
  { left. unfold zero_time in *. destruct Hn as [[_ Hn]|(? & _)]; [|lia].
    split_and!; [done|intros v Hv; apply Hn; lia|]. left. split; [done|]. intros v Hv. apply Hn. lia. }
  destruct Hn as [[? _]|(Hlt & Hfn & Hno)]; [by unfold zero_time in *|].
  destruct (Z.ltb_spec now (s base)) as [Hnow|Hnow].
  { left. split_and!; [done|intros v Hv; apply Hno; lia|].
    right. split_and!; [lia|done|]. intros v Hv. apply Hno. lia. }
  pose proof (walkDue_spec (Z.to_nat maxMissedSchedules) (s base) now ltac:(lia) Hfn) as Hw.
  destruct (walkDue _ _ _ _) as [due next]. destruct Hw as ([? ?] & Hfd & Hor).
  right. split_and!; [lia|lia|done|]. destruct Hor as [?|[? ->]]; [by left|right]. split; [done|].
  by rewrite Nat.iter_succ_r.
Qed.
End schedules.

(** Every hour on the hour, for the witnesses. *)
Definition hourly : Schedule := λ t, (t / Hour + 1) * Hour.
Definition onTheHour (t : Time) : Prop := t mod Hour = 0.

#[export] Instance hourly_laws : ScheduleLaws onTheHour hourly.
Proof.
  intros t Ht. right. unfold hourly, onTheHour.
  assert (0 < Hour) by (unfold Hour, Minute, Second; lia). generalize dependent Hour. intros h Hh.
  pose proof (Z.div_mod t h ltac:(lia)). pose proof (Z.mod_pos_bound t h Hh).
  split_and!; [nia|by rewrite Z.mod_mul by lia|].
  intros v [? ?] Hv. pose proof (Z.div_mod v h ltac:(lia)) as Hd. rewrite Hv in Hd.
  assert (t / h < v / h) by nia. assert (v / h < t / h + 1) by nia. lia.
Qed.

(** ** What is pending *)

Lemma firstAfter_from fires base now next :
  firstAfter fires (Z.max base now) next → firstAfter (λ v, fires v ∧ base < v) now next.
Proof.
  intros [[-> H]|(Ht & Hf & H)]; [left|right].
  - split; [done|]. intros v Hv [? ?]. apply (H v); [lia|done].
  - split_and!; [lia|done|lia|]. intros v Hv [? ?]. apply (H v); [lia|done].
Qed.

Lemma firstAfter_or P Q now a b :
  0 ≤ now → firstAfter P now a → firstAfter Q now b →
  firstAfter (λ v, P v ∨ Q v) now (earliest a b).
Proof.
  unfold earliest, time_is_zero, time_before, firstAfter, zero_time.
  intros Hnow [[-> Ha]|(Ha1 & Ha2 & Ha)] [[-> Hb]|(Hb1 & Hb2 & Hb)]; simpl.
  - left. split; [done|]. naive_solver.
  - right. split_and!; [done|by right|]. intros v Hv [?|?]; [by apply (Ha v); [lia|]|by apply (Hb v)].
  - destruct (Z.eqb_spec a 0); [lia|]. right.
    split_and!; [done|by left|]. intros v Hv [?|?]; [by apply (Ha v)|by apply (Hb v); [lia|]].
  - destruct (Z.eqb_spec a 0); [lia|]. destruct (Z.eqb_spec b 0); [lia|].
    destruct (Z.ltb_spec b a); right; (split_and!; [lia|auto|]); intros v Hv [?|?];
      (by apply (Ha v); [lia|]) || (by apply (Hb v); [lia|]).
Qed.

Section decisions.
Context (fullFires incFires : Time → Prop).

(** The schedules obey their laws and the stored times are times. *)
Record inputLaws (inp : backupInput) : Prop := {
  il_full : ScheduleLaws fullFires (bin_full inp);
  il_incremental : ∀ inc, bin_incremental inp = Some inc → ScheduleLaws incFires inc;
  il_lastFull : ∀ t, bst_LastFullScheduleTime (bin_status inp) = Some t → 0 ≤ t;
  il_now : 0 ≤ bin_now inp;
}.

(** The incremental schedule counts only for a cluster that has a backup to continue. *)
Definition incrementalOn (inp : backupInput) : Prop :=
  is_Some (bin_incremental inp) ∧ bst_LastBackupID (bin_status inp) ≠ "".

(** [v] is an activation that no successful backup covers yet. *)
Definition pending (inp : backupInput) (v : Time) : Prop :=
  ∃ last, bst_LastFullScheduleTime (bin_status inp) = Some last ∧
    (fullFires v ∧ last < v ∨
     incrementalOn inp ∧ incFires v ∧ incrementalBase (bin_status inp) last < v).

Lemma incrementalBase_ge st last : last ≤ incrementalBase st last.
Proof.
  unfold incrementalBase, time_after. destruct (bst_LastIncrementalScheduleTime st); [|lia].
  case_match; bsimpl; lia.
Qed.

Lemma latestDue_cases fires s base now :
  ScheduleLaws fires s → 0 ≤ base →
  let '(due, next) := latestDue s base now in
  (due = zero_time ∧ (∀ v, v ≤ now → ¬ (fires v ∧ base < v)) ∧
   firstAfter (λ v, fires v ∧ base < v) now next) ∨
  (base < due ≤ now ∧ fires due).
Proof.
  intros Hl Hb. pose proof (latestDue_spec fires s base now Hb) as Hd.
  destruct (latestDue s base now) as [due next].
  destruct Hd as [(-> & Hno & Hf)|(? & ? & _)]; [left|right; done].
  split_and!; [done| |by apply firstAfter_from]. intros v Hv [? ?]. apply (Hno v); [lia|done].
Qed.

(** The decision before the backoff, case by case. *)
Lemma dueBackup_spec inp :
  inputLaws inp →
  bd_retryAt (dueBackup inp) = zero_time ∧
  match bd_kind (dueBackup inp) with
  | backupNone => bd_scheduled (dueBackup inp) = zero_time ∧
      is_Some (bst_LastFullScheduleTime (bin_status inp)) ∧
      (∀ v, v ≤ bin_now inp → ¬ pending inp v) ∧
      firstAfter (pending inp) (bin_now inp) (bd_next (dueBackup inp))
  | backupFull =>
      (bst_LastFullScheduleTime (bin_status inp) = None ∧ bd_scheduled (dueBackup inp) = bin_now inp) ∨
      (∃ last, bst_LastFullScheduleTime (bin_status inp) = Some last ∧
         last < bd_scheduled (dueBackup inp) ≤ bin_now inp ∧ fullFires (bd_scheduled (dueBackup inp)))
  | backupIncremental =>
      ∃ last, bst_LastFullScheduleTime (bin_status inp) = Some last ∧ incrementalOn inp ∧
        (∀ v, last < v ≤ bin_now inp → ¬ fullFires v) ∧
        incrementalBase (bin_status inp) last < bd_scheduled (dueBackup inp) ≤ bin_now inp ∧
        incFires (bd_scheduled (dueBackup inp))
  end.
Proof.
  intros [Hfull Hinc Hlast Hnow]. unfold dueBackup, pending, incrementalOn.
  destruct (bst_LastFullScheduleTime (bin_status inp)) as [last|] eqn:El; [|simpl; naive_solver].
  specialize (Hlast last eq_refl).
  pose proof (latestDue_cases fullFires (bin_full inp) last (bin_now inp) Hfull Hlast) as Hd.
  destruct (latestDue (bin_full inp) last (bin_now inp)) as [due next]. unfold time_is_zero, zero_time in *.
  destruct Hd as [(-> & Hno & Hf)|[? ?]]; simpl; cycle 1.
  { destruct (Z.eqb_spec due 0); [lia|]; simpl. split; [done|]. right. eauto. }
  destruct (bin_incremental inp) as [inc|]; simpl; cycle 1.
  { split_and!; [done|done|by eexists|naive_solver|]. destruct Hf as [[-> Hf]|(? & ? & Hf)]; [left|right];
      split_and!; try done; naive_solver. }
  destruct (String.eqb_spec (bst_LastBackupID (bin_status inp)) "") as [->|Hid]; simpl.
  { split_and!; [done|done|by eexists|naive_solver|]. destruct Hf as [[-> Hf]|(? & ? & Hf)]; [left|right];
      split_and!; try done; naive_solver. }
  pose proof (incrementalBase_ge (bin_status inp) last) as Hge.
  pose proof (latestDue_cases incFires inc (incrementalBase (bin_status inp) last) (bin_now inp)
                (Hinc inc eq_refl) ltac:(lia)) as Hd.
  destruct (latestDue inc _ _) as [idue inext]. unfold zero_time in *.
  destruct Hd as [(-> & Hino & Hif)|[? ?]]; simpl; cycle 1.
  { destruct (Z.eqb_spec idue 0); [lia|]; simpl. split; [done|]. exists last.
    split_and!; try done; try lia. intros v Hv Hfv. apply (Hno v); [lia|split; [done|lia]]. }
  pose proof (firstAfter_or _ _ _ _ _ Hnow Hf Hif) as Hor.
  split_and!; [done|done|by eexists|naive_solver|].
  destruct Hor as [[-> Hor]|(? & Hp & Hor)]; [left|right]; split_and!; try done.
  - intros v Hv (l & [= <-] & ?). apply (Hor v Hv). naive_solver.
  - exists last. split; [done|]. naive_solver.
  - intros v Hv (l & [= <-] & ?). apply (Hor v Hv). naive_solver.
Qed.

(** The decision, after the backoff. *)
Lemma decideBackup_cases inp :
  inputLaws inp →
  (decideBackup inp = dueBackup inp ∧
    (bd_kind (dueBackup inp) ≠ backupNone → retryTime (bin_status inp) ≤ bin_now inp)) ∨
  (bd_kind (dueBackup inp) ≠ backupNone ∧ bin_now inp < retryTime (bin_status inp) ∧
   decideBackup inp = mkBackupDecision backupNone zero_time (retryTime (bin_status inp))
                        (retryTime (bin_status inp))).
Proof.
  intros _. unfold decideBackup, time_after. case_bool_decide as Hk; simpl; [left; by split|].
  destruct (Z.ltb_spec (bin_now inp) (retryTime (bin_status inp))); [right|left]; done.
Qed.

Definition at_time (inp : backupInput) (t : Time) : backupInput :=
  mkBackupInput (bin_full inp) (bin_incremental inp) (bin_status inp) t.

Lemma inputLaws_at inp t : inputLaws inp → bin_now inp ≤ t → inputLaws (at_time inp t).
Proof. intros [? ? ? ?] ?. constructor; simpl; try done. lia. Qed.

(** A backup is due exactly when there is none yet or an activation is pending. *)
Lemma dueBackup_due inp :
  inputLaws inp →
  bd_kind (dueBackup inp) ≠ backupNone ↔
  (bst_LastFullScheduleTime (bin_status inp) = None ∨ ∃ v, v ≤ bin_now inp ∧ pending inp v).
Proof.
  intros Hl. pose proof (dueBackup_spec inp Hl) as [_ Hd].
  destruct (bd_kind (dueBackup inp)) eqn:E; (split; [|try done]); try done.
  - destruct Hd as (_ & [? Hs] & Hno & _). intros [?|(v & ? & ?)]; [congruence|]. by destruct (Hno v).
  - intros _. destruct Hd as [[? _]|(last & ? & ? & ?)]; [by left|right].
    exists (bd_scheduled (dueBackup inp)). split; [lia|]. exists last. split; [done|]. left. split; [done|lia].
  - intros _. destruct Hd as (last & ? & ? & _ & ? & ?). right.
    exists (bd_scheduled (dueBackup inp)). split; [lia|]. exists last. split; [done|]. right. split_and!; [done..|lia].
Qed.
End decisions.

(** What is due is after the backups already taken, and not in the future. *)
Lemma scheduled_range fullFires incFires inp :
  inputLaws fullFires incFires inp → bd_kind (dueBackup inp) ≠ backupNone →
  0 ≤ bd_scheduled (dueBackup inp) ≤ bin_now inp ∧
  ∀ last, bst_LastFullScheduleTime (bin_status inp) = Some last →
    last < bd_scheduled (dueBackup inp) ∧
    (bd_kind (dueBackup inp) = backupFull → fullFires (bd_scheduled (dueBackup inp))) ∧
    (bd_kind (dueBackup inp) = backupIncremental →
       incrementalBase (bin_status inp) last < bd_scheduled (dueBackup inp) ∧
       ∀ v, last < v ≤ bin_now inp → ¬ fullFires v).
Proof.
  intros Hl Hk. pose proof (dueBackup_spec _ _ inp Hl) as [_ Hd]. destruct Hl as [_ _ Hlast Hnow].
  destruct (bd_kind (dueBackup inp)); [done|..].
  - destruct Hd as [[Hn ->]|(l & Hll & ? & ?)]; [split; [lia|]; intros l Hll; congruence|].
    specialize (Hlast l Hll). split; [lia|]. intros l' Hll'. simplify_eq. split_and!; [lia|done|done].
  - destruct Hd as (l & Hll & _ & Hno & ? & ?). specialize (Hlast l Hll).
    pose proof (incrementalBase_ge (bin_status inp) l). split; [lia|]. intros l' Hll'. simplify_eq.
    split_and!; [lia|done|]. intros _. split; [lia|done].
Qed.

(** ** Results *)

Lemma recordSuccess_anchors st job info now :
  (job_kind job = backupFull →
     bst_LastFullScheduleTime (recordSuccess st job info now) = Some (job_scheduled job) ∧
     bst_LastIncrementalScheduleTime (recordSuccess st job info now) = Some now) ∧
  (job_kind job ≠ backupFull →
     bst_LastFullScheduleTime (recordSuccess st job info now) = bst_LastFullScheduleTime st ∧
     bst_LastIncrementalScheduleTime (recordSuccess st job info now) = Some (job_scheduled job)).
Proof. unfold recordSuccess. case_bool_decide; done. Qed.

Lemma errors_exclusive e : is_Some (as_backup_error e) → as_unclaimed_error e = None.
Proof. induction e; simpl; intros [? ?]; try done. apply IHe. by eexists. Qed.

(** The fields about failures and refusals agree with each other. *)
Record wf_backup (st : BackupStatus) : Prop := {
  wb_failures : 0 ≤ bst_ConsecutiveFailures st;
  wb_failureTime : bst_ConsecutiveFailures st = 0 ↔ bst_LastFailureTime st = None;
  wb_message : bst_ConsecutiveFailures st = 0 → bst_LastFailureMessage st = "";
  wb_unclaimed : is_Some (bst_UnclaimedSince st) ↔ is_Some (bst_LastUnclaimedTime st);
  wb_unclaimedNew : is_Some (bst_UnclaimedSince st) → bst_ConsecutiveFailures st = 0;
}.

Lemma wf_zero : wf_backup zero_BackupStatus.
Proof. constructor; simpl; naive_solver lia. Qed.

Lemma recordFailure_wf st job e now :
  0 ≤ bst_ConsecutiveFailures st < two31 - 1 →
  (bst_ConsecutiveFailures st = 0 ↔ bst_LastFailureTime st = None) →
  (bst_ConsecutiveFailures st = 0 → bst_LastFailureMessage st = "") →
  wf_backup (recordFailure st job e now).
Proof.
  intros Hf Ht Hm. unfold recordFailure. case_match.
  - constructor; simpl; try done; try lia; try (split; intros [? ?]; done).
    all: by intros [? ?].
  - constructor; simpl; rewrite ?i32_id by range; try lia.
    + split; [lia|done].
    + split; intros [? ?]; done.
    + intros [? ?]. done.
Qed.

Lemma retryLoop_closed n d :
  0 < d ≤ backupRetryMax →
  Z.min (retryLoop n d) backupRetryMax = Z.min (d * 2 ^ n) backupRetryMax.
Proof.
  revert d. induction n as [|n IH]; intros d Hd; cbn [retryLoop]; [f_equal; lia|].
  rewrite Nat2Z.inj_succ, Z.pow_succ_r by lia.
  assert (0 < 2 ^ n) by (apply Z.pow_pos_nonneg; lia).
  destruct (Z.ltb_spec d backupRetryMax) as [Hlt|Hge]; [|nia].
  assert (backupRetryMax * 2 < two63) by (vm_compute; done).
  rewrite i64_id by (unfold is_i64; lia).
  destruct (decide (d * 2 ≤ backupRetryMax)) as [Hle|Hgt].
  - rewrite IH by lia. f_equal. lia.
  - assert (retryLoop n (d * 2) = d * 2) as ->; [|nia].
    destruct n; cbn [retryLoop]; [done|]. destruct (Z.ltb_spec (d * 2) backupRetryMax); [lia|done].
Qed.

(** ** Properties *)

(** C15: [latestDue] returns the last activation after [base] that is not in the future, or zero when
    there is none, together with the first activation in the future.  The one exception is a schedule
    more than a hundred thousand activations behind, where the walk stops at its bound and returns
    the activation it reached, still not in the future, for the next pass to continue from. *)
Theorem latestDue_correct fires s base now :
  ScheduleLaws fires s → 0 ≤ base →
  let '(due, next) := latestDue s base now in
  (due = zero_time ∧ (∀ v, base < v ≤ now → ¬ fires v) ∧ firstAfter fires (Z.max base now) next) ∨
  (base < due ≤ now ∧ fires due ∧
   (((∀ v, due < v ≤ now → ¬ fires v) ∧ firstAfter fires now next) ∨
    (next = zero_time ∧ due = Nat.iter (S (Z.to_nat maxMissedSchedules)) s base))).
Proof. intros ?. by apply latestDue_spec. Qed.

Lemma latestDue_correct_witness :
  latestDue hourly Hour (Hour * 4 + Minute) = (Hour * 4, Hour * 5) ∧ firstAfter onTheHour (Hour * 4 + Minute) (Hour * 5).
Proof.
  assert (latestDue hourly Hour (Hour * 4 + Minute) = (Hour * 4, Hour * 5)) as E by (vm_compute; reflexivity).
  split; [exact E|]. pose proof (latestDue_correct onTheHour hourly Hour (Hour * 4 + Minute) _ ltac:(vm_compute; done)) as H.
  rewrite E in H. destruct H as [[H _]|(_ & _ & [[_ H]|[H _]])]; [done|exact H|done].
Defined.

(** C14: what [decideBackup] starts is right.  Nothing goes out inside the backoff.  A cluster without a
    full backup takes one at once; a full backup otherwise covers a full activation after the last
    successful one and not in the future; an incremental needs a backup to continue, no full
    activation pending, and covers an incremental activation after the last backup of either kind.
    And a backup goes out whenever one is due and no backoff holds it. *)
Theorem decideBackup_correct fullFires incFires inp :
  inputLaws fullFires incFires inp →
  let st := bin_status inp in
  let d := decideBackup inp in
  (bd_kind d ≠ backupNone ↔
     retryTime st ≤ bin_now inp ∧
     (bst_LastFullScheduleTime st = None ∨ ∃ v, v ≤ bin_now inp ∧ pending fullFires incFires inp v)) ∧
  (bd_kind d = backupFull →
     (bst_LastFullScheduleTime st = None ∧ bd_scheduled d = bin_now inp) ∨
     (∃ last, bst_LastFullScheduleTime st = Some last ∧ last < bd_scheduled d ≤ bin_now inp ∧
              fullFires (bd_scheduled d))) ∧
  (bd_kind d = backupIncremental →
     ∃ last, bst_LastFullScheduleTime st = Some last ∧ incrementalOn inp ∧
       (∀ v, last < v ≤ bin_now inp → ¬ fullFires v) ∧
       incrementalBase st last < bd_scheduled d ≤ bin_now inp ∧ incFires (bd_scheduled d)).
Proof.
  intros Hl. pose proof (dueBackup_spec _ _ inp Hl) as [_ Hd]. pose proof (dueBackup_due _ _ inp Hl) as Hdue.
  destruct (decideBackup_cases _ _ inp Hl) as [[E Hr]|(Hk & Hr & E)]; simpl; rewrite E.
  - split_and!; [|intros Hk; by rewrite Hk in Hd..]. rewrite <- Hdue. naive_solver.
  - simpl. split_and!; [|done|done]. split; [done|]. intros [? _]. lia.
Qed.

Definition demoBackupInput (st : BackupStatus) (now : Time) : backupInput :=
  mkBackupInput hourly None st now.

Lemma demoBackupInput_laws st now :
  (∀ t, bst_LastFullScheduleTime st = Some t → 0 ≤ t) → 0 ≤ now →
  inputLaws onTheHour (λ _, False) (demoBackupInput st now).
Proof. intros ? ?. constructor; try done. apply hourly_laws. Qed.

Lemma decideBackup_correct_witness :
  bd_kind (decideBackup (demoBackupInput zero_BackupStatus Hour)) = backupFull ∧
  (bst_LastFullScheduleTime zero_BackupStatus = None ∧
     bd_scheduled (decideBackup (demoBackupInput zero_BackupStatus Hour)) = Hour ∨
   ∃ last, bst_LastFullScheduleTime zero_BackupStatus = Some last ∧
     last < bd_scheduled (decideBackup (demoBackupInput zero_BackupStatus Hour)) ≤ Hour ∧
     onTheHour (bd_scheduled (decideBackup (demoBackupInput zero_BackupStatus Hour)))).
Proof.
  split; [done|]. apply (decideBackup_correct onTheHour (λ _, False) (demoBackupInput zero_BackupStatus Hour));
    [|done]. by apply demoBackupInput_laws.
Defined.

(** No wake-up is missed.  When nothing is started, the time to look again is right: until then
    (forever, when there is none) no backup would be started, and from then on one is due, so that it
    is started or held by a backoff of its own. *)
Theorem decideBackup_wakeup fullFires incFires inp :
  inputLaws fullFires incFires inp →
  bd_kind (decideBackup inp) = backupNone →
  let next := bd_next (decideBackup inp) in
  (∀ t, bin_now inp ≤ t → next = zero_time ∨ t < next →
     bd_kind (decideBackup (at_time inp t)) = backupNone) ∧
  (next ≠ zero_time →
     bin_now inp < next ∧ ∀ t, next ≤ t → bd_kind (dueBackup (at_time inp t)) ≠ backupNone).
Proof.
  intros Hl. pose proof (dueBackup_due _ _ inp Hl) as Hdue.
  assert (∀ t, bin_now inp ≤ t → bd_kind (dueBackup (at_time inp t)) ≠ backupNone ↔
    (bst_LastFullScheduleTime (bin_status inp) = None ∨ ∃ v, v ≤ t ∧ pending fullFires incFires inp v)) as Hat.
  { intros t Ht. apply (dueBackup_due _ _ (at_time inp t) (inputLaws_at _ _ inp t Hl Ht)). }
  destruct (decideBackup_cases _ _ inp Hl) as [[E Hr]|(Hk & Hr & E)]; rewrite E.
  - intros Hnone. pose proof (dueBackup_spec _ _ inp Hl) as [_ Hd]. rewrite Hnone in Hd.
    destruct Hd as (_ & [last Hlast] & Hno & Hf). split.
    + intros t Ht Hn. destruct (decideBackup_cases _ _ _ (inputLaws_at _ _ inp t Hl Ht)) as [[Et _]|(_ & _ & Et)];
        rewrite Et; [|done].
      apply dec_stable. rewrite Hat by done. intros [?|(v & Hv & Hp)]; [congruence|].
      assert (bin_now inp < v) by (apply Z.nle_gt; intros ?; by apply (Hno v)).
      destruct Hf as [[_ Hf]|(? & _ & Hf)]; [by apply (Hf v)|]. unfold zero_time in *.
      destruct Hl as [_ _ _ ?]. apply (Hf v); [lia|done].
    + intros Hn. destruct Hf as [[? _]|(Hlt & Hp & _)]; [done|]. split; [done|]. intros t Ht.
      apply Hat; [lia|]. right. eauto.
  - intros _. simpl. split.
    + intros t Ht Hn. destruct (decideBackup_cases _ _ _ (inputLaws_at _ _ inp t Hl Ht)) as [[Et Hrt]|(_ & _ & Et)];
        rewrite Et; [|done]. apply dec_stable. intros Hk'. specialize (Hrt Hk'). simpl in Hrt.
      unfold zero_time in *. destruct Hl as [_ _ _ ?]. lia.
    + intros _. split; [done|]. intros t Ht. apply Hat; [lia|]. apply Hdue in Hk as [?|(v & ? & ?)]; [by left|].
      right. exists v. split; [lia|done].
Qed.

Lemma decideBackup_wakeup_witness :
  let st := zero_BackupStatus <| bst_LastFullScheduleTime := Some Hour |> in
  bd_next (decideBackup (demoBackupInput st (Hour + Minute))) = 2 * Hour ∧
  (∀ t, 2 * Hour ≤ t → bd_kind (dueBackup (at_time (demoBackupInput st (Hour + Minute)) t)) ≠ backupNone).
Proof.
  intros st. split; [vm_compute; reflexivity|].
  apply (decideBackup_wakeup onTheHour (λ _, False) (demoBackupInput st (Hour + Minute))).
  - apply demoBackupInput_laws; [|done]. by intros t [= <-].
  - vm_compute. reflexivity.
  - vm_compute. done.
Defined.

(** C31: successful backups cover strictly increasing schedule times.  When a backup that was decided
    from some status succeeds, anything decided from the status it leaves, by the same schedules,
    covers a later time: no activation is backed up twice. *)
Theorem backup_progress fullFires incFires inp job info t now' :
  inputLaws fullFires incFires inp → 0 ≤ now' →
  let d := decideBackup inp in
  bd_kind d ≠ backupNone → job_kind job = bd_kind d → job_scheduled job = bd_scheduled d →
  bd_scheduled d ≤ t →
  let st' := applyBackupResult (bin_status inp) job (Ok info) t in
  let d' := decideBackup (mkBackupInput (bin_full inp) (bin_incremental inp) st' now') in
  bd_kind d' ≠ backupNone → bd_scheduled d < bd_scheduled d'.
Proof.
  intros Hl Hnow'. cbv zeta. set (inp' := mkBackupInput _ _ _ now').
  destruct (decideBackup_cases _ _ inp Hl) as [[-> _]|(_ & _ & ->)]; [|done]. intros Hk Hjk Hjs Ht.
  destruct (scheduled_range _ _ inp Hl Hk) as [Hr Ha].
  pose proof (recordSuccess_anchors (bin_status inp) job info t) as [Hfull Hinc]. rewrite Hjk, Hjs in Hfull, Hinc.
  assert (inputLaws fullFires incFires inp') as Hl'.
  { destruct Hl as [? ? Hlast ?]. constructor; try done. intros l. simpl.
    destruct (decide (bd_kind (dueBackup inp) = backupFull)) as [Hf|Hf];
      [destruct (Hfull Hf) as [-> _]; intros [= <-]; lia|destruct (Hinc Hf) as [-> _]; apply Hlast]. }
  destruct (decideBackup_cases _ _ inp' Hl') as [[-> _]|(_ & _ & ->)]; [|done]. intros Hk'.
  destruct (scheduled_range _ _ inp' Hl' Hk') as [_ Ha'].
  destruct (decide (bd_kind (dueBackup inp) = backupFull)) as [Hf|Hf].
  { destruct (Hfull Hf) as [Hlast _]. apply (Ha' _ Hlast). }
  destruct (Hinc Hf) as [Hlast Hlinc].
  assert (bd_kind (dueBackup inp) = backupIncremental) as Hi by (by destruct (bd_kind (dueBackup inp))).
  destruct (dueBackup_spec _ _ inp Hl) as [_ Hd]. rewrite Hi in Hd. destruct Hd as (last & Hll & _).
  destruct (Ha last Hll) as (Hlt & _ & [Hbase Hno]%(λ H, H Hi)). rewrite Hll in Hlast.
  destruct (Ha' last Hlast) as (Hlt' & Hf' & Hi').
  destruct (bd_kind (dueBackup inp')) eqn:Ek'; [done|..].
  - apply Z.nle_gt. intros Hle. apply (Hno (bd_scheduled (dueBackup inp'))); [lia|by apply Hf'].
  - destruct (Hi' eq_refl) as [Hb _]. unfold incrementalBase in Hb at 1. change (bin_status inp') with
      (recordSuccess (bin_status inp) job info t) in Hb. rewrite Hlinc in Hb. unfold time_after in Hb.
    destruct (Z.ltb_spec last (bd_scheduled (dueBackup inp))); lia.
Qed.

Lemma backup_progress_witness :
  let st := zero_BackupStatus <| bst_LastFullScheduleTime := Some Hour |> in
  let inp := demoBackupInput st (2 * Hour + Minute) in
  let job := mkBackupJob backupFull (2 * Hour) "" None in
  let info := mkBackupInfo "b1" "Full" "" "" "" "" "" in
  let st' := applyBackupResult st job (Ok info) (2 * Hour + 5 * Minute) in
  2 * Hour < bd_scheduled (decideBackup (mkBackupInput hourly None st' (5 * Hour))).
Proof.
  intros st inp job info st'.
  apply (backup_progress onTheHour (λ _, False) inp job info (2 * Hour + 5 * Minute) (5 * Hour)).
  - apply demoBackupInput_laws; [|done]. by intros t [= <-].
  - done.
  - vm_compute. done.
  - vm_compute. reflexivity.
  - vm_compute. reflexivity.
  - vm_compute. done.
  - vm_compute. done.
Defined.

(** The backoff after [n] consecutive failures is one minute doubled [n - 1] times, capped at half an
    hour, for every count an int32 can hold; the loop never overflows. *)
Theorem backupRetryDelay_closed failures :
  1 ≤ failures < two31 →
  backupRetryDelay failures = Z.min (backupRetryInitial * 2 ^ (failures - 1)) backupRetryMax ∧
  backupRetryInitial ≤ backupRetryDelay failures ≤ backupRetryMax.
Proof.
  intros Hf. unfold backupRetryDelay.
  rewrite retryLoop_closed by (vm_compute; done). rewrite Z2Nat.id by lia. split; [done|].
  assert (1 ≤ 2 ^ (failures - 1)) by (apply (Z.pow_le_mono_r 2 0); lia).
  assert (0 < backupRetryInitial ≤ backupRetryMax) by (vm_compute; done). nia.
Qed.

Lemma backupRetryDelay_closed_witness : backupRetryDelay 4 = 8 * Minute.
Proof.
  destruct (backupRetryDelay_closed 4) as [-> _]; [unfold two31; lia|]. vm_compute. reflexivity.
Defined.

(** Applying a result keeps the status well-formed: the failure count, the time and the text of the
    last failure appear and disappear together, unclaimed attempts are tracked only while there is no
    outstanding failure, and a success clears all of it. *)
Theorem applyBackupResult_wf st job r now :
  wf_backup st → bst_ConsecutiveFailures st < two31 - 1 →
  wf_backup (applyBackupResult st job r now) ∧
  (∀ info, r = Ok info → bst_ConsecutiveFailures (applyBackupResult st job r now) = 0 ∧
     bst_UnclaimedSince (applyBackupResult st job r now) = None ∧
     bst_LastBackupID (applyBackupResult st job r now) = bi_BackupID info ∧
     bst_LastSuccessfulTime (applyBackupResult st job r now) = Some now).
Proof.
  intros [Hf Ht Hm Hu Hn] Hlt. destruct r as [info|e]; cbn [applyBackupResult].
  - split; [|intros ? [= <-]; unfold recordSuccess; by case_bool_decide].
    unfold recordSuccess. case_bool_decide; constructor; simpl; try done; try lia;
      try (split; intros [? ?]; done); by intros [? ?].
  - split; [|done]. repeat case_match; try (apply recordFailure_wf; simpl; done || lia).
    bsimpl. constructor; simpl; done.
Qed.

Lemma applyBackupResult_wf_witness :
  wf_backup (applyBackupResult zero_BackupStatus (mkBackupJob backupFull Hour "" None)
               (Err (ErrorText "disk full")) Hour) ∧
  bst_LastFailureMessage (applyBackupResult zero_BackupStatus (mkBackupJob backupFull Hour "" None)
               (Err (ErrorText "disk full")) Hour) = "Full backup: disk full".
Proof.
  split; [|vm_compute; reflexivity].
  apply applyBackupResult_wf; [apply wf_zero|unfold two31; simpl; lia].
Defined.

(** An incremental whose parent is gone from the catalog starts a new chain: it is not counted as a
    failure, and the next decision, at any time, is a full backup at once, unless earlier failures
    still hold a backoff. *)
Theorem parent_missing_restarts st job e be now inp :
  job_kind job = backupIncremental → as_backup_error e = Some be →
  be_Outcome be = BackupOutcomeParentMissing → wf_backup st →
  let st' := applyBackupResult st job (Err e) now in
  bin_status inp = st' →
  bst_ConsecutiveFailures st' = bst_ConsecutiveFailures st ∧
  bd_kind (dueBackup inp) = backupFull ∧ bd_scheduled (dueBackup inp) = bin_now inp ∧
  (bst_ConsecutiveFailures st = 0 → 0 ≤ bin_now inp → decideBackup inp = dueBackup inp).
Proof.
  intros Hk He Ho [_ Ht _ _ _] st' Hst.
  assert (st' = st <| bst_UnclaimedSince := None |> <| bst_LastUnclaimedTime := None |>
                   <| bst_LastBackupID := "" |> <| bst_LastFullScheduleTime := None |>) as Hs.
  { unfold st', applyBackupResult. rewrite errors_exclusive by (rewrite He; by eexists).
    unfold recordFailure. rewrite He, Ho, bool_decide_eq_true_2 by done. done. }
  unfold decideBackup, dueBackup. rewrite Hst, Hs. simpl. split_and!; try done. intros Hz Hnow.
  unfold retryTime. simpl. rewrite (proj1 Ht Hz). unfold time_after, zero_time.
  by destruct (Z.ltb_spec (bin_now inp) 0); [lia|].
Qed.

Lemma parent_missing_restarts_witness :
  let e := ErrorWrap "kahuna-0: " (ErrBackup (mkBackupError 409 BackupOutcomeParentMissing "")) in
  let job := mkBackupJob backupIncremental Hour "b0" None in
  let st' := applyBackupResult zero_BackupStatus job (Err e) Hour in
  bd_kind (dueBackup (demoBackupInput st' (Hour + Minute))) = backupFull.
Proof.
  intros e job st'. apply (parent_missing_restarts zero_BackupStatus job e
    (mkBackupError 409 BackupOutcomeParentMissing "") Hour (demoBackupInput st' (Hour + Minute)));
    try reflexivity. apply wf_zero.
Defined.

(** Attempts that every node refused with an outcome that clears on retry, at the times [ts]. *)
Definition unclaimedAttempts (st : BackupStatus) (job : backupJob) (refusals : list string)
    (ts : list Time) : BackupStatus :=
  foldl (λ st t, applyBackupResult st job (Err (ErrUnclaimed refusals)) t) st ts.

(** A backup that no node takes is retried quietly for five minutes and no longer.  From a status
    without failures, attempts refused by every node within five minutes of the first leave no
    failure; the first attempt refused at five minutes or later is counted as one, so a cluster that
    never gets a coordinator does report that its backups fail. *)
Theorem unclaimed_bound st job refusals t0 ts t :
  wf_backup st → bst_ConsecutiveFailures st = 0 → bst_UnclaimedSince st = None →
  Forall (λ u, u - t0 < unclaimedFailAfter) ts → unclaimedFailAfter ≤ t - t0 →
  let quiet := unclaimedAttempts st job refusals (t0 :: ts) in
  let late := applyBackupResult quiet job (Err (ErrUnclaimed refusals)) t in
  bst_ConsecutiveFailures quiet = 0 ∧ bst_UnclaimedSince quiet = Some t0 ∧
  bst_ConsecutiveFailures late = 1 ∧ bst_LastFailureTime late = Some t ∧ bst_UnclaimedSince late = None.
Proof.
  intros Hwf Hz Hn Hts Ht.
  assert (∀ u, u - t0 < unclaimedFailAfter → (time_sub u t0 <? unclaimedFailAfter) = true) as Hin.
  { intros u Hu. apply Z.ltb_lt. unfold time_sub, clamp.
    assert (- two63 < unclaimedFailAfter) by (vm_compute; done). lia. }
  assert (bst_ConsecutiveFailures (unclaimedAttempts st job refusals (t0 :: ts)) = 0 ∧
          bst_UnclaimedSince (unclaimedAttempts st job refusals (t0 :: ts)) = Some t0) as [Hq1 Hq2].
  { unfold unclaimedAttempts. cbn [foldl].
    assert (bst_ConsecutiveFailures (applyBackupResult st job (Err (ErrUnclaimed refusals)) t0) = 0 ∧
            bst_UnclaimedSince (applyBackupResult st job (Err (ErrUnclaimed refusals)) t0) = Some t0) as H0.
    { simpl. rewrite Hz, Hn. simpl. rewrite Hin; [done|]. rewrite Z.sub_diag. vm_compute. done. }
    revert H0. generalize (applyBackupResult st job (Err (ErrUnclaimed refusals)) t0).
    induction Hts as [|u ts Hu _ IH]; intros q [Hq1 Hq2]; [done|]. cbn [foldl]. apply IH.
    simpl. rewrite Hq1, Hq2. simpl. by rewrite Hin. }
  set (quiet := unclaimedAttempts _ _ _ _) in *. cbv zeta. split_and!; [done|done|..];
    simpl; rewrite Hq1, Hq2; simpl;
    (assert ((time_sub t t0 <? unclaimedFailAfter) = false) as ->;
      [apply Z.ltb_ge; unfold time_sub, clamp; assert (unclaimedFailAfter < two63 - 1) by (vm_compute; done); lia|]);
    unfold recordFailure; simpl; rewrite andb_false_r; simpl; by rewrite ?Hq1.
Qed.

Lemma unclaimed_bound_witness :
  let job := mkBackupJob backupFull Hour "" None in
  bst_ConsecutiveFailures
    (applyBackupResult (unclaimedAttempts zero_BackupStatus job ["kahuna-0: refused"] [Hour; Hour + Minute])
       job (Err (ErrUnclaimed ["kahuna-0: refused"])) (Hour + 6 * Minute)) = 1.
Proof.
  intros job. apply (unclaimed_bound zero_BackupStatus job ["kahuna-0: refused"] Hour [Hour + Minute] (Hour + 6 * Minute));
    [apply wf_zero|done|done|repeat constructor|vm_compute; done].
Defined.
