(* ===== verification/BackupRunner.v ===== *)
(** * Running a backup (internal/controller/backup.go)

    [runBackup] sends a backup to each node in turn until one takes it; [backupRunner] keeps the jobs
    that run outside the reconcile loop.  The runner's map holds pointers to jobs that the background
    goroutine completes later, so the model has a heap of jobs and a map of addresses, and the
    operations, the completion of a goroutine included, are steps that interleave freely.  Proved:
    a backup succeeds exactly when some node takes it after every earlier one could be passed over; the
    quiet "unclaimed" error means that every node was asked and refused in a way that clears; a
    finished job is handed back at most once, to the cluster it was started for, with the result its
    goroutine ended with; one cluster has at most one backup running as long as it is not itself
    forgotten, and can have two when it is. *)

From Stdlib Require Import ZArith Lia.
From stdpp Require Import base numbers strings pretty sorting gmap list.
From S2P Require Import Prelude GoStrings Types Naming Kahuna Roster Autoscaler BackupSchedule.

Open Scope Z_scope.

(** ** runBackup *)

Record backupTarget := mkBackupTarget { bt_pod : string; bt_url : string }.

(** ctx.Err() != nil: the backup's own deadline has passed. *)
Class Context (W : Type) := ctx_Err : go W bool.

(** Whether a refusal leaves room for another node, and whether it clears on retry. *)
Definition passesOver (e : error) : bool :=
  match as_backup_error e with Some be => TryAnotherNode be | None => true end.
Definition clearsOnRetry (e : error) : bool :=
  match as_backup_error e with Some be => ClearsOnRetry be | None => false end.

Definition refusalText (t : backupTarget) (e : error) : string := bt_pod t +:+ ": " +:+ error_Error e.

Section run.
Context {W : Type} `{!Client W, !Context W}.

Definition takeBackup (kind : backupKind) (parent url : string) : go W (result BackupInfo) :=
  if bool_decide (kind = backupFull) then client_TakeCoordinatedBackup url
  else client_TakeIncrementalBackup url parent.

Fixpoint sendBackup (kind : backupKind) (parent : string) (refusals : list string) (clears : bool)
    (targets : list backupTarget) : go W (result BackupInfo) :=
  match targets with
  | [] =>
      mret (Err (if (length refusals =? 0)%nat then ErrorText "no ready node to send the backup to"
                 else if clears then ErrUnclaimed refusals
                 else ErrorText ("no node took the backup: " +:+ str_join "; " refusals)))
  | t :: rest =>
      r ← takeBackup kind parent (bt_url t);
      match r with
      | Ok info => mret (Ok info)
      | Err e =>
          expired ← ctx_Err;
          if expired : bool then
            mret (Err (ErrorWrap (bt_pod t +:+ " did not finish the backup before the timeout: ") e))
          else if negb (passesOver e) then mret (Err (ErrorWrap (bt_pod t +:+ ": ") e))
          else sendBackup kind parent (refusals ++ [refusalText t e]) (clears && clearsOnRetry e) rest
      end
  end.

Definition runBackup (kind : backupKind) (parent : string) (targets : list backupTarget)
    : go W (result BackupInfo) :=
  sendBackup kind parent [] true targets.

(** The targets were asked in turn; each refused with the error of the list, in time, and in a way
    that leaves room for another node. *)
Inductive passedOver (kind : backupKind) (parent : string) : list backupTarget → list error → W → W → Prop :=
  | passedOver_nil w : passedOver kind parent [] [] w w
  | passedOver_cons t ts e es w w1 w2 w3 :
      takeBackup kind parent (bt_url t) w = (Some (Err e), w1) →
      ctx_Err w1 = (Some false, w2) → passesOver e = true →
      passedOver kind parent ts es w2 w3 →
      passedOver kind parent (t :: ts) (e :: es) w w3.

Lemma sendBackup_Ok kind parent targets refusals clears w info w' :
  sendBackup kind parent refusals clears targets w = (Some (Ok info), w') ↔
  ∃ pre t post es w1, targets = pre ++ t :: post ∧ passedOver kind parent pre es w w1 ∧
    takeBackup kind parent (bt_url t) w1 = (Some (Ok info), w').
Proof.
  revert refusals clears w. induction targets as [|t ts IH]; intros refusals clears w; cbn [sendBackup].
  { split; [done|]. by intros ([|] & ? & ? & ? & ? & ? & _). }
  rewrite go_bind_Some. split.
  - intros ([i|e] & w1 & Ht & Hr).
    + injection Hr as -> ->. exists [], t, ts, [], w. split_and!; [done|constructor|done].
    + apply go_bind_Some in Hr as ([] & w2 & Hx & Hr); [done|].
      destruct (passesOver e) eqn:Hp; simpl in Hr; [|done].
      apply IH in Hr as (pre & u & post & es & w3 & -> & Hpo & Hu).
      exists (t :: pre), u, post, (e :: es), w3. split_and!; [done|by econstructor|done].
  - intros (pre & u & post & es & w1 & Heq & Hpo & Hu). destruct pre as [|t' pre]; simplify_eq/=.
    + inversion Hpo; subst. by exists (Ok info), w'.
    + inversion Hpo as [|? ? e ? ? w2 w3 ? Ht Hx Hp Hpo']; subst. exists (Err e), w2. split; [done|].
      apply go_bind_Some. exists false, w3. split; [done|]. rewrite Hp. simpl. apply IH. naive_solver.
Qed.

Lemma sendBackup_unclaimed kind parent targets refusals clears w e w' rs :
  (∀ url w e w', takeBackup kind parent url w = (Some (Err e), w') → as_unclaimed_error e = None) →
  sendBackup kind parent refusals clears targets w = (Some (Err e), w') →
  as_unclaimed_error e = Some rs →
  ∃ es, passedOver kind parent targets es w w' ∧ clears = true ∧
    Forall (λ e, clearsOnRetry e = true) es ∧ rs = refusals ++ zip_with refusalText targets es.
Proof.
  intros Hc. revert refusals clears w. induction targets as [|t ts IH]; intros refusals clears w; cbn [sendBackup].
  { destruct refusals; simpl; [by intros [= <- <-]|]. destruct clears; intros [= <- <-]; simpl; [|done].
    intros [= <-]. exists []. rewrite app_nil_r. split_and!; [constructor|done|constructor|done]. }
  intros ([i|e'] & w1 & Ht & Hr)%go_bind_Some; [done|]. intros Hu. pose proof (Hc _ _ _ _ Ht) as Hn.
  apply go_bind_Some in Hr as ([] & w2 & Hx & Hr).
  { injection Hr as <- <-. simpl in Hu. congruence. }
  destruct (passesOver e') eqn:Hp; simpl in Hr; cycle 1.
  { injection Hr as <- <-. simpl in Hu. congruence. }
  apply IH in Hr as (es & Hpo & Hcl & Hall & ->); [|done]. bsimpl. exists (e' :: es).
  split_and!; [by econstructor|done|by constructor|]. simpl. by rewrite <- app_assoc.
Qed.

(** C19: [runBackup] succeeds exactly when some node takes the backup and every node before it refused
    in time with an error that leaves room for another node; and it reports the quiet unclaimed
    error only when every node was asked and every one refused with an outcome that clears on
    retry (the error type is the controller's own, the client never returns it). *)
Theorem runBackup_correct kind parent targets w :
  (∀ url w e w', takeBackup kind parent url w = (Some (Err e), w') → as_unclaimed_error e = None) →
  (∀ info w', runBackup kind parent targets w = (Some (Ok info), w') ↔
     ∃ pre t post es w1, targets = pre ++ t :: post ∧ passedOver kind parent pre es w w1 ∧
       takeBackup kind parent (bt_url t) w1 = (Some (Ok info), w')) ∧
  (∀ e w' rs, runBackup kind parent targets w = (Some (Err e), w') → as_unclaimed_error e = Some rs →
     ∃ es, passedOver kind parent targets es w w' ∧ Forall (λ e, clearsOnRetry e = true) es ∧
       rs = zip_with refusalText targets es).
Proof.
  intros Hc. split; [intros info w'; apply sendBackup_Ok|]. intros e w' rs Hr Hu.
  destruct (sendBackup_unclaimed _ _ _ _ _ _ _ _ _ Hc Hr Hu) as (es & ? & _ & ? & ->). by exists es.
Qed.
End run.

Lemma runBackup_correct_witness :
  let info := mkBackupInfo "b1" "Full" "" "" "" "" "" in
  let c := fixedClient refused refused refused refused (λ url, if String.eqb url "http://b" then Ok info
             else Err (ErrBackup (mkBackupError 409 BackupOutcomeNotBackupCoordinator ""))) in
  let x : Context unit := mret false in
  let targets := [mkBackupTarget "kahuna-0" "http://a"; mkBackupTarget "kahuna-1" "http://b"] in
  ∃ pre t post es w1, targets = pre ++ t :: post ∧ passedOver backupFull "" pre es tt w1 ∧
    takeBackup backupFull "" (bt_url t) w1 = (Some (Ok info), tt).
Proof.
  intros info c x targets. apply (runBackup_correct backupFull "" targets tt); [|reflexivity].
  intros url w e w'. change (takeBackup backupFull "" url w) with
    (Some (if String.eqb url "http://b" then Ok info
           else Err (ErrBackup (mkBackupError 409 BackupOutcomeNotBackupCoordinator ""))), w).
  destruct (String.eqb url "http://b"); intros [=]; by subst.
Defined.

(** ** The runner *)

(** [rn_heap] holds every job ever started, by address, with the cluster it was started for (the
    goroutine's own knowledge, kept for the statements); [rn_jobs] is the map of the source. *)
Record backupRunner := mkBackupRunner {
  rn_heap : list (NamespacedName * backupJob);
  rn_jobs : gmap NamespacedName nat;
}.

Definition newRunner : backupRunner := mkBackupRunner [] ∅.

Definition finished (job : backupJob) : bool := negb (is_nil (job_result job)).

(** start: the map entry is set under the lock, and the goroutine begins. *)
Definition runner_start (b : backupRunner) (key : NamespacedName) (job : backupJob) : backupRunner :=
  mkBackupRunner (rn_heap b ++ [(key, job)]) (<[key := length (rn_heap b)]> (rn_jobs b)).

(** The end of the goroutine of the job at address [a]: it writes through its own pointer, whether or
    not the map still holds it. *)
Definition runner_finish (b : backupRunner) (a : nat) (r : result BackupInfo) : backupRunner :=
  mkBackupRunner (alter (λ kj, (kj.1, kj.2 <| job_result := Some r |>)) a (rn_heap b)) (rn_jobs b).

Definition runner_poll (b : backupRunner) (key : NamespacedName) : option backupJob * backupRunner :=
  match rn_jobs b !! key with
  | None => (None, b)
  | Some a =>
      match rn_heap b !! a with
      | None => (None, b)
      | Some (_, job) =>
          (Some job, if finished job then mkBackupRunner (rn_heap b) (delete key (rn_jobs b)) else b)
      end
  end.

Definition runner_forget (b : backupRunner) (key : NamespacedName) : backupRunner :=
  mkBackupRunner (rn_heap b) (delete key (rn_jobs b)).

(** What an observer of the runner sees. *)
Inductive runnerEvent :=
  | Started (key : NamespacedName) (a : nat) (job : backupJob)
  | Finished (a : nat) (r : result BackupInfo)
  | Delivered (key : NamespacedName) (a : nat) (job : backupJob)
  | Forgotten (key : NamespacedName).

(** The event of a poll: when the job that [runner_poll] hands back is finished, it is delivered; the
    address says which job it was. *)
Definition pollEvents (b : backupRunner) (key : NamespacedName) : list runnerEvent :=
  match rn_jobs b !! key, (runner_poll b key).1 with
  | Some a, Some job => if finished job then [Delivered key a job] else []
  | _, _ => []
  end.

(** Every interleaving of the operations and of the goroutines, with its events, the newest first. *)
Inductive interleaving : backupRunner → list runnerEvent → Prop :=
  | il_init : interleaving newRunner []
  | il_start b tr key job :
      interleaving b tr → job_result job = None →
      interleaving (runner_start b key job) (Started key (length (rn_heap b)) job :: tr)
  | il_finish b tr a key job r :
      interleaving b tr → rn_heap b !! a = Some (key, job) → job_result job = None →
      interleaving (runner_finish b a r) (Finished a r :: tr)
  | il_poll b tr key :
      interleaving b tr → interleaving (runner_poll b key).2 (pollEvents b key ++ tr)
  | il_forget b tr key :
      interleaving b tr → interleaving (runner_forget b key) (Forgotten key :: tr).

Definition deliveredAt (tr : list runnerEvent) : list nat :=
  omap (λ e, match e with Delivered _ a _ => Some a | _ => None end) tr.

(** The job at [a] was started as [job] for [key], and ended with [r]. *)
Definition ended (tr : list runnerEvent) (key : NamespacedName) (a : nat) (job : backupJob)
    (r : result BackupInfo) : Prop :=
  Started key a job ∈ tr ∧ Finished a r ∈ tr.

(** The invariant that every interleaving keeps. *)
Record runnerInv (b : backupRunner) (tr : list runnerEvent) : Prop := {
  ri_jobs : ∀ key a, rn_jobs b !! key = Some a → (∃ job, rn_heap b !! a = Some (key, job)) ∧ a ∉ deliveredAt tr;
  ri_delivered : ∀ a, a ∈ deliveredAt tr → (a < length (rn_heap b))%nat;
  ri_once : NoDup (deliveredAt tr);
  ri_running : ∀ a key job, rn_heap b !! a = Some (key, job) → job_result job = None → Started key a job ∈ tr;
  ri_ended : ∀ a key job r, rn_heap b !! a = Some (key, job) → job_result job = Some r →
    ∃ job0, ended tr key a job0 r ∧ job = job0 <| job_result := Some r |>;
  ri_finished : ∀ a r, Finished a r ∈ tr →
    ∃ key job, rn_heap b !! a = Some (key, job) ∧ job_result job = Some r;
  ri_source : ∀ key a job, Delivered key a job ∈ tr →
    ∃ job0 r, ended tr key a job0 r ∧ job = job0 <| job_result := Some r |>;
}.

Lemma ended_weaken ev tr key a job r : ended tr key a job r → ended (ev ++ tr) key a job r.
Proof. intros [? ?]. split; apply elem_of_app; by right. Qed.

Lemma runnerInv_start b tr key job :
  runnerInv b tr → job_result job = None →
  runnerInv (runner_start b key job) (Started key (length (rn_heap b)) job :: tr).
Proof.
  intros [Hj Hd Ho Hr He Hf Hs] Hn. set (ev := Started key (length (rn_heap b)) job). constructor; simpl.
  - intros k a. destruct (decide (k = key)) as [->|Hne].
    + rewrite lookup_insert_eq. intros [= <-]. split; [|intros Hin%Hd; lia].
      exists job. by rewrite lookup_app_r, Nat.sub_diag by lia.
    + rewrite lookup_insert_ne by done. intros ((j & Hl) & ?)%Hj. split; [|done].
      exists j. by apply lookup_app_l_Some.
  - intros a Ha%Hd. rewrite length_app. lia.
  - done.
  - intros a k j. rewrite lookup_app_Some. intros [Hl|[Hge Hl]] Hres; [right; by eapply Hr|].
    destruct (a - length (rn_heap b))%nat eqn:E; simpl in Hl; [|done]. injection Hl as <- <-.
    assert (a = length (rn_heap b)) as -> by lia. by left.
  - intros a k j r. rewrite lookup_app_Some. intros [Hl|[_ Hl]] Hres.
    + destruct (He _ _ _ _ Hl Hres) as (j0 & ? & ?). exists j0. split; [by apply (ended_weaken [ev])|done].
    + destruct (a - length (rn_heap b))%nat; simpl in Hl; [|done]. congruence.
  - intros a r [?|Hin]%elem_of_cons; [done|]. destruct (Hf a r Hin) as (k & j & Hl & ?).
    exists k, j. split; [by apply lookup_app_l_Some|done].
  - intros k a j [?|Hin]%elem_of_cons; [done|]. destruct (Hs k a j Hin) as (j0 & r & ? & ?).
    exists j0, r. split; [by apply (ended_weaken [ev])|done].
Qed.

Lemma lookup_finish b a r a' :
  rn_heap (runner_finish b a r) !! a' =
  (if decide (a' = a) then (λ kj, (kj.1, kj.2 <| job_result := Some r |>)) <$> rn_heap b !! a'
   else rn_heap b !! a').
Proof.
  simpl. case_decide as E; [subst; apply list_lookup_alter_eq|by apply list_lookup_alter_ne].
Qed.

Lemma runnerInv_finish b tr a key job r :
  runnerInv b tr → rn_heap b !! a = Some (key, job) → job_result job = None →
  runnerInv (runner_finish b a r) (Finished a r :: tr).
Proof.
  intros [Hj Hd Ho Hr He Hf Hs] Ha Hn. constructor.
  - intros k a' ((j & Hl) & ?)%Hj. split; [|done]. rewrite lookup_finish, Hl. case_decide; simpl; by eexists.
  - intros a' Ha'%Hd. simpl. by rewrite length_alter.
  - done.
  - intros a' k j. rewrite lookup_finish. case_decide as E.
    + subst. rewrite Ha. simpl. intros [= <- <-]. done.
    + intros Hl Hres. right. by eapply Hr.
  - intros a' k j r'. rewrite lookup_finish. case_decide as E.
    + subst. rewrite Ha. simpl. intros [= <- <-] [= <-]. exists job. split; [|done].
      split; [right; by eapply Hr|by left].
    + intros Hl Hres. destruct (He _ _ _ _ Hl Hres) as (j0 & ? & ?). exists j0.
      split; [by apply (ended_weaken [_])|done].
  - intros a' r'. rewrite lookup_finish. intros [E|Hin]%elem_of_cons.
    + injection E as -> ->. rewrite decide_True, Ha by done. simpl. by eexists _, _.
    + destruct (Hf a' r' Hin) as (k & j & Hl & Hres). case_decide as E; [subst; congruence|]. by exists k, j.
  - intros k a' j [?|Hin]%elem_of_cons; [done|]. destruct (Hs k a' j Hin) as (j0 & r' & ? & ?).
    exists j0, r'. split; [by apply (ended_weaken [_])|done].
Qed.

Lemma runnerInv_poll b tr key :
  runnerInv b tr → runnerInv (runner_poll b key).2 (pollEvents b key ++ tr).
Proof.
  intros Hinv. unfold pollEvents, runner_poll.
  destruct (rn_jobs b !! key) as [a|] eqn:Ek; [|done].
  destruct (rn_heap b !! a) as [[own job]|] eqn:Ea; [|done]. cbn [fst snd].
  destruct (finished job) eqn:Efin; [|done]. unfold finished in Efin.
  destruct (job_result job) as [r|] eqn:Er; [|done]. clear Efin.
  destruct Hinv as [Hj Hd Ho Hr He Hf Hs]. destruct (Hj key a Ek) as ((j & Hl) & Hnd).
  rewrite Ea in Hl. injection Hl as -> ->. set (ev := Delivered key a j). constructor; simpl.
  - intros k a' Hk. apply lookup_delete_Some in Hk as [Hne Hk].
    destruct (Hj k a' Hk) as ((j' & Hl') & Hnd'). split; [by eexists|].
    change (a' ∉ a :: deliveredAt tr). apply not_elem_of_cons. split; [|done].
    intros ->. rewrite Ea in Hl'. by simplify_eq.
  - intros a' [->|Ha']%elem_of_cons; [by eapply lookup_lt_Some|by apply Hd].
  - by constructor.
  - intros a' k j' Hl' Hres. right. by eapply Hr.
  - intros a' k j' r' Hl' Hres. destruct (He _ _ _ _ Hl' Hres) as (j0 & ? & ?). exists j0.
    split; [by apply (ended_weaken [ev])|done].
  - intros a' r' [?|Hin]%elem_of_cons; [done|]. by apply Hf.
  - intros k a' j' [E|Hin]%elem_of_cons.
    + injection E as -> -> ->. destruct (He _ _ _ _ Ea Er) as (j0 & ? & ?). exists j0, r.
      split; [by apply (ended_weaken [ev])|done].
    + destruct (Hs k a' j' Hin) as (j0 & r' & ? & ?). exists j0, r'. split; [by apply (ended_weaken [ev])|done].
Qed.

Lemma runnerInv_forget b tr key :
  runnerInv b tr → runnerInv (runner_forget b key) (Forgotten key :: tr).
Proof.
  intros [Hj Hd Ho Hr He Hf Hs]. constructor; simpl.
  - intros k a [_ ((j & Hl) & ?)%Hj]%lookup_delete_Some. split; [by eexists|done].
  - done.
  - done.
  - intros a k j Hl Hres. right. by eapply Hr.
  - intros a k j r Hl Hres. destruct (He _ _ _ _ Hl Hres) as (j0 & ? & ?). exists j0.
    split; [by apply (ended_weaken [_])|done].
  - intros a r [?|Hin]%elem_of_cons; [done|]. by apply Hf.
  - intros k a j [?|Hin]%elem_of_cons; [done|]. destruct (Hs k a j Hin) as (j0 & r & ? & ?).
    exists j0, r. split; [by apply (ended_weaken [_])|done].
Qed.

#[export] Hint Resolve runnerInv_start runnerInv_finish runnerInv_poll runnerInv_forget : operator.

Lemma interleaving_inv b tr : interleaving b tr → runnerInv b tr.
Proof.
  induction 1; eauto with operator. constructor; simpl; intros *; rewrite ?lookup_empty, ?lookup_nil;
    try done; try by rewrite elem_of_nil. constructor.
Qed.

(** C18: under every interleaving of starts, polls, forgets and goroutines ending, a finished job is
    handed back by [runner_poll] at most once, only to the cluster it was started for, and what is
    handed back is the job as it was started with the result its goroutine ended with; and as long as
    the cluster's entry points to a job that has ended, the next poll hands back its result, so that no
    result is lost but those of forgotten or replaced jobs. *)
Theorem delivered_once b tr :
  interleaving b tr →
  NoDup (deliveredAt tr) ∧
  (∀ key a job, Delivered key a job ∈ tr →
     ∃ job0 r, Started key a job0 ∈ tr ∧ Finished a r ∈ tr ∧ job = job0 <| job_result := Some r |>) ∧
  (∀ key a r, rn_jobs b !! key = Some a → Finished a r ∈ tr →
     ∃ job, (runner_poll b key).1 = Some job ∧ job_result job = Some r ∧ pollEvents b key = [Delivered key a job]).
Proof.
  intros [Hj _ Ho _ _ Hf Hs]%interleaving_inv. split_and!; [done| |].
  - intros key a job (job0 & r & [? ?] & ->)%Hs. by exists job0, r.
  - intros key a r Hk Hin. destruct (Hf a r Hin) as (k & job & Hl & Hr). exists job.
    unfold pollEvents, runner_poll. rewrite Hk, Hl. simpl. unfold finished. by rewrite Hr.
Qed.

Definition demoJob : backupJob := mkBackupJob backupFull Hour "" None.
Definition demoKey : NamespacedName := ("kv", "kahuna").

Lemma delivered_once_witness :
  let r := Err (ErrorText "disk full") in
  let job := demoJob <| job_result := Some r |> in
  let b := runner_finish (runner_start newRunner demoKey demoJob) 0 r in
  let tr := [Delivered demoKey 0 job; Finished 0 r; Started demoKey 0 demoJob] in
  (runner_poll b demoKey).1 = Some job ∧ NoDup (deliveredAt tr) ∧
  ∃ job0 r0, Started demoKey 0 job0 ∈ tr ∧ Finished 0 r0 ∈ tr ∧ job = job0 <| job_result := Some r0 |>.
Proof.
  intros r job b tr. split; [reflexivity|].
  destruct (delivered_once (runner_poll b demoKey).2 tr) as (Ho & Hd & _).
  - apply (il_poll b [Finished 0 r; Started demoKey 0 demoJob] demoKey).
    apply (il_finish _ _ 0 demoKey demoJob); [|done|done].
    apply (il_start newRunner [] demoKey demoJob); [constructor|done].
  - split; [exact Ho|]. apply Hd. by left.
Defined.

(** ** One backup at a time *)

(** What a reconcile pass does with the runner: it collects a finished job, and starts [want] only
    when no job is left in the map. *)
Definition runner_pass (b : backupRunner) (key : NamespacedName) (want : option backupJob) : backupRunner :=
  let '(job, b') := runner_poll b key in
  match job with
  | Some j => if finished j then match want with Some n => runner_start b' key n | None => b' end else b'
  | None => match want with Some n => runner_start b' key n | None => b' end
  end.

(** Passes over any clusters, goroutines ending, and clusters of [forgettable] being forgotten (deleted,
    or passed over without a spec.backup). *)
Inductive passes (forgettable : NamespacedName → Prop) : backupRunner → Prop :=
  | passes_init : passes forgettable newRunner
  | passes_pass b key want :
      passes forgettable b → (∀ n, want = Some n → job_result n = None) →
      passes forgettable (runner_pass b key want)
  | passes_finish b a key job r :
      passes forgettable b → rn_heap b !! a = Some (key, job) → job_result job = None →
      passes forgettable (runner_finish b a r)
  | passes_forget b key : passes forgettable b → forgettable key → passes forgettable (runner_forget b key).

(** The job at address [a] belongs to the cluster and is still running. *)
Definition runningFor (b : backupRunner) (key : NamespacedName) (a : nat) : Prop :=
  ∃ job, rn_heap b !! a = Some (key, job) ∧ job_result job = None.

(** The cluster's running job, if any, is the one its map entry points to. *)
Definition tracked (b : backupRunner) (key : NamespacedName) : Prop :=
  ∀ a, runningFor b key a → rn_jobs b !! key = Some a.

Lemma tracked_start b k key job :
  tracked b key → (k = key → ∀ a, ¬ runningFor b key a) → tracked (runner_start b k job) key.
Proof.
  intros Ht Hk a (j & Hl & Hr). simpl in *. apply lookup_app_Some in Hl as [Hl|[Hge Hl]].
  - destruct (decide (k = key)) as [->|]; [exfalso; apply (Hk eq_refl a); by exists j|].
    rewrite lookup_insert_ne by done. apply Ht. by exists j.
  - destruct (a - length (rn_heap b))%nat eqn:E; simpl in Hl; [|done]. simplify_eq.
    rewrite lookup_insert_eq. f_equal. lia.
Qed.

Lemma runningFor_poll b k key a : runningFor (runner_poll b k).2 key a ↔ runningFor b key a.
Proof.
  unfold runningFor. assert (rn_heap (runner_poll b k).2 = rn_heap b) as ->; [|done].
  unfold runner_poll. repeat case_match; done.
Qed.

(** Polling never drops a running job, and after a poll that found none or a finished one, none runs. *)
Lemma tracked_poll b k key : tracked b key → tracked (runner_poll b k).2 key.
Proof.
  intros Ht a Hra%runningFor_poll. pose proof (Ht a Hra) as Hk. unfold runner_poll.
  destruct (rn_jobs b !! k) as [a'|] eqn:Ek; [|done].
  destruct (rn_heap b !! a') as [[own job]|] eqn:Ea; [|done]. simpl.
  destruct (finished job) eqn:Hf; [|done]. simpl. rewrite lookup_delete_ne; [done|]. intros ->.
  simplify_eq. destruct Hra as (j & Hl & Hr). simplify_eq. unfold finished in Hf. by rewrite Hr in Hf.
Qed.

Lemma poll_idle b key :
  tracked b key → match (runner_poll b key).1 with Some j => finished j = true | None => True end →
  ∀ a, ¬ runningFor (runner_poll b key).2 key a.
Proof.
  intros Ht Hp a Hra%runningFor_poll. pose proof (Ht a Hra) as Hk. destruct Hra as (j & Hl & Hr).
  unfold runner_poll in Hp. rewrite Hk, Hl in Hp. simpl in Hp. unfold finished in Hp. by rewrite Hr in Hp.
Qed.

Lemma tracked_pass b k key want : tracked b key → tracked (runner_pass b k want) key.
Proof.
  intros Ht. unfold runner_pass. pose proof (tracked_poll b k key Ht) as Ht'.
  pose proof (λ E : k = key, poll_idle b key Ht) as Hno.
  destruct (decide (k = key)) as [->|Hne].
  - specialize (Hno eq_refl). destruct (runner_poll b key) as [[j|] b']; simpl in *;
      [destruct (finished j)|]; destruct want as [n|]; try done; apply tracked_start; auto.
  - destruct (runner_poll b k) as [[j|] b']; simpl in *; [destruct (finished j)|]; destruct want as [n|];
      try done; by apply tracked_start.
Qed.

Lemma tracked_finish b a r key : tracked b key → tracked (runner_finish b a r) key.
Proof.
  intros Ht a' (j & Hl & Hr). rewrite lookup_finish in Hl. simpl. apply Ht.
  case_decide; [|by exists j]. apply fmap_Some in Hl as ([k0 j0] & _ & ?). by simplify_eq/=.
Qed.

Lemma tracked_forget b k key : k ≠ key → tracked b key → tracked (runner_forget b k) key.
Proof. intros Hne Ht a Hra. simpl. rewrite lookup_delete_ne by done. by apply Ht. Qed.

Lemma passes_tracked b key : passes (λ k, k ≠ key) b → tracked b key.
Proof.
  induction 1; auto using tracked_pass, tracked_finish, tracked_forget. intros a (j & Hl & _). done.
Qed.

(** C17: a cluster that is never forgotten has at most one backup running, whatever its passes, the
    passes over other clusters, the goroutines and the forgetting of other clusters (every pass over a
    cluster without spec.backup forgets it) do. *)
Theorem one_backup_at_a_time b key a1 a2 :
  passes (λ k, k ≠ key) b → runningFor b key a1 → runningFor b key a2 → a1 = a2.
Proof. intros Ht%passes_tracked H1%Ht H2%Ht. congruence. Qed.

(** A second pass finds the backup of the first still running and starts none, although another cluster
    was forgotten in between. *)
Lemma one_backup_at_a_time_witness :
  let b1 := runner_pass newRunner demoKey (Some demoJob) in
  let b := runner_pass (runner_forget b1 ("kv", "plain")) demoKey (Some demoJob) in
  runningFor b demoKey 0 ∧ ∀ a, runningFor b demoKey a → a = 0%nat.
Proof.
  intros b1 b. assert (runningFor b demoKey 0) as H0 by (by exists demoJob). split; [exact H0|].
  intros a Ha. apply (one_backup_at_a_time b demoKey a 0); [|exact Ha|exact H0].
  apply passes_pass; [|by intros n [= <-]]. apply passes_forget; [|done].
  apply passes_pass; [constructor|]. by intros n [= <-].
Defined.

(** C40: A cluster whose backup section is removed while a backup runs, and added again, can have two
    backups running at once: [forget] drops the job but does not stop it. *)
Theorem two_backups_after_forget :
  ∃ b key a1 a2, passes (λ k, k = key) b ∧ a1 ≠ a2 ∧ runningFor b key a1 ∧ runningFor b key a2.
Proof.
  set (b1 := runner_pass newRunner demoKey (Some demoJob)).
  exists (runner_pass (runner_forget b1 demoKey) demoKey (Some demoJob)), demoKey, 0%nat, 1%nat.
  split_and!; [|done|by exists demoJob..].
  apply passes_pass; [|by intros n [= <-]]. apply passes_forget; [|done].
  apply passes_pass; [constructor|]. by intros n [= <-].
Qed.
