(* ===== verification/Sha256.v ===== *)
(** * SHA-256 (crypto/sha256 and encoding/hex)

    The digest the operator puts on the pod template is computed with the standard library's SHA-256.
    It is written out from FIPS 180-4 on 32-bit words kept as [Z], and checked against the standard's
    test vectors. *)

From Stdlib Require Import ZArith Lia Ascii.
From stdpp Require Import base numbers strings pretty sorting gmap list.
From S2P Require Import Prelude GoStrings.

Open Scope Z_scope.

Definition w32 (z : Z) : Z := Z.land z 0xffffffff.
Definition rotr (n x : Z) : Z := w32 (Z.lor (Z.shiftr x n) (Z.shiftl x (32 - n))).

(** *** The constants

    FIPS 180-4 takes them from the first primes: the first 32 bits of the fractional parts of the cube
    roots of 64 of them, and of the square roots of 8 of them. *)

Definition is_prime (n : Z) : bool := forallb (λ d, negb (n mod d =? 0)) (seqZ 2 (n - 2)).
Definition primes : list Z := filter (λ n, is_prime n = true) (seqZ 2 310).

(** The integer cube root of [n], bit by bit from bit [i - 1] down, starting from [r]. *)
Fixpoint cbrt_from (i : nat) (n r : Z) : Z :=
  match i with
  | O => r
  | S i => let r' := r + 2 ^ i in cbrt_from i n (if r' * r' * r' <=? n then r' else r)
  end.

Definition sha_K : list Z :=
  Eval vm_compute in (λ p, w32 (cbrt_from 40 (p * 2 ^ 96) 0)) <$> take 64 primes.

Definition sha_H0 : list Z :=
  Eval vm_compute in (λ p, w32 (Z.sqrt (p * 2 ^ 64))) <$> take 8 primes.

Definition bigSigma0 (x : Z) : Z := Z.lxor (rotr 2 x) (Z.lxor (rotr 13 x) (rotr 22 x)).
Definition bigSigma1 (x : Z) : Z := Z.lxor (rotr 6 x) (Z.lxor (rotr 11 x) (rotr 25 x)).
Definition smallSigma0 (x : Z) : Z := Z.lxor (rotr 7 x) (Z.lxor (rotr 18 x) (Z.shiftr x 3)).
Definition smallSigma1 (x : Z) : Z := Z.lxor (rotr 17 x) (Z.lxor (rotr 19 x) (Z.shiftr x 10)).
Definition ch (x y z : Z) : Z := Z.lxor (Z.land x y) (Z.land (Z.lxor x 0xffffffff) z).
Definition maj (x y z : Z) : Z := Z.lxor (Z.land x y) (Z.lxor (Z.land x z) (Z.land y z)).

(** ** Padding: a 1 bit, zeros, and the length in bits as 64 bits. *)

Definition byte_list (s : string) : list Z := (λ c, Z.of_nat (nat_of_ascii c)) <$> String.list_ascii_of_string s.

Definition be_bytes (n : nat) (z : Z) : list Z :=
  (λ i, Z.land (Z.shiftr z (8 * Z.of_nat (n - 1 - i))) 255) <$> seq 0 n.

Definition pad (m : list Z) : list Z :=
  let n := Z.of_nat (length m) in
  m ++ [128] ++ replicate (Z.to_nat ((55 - n) mod 64)) 0 ++ be_bytes 8 (8 * n).

Fixpoint be_words (m : list Z) : list Z :=
  match m with
  | a :: b :: c :: d :: rest =>
      Z.lor (Z.shiftl a 24) (Z.lor (Z.shiftl b 16) (Z.lor (Z.shiftl c 8) d)) :: be_words rest
  | _ => []
  end.

(** ** Compression *)

(** The message schedule, newest word first, so that the words 2, 7, 15 and 16 back are near. *)
Fixpoint schedule (n : nat) (w : list Z) : list Z :=
  match n with
  | O => w
  | S n' =>
      let x := w32 (smallSigma1 (nth 1 w 0) + nth 6 w 0 + smallSigma0 (nth 14 w 0) + nth 15 w 0) in
      schedule n' (x :: w)
  end.

Definition round (st : list Z) (kw : Z * Z) : list Z :=
  match st with
  | [a; b; c; d; e; f; g; h] =>
      let t1 := w32 (h + bigSigma1 e + ch e f g + kw.1 + kw.2) in
      let t2 := w32 (bigSigma0 a + maj a b c) in
      [w32 (t1 + t2); a; b; c; w32 (d + t1); e; f; g]
  | _ => st
  end.

Definition compress (h : list Z) (block : list Z) : list Z :=
  let w := rev (schedule 48 (rev block)) in
  zip_with (λ x y, w32 (x + y)) h (foldl round h (zip sha_K w)).

Fixpoint blocks (n : nat) (words : list Z) : list (list Z) :=
  match n with
  | O => []
  | S n' => match words with
            | [] => []
            | _ => take 16 words :: blocks n' (drop 16 words)
            end
  end.

Definition Sum256 (s : string) : list Z :=
  let words := be_words (pad (byte_list s)) in
  (foldl compress sha_H0 (blocks (length words) words)) ≫= be_bytes 4.

(** ** hex.EncodeToString *)

Definition hex_digit (z : Z) : ascii := ascii_of_nat (Z.to_nat (if z <? 10 then 48 + z else 87 + z)).

Fixpoint EncodeToString (l : list Z) : string :=
  match l with
  | [] => EmptyString
  | b :: l' => String (hex_digit (Z.shiftr b 4)) (String (hex_digit (Z.land b 15)) (EncodeToString l'))
  end.

Example sha256_abc :
  EncodeToString (Sum256 "abc") = "ba7816bf8f01cfea414140de5dae2223b00361a396177a9cb410ff61f20015ad".
Proof. vm_compute. reflexivity. Qed.

Example sha256_two_blocks :
  EncodeToString (Sum256 "abcdbcdecdefdefgefghfghighijhijkijkljklmklmnlmnomnopnopq")
  = "248d6a61d20638b8e5c026930c3e6039a33ce45964ff2167f6ecedd419db06c1".
Proof. vm_compute. reflexivity. Qed.
