(* ===== verification/Entrypoint.v ===== *)
(** * The command line and the startup script (internal/controller/entrypoint.go)

    Every pod of the StatefulSet has the same template, so the operator renders one startup script that
    derives a node's identity from its ordinal, and one list of flags that is the same on every node.
    Modelled: the rendering of flags and of the script, byte for byte; what the rendered script does
    when bash runs it ([startup]); and the reading of shell words, to state that quoting is exact.
    Proved: the quoted flags reach the server unchanged; when the server is given an option twice;
    overriding a flag removes it together with its values and nothing else; a node started by the script takes
    exactly the identity the operator matches it by; the script does not depend on the size. *)

From Stdlib Require Import ZArith Lia Ascii.
From stdpp Require Import base numbers strings pretty sorting gmap list.
From S2P Require Import Prelude GoStrings Types Naming GoFloat Kahuna Autoscaler Sha256.

Open Scope Z_scope.

Definition rebalancerConcurrentTransfers : Z := 4.
Definition rebalancerMovesPerPass : Z := 8.
Definition serverDLLPath : string := "/app/Kahuna.Server.dll".
Definition certManagerKeystoreKey : string := "keystore.p12".

(** ** Quoting and flags *)

Definition shellQuote (s : string) : string := "'" +:+ replace_byte s "'" ("'" +:+ bs +:+ "''") +:+ "'".

Definition flagArgs (args : list string) (flag : string) (v : option Z) : list string :=
  match v with None => args | Some v => args ++ [flag; itoa v] end.

Definition boolFlag (args : list string) (flag : string) (v : option bool) (want : bool) : list string :=
  match v with
  | None => args
  | Some b => if negb (Bool.eqb b want) then args else args ++ [flag]
  end.

(** flagName: the name of a "--name" or "--name=value" token. *)
Definition flagName (token : string) : option string :=
  if negb (has_prefix token "--") then None else Some (cut_before token "=").

(** The loop of [withoutOverridden]. *)
Fixpoint dropOverridden (overridden : gset string) (skipping : bool) (generated : list string) : list string :=
  match generated with
  | [] => []
  | a :: rest =>
      let skipping := match flagName a with
                      | Some name => bool_decide (name ∈ overridden)
                      | None => skipping
                      end in
      if skipping then dropOverridden overridden skipping rest
      else a :: dropOverridden overridden skipping rest
  end.

Definition withoutOverridden (generated extra : list string) : list string :=
  let overridden : gset string := list_to_set (omap flagName extra) in
  if bool_decide (size overridden = 0%nat) then generated
  else dropOverridden overridden false generated.

Definition keystoreKey (cluster : KahunaCluster) : string :=
  let tls := spec_TLS (kc_Spec cluster) in
  match tls_CertManager tls with
  | Some _ => certManagerKeystoreKey
  | None => if negb (String.eqb (tls_KeystoreKey tls) "") then tls_KeystoreKey tls else "certificate.pfx"
  end.

Definition or_string (v d : string) : string := if String.eqb v "" then d else v.

(** ** staticArgs, section by section *)

Definition listenerArgs (cluster : KahunaCluster) : list string :=
  let p := ports cluster in
  ["--http-ports"; itoa (port_HTTP p); itoa (port_InternalHTTP p);
   "--https-ports"; itoa (port_HTTPS p); itoa (port_Raft p);
   "--https-certificate"; tlsMountPath +:+ "/" +:+ keystoreKey cluster;
   "--allow-plaintext-listener"].

Definition storageArgs (cluster : KahunaCluster) (args : list string) : list string :=
  let s := spec_Storage (kc_Spec cluster) in
  let args := args ++
    ["--storage"; or_string (sto_Backend s) StorageBackendRocksDB;
     "--storage-path"; dataPath;
     "--storage-revision"; or_string (sto_Revision s) "v1";
     "--wal-storage"; or_string (sto_WALBackend s) StorageBackendRocksDB;
     "--wal-path"; walPath;
     "--wal-revision"; or_string (sto_WALRevision s) "v1"] in
  let args := boolFlag args "--disable-wal-sync-writes" (sto_SyncWrites s) false in
  let args := boolFlag args "--disable-rocksdb-direct-reads" (sto_DirectReads s) false in
  let args := boolFlag args "--rocksdb-shared-memory" (sto_SharedMemory s) true in
  let args := flagArgs args "--rocksdb-shared-memory-budget-mb" (sto_SharedMemoryBudgetMB s) in
  let args := flagArgs args "--rocksdb-shared-memtable-budget-mb" (sto_SharedMemtableBudgetMB s) in
  let args := args ++ ["--initial-cluster-partitions"; itoa (default 3 (spec_Partitions (kc_Spec cluster)))] in
  boolFlag args "--raft-allow-insecure-certificate-validation"
    (tls_InsecureSkipVerify (spec_TLS (kc_Spec cluster))) true.

Definition replicationArgs (cluster : KahunaCluster) (args : list string) : list string :=
  match spec_Replication (kc_Spec cluster) with
  | None => args
  | Some rep =>
      args ++ ["--raft-replication-factor"; itoa (rep_Factor rep);
               "--raft-enable-placement-rebalancer";
               "--raft-max-concurrent-replica-transfers"; itoa rebalancerConcurrentTransfers;
               "--raft-max-replica-moves-per-pass"; itoa rebalancerMovesPerPass;
               "--raft-replica-count-deadband"; "0"]
  end.

Definition raftArgs (cluster : KahunaCluster) (args : list string) : list string :=
  match spec_Raft (kc_Spec cluster) with
  | None => args
  | Some r =>
      let args := flagArgs args "--raft-heartbeat-interval" (raft_HeartbeatIntervalMs r) in
      let args := flagArgs args "--raft-voting-timeout" (raft_VotingTimeoutMs r) in
      let args := flagArgs args "--raft-start-election-timeout" (raft_StartElectionTimeoutMs r) in
      let args := flagArgs args "--raft-end-election-timeout" (raft_EndElectionTimeoutMs r) in
      let args := boolFlag args "--raft-enable-check-quorum" (raft_EnableCheckQuorum r) true in
      let args := flagArgs args "--raft-gossip-interval" (raft_GossipIntervalMs r) in
      let args := flagArgs args "--raft-gossip-fanout" (raft_GossipFanout r) in
      let args := flagArgs args "--raft-ping-timeout" (raft_PingTimeoutMs r) in
      let args := flagArgs args "--raft-indirect-ping-fanout" (raft_IndirectPingFanout r) in
      let args := flagArgs args "--raft-suspicion-timeout" (raft_SuspicionTimeoutMs r) in
      let args := flagArgs args "--raft-dead-member-eviction-grace" (raft_DeadMemberEvictionGraceMs r) in
      let args := flagArgs args "--raft-backfill-threshold" (raft_BackfillThreshold r) in
      let args := flagArgs args "--raft-max-backfill-entries-per-round" (raft_MaxBackfillEntriesPerRound r) in
      let args := flagArgs args "--raft-learner-promotion-lag" (raft_LearnerPromotionLag r) in
      flagArgs args "--raft-learner-promotion-stable-window" (raft_LearnerPromotionStableWindowMs r)
  end.

Definition transactionArgs (cluster : KahunaCluster) (args : list string) : list string :=
  match spec_Transactions (kc_Spec cluster) with
  | None => args
  | Some t =>
      let args := flagArgs args "--default-transaction-timeout" (tx_DefaultTimeoutMs t) in
      let args := flagArgs args "--default-admission-wait" (tx_DefaultAdmissionWaitMs t) in
      let args := flagArgs args "--max-admission-wait" (tx_MaxAdmissionWaitMs t) in
      let args := flagArgs args "--max-concurrent-transactions" (tx_MaxConcurrentTransactions t) in
      flagArgs args "--max-concurrent-sessions" (tx_MaxConcurrentSessions t)
  end.

Definition workerArgs (cluster : KahunaCluster) (args : list string) : list string :=
  match spec_Workers (kc_Spec cluster) with
  | None => args
  | Some w =>
      let args := flagArgs args "--locks-workers" (wk_Locks w) in
      let args := flagArgs args "--keyvalue-workers" (wk_KeyValue w) in
      let args := flagArgs args "--sequencer-workers" (wk_Sequencer w) in
      flagArgs args "--background-writer-workers" (wk_BackgroundWriter w)
  end.

(** Duration.Seconds(): the whole seconds plus the nanoseconds left over, as a float64. *)
Definition duration_seconds (d : Duration) : float64 :=
  fadd (f_of_Z (Z.quot d Second)) (fdiv (f_of_Z (Z.rem d Second)) (f_of_Z 1000000000)).

Section args.
Context `{!Conversions, !QuantityAPI}.

Definition backupArgs (cluster : KahunaCluster) (args : list string) : list string :=
  match spec_Backup (kc_Spec cluster) with
  | None => args
  | Some b =>
      let args := args ++ ["--pitr-backup-dir"; backupPath cluster;
                           "--pitr-backup-cluster-id"; backupClusterID cluster b;
                           "--pitr-backup-mac-key-file"; backupMACKeyPath;
                           "--backup-gc-interval"; "0"] in
      match bk_Retention b with
      | None => args
      | Some r =>
          let args := flagArgs args "--backup-retention-max-chains" (br_MaxChains r) in
          let args := match br_MaxAge r with
                      | None => args
                      | Some age => args ++ ["--backup-retention-max-age";
                                             itoa (f_to_i64 oob (duration_seconds age))]
                      end in
          match br_MaxBytes r with
          | None => args
          | Some q => args ++ ["--backup-retention-max-bytes"; itoa (quantity_Value q)]
          end
      end
  end.

(** The flags the operator generates, before extraArgs. *)
Definition generatedArgs (cluster : KahunaCluster) : list string :=
  backupArgs cluster (workerArgs cluster (transactionArgs cluster (raftArgs cluster
    (replicationArgs cluster (storageArgs cluster (listenerArgs cluster)))))).

Definition staticArgs (cluster : KahunaCluster) : list string :=
  withoutOverridden (generatedArgs cluster) (spec_ExtraArgs (kc_Spec cluster))
    ++ spec_ExtraArgs (kc_Spec cluster).

(** ** The files of the ConfigMap *)

Definition topologyEnv (cluster : KahunaCluster) (bootstrapSize : Z) : string :=
  "# Generated by kahuna-operator. Read at startup; changes need no pod restart." +:+ nl
    +:+ "REPLICAS=" +:+ itoa (desiredReplicas cluster) +:+ nl
    +:+ "BOOTSTRAP_SIZE=" +:+ itoa bootstrapSize +:+ nl.

(** A backtick in the text below stands for a double quote. *)
Definition q (s : string) : string := replace_byte s "`" dq.

Definition scriptLines (cluster : KahunaCluster) : list string := [
  "#!/usr/bin/env bash";
  "# Generated by kahuna-operator for " +:+ kc_Namespace cluster +:+ "/" +:+ kc_Name cluster +:+ ". Do not edit — the next reconcile overwrites it.";
  "set -euo pipefail";
  EmptyString;
  q "if [[ -z `${POD_NAME:-}` ]]; then";
  q "  echo `kahuna-operator: POD_NAME is unset; the downward API env var is missing` >&2";
  "  exit 1";
  "fi";
  EmptyString;
  "# The StatefulSet ordinal is the node's durable identity: pod names are stable across restarts,";
  "# so the Raft node id derived from it is too.";
  q "ORDINAL=`${POD_NAME##*-}`";
  q "if ! [[ `$ORDINAL` =~ ^[0-9]+$ ]]; then";
  q "  echo `kahuna-operator: cannot derive an ordinal from POD_NAME=$POD_NAME` >&2";
  "  exit 1";
  "fi";
  EmptyString;
  "STS_NAME=" +:+ shellQuote (stsName cluster);
  "PEER_DOMAIN=" +:+ shellQuote (peerDomain cluster);
  "RAFT_PORT=" +:+ itoa (port_Raft (ports cluster));
  EmptyString;
  "# Topology lives in a separate file rather than in this script so that scaling the cluster does";
  "# not change the pod template and therefore does not restart every existing node.";
  "TOPOLOGY=" +:+ shellQuote topologyPath;
  q "if [[ ! -f `$TOPOLOGY` ]]; then";
  q "  echo `kahuna-operator: $TOPOLOGY is missing` >&2";
  "  exit 1";
  "fi";
  "# shellcheck source=/dev/null";
  q "source `$TOPOLOGY`";
  EmptyString;
  "# +1 because --raft-nodeid defaults to 0, making a node given 0 indistinguishable from one that";
  "# was never configured.";
  "NODE_ID=$((ORDINAL + 1))";
  q "RAFT_HOST=`${POD_NAME}.${PEER_DOMAIN}`";
  EmptyString;
  "# --initial-cluster lists this node's PEERS and must exclude the node itself. Before the roster";
  "# is seeded, Kommander assigns the discovery list straight to its peer set without filtering";
  "# self, so a self-entry would inflate quorum math during bootstrap.";
  "PEERS=()";
  "for ((i = 0; i < REPLICAS; i++)); do";
  q "  if [[ `$i` -eq `$ORDINAL` ]]; then continue; fi";
  q "  PEERS+=(`${STS_NAME}-${i}.${PEER_DOMAIN}:${RAFT_PORT}`)";
  "done";
  EmptyString;
  "# An empty peer list is not an error: it is how a single-node cluster asks the server for its";
  "# standalone mode. It is, however, the wrong thing to hand a multi-node member, so a node that";
  "# expects peers and has none fails rather than silently starting a second one-node cluster.";
  "CLUSTER_ARGS=()";
  "if [[ ${#PEERS[@]} -gt 0 ]]; then";
  q "  CLUSTER_ARGS+=(--initial-cluster `${PEERS[@]}`)";
  q "elif [[ `$REPLICAS` -ne 1 ]]; then";
  q "  echo `kahuna-operator: empty --initial-cluster with REPLICAS=$REPLICAS would start a standalone node` >&2";
  "  exit 1";
  "fi";
  EmptyString;
  "# Join mode. BOOTSTRAP_SIZE is the size the cluster was first created at and never changes, so";
  "# an ordinal at or above it is by definition a node added after the cluster was already running.";
  "#";
  "#   * Ordinal below BOOTSTRAP_SIZE -> one of the founding nodes. Static discovery seeds the";
  "#                      roster; --join-existing here could fork it into a second roster.";
  "#   * At or above, with data on disk -> already a member. It replays its WAL and rejoins its";
  "#                      partitions; asking it to re-admit itself is wrong.";
  "#   * At or above, empty -> a new node arriving at a running cluster (scale-up, or a node whose";
  "#                      volume was lost). It must enter as a Learner via the seeds.";
  "JOIN_ARGS=()";
  q "if [[ `$ORDINAL` -ge `$BOOTSTRAP_SIZE` && -z `$(ls -A " +:+ shellQuote dataPath +:+ q " 2>/dev/null)` ]]; then";
  "  JOIN_ARGS+=(--join-existing)";
  "fi";
  EmptyString;
  "mkdir -p " +:+ shellQuote dataPath +:+ " " +:+ shellQuote walPath;
  EmptyString;
  "# The keystore password would be visible in this container's argv. Kahuna reads it only from the";
  "# command line, so there is no way to avoid that; it is not exposed outside the pod.";
  "TLS_ARGS=()";
  "if [[ -f " +:+ shellQuote (tlsPasswordMountPath +:+ "/password") +:+ " ]]; then";
  q "  TLS_ARGS+=(--https-certificate-password `$(cat " +:+ shellQuote (tlsPasswordMountPath +:+ "/password") +:+ q ")`)";
  "fi";
  EmptyString;
  "STATIC_ARGS=(" +:+ str_join " " (shellQuote <$> staticArgs cluster) +:+ ")";
  EmptyString;
  q "# ${ARR[@]+`${ARR[@]}`} rather than `${ARR[@]}`: under `set -u` an empty array is an unbound";
  "# variable in bash before 4.4, and a single-node cluster leaves CLUSTER_ARGS empty.";
  "set -x";
  "exec dotnet " +:+ serverDLLPath +:+ " " +:+ bs;
  q "  --raft-nodename `$POD_NAME` " +:+ bs;
  q "  --raft-nodeid `$NODE_ID` " +:+ bs;
  q "  --raft-host `$RAFT_HOST` " +:+ bs;
  q "  --raft-port `$RAFT_PORT` " +:+ bs;
  q "  ${CLUSTER_ARGS[@]+`${CLUSTER_ARGS[@]}`} " +:+ bs;
  q "  ${JOIN_ARGS[@]+`${JOIN_ARGS[@]}`} " +:+ bs;
  q "  ${TLS_ARGS[@]+`${TLS_ARGS[@]}`} " +:+ bs;
  q "  ${STATIC_ARGS[@]+`${STATIC_ARGS[@]}`}"
].

Definition entrypointScript (cluster : KahunaCluster) : string :=
  str_join nl (scriptLines cluster) +:+ nl.
End args.

Definition configHash (script : string) : string := str_take 32 (EncodeToString (Sum256 script)).

(** ** What the script does when bash runs it *)

(** Shell words: blanks separate, single quotes take everything up to the next one literally, and a
    backslash takes the next character literally.  Any other metacharacter is refused. *)
Inductive sh_mode := sh_plain | sh_quoted | sh_escape.

Definition sh_blank (c : ascii) : bool := Ascii.eqb c " ".
Definition sh_literal (c : ascii) : bool :=
  let n := Z.of_nat (nat_of_ascii c) in
  ((48 <=? n) && (n <=? 57)) || ((65 <=? n) && (n <=? 90)) || ((97 <=? n) && (n <=? 122))
  || bool_decide (c ∈ ["-"; "_"; "."; "/"; ":"; "="; ","; "+"; "@"; "%"]%char).

(** [cur] is the word being read, if one has begun. *)
Fixpoint sh_lex (m : sh_mode) (cur : option string) (s : string) : option (list string) :=
  match s with
  | EmptyString =>
      match m with
      | sh_plain => Some (match cur with Some w => [w] | None => [] end)
      | _ => None
      end
  | String c s' =>
      match m with
      | sh_quoted =>
          if Ascii.eqb c "'" then sh_lex sh_plain cur s'
          else sh_lex sh_quoted (Some (default "" cur +:+ String c "")) s'
      | sh_escape => sh_lex sh_plain (Some (default "" cur +:+ String c "")) s'
      | sh_plain =>
          if Ascii.eqb c "'" then sh_lex sh_quoted (Some (default "" cur)) s'
          else if Ascii.eqb c (ascii_of_nat 92) then sh_lex sh_escape (Some (default "" cur)) s'
          else if sh_blank c then
            match cur with
            | Some w => cons w <$> sh_lex sh_plain None s'
            | None => sh_lex sh_plain None s'
            end
          else if sh_literal c then sh_lex sh_plain (Some (default "" cur +:+ String c "")) s'
          else None
      end
  end.

Definition sh_words (s : string) : option (list string) := sh_lex sh_plain None s.

(** Bash arithmetic on a string of digits: a leading zero means octal, and the value wraps at 64 bits. *)
Fixpoint octal_val (acc : Z) (s : string) : option Z :=
  match s with
  | EmptyString => Some acc
  | String c s' => match digit_val c with
                   | Some d => if d <? 8 then octal_val (acc * 8 + d) s' else None
                   | None => None
                   end
  end.

Definition bash_int (s : string) : option Z :=
  i64 <$> match s with
          | String c (String _ _ as rest) => if Ascii.eqb c "0" then octal_val 0 rest else digits_val 0 s
          | _ => digits_val 0 s
          end.

(** ${POD_NAME##*-}: what follows the last dash, or the whole name when there is none. *)
Definition after_last_dash (s : string) : string :=
  match last_index_byte s "-" with Some i => str_drop (S i) s | None => s end.

(** What the script reads besides its own text: the environment, the topology file, whether the data
    directory is empty or absent, and the password file, as "$(cat ...)" gives it. *)
Record startupEnv := mkStartupEnv {
  se_POD_NAME : string;
  se_REPLICAS : Z;
  se_BOOTSTRAP_SIZE : Z;
  se_dataEmpty : bool;
  se_password : option string;
}.

(** The PEERS loop of the script. *)
Definition scriptPeers (cluster : KahunaCluster) (REPLICAS ordinal : Z) : list string :=
  (λ i, stsName cluster +:+ "-" +:+ itoa i +:+ "." +:+ peerDomain cluster +:+ ":"
          +:+ itoa (port_Raft (ports cluster)))
    <$> filter (λ i, i ≠ ordinal) (go_range REPLICAS).

Section startup.
Context `{!Conversions, !QuantityAPI}.

(** The arguments the script hands to the server, or [None] when it exits with an error. *)
Definition startup (cluster : KahunaCluster) (env : startupEnv) : option (list string) :=
  let POD_NAME := se_POD_NAME env in
  if String.eqb POD_NAME "" then None
  else
    let ORDINAL := after_last_dash POD_NAME in
    if String.eqb ORDINAL "" || negb (str_forall is_digit ORDINAL) then None
    else
      ordinal ← bash_int ORDINAL;
      let NODE_ID := i64 (ordinal + 1) in
      let RAFT_HOST := POD_NAME +:+ "." +:+ peerDomain cluster in
      let RAFT_PORT := itoa (port_Raft (ports cluster)) in
      let PEERS := scriptPeers cluster (se_REPLICAS env) ordinal in
      CLUSTER_ARGS ← (if (0 <? length PEERS)%nat then Some ("--initial-cluster" :: PEERS)
                      else if negb (se_REPLICAS env =? 1) then None
                      else Some []);
      let JOIN_ARGS := if (se_BOOTSTRAP_SIZE env <=? ordinal) && se_dataEmpty env
                       then ["--join-existing"] else [] in
      let TLS_ARGS := match se_password env with
                      | Some pw => ["--https-certificate-password"; pw]
                      | None => []
                      end in
      STATIC_ARGS ← sh_words (str_join " " (shellQuote <$> staticArgs cluster));
      Some (["--raft-nodename"; POD_NAME; "--raft-nodeid"; itoa NODE_ID; "--raft-host"; RAFT_HOST;
             "--raft-port"; RAFT_PORT] ++ CLUSTER_ARGS ++ JOIN_ARGS ++ TLS_ARGS ++ STATIC_ARGS).
End startup.

(** ** Lemmas *)

Lemma sh_lex_quoted s cur rest :
  sh_lex sh_quoted (Some cur) (replace_byte s "'" ("'" +:+ bs +:+ "''") +:+ "'" +:+ rest) =
  sh_lex sh_plain (Some (cur +:+ s)) rest.
Proof.
  revert cur. induction s as [|c s IH]; intros cur; simpl.
  - by rewrite app_str_nil_r.
  - destruct (Ascii.eqb_spec c "'") as [->|Hne]; simpl.
    + rewrite IH. f_equal. f_equal. by rewrite <- app_str_assoc.
    + destruct (Ascii.eqb_spec c "'"); [done|]. rewrite IH. f_equal. f_equal. by rewrite <- app_str_assoc.
Qed.

Lemma sh_lex_word s rest :
  sh_lex sh_plain None (shellQuote s +:+ rest) = sh_lex sh_plain (Some s) rest.
Proof.
  unfold shellQuote. rewrite <- !app_str_assoc. etrans; [|apply (sh_lex_quoted s "" rest)]. done.
Qed.

Lemma sh_words_quoted args : sh_words (str_join " " (shellQuote <$> args)) = Some args.
Proof.
  unfold sh_words. induction args as [|a args IH]; [done|]. rewrite fmap_cons. destruct args as [|b args].
  - simpl str_join. rewrite <- (app_str_nil_r (shellQuote a)), sh_lex_word. done.
  - change (str_join " " (shellQuote a :: (shellQuote <$> b :: args))) with
      (shellQuote a +:+ String " " (str_join " " (shellQuote <$> b :: args))).
    rewrite sh_lex_word. cbn [sh_lex]. simpl (Ascii.eqb _ _). by rewrite IH.
Qed.

(** The reference reading of a command line: the tokens before the first option, then each option with
    the tokens up to the next one. *)
Definition splitFlags (args : list string) : list string * list (string * list string) :=
  foldr (λ t '(vals, gs), match flagName t with
                          | Some name => ([], (name, t :: vals) :: gs)
                          | None => (t :: vals, gs)
                          end) ([], []) args.

Definition joinFlags (p : list string * list (string * list string)) : list string :=
  p.1 ++ (p.2 ≫= snd).

Lemma splitFlags_join args : joinFlags (splitFlags args) = args.
Proof.
  unfold joinFlags. induction args as [|t args IH]; [done|]. simpl.
  destruct (splitFlags args) as [vals gs]. destruct (flagName t); simpl in *; by f_equal.
Qed.

Lemma dropOverridden_groups ov skipping args :
  dropOverridden ov skipping args =
  joinFlags (if skipping then [] else (splitFlags args).1, filter (λ g, g.1 ∉ ov) (splitFlags args).2).
Proof.
  unfold joinFlags. revert skipping. induction args as [|t args IH]; intros skipping; [by destruct skipping|].
  simpl. destruct (splitFlags args) as [vals gs] eqn:E. simpl in IH.
  destruct (flagName t) as [name|]; simpl.
  - rewrite filter_cons. simpl. case_bool_decide.
    + rewrite IH. rewrite decide_False by set_solver. by destruct skipping.
    + rewrite IH. rewrite decide_True by done. by destruct skipping.
  - destruct skipping; by rewrite IH.
Qed.

Lemma splitFlags_names args : (splitFlags args).2.*1 = omap flagName args.
Proof.
  induction args as [|t args IH]; [done|]. simpl. destruct (splitFlags args) as [vals gs].
  destruct (flagName t); simpl in *; [by f_equal|done].
Qed.

Lemma omap_none_app (l k : list string) :
  Forall (λ t, flagName t = None) l → omap flagName (l ++ k) = omap flagName k.
Proof. induction 1 as [|t l Ht _ IH]; [done|]. simpl. by rewrite Ht. Qed.

(** The tokens of a group are its option and plain values. *)
Lemma splitFlags_values args :
  Forall (λ t, flagName t = None) (splitFlags args).1 ∧
  Forall (λ g, ∃ t vals, g.2 = t :: vals ∧ flagName t = Some g.1 ∧ Forall (λ v, flagName v = None) vals)
    (splitFlags args).2.
Proof.
  induction args as [|t args IH]; [by split|]. simpl. destruct (splitFlags args) as [vals gs].
  destruct IH as [IH1 IH2]. simpl in *. destruct (flagName t) as [name|] eqn:E; simpl; split; auto.
  constructor; [|done]. by exists t, vals.
Qed.

Lemma groups_names gs :
  Forall (λ g : string * list string,
    ∃ t vals, g.2 = t :: vals ∧ flagName t = Some g.1 ∧ Forall (λ v, flagName v = None) vals) gs →
  omap flagName (gs ≫= snd) = gs.*1.
Proof.
  induction 1 as [|[name l] gs (t & vals & Hl & Ht & Hv) _ IH]; [done|]. cbn [fst snd] in *. subst l.
  rewrite bind_cons, fmap_cons. cbn [fst snd]. rewrite omap_app.
  change (omap flagName (t :: vals)) with
    (match flagName t with Some y => y :: omap flagName vals | None => omap flagName vals end).
  rewrite Ht, IH. rewrite <- (app_nil_r vals), omap_none_app by done. done.
Qed.

Lemma withoutOverridden_eq generated extra :
  withoutOverridden generated extra =
  joinFlags ((splitFlags generated).1,
             filter (λ g, g.1 ∉ omap flagName extra) (splitFlags generated).2).
Proof.
  unfold withoutOverridden. case_bool_decide as Hs.
  - assert (omap flagName extra = []) as ->.
    { destruct (omap flagName extra) as [|n l]; [done|]. exfalso.
      apply size_empty_inv in Hs. set_solver. }
    rewrite list_filter_all by (apply Forall_true; intros ? ?%elem_of_nil; done).
    rewrite <- surjective_pairing. by rewrite splitFlags_join.
  - rewrite dropOverridden_groups. f_equal. f_equal. apply list_filter_iff. intros g.
    by rewrite elem_of_list_to_set.
Qed.

Lemma withoutOverridden_names generated extra :
  omap flagName (withoutOverridden generated extra) =
  filter (λ n, n ∉ omap flagName extra) (omap flagName generated).
Proof.
  rewrite withoutOverridden_eq. unfold joinFlags. simpl.
  destruct (splitFlags_values generated) as [Hl Hg]. rewrite omap_none_app by done.
  rewrite groups_names.
  - rewrite <- (splitFlags_names generated). clear. induction (splitFlags generated).2 as [|g gs IH]; [done|].
    rewrite fmap_cons, !filter_cons. simpl. case_decide; [rewrite fmap_cons|]; by rewrite IH.
  - apply Forall_forall. intros g [_ Hin]%list_elem_of_filter. by eapply Forall_forall in Hg.
Qed.

(** ** The generated options are distinct *)

(** A token that cannot be taken for an option. *)
Definition plainToken (s : string) : Prop := has_prefix s "--" = false.

Lemma plainToken_flagName s : plainToken s → flagName s = None.
Proof. unfold plainToken, flagName. by intros ->. Qed.

Lemma itoa_plain z : plainToken (itoa z).
Proof.
  unfold plainToken, has_prefix. destruct z as [|p|p]; [done|..].
  - pose proof (itoa_digits (Z.pos p) ltac:(lia)) as Hd. destruct (itoa (Z.pos p)) as [|c s]; [done|].
    simpl in Hd. bsimpl. assert ("-"%char ≠ c) by (intros <-; done). cbn [String.prefix]. by destruct (ascii_dec "-" c).
  - change (itoa (Z.neg p)) with (String "-" (itoa (Z.pos p))).
    pose proof (itoa_digits (Z.pos p) ltac:(lia)) as Hd. destruct (itoa (Z.pos p)) as [|c s]; [done|].
    simpl in Hd. bsimpl. assert ("-"%char ≠ c) by (intros <-; done). cbn [String.prefix]. by destruct (ascii_dec "-" c).
Qed.

(** Every option of [args] is in [L], in the order of [L]. *)
Definition optionsIn (L args : list string) : Prop := omap flagName args `sublist_of` L.

Lemma optionsIn_flag L args flag v :
  flagName flag = Some flag → optionsIn L args → optionsIn (L ++ [flag]) (flagArgs args flag v).
Proof.
  unfold optionsIn. intros Hf Ho. destruct v as [z|]; simpl; [|by apply sublist_inserts_r].
  rewrite omap_app. simpl. rewrite Hf, (plainToken_flagName _ (itoa_plain z)). by apply sublist_app.
Qed.

Lemma optionsIn_bool L args flag v want :
  flagName flag = Some flag → optionsIn L args → optionsIn (L ++ [flag]) (boolFlag args flag v want).
Proof.
  unfold optionsIn. intros Hf Ho. unfold boolFlag. repeat case_match; try by apply sublist_inserts_r.
  rewrite omap_app. simpl. rewrite Hf. by apply sublist_app.
Qed.

Lemma optionsIn_app L M args more :
  optionsIn L args → optionsIn M more → optionsIn (L ++ M) (args ++ more).
Proof. unfold optionsIn. intros. rewrite omap_app. by apply sublist_app. Qed.

Lemma optionsIn_more L M args : optionsIn L args → optionsIn (L ++ M) args.
Proof. unfold optionsIn. intros. by apply sublist_inserts_r. Qed.

Lemma optionsIn_nil : optionsIn [] [].
Proof. constructor. Qed.

Lemma optionsIn_option L args t :
  flagName t = Some t → optionsIn L args → optionsIn (t :: L) (t :: args).
Proof. unfold optionsIn. intros Ht Ho. simpl. rewrite Ht. by constructor. Qed.

Lemma optionsIn_value L args v : plainToken v → optionsIn L args → optionsIn L (v :: args).
Proof. unfold optionsIn. intros Hv Ho. simpl. by rewrite plainToken_flagName. Qed.

Lemma snoc_shift (L : list string) f g F : L ++ f :: g :: F = (L ++ [f]) ++ g :: F.
Proof. by rewrite <- app_assoc. Qed.

Lemma or_string_plain v d : plainToken v → plainToken d → plainToken (or_string v d).
Proof. unfold or_string. by destruct (String.eqb v ""). Qed.

(** Walk an explicit list of options and values. *)
Ltac options :=
  repeat first
    [ apply optionsIn_nil
    | apply optionsIn_option; [reflexivity|]
    | apply optionsIn_value; [first [apply itoa_plain | apply or_string_plain; [assumption|reflexivity] | done]|] ].

(** Walk a chain of [flagArgs] and [boolFlag]. *)
Ltac option_links :=
  repeat first [ apply optionsIn_flag; [reflexivity|] | apply optionsIn_bool; [reflexivity|] ].
Ltac option_chain := rewrite ?snoc_shift; option_links.

Definition listenerFlags : list string :=
  ["--http-ports"; "--https-ports"; "--https-certificate"; "--allow-plaintext-listener"].
Definition storageFlags : list string :=
  ["--storage"; "--storage-path"; "--storage-revision"; "--wal-storage"; "--wal-path"; "--wal-revision"]
  ++ ["--disable-wal-sync-writes"] ++ ["--disable-rocksdb-direct-reads"] ++ ["--rocksdb-shared-memory"]
  ++ ["--rocksdb-shared-memory-budget-mb"] ++ ["--rocksdb-shared-memtable-budget-mb"]
  ++ ["--initial-cluster-partitions"] ++ ["--raft-allow-insecure-certificate-validation"].
Definition replicationFlags : list string :=
  ["--raft-replication-factor"; "--raft-enable-placement-rebalancer";
   "--raft-max-concurrent-replica-transfers"; "--raft-max-replica-moves-per-pass";
   "--raft-replica-count-deadband"].
Definition raftFlags : list string :=
  ["--raft-heartbeat-interval"; "--raft-voting-timeout"; "--raft-start-election-timeout";
   "--raft-end-election-timeout"; "--raft-enable-check-quorum"; "--raft-gossip-interval";
   "--raft-gossip-fanout"; "--raft-ping-timeout"; "--raft-indirect-ping-fanout";
   "--raft-suspicion-timeout"; "--raft-dead-member-eviction-grace"; "--raft-backfill-threshold";
   "--raft-max-backfill-entries-per-round"; "--raft-learner-promotion-lag";
   "--raft-learner-promotion-stable-window"].
Definition transactionFlags : list string :=
  ["--default-transaction-timeout"; "--default-admission-wait"; "--max-admission-wait";
   "--max-concurrent-transactions"; "--max-concurrent-sessions"].
Definition workerFlags : list string :=
  ["--locks-workers"; "--keyvalue-workers"; "--sequencer-workers"; "--background-writer-workers"].
Definition backupFlags : list string :=
  ["--pitr-backup-dir"; "--pitr-backup-cluster-id"; "--pitr-backup-mac-key-file"; "--backup-gc-interval"]
  ++ ["--backup-retention-max-chains"] ++ ["--backup-retention-max-age"] ++ ["--backup-retention-max-bytes"].

Definition allFlags : list string :=
  ((((((listenerFlags ++ storageFlags) ++ replicationFlags) ++ raftFlags) ++ transactionFlags)
     ++ workerFlags) ++ backupFlags).

Lemma NoDup_allFlags : NoDup allFlags.
Proof. apply (bool_decide_unpack _). vm_compute. exact I. Qed.

(** The strings of the spec that become values do not look like options. *)
Record plainStrings (cluster : KahunaCluster) : Prop := {
  pl_backend : plainToken (sto_Backend (spec_Storage (kc_Spec cluster)));
  pl_revision : plainToken (sto_Revision (spec_Storage (kc_Spec cluster)));
  pl_walBackend : plainToken (sto_WALBackend (spec_Storage (kc_Spec cluster)));
  pl_walRevision : plainToken (sto_WALRevision (spec_Storage (kc_Spec cluster)));
  pl_clusterID : ∀ b, spec_Backup (kc_Spec cluster) = Some b → plainToken (backupClusterID cluster b);
}.

Section distinct.
Context `{!Conversions, !QuantityAPI} (cluster : KahunaCluster) (Hplain : plainStrings cluster).

Lemma listenerArgs_options : optionsIn listenerFlags (listenerArgs cluster).
Proof using. unfold listenerArgs. options. Qed.

Lemma storageArgs_options L args :
  optionsIn L args → optionsIn (L ++ storageFlags) (storageArgs cluster args).
Proof using Hplain.
  intros Ho. destruct Hplain. unfold storageArgs, storageFlags. cbv zeta. rewrite !(assoc_L (++)).
  apply optionsIn_bool; [reflexivity|]. apply optionsIn_app; [|options]. option_links.
  apply optionsIn_app; [done|]. options.
Qed.

Lemma replicationArgs_options L args :
  optionsIn L args → optionsIn (L ++ replicationFlags) (replicationArgs cluster args).
Proof using.
  intros Ho. unfold replicationArgs. case_match; [|by apply optionsIn_more].
  apply optionsIn_app; [done|]. options.
Qed.

Lemma raftArgs_options L args : optionsIn L args → optionsIn (L ++ raftFlags) (raftArgs cluster args).
Proof using.
  intros Ho. unfold raftArgs. case_match; [|by apply optionsIn_more]. unfold raftFlags. by option_chain.
Qed.

Lemma transactionArgs_options L args :
  optionsIn L args → optionsIn (L ++ transactionFlags) (transactionArgs cluster args).
Proof using.
  intros Ho. unfold transactionArgs. case_match; [|by apply optionsIn_more].
  unfold transactionFlags. by option_chain.
Qed.

Lemma workerArgs_options L args : optionsIn L args → optionsIn (L ++ workerFlags) (workerArgs cluster args).
Proof using.
  intros Ho. unfold workerArgs. case_match; [|by apply optionsIn_more]. unfold workerFlags. by option_chain.
Qed.

Lemma backupArgs_options L args : optionsIn L args → optionsIn (L ++ backupFlags) (backupArgs cluster args).
Proof using Hplain.
  intros Ho. unfold backupArgs. destruct (spec_Backup (kc_Spec cluster)) as [b|] eqn:Eb; [|by apply optionsIn_more].
  pose proof (pl_clusterID _ Hplain b Eb) as Hid. cbv zeta. unfold backupFlags. rewrite !(assoc_L (++)).
  assert (optionsIn (L ++ ["--pitr-backup-dir"; "--pitr-backup-cluster-id"; "--pitr-backup-mac-key-file";
            "--backup-gc-interval"])
    (args ++ ["--pitr-backup-dir"; backupPath cluster; "--pitr-backup-cluster-id"; backupClusterID cluster b;
              "--pitr-backup-mac-key-file"; backupMACKeyPath; "--backup-gc-interval"; "0"])) as Hb.
  { apply optionsIn_app; [done|]. options. }
  destruct (bk_Retention b) as [r|]; [|by do 3 apply optionsIn_more].
  apply (optionsIn_flag _ _ "--backup-retention-max-chains" (br_MaxChains r)) in Hb; [|reflexivity].
  destruct (br_MaxAge r), (br_MaxBytes r); repeat first [exact Hb | apply optionsIn_app; [|by options] | apply optionsIn_more].
Qed.

Lemma generatedArgs_options : optionsIn allFlags (generatedArgs cluster).
Proof using Hplain.
  apply backupArgs_options, workerArgs_options, transactionArgs_options, raftArgs_options,
    replicationArgs_options, storageArgs_options, listenerArgs_options.
Qed.
End distinct.

(** ** Numbers in pod names *)

Lemma pretty_N_go_first (x : N) s :
  (0 < x)%N → ∃ c s', pretty_N_go x s = String c s' ∧ Ascii.eqb c "0" = false.
Proof.
  revert s. induction (N.lt_wf_0 x) as [x _ IH]; intros s Hx. rewrite pretty_N_go_step by done.
  destruct (decide (x `div` 10 = 0)%N) as [Hd|Hd].
  - rewrite Hd, pretty_N_go_0. eexists _, _. split; [done|].
    assert (x < 10)%N by (by apply (N.div_small_iff x 10)). rewrite N.mod_small by done.
    assert (x = 1 ∨ x = 2 ∨ x = 3 ∨ x = 4 ∨ x = 5 ∨ x = 6 ∨ x = 7 ∨ x = 8 ∨ x = 9)%N as Hx' by lia.
    destruct_or!; by subst.
  - apply IH; [by apply N.div_lt|by apply N.neq_0_lt_0].
Qed.

Lemma bash_int_itoa i : 0 ≤ i < two63 → bash_int (itoa i) = Some i.
Proof.
  intros Hi. unfold bash_int.
  assert (match itoa i with
          | String c (String _ _ as rest) => if Ascii.eqb c "0" then octal_val 0 rest else digits_val 0 (itoa i)
          | _ => digits_val 0 (itoa i)
          end = digits_val 0 (itoa i)) as E.
  { destruct i as [|p|p]; [done| |lia].
    unfold itoa, pretty, pretty_Z, pretty, pretty_positive, pretty, pretty_N. rewrite decide_False by done.
    destruct (pretty_N_go_first (N.pos p) "" ltac:(lia)) as (c & s' & -> & Hc).
    destruct s'; [done|]. by rewrite Hc. }
  rewrite E, itoa_nonneg_val by lia. simpl. by rewrite i64_id by range.
Qed.

Lemma after_last_dash_podName cluster i : 0 ≤ i → after_last_dash (podName cluster i) = itoa i.
Proof.
  intros Hi. unfold after_last_dash.
  change (podName cluster i) with (kc_Name cluster +:+ String "-" (itoa i)).
  rewrite last_index_app.
  - apply str_drop_S_app.
  - eapply str_forall_impl; [|by apply itoa_digits]. intros c Hc. apply negb_true_iff. by apply is_digit_not.
Qed.

(** ** Properties *)

(** C26: quoting is exact: whatever the flags contain, the array the script builds from the quoted flags
    is the list of flags. *)
Theorem shellQuote_roundtrip args : sh_words (str_join " " (shellQuote <$> args)) = Some args.
Proof. apply sh_words_quoted. Qed.

(** Overriding a generated flag removes exactly that flag: the result is the generated command line
    without the groups (an option and the values after it) whose option extraArgs also sets, in
    either spelling, and with every other group intact and in order. *)
Theorem withoutOverridden_correct generated extra :
  withoutOverridden generated extra =
  joinFlags ((splitFlags generated).1,
             filter (λ g, g.1 ∉ omap flagName extra) (splitFlags generated).2).
Proof. apply withoutOverridden_eq. Qed.

Section identity.
Context `{!Conversions, !QuantityAPI}.

(** The peers of an ordinal: every other node of the cluster. *)
Definition peersOf (cluster : KahunaCluster) (replicas ordinal : Z) : list string :=
  filter (λ e, e ≠ raftEndpoint cluster ordinal) (expectedEndpoints cluster replicas).

Lemma peers_filter cluster ordinal (l : list Z) :
  raftEndpoint cluster <$> filter (λ i, i ≠ ordinal) l =
  filter (λ e, e ≠ raftEndpoint cluster ordinal) (raftEndpoint cluster <$> l).
Proof.
  induction l as [|i l IH]; [done|]. rewrite fmap_cons, !filter_cons.
  destruct (decide (i = ordinal)) as [->|Hne].
  - rewrite !decide_False by tauto. done.
  - rewrite !decide_True; [by rewrite fmap_cons, IH| |done].
    by intros ?%(inj (raftEndpoint cluster)).
Qed.

Lemma scriptPeers_eq cluster replicas ordinal :
  scriptPeers cluster replicas ordinal = peersOf cluster replicas ordinal.
Proof.
  unfold scriptPeers, peersOf, expectedEndpoints. rewrite <- peers_filter.
  apply list_fmap_ext. intros _ j _. unfold raftEndpoint, podFQDN, podName. by rewrite <- !app_str_assoc.
Qed.

Lemma peersOf_nonempty cluster replicas ordinal :
  2 ≤ replicas → peersOf cluster replicas ordinal ≠ [].
Proof.
  intros Hr. set (other := if decide (ordinal = 0) then 1 else 0).
  assert (raftEndpoint cluster other ∈ peersOf cluster replicas ordinal) as Hin.
  { unfold peersOf. rewrite list_elem_of_filter, elem_of_expectedEndpoints. split.
    - intros Heq%(inj (raftEndpoint cluster)). unfold other in Heq. case_decide; lia.
    - exists other. split; [|done]. unfold other. case_decide; lia. }
  intros Hnil. rewrite Hnil in Hin. by apply elem_of_nil in Hin.
Qed.

Lemma startup_args cluster i replicas bootstrapSize dataEmpty password :
  kc_Name cluster ≠ "" → 0 ≤ i < replicas → replicas < two31 →
  startup cluster (mkStartupEnv (podName cluster i) replicas bootstrapSize dataEmpty password) =
  Some (["--raft-nodename"; podName cluster i; "--raft-nodeid"; itoa (nodeIDForOrdinal i);
         "--raft-host"; podFQDN cluster i; "--raft-port"; itoa (port_Raft (ports cluster))]
        ++ (if replicas =? 1 then [] else "--initial-cluster" :: peersOf cluster replicas i)
        ++ (if (bootstrapSize <=? i) && dataEmpty then ["--join-existing"] else [])
        ++ match password with Some pw => ["--https-certificate-password"; pw] | None => [] end
        ++ staticArgs cluster).
Proof.
  intros Hname Hi Hr. unfold startup.
  cbn [se_POD_NAME se_REPLICAS se_BOOTSTRAP_SIZE se_dataEmpty se_password].
  assert (String.eqb (podName cluster i) "" = false) as ->.
  { apply String.eqb_neq. unfold podName, stsName. by destruct (kc_Name cluster). }
  rewrite after_last_dash_podName by lia.
  assert (String.eqb (itoa i) "" = false) as -> by (apply String.eqb_neq, itoa_not_empty).
  rewrite itoa_digits by lia. cbn [negb orb].
  rewrite bash_int_itoa by range. cbn [mbind option_bind].
  rewrite sh_words_quoted, i64_id by range. rewrite scriptPeers_eq.
  unfold nodeIDForOrdinal. rewrite i32_id by range.
  destruct (Z.eqb_spec replicas 1) as [->|Hne]; cbn [negb].
  - assert (peersOf cluster 1 i = []) as ->; [|done].
    assert (i = 0) as -> by lia. unfold peersOf, expectedEndpoints. change (go_range 1) with [0].
    rewrite fmap_cons, filter_cons. by rewrite decide_False by tauto.
  - pose proof (peersOf_nonempty cluster replicas i ltac:(lia)).
    by destruct (peersOf cluster replicas i).
Qed.

(** C25: a node started by the generated script takes the identity the operator knows it by.  The pod of
    ordinal [i] advertises the Raft endpoint [raftEndpoint i] under the node id the operator expects,
    lists every other node of the cluster and not itself as its peers, and asks to join exactly when
    it is not a founding node and has no data; it never starts alone unless the cluster is one node. *)
Theorem startup_identity cluster i replicas bootstrapSize dataEmpty password :
  kc_Name cluster ≠ "" → 0 ≤ i < replicas → replicas < two31 →
  startup cluster (mkStartupEnv (podName cluster i) replicas bootstrapSize dataEmpty password) =
  Some (["--raft-nodename"; podName cluster i; "--raft-nodeid"; itoa (nodeIDForOrdinal i);
         "--raft-host"; podFQDN cluster i; "--raft-port"; itoa (port_Raft (ports cluster))]
        ++ (if replicas =? 1 then [] else "--initial-cluster" :: peersOf cluster replicas i)
        ++ (if (bootstrapSize <=? i) && dataEmpty then ["--join-existing"] else [])
        ++ match password with Some pw => ["--https-certificate-password"; pw] | None => [] end
        ++ staticArgs cluster) ∧
  podFQDN cluster i +:+ ":" +:+ itoa (port_Raft (ports cluster)) = raftEndpoint cluster i.
Proof. intros. split; [by apply startup_args|done]. Qed.

(** ** The whole command line *)

(** The options the script itself gives to the server, before those of [staticArgs]. *)
Definition scriptFlags (i replicas bootstrapSize : Z) (dataEmpty : bool) (password : option string) : list string :=
  ["--raft-nodename"; "--raft-nodeid"; "--raft-host"; "--raft-port"]
  ++ (if replicas =? 1 then [] else ["--initial-cluster"])
  ++ (if (bootstrapSize <=? i) && dataEmpty then ["--join-existing"] else [])
  ++ match password with Some _ => ["--https-certificate-password"] | None => [] end.

Lemma NoDup_serverFlags i replicas bootstrapSize dataEmpty password :
  NoDup (scriptFlags i replicas bootstrapSize dataEmpty password ++ allFlags).
Proof.
  apply (bool_decide_unpack _). unfold scriptFlags.
  destruct (replicas =? 1), ((bootstrapSize <=? i) && dataEmpty), password; vm_compute; exact I.
Qed.

(** A name that does not begin with a dash (Kubernetes names begin with a letter or a digit) does not
    begin an option, whatever follows it. *)
Lemma name_plain name rest : name ≠ "" → has_prefix name "-" = false → plainToken (name +:+ rest).
Proof.
  unfold plainToken, has_prefix. destruct name as [|c name]; [done|]. intros _.
  change (String c name +:+ rest) with (String c (name +:+ rest)). cbn [String.prefix].
  destruct (ascii_dec "-" c); [|done]. by destruct name.
Qed.

Lemma peersOf_plain cluster replicas i :
  kc_Name cluster ≠ "" → has_prefix (kc_Name cluster) "-" = false →
  Forall (λ t, flagName t = None) (peersOf cluster replicas i).
Proof.
  intros Hn Hd. apply Forall_forall. intros e [_ (j & _ & ->)%elem_of_expectedEndpoints]%list_elem_of_filter.
  apply plainToken_flagName. unfold raftEndpoint, podFQDN, podName, stsName. rewrite <- !app_str_assoc.
  by apply name_plain.
Qed.

(** The options of the command line are those of the script, then those of [staticArgs]. *)
Lemma startup_options cluster i replicas bootstrapSize dataEmpty password argv :
  kc_Name cluster ≠ "" → has_prefix (kc_Name cluster) "-" = false → 0 ≤ i < replicas → replicas < two31 →
  (∀ pw, password = Some pw → plainToken pw) →
  startup cluster (mkStartupEnv (podName cluster i) replicas bootstrapSize dataEmpty password) = Some argv →
  omap flagName argv =
    scriptFlags i replicas bootstrapSize dataEmpty password ++ omap flagName (staticArgs cluster).
Proof.
  intros Hn Hd Hi Hr Hpw. rewrite startup_args by done. intros <-%(inj Some). unfold scriptFlags.
  assert (flagName (podName cluster i) = None) as E1 by (by apply plainToken_flagName, name_plain).
  assert (flagName (podFQDN cluster i) = None) as E2.
  { apply plainToken_flagName. unfold podFQDN, podName, stsName. rewrite <- !app_str_assoc. by apply name_plain. }
  assert (∀ z, flagName (itoa z) = None) as E3 by (intros z; apply plainToken_flagName, itoa_plain).
  rewrite !omap_app, <- !app_assoc.
  replace (omap flagName ["--raft-nodename"; podName cluster i; "--raft-nodeid"; itoa (nodeIDForOrdinal i);
    "--raft-host"; podFQDN cluster i; "--raft-port"; itoa (port_Raft (ports cluster))])
    with ["--raft-nodename"; "--raft-nodeid"; "--raft-host"; "--raft-port"]
    by (cbn [omap list_omap]; by rewrite E1, !E3, E2).
  f_equal. f_equal; [|f_equal; [by destruct (_ && _)|f_equal]].
  - destruct (replicas =? 1); [done|]. cbn [omap list_omap]. change (flagName "--initial-cluster") with (Some "--initial-cluster").
    cbv beta iota. f_equal. rewrite <- (app_nil_r (peersOf cluster replicas i)).
    by rewrite (omap_none_app _ _ (peersOf_plain cluster replicas i Hn Hd)).
  - destruct password as [pw|]; [|done]. cbn [omap list_omap]. by rewrite (plainToken_flagName pw (Hpw pw eq_refl)).
Qed.

(** C27: when the server's command line repeats an option (it refuses to start on a repeated one).  The
    command line the script gives to the pod of ordinal [i] has no option twice exactly when extraArgs
    repeats none itself and names none of the options that the script adds (the node's identity, the
    Raft port, the peers, joining, the keystore password): a generated option that extraArgs also sets
    is replaced, but one of the script's is given twice.  The string values of the spec and the password
    must not look like options. *)
Theorem startup_no_repeat cluster i replicas bootstrapSize dataEmpty password argv :
  plainStrings cluster → kc_Name cluster ≠ "" → has_prefix (kc_Name cluster) "-" = false →
  0 ≤ i < replicas → replicas < two31 → (∀ pw, password = Some pw → plainToken pw) →
  startup cluster (mkStartupEnv (podName cluster i) replicas bootstrapSize dataEmpty password) = Some argv →
  let extra := omap flagName (spec_ExtraArgs (kc_Spec cluster)) in
  NoDup (omap flagName argv) ↔
  NoDup extra ∧ ∀ f, f ∈ scriptFlags i replicas bootstrapSize dataEmpty password → f ∉ extra.
Proof.
  intros Hp Hn Hd Hi Hr Hpw Hargv extra. rewrite (startup_options _ _ _ _ _ _ _ Hn Hd Hi Hr Hpw Hargv).
  unfold staticArgs. rewrite omap_app, withoutOverridden_names. fold extra.
  pose proof (NoDup_serverFlags i replicas bootstrapSize dataEmpty password) as Hall.
  apply NoDup_app in Hall as (Hscript & Hdisj & Hgen).
  assert (omap flagName (generatedArgs cluster) `sublist_of` allFlags) as Hsub by (by apply generatedArgs_options).
  rewrite NoDup_app. split.
  - intros (_ & Hd' & (_ & _ & Hx)%NoDup_app). split; [done|]. intros f Hf Hin.
    apply (Hd' f Hf). apply elem_of_app. by right.
  - intros [Hx Hno]. split_and!; [done| |].
    + intros f Hf [[_ Hin]%list_elem_of_filter|Hin]%elem_of_app; [|by eapply Hno].
      apply (Hdisj f Hf). by eapply elem_of_sublist.
    + apply NoDup_app. split_and!; [|by intros n [? _]%list_elem_of_filter|done].
      apply NoDup_filter. eapply sublist_NoDup; [exact Hgen|exact Hsub].
Qed.

(** The script, and with it the hash on the pod template, does not depend on the size of the
    cluster: not on spec.replicas, not on the autoscaling bounds, not on anything in status.  Scaling
    therefore changes only the topology file and restarts no node. *)
Theorem entrypointScript_size_free cluster replicas autoscaling status generation :
  let scaled := cluster <| kc_Spec := (kc_Spec cluster) <| spec_Replicas := replicas |>
                                                        <| spec_Autoscaling := autoscaling |> |>
                        <| kc_Status := status |> <| kc_Generation := generation |> in
  entrypointScript scaled = entrypointScript cluster ∧
  configHash (entrypointScript scaled) = configHash (entrypointScript cluster).
Proof.
  intros scaled. assert (entrypointScript scaled = entrypointScript cluster) as E by done.
  split; [exact E|by rewrite E].
Qed.
End identity.

(** ** Witnesses *)

#[local] Instance demoQuantity : QuantityAPI := {| quantity_Value q := q / 1000000000; quantity_Cmp a b := a - b |}.

Lemma startup_identity_witness :
  let c : Conversions := λ _, 0 in
  ∃ argv, startup (demoCluster 3) (mkStartupEnv "kahuna-3" 4 3 true None) = Some argv ∧
    "--join-existing" ∈ argv.
Proof.
  intros c. eexists. split.
  - apply (startup_identity (demoCluster 3) 3 4 3 true None); [done|lia|unfold two31; lia].
  - apply (bool_decide_unpack _). vm_compute. exact I.
Defined.

(** Extra arguments that override a generated option, and ones that name an option of the script. *)
Definition demoExtra (extra : list string) : KahunaCluster :=
  (demoCluster 3) <| kc_Spec := (demoSpec 3) <| spec_ExtraArgs := extra |> |>.

(** Overriding the WAL path is fine; overriding the Raft port repeats it. *)
Lemma startup_no_repeat_witness :
  let c : Conversions := λ _, 0 in
  let argv extra := default [] (startup (demoExtra extra) (mkStartupEnv "kahuna-0" 3 3 true None)) in
  "--wal-path" ∉ argv ["--wal-path=/fast"; "--verbose"] ∧
  NoDup (omap flagName (argv ["--wal-path=/fast"; "--verbose"])) ∧
  ¬ NoDup (omap flagName (argv ["--raft-port"; "9"])).
Proof.
  intros c argv. split; [apply (bool_decide_unpack _); vm_compute; exact I|].
  assert (∀ extra, plainStrings (demoExtra extra)) as Hp by (intros extra; constructor; done).
  assert (∀ extra, startup (demoExtra extra) (mkStartupEnv (podName (demoExtra extra) 0) 3 3 true None)
            = Some (argv extra)) as Hs.
  { intros extra. unfold argv. change "kahuna-0" with (podName (demoExtra extra) 0).
    by rewrite startup_args by (done || lia || (unfold two31; lia)). }
  split.
  - apply (startup_no_repeat (demoExtra ["--wal-path=/fast"; "--verbose"]) 0 3 3 true None);
      [apply Hp|done|reflexivity|lia|unfold two31; lia|done|apply Hs|].
    split; [apply (bool_decide_unpack _); vm_compute; exact I|]. apply Forall_forall.
    apply (bool_decide_unpack _). vm_compute. exact I.
  - intros Hnd. apply (startup_no_repeat (demoExtra ["--raft-port"; "9"]) 0 3 3 true None) in Hnd as [_ Hno];
      [|apply Hp|done|reflexivity|lia|unfold two31; lia|done|apply Hs].
    apply (Hno "--raft-port"); apply (bool_decide_unpack _); vm_compute; exact I.
Defined.
