(* ===== verification/Resources.v ===== *)
(** * The Kubernetes objects the operator owns (internal/controller/resources.go)

    One record per object the operator builds, with the fields it sets, and one function per builder.
    Values that are only copied into the pod template stay serialized.  Proved: the pod template and
    the claims do not depend on the size of the cluster, so scaling rolls no pod; the selector always
    matches the template's labels, whatever labels the user adds; every volume a container mounts is
    provided by the pod or by a claim, under distinct names and paths; the services point at ports the
    container declares. *)

From Stdlib Require Import ZArith Lia.
From stdpp Require Import base numbers strings pretty sorting gmap list.
From S2P Require Import Prelude GoStrings Types Naming GoFloat Autoscaler BackupSchedule Entrypoint.

Open Scope Z_scope.

(** ** Names (naming.go) *)

Definition dataVolumeName : string := "data".
Definition walVolumeName : string := "wal".
Definition configVolumeName : string := "config".
Definition tlsVolumeName : string := "tls".
Definition tlsPasswordVolumeName : string := "tls-password".
Definition backupVolumeName : string := "backup".
Definition backupMACVolumeName : string := "backup-mac".
Definition portNameHTTP : string := "http".
Definition portNameHTTPS : string := "https".

(** selector: a LabelSelector with only MatchLabels. *)
Definition selector (cluster : KahunaCluster) : gmap string string := selectorLabels cluster.

(** ** Objects *)

Record ObjectMeta := mkObjectMeta {
  om_Name : string;
  om_Namespace : string;
  om_Labels : gmap string string;
}.

Record ServicePort := mkServicePort {
  sp_Name : string;
  sp_Port : Z;
  sp_TargetPort : Z;
  sp_Protocol : string;
}.

Record Service := mkService {
  svc_Meta : ObjectMeta;
  svc_ClusterIP : string;
  svc_Type : string;
  svc_PublishNotReadyAddresses : bool;
  svc_Selector : gmap string string;
  svc_Ports : list ServicePort;
}.

Record ConfigMap := mkConfigMap { cfg_Meta : ObjectMeta; cfg_Data : gmap string string }.

Record PodDisruptionBudget := mkPDB {
  pdb_Meta : ObjectMeta;
  pdb_Selector : gmap string string;
  pdb_MaxUnavailable : Z;
}.

Inductive ClaimPhase := ClaimPhaseUnset | ClaimPending | ClaimBound | ClaimLost.

#[export] Instance ClaimPhase_eq_dec : EqDecision ClaimPhase.
Proof. solve_decision. Defined.

Record PersistentVolumeClaim := mkPVC {
  pvc_Meta : ObjectMeta;
  pvc_UID : string;
  pvc_ResourceVersion : string;
  pvc_DeletionTimestamp : option Time;
  pvc_AccessModes : list string;
  pvc_StorageClassName : option string;
  pvc_Storage : Quantity;               (* Resources.Requests[storage] *)
  pvc_VolumeName : string;
  pvc_Phase : ClaimPhase;
  pvc_StatusAccessModes : list string;
}.

Definition ReadWriteOnce : string := "ReadWriteOnce".
Definition ReadWriteMany : string := "ReadWriteMany".

Inductive VolumeSource :=
  | FromConfigMap (name : string) (mode : Z)
  | FromSecret (name : string) (items : list (string * string)) (mode : Z)
  | FromClaim (name : string).

Record Volume := mkVolume { v_Name : string; v_Source : VolumeSource }.
Record VolumeMount := mkVolumeMount { vm_Name : string; vm_MountPath : string; vm_ReadOnly : bool }.

Inductive EnvSource := EnvValue (v : string) | EnvField (path : string).
Record EnvVar := mkEnvVar { env_Name : string; env_Source : EnvSource }.
Record ContainerPort := mkContainerPort { cp_Name : string; cp_ContainerPort : Z; cp_Protocol : string }.

Record Probe := mkProbe {
  pr_Path : string;
  pr_Port : Z;
  pr_InitialDelaySeconds : Z;
  pr_PeriodSeconds : Z;
  pr_TimeoutSeconds : Z;
  pr_FailureThreshold : Z;
}.

Record ContainerSpec := mkContainerSpec {
  ct_Name : string;
  ct_Image : string;
  ct_ImagePullPolicy : string;
  ct_Command : list string;
  ct_Env : list EnvVar;
  ct_Resources : Opaque;
  ct_SecurityContext : option Opaque;
  ct_VolumeMounts : list VolumeMount;
  ct_Ports : list ContainerPort;
  ct_LivenessProbe : Probe;
  ct_ReadinessProbe : Probe;
}.

(** The default affinity is the only one the operator writes itself. *)
Inductive Affinity :=
  | UserAffinity (a : Opaque)
  | PreferSpread (weight : Z) (labels : gmap string string) (topologyKey : string).

Record PodTemplate := mkPodTemplate {
  pt_Labels : gmap string string;
  pt_Annotations : gmap string string;
  pt_ServiceAccountName : string;
  pt_ImagePullSecrets : list string;
  pt_SecurityContext : option Opaque;
  pt_NodeSelector : gmap string string;
  pt_Tolerations : list Opaque;
  pt_Affinity : Affinity;
  pt_TopologySpreadConstraints : list Opaque;
  pt_TerminationGracePeriodSeconds : option Z;
  pt_Volumes : list Volume;
  pt_Containers : list ContainerSpec;
}.

Record StatefulSet := mkStatefulSet {
  sts_Meta : ObjectMeta;
  sts_ServiceName : string;
  sts_Replicas : option Z;
  sts_Selector : gmap string string;
  sts_PodManagementPolicy : string;
  sts_UpdateType : string;
  sts_RollingUpdate : option (option Z);   (* RollingUpdate, and its Partition *)
  sts_WhenScaled : string;
  sts_WhenDeleted : string;
  sts_VolumeClaimTemplates : list PersistentVolumeClaim;
  sts_Template : PodTemplate;
  sts_StatusReplicas : Z;
  sts_StatusReadyReplicas : Z;
}.

#[export] Instance eta_StatefulSet : Eta StatefulSet := λ r,
  mkStatefulSet (sts_Meta r) (sts_ServiceName r) (sts_Replicas r) (sts_Selector r)
    (sts_PodManagementPolicy r) (sts_UpdateType r) (sts_RollingUpdate r) (sts_WhenScaled r)
    (sts_WhenDeleted r) (sts_VolumeClaimTemplates r) (sts_Template r) (sts_StatusReplicas r)
    (sts_StatusReadyReplicas r).

#[export] Instance eta_PVC : Eta PersistentVolumeClaim := λ r,
  mkPVC (pvc_Meta r) (pvc_UID r) (pvc_ResourceVersion r) (pvc_DeletionTimestamp r) (pvc_AccessModes r)
    (pvc_StorageClassName r) (pvc_Storage r) (pvc_VolumeName r) (pvc_Phase r) (pvc_StatusAccessModes r).

#[export] Instance eta_ObjectMeta : Eta ObjectMeta := λ r,
  mkObjectMeta (om_Name r) (om_Namespace r) (om_Labels r).

(** ** Builders *)

Definition objectMeta (cluster : KahunaCluster) (name : string) : ObjectMeta :=
  mkObjectMeta name (kc_Namespace cluster) (podLabels cluster).

Definition ProtocolTCP : string := "TCP".
Definition servicePort (name : string) (port : Z) : ServicePort := mkServicePort name port port ProtocolTCP.

Definition desiredPeerService (cluster : KahunaCluster) : Service :=
  let p := ports cluster in
  mkService (objectMeta cluster (peerServiceName cluster)) "None" "" true (selectorLabels cluster)
    [servicePort portNameHTTP (port_HTTP p); servicePort portNameHTTPS (port_HTTPS p);
     servicePort "internal-http" (port_InternalHTTP p); servicePort "raft" (port_Raft p)].

Definition desiredClientService (cluster : KahunaCluster) : Service :=
  let p := ports cluster in
  mkService (objectMeta cluster (clientServiceName cluster)) "" "ClusterIP" false (selectorLabels cluster)
    [servicePort portNameHTTP (port_HTTP p); servicePort portNameHTTPS (port_HTTPS p)].

Definition desiredPDB (cluster : KahunaCluster) : PodDisruptionBudget :=
  mkPDB (objectMeta cluster (pdbName cluster)) (selector cluster) 1.

Definition wantsPDB (cluster : KahunaCluster) : bool :=
  match spec_PodDisruptionBudget (kc_Spec cluster) with
  | Some b => b
  | None => 3 <=? desiredReplicas cluster
  end.

Definition volumeClaim (name : string) (v : VolumeSpec) : PersistentVolumeClaim :=
  let accessModes := if (length (vol_AccessModes v) =? 0)%nat then [ReadWriteOnce] else vol_AccessModes v in
  mkPVC (mkObjectMeta name "" ∅) "" "" None accessModes (vol_StorageClassName v) (vol_Size v) ""
    ClaimPhaseUnset [].

Definition defaultAffinity (cluster : KahunaCluster) : Affinity :=
  match spec_Affinity (kc_Spec cluster) with
  | Some a => UserAffinity a
  | None => PreferSpread 100 (selector cluster) "kubernetes.io/hostname"
  end.

Definition containerEnv (cluster : KahunaCluster) : list EnvVar :=
  let logLevel := or_string (spec_LogLevel (kc_Spec cluster)) "Information" in
  [mkEnvVar "POD_NAME" (EnvField "metadata.name");
   mkEnvVar "POD_NAMESPACE" (EnvField "metadata.namespace");
   mkEnvVar "Logging__LogLevel__Default" (EnvValue logLevel);
   mkEnvVar "Logging__LogLevel__Kahuna" (EnvValue logLevel);
   mkEnvVar "Logging__LogLevel__Kommander" (EnvValue logLevel);
   mkEnvVar "DOTNET_SYSTEM_NET_SOCKETS_INLINE_COMPLETIONS" (EnvValue "1")].

(** *** TLS references (certificate.go) *)

Definition keystorePasswordKey : string := "password".

Definition certPasswordSecretName (cluster : KahunaCluster) : string := kc_Name cluster +:+ "-tls-password".

Definition tlsPasswordRef (cluster : KahunaCluster) : option SecretKeySelector :=
  let tls := spec_TLS (kc_Spec cluster) in
  match tls_PasswordSecretRef tls with
  | Some ref => Some ref
  | None => match tls_CertManager tls with
            | Some _ => Some (mkSecretKeySelector (certPasswordSecretName cluster) keystorePasswordKey)
            | None => None
            end
  end.

Definition tlsSecretName (cluster : KahunaCluster) : string :=
  match tls_SecretRef (spec_TLS (kc_Spec cluster)) with
  | Some name => name
  | None => certificateName cluster
  end.

(** *** Backup references (backup.go) *)

Definition backupMACKeyRef (cluster : KahunaCluster) (b : BackupSpec) : SecretKeySelector :=
  match bk_MACKeySecretRef b with
  | Some ref => ref
  | None => mkSecretKeySelector (backupMACSecretName cluster) backupMACKey
  end.

(** *** Volumes and mounts *)

(** Go's octal literals 0o555 and 0o400. *)
Definition mode_555 : Z := 365.
Definition mode_400 : Z := 256.

Definition podVolumes (cluster : KahunaCluster) : list Volume :=
  [mkVolume configVolumeName (FromConfigMap (configMapName cluster) mode_555);
   mkVolume tlsVolumeName (FromSecret (tlsSecretName cluster) [] mode_400)]
  ++ match tlsPasswordRef cluster with
     | Some pw => [mkVolume tlsPasswordVolumeName
                     (FromSecret (sks_Name pw) [(sks_Key pw, "password")] mode_400)]
     | None => []
     end
  ++ match spec_Backup (kc_Spec cluster) with
     | Some b =>
         let mac := backupMACKeyRef cluster b in
         [mkVolume backupVolumeName (FromClaim (backupClaimName cluster b));
          mkVolume backupMACVolumeName
            (FromSecret (sks_Name mac) [(sks_Key mac, backupMACFileName)] mode_400)]
     | None => []
     end.

Definition podVolumeMounts (cluster : KahunaCluster) : list VolumeMount :=
  [mkVolumeMount dataVolumeName storageMountPath false;
   mkVolumeMount configVolumeName configMountPath false;
   mkVolumeMount tlsVolumeName tlsMountPath true]
  ++ match sto_WAL (spec_Storage (kc_Spec cluster)) with
     | Some _ => [mkVolumeMount walVolumeName walPath false]
     | None => []
     end
  ++ match tlsPasswordRef cluster with
     | Some _ => [mkVolumeMount tlsPasswordVolumeName tlsPasswordMountPath true]
     | None => []
     end
  ++ match spec_Backup (kc_Spec cluster) with
     | Some _ => [mkVolumeMount backupVolumeName backupMountPath false;
                  mkVolumeMount backupMACVolumeName backupMACMountPath true]
     | None => []
     end.

(** [b] is [cluster.Spec.Backup] and [claim] its Volume.Claim, non-nil at the call site. *)
Definition desiredBackupClaim (cluster : KahunaCluster) (b : BackupSpec) (claim : VolumeSpec)
    : PersistentVolumeClaim :=
  let spec := if (length (vol_AccessModes claim) =? 0)%nat then
                mkVolumeSpec (vol_Size claim) (vol_StorageClassName claim)
                  [if singleNode cluster then ReadWriteOnce else ReadWriteMany]
              else claim in
  (volumeClaim (backupClaimName cluster b) spec)
    <| pvc_Meta := objectMeta cluster (backupClaimName cluster b) |>.

Section builders.
Context `{!Conversions, !QuantityAPI}.

Definition desiredConfigMap (cluster : KahunaCluster) (bootstrapSize : Z) : ConfigMap :=
  mkConfigMap (objectMeta cluster (configMapName cluster))
    (<[entrypointFileName := entrypointScript cluster]>
       {[topologyFileName := topologyEnv cluster bootstrapSize]}).

(** maps.Copy: the user's annotations overwrite the generated one. *)
Definition podAnnotations (cluster : KahunaCluster) : gmap string string :=
  spec_PodAnnotations (kc_Spec cluster)
    ∪ {[configHashAnnotation := configHash (entrypointScript cluster)]}.

Definition desiredContainer (cluster : KahunaCluster) : ContainerSpec :=
  let p := ports cluster in
  let spec := kc_Spec cluster in
  mkContainerSpec containerName (spec_Image spec) (spec_ImagePullPolicy spec)
    ["/bin/bash"; entrypointPath] (containerEnv cluster) (spec_Resources spec) (spec_SecurityContext spec)
    (podVolumeMounts cluster)
    [mkContainerPort portNameHTTP (port_HTTP p) ProtocolTCP;
     mkContainerPort portNameHTTPS (port_HTTPS p) ProtocolTCP;
     mkContainerPort "internal-http" (port_InternalHTTP p) ProtocolTCP;
     mkContainerPort "raft" (port_Raft p) ProtocolTCP]
    (mkProbe "/" (port_HTTP p) 30 10 5 6)
    (mkProbe "/v1/cluster/health" (port_HTTP p) 5 5 5 3).

Definition desiredTemplate (cluster : KahunaCluster) : PodTemplate :=
  let spec := kc_Spec cluster in
  mkPodTemplate (podLabels cluster) (podAnnotations cluster) (spec_ServiceAccountName spec)
    (spec_ImagePullSecrets spec) (spec_PodSecurityContext spec) (spec_NodeSelector spec)
    (spec_Tolerations spec) (defaultAffinity cluster) (spec_TopologySpreadConstraints spec)
    (spec_TerminationGracePeriodSeconds spec) (podVolumes cluster) [desiredContainer cluster].

Definition claimTemplates (cluster : KahunaCluster) : list PersistentVolumeClaim :=
  let s := spec_Storage (kc_Spec cluster) in
  volumeClaim dataVolumeName (sto_Data s)
    :: match sto_WAL s with Some wal => [volumeClaim walVolumeName wal] | None => [] end.

Definition desiredStatefulSet (cluster : KahunaCluster) (partition : Z) : StatefulSet :=
  let whenScaled := if String.eqb (sto_PVCRetentionPolicy (spec_Storage (kc_Spec cluster))) PVCRetentionDelete
                    then "Delete" else "Retain" in
  mkStatefulSet (objectMeta cluster (stsName cluster)) (peerServiceName cluster)
    (Some (desiredReplicas cluster)) (selector cluster) "Parallel" "RollingUpdate" (Some (Some partition))
    whenScaled "Retain" (claimTemplates cluster) (desiredTemplate cluster) 0 0.

(** ** Properties *)

(** Scaling rolls no pod.  Two states of a cluster that differ only in size (spec.replicas, the
    autoscaling bounds, anything in status) get the same StatefulSet except for its replica count:
    the same pod template, hash annotation included, the same selector and the same claims. *)
Theorem scaling_keeps_template cluster replicas autoscaling status generation partition :
  let scaled := cluster <| kc_Spec := (kc_Spec cluster) <| spec_Replicas := replicas |>
                                                        <| spec_Autoscaling := autoscaling |> |>
                        <| kc_Status := status |> <| kc_Generation := generation |> in
  desiredStatefulSet scaled partition =
  (desiredStatefulSet cluster partition) <| sts_Replicas := Some (desiredReplicas scaled) |>.
Proof.
  intros scaled. unfold desiredStatefulSet.
  assert (desiredTemplate scaled = desiredTemplate cluster) as E.
  { unfold desiredTemplate, podAnnotations.
    assert (entrypointScript scaled = entrypointScript cluster) as -> by done. done. }
  rewrite E. done.
Qed.

Lemma selectorLabels_podLabels cluster : selectorLabels cluster ⊆ podLabels cluster.
Proof. apply map_union_subseteq_l. Qed.

(** The StatefulSet and both Services select exactly by labels every pod of the template carries,
    whatever labels the user adds, even ones with the selector's own keys; two clusters of one
    namespace never select each other's pods. *)
Theorem selector_matches cluster partition :
  sts_Selector (desiredStatefulSet cluster partition)
    ⊆ pt_Labels (sts_Template (desiredStatefulSet cluster partition)) ∧
  svc_Selector (desiredPeerService cluster) = sts_Selector (desiredStatefulSet cluster partition) ∧
  svc_Selector (desiredClientService cluster) = sts_Selector (desiredStatefulSet cluster partition) ∧
  ∀ other, selectorLabels other ⊆ podLabels cluster → kc_Name other = kc_Name cluster.
Proof.
  split_and!; [apply selectorLabels_podLabels|done|done|]. intros other Hsub.
  assert (podLabels cluster !! "app.kubernetes.io/instance" = Some (kc_Name other)) as H1.
  { eapply lookup_weaken; [|exact Hsub]. unfold selectorLabels. rewrite lookup_insert_ne by done.
    apply lookup_singleton_eq. }
  assert (podLabels cluster !! "app.kubernetes.io/instance" = Some (kc_Name cluster)) as H2.
  { eapply lookup_weaken; [|apply selectorLabels_podLabels]. unfold selectorLabels.
    rewrite lookup_insert_ne by done. apply lookup_singleton_eq. }
  congruence.
Qed.

(** The volumes a pod has: its own and its claims. *)
Definition volumeNames (cluster : KahunaCluster) : list string :=
  (v_Name <$> podVolumes cluster) ++ ((λ c, om_Name (pvc_Meta c)) <$> claimTemplates cluster).

(** C28: the pods are well-formed in every configuration: each volume the container mounts is provided
    once, each provided volume is mounted, no two mounts share a name or a path, and the ports of
    both Services and of both probes are ports the container declares. *)
Theorem template_wellformed cluster :
  vm_Name <$> podVolumeMounts cluster ≡ₚ volumeNames cluster ∧
  NoDup (vm_Name <$> podVolumeMounts cluster) ∧
  NoDup (vm_MountPath <$> podVolumeMounts cluster) ∧
  Forall (λ sp, sp_TargetPort sp ∈ cp_ContainerPort <$> ct_Ports (desiredContainer cluster))
    (svc_Ports (desiredPeerService cluster) ++ svc_Ports (desiredClientService cluster)) ∧
  pr_Port (ct_LivenessProbe (desiredContainer cluster)) ∈ cp_ContainerPort <$> ct_Ports (desiredContainer cluster) ∧
  pr_Port (ct_ReadinessProbe (desiredContainer cluster)) ∈ cp_ContainerPort <$> ct_Ports (desiredContainer cluster).
Proof.
  unfold volumeNames, podVolumeMounts, podVolumes, claimTemplates.
  split_and!.
  - apply (bool_decide_unpack _).
    destruct (sto_WAL _), (tlsPasswordRef _), (spec_Backup _); vm_compute; exact I.
  - apply (bool_decide_unpack _).
    destruct (sto_WAL _), (tlsPasswordRef _), (spec_Backup _); vm_compute; exact I.
  - apply (bool_decide_unpack _).
    destruct (sto_WAL _), (tlsPasswordRef _), (spec_Backup _); vm_compute; exact I.
  - simpl. repeat constructor; set_solver.
  - simpl. set_solver.
  - simpl. set_solver.
Qed.
End builders.
