(* ===== verification/Kube.v ===== *)
(** * The Kubernetes API as the controllers use it

    The API server, controller-runtime's client and controllerutil are outside the repository: they
    are parameters, one class per kind of call, and nothing is assumed about their answers unless a
    theorem says so.  A call that writes an object returns what the server stored, which the Go client
    copies back into the object it was given. *)

From Stdlib Require Import ZArith Lia.
From stdpp Require Import base numbers strings pretty sorting gmap list.
From S2P Require Import Prelude GoStrings Types Naming Kahuna Autoscaler Resources.

Open Scope Z_scope.

Record Secret := mkSecret {
  sec_Meta : ObjectMeta;
  sec_UID : string;
  sec_ResourceVersion : string;
  sec_Annotations : gmap string string;
  sec_Type : string;
  sec_Data : gmap string string;
}.

Record Event := mkEvent {
  ev_Reason : string;
  ev_Message : string;
  ev_CreationTimestamp : Time;
  ev_LastTimestamp : Time;
  ev_EventTime : Time;
  ev_Series : option Time;          (* Series.LastObservedTime *)
}.

(** client.Preconditions: the UID and the resource version a delete is pinned to. *)
Record Preconditions := mkPreconditions { pre_UID : string; pre_ResourceVersion : string }.

(** The calls on one kind of object.  [kube_CreateOrUpdate] is controllerutil.CreateOrUpdate: the object
    is fetched by name, the function edits it (or an empty one of that name), and it is created or
    updated; the function's error ends the call. *)
Class KubeObject (W T : Type) := {
  kube_Get : NamespacedName → go W (result T);
  kube_Create : T → go W (result T);
  kube_Delete : T → option Preconditions → go W (option error);
  kube_CreateOrUpdate : NamespacedName → (T → result T) → go W (result T);
  SetControllerReference : KahunaCluster → T → result T;
}.

(** Reading and writing the KahunaCluster itself, and the two lists. *)
Class KubeCluster (W : Type) := {
  kube_GetCluster : NamespacedName → go W (result KahunaCluster);
  kube_UpdateStatus : KahunaCluster → go W (result KahunaCluster);
  kube_ListPods : string → gmap string string → go W (result (list Pod));
  kube_ListClaimWarnings : string → string → go W (result (list Event));
}.

(** crypto/rand.Read of n bytes. *)
Class Random (W : Type) := rand_Read : Z → go W (result string).

(** apierrors.IsNotFound and its siblings look through wrapped errors for an API status. *)
Fixpoint status_reason (e : error) : option StatusReason :=
  match e with
  | ErrStatus r _ => Some r
  | ErrorWrap _ cause => status_reason cause
  | _ => None
  end.

Definition IsNotFound (e : error) : bool :=
  match status_reason e with Some ReasonNotFound => true | _ => false end.
Definition IsAlreadyExists (e : error) : bool :=
  match status_reason e with Some ReasonAlreadyExists => true | _ => false end.
Definition IsConflict (e : error) : bool :=
  match status_reason e with Some ReasonConflict => true | _ => false end.
Definition IsNoMatchError (e : error) : bool :=
  match status_reason e with Some ReasonNoMatch => true | _ => false end.

(** client.IgnoreNotFound. *)
Definition IgnoreNotFound (e : error) : option error := if IsNotFound e then None else Some e.

(** The standard library's formatters whose output only goes into messages: %q, Time.Format(RFC3339)
    of the UTC time, strings.TrimSpace, and Duration.String.  The theorems hold whatever they print. *)
Class Format := {
  quoted : string → string;
  rfc3339 : Time → string;
  trim_space : string → string;
  duration_String : Duration → string;
}.

(** The error of a call, dropping its value. *)
Definition err_of {A} (r : result A) : option error := match r with Ok _ => None | Err e => Some e end.

(** A concrete instance, for the witnesses. *)
Definition plainFormat : Format := {|
  quoted s := dq +:+ s +:+ dq;
  rfc3339 t := itoa t;
  trim_space s := s;
  duration_String d := itoa d;
|}.
