(* ===== verification/Certificate.v ===== *)
(** * TLS through cert-manager (internal/controller/certificate.go)

    The keystore password, the Certificate, the replacement of a keystore its password cannot open,
    and the readiness of the keystore.  Decoding PKCS#12 is a parameter.  Proved: a password Secret that
    exists is never written again; a keystore Secret is deleted only when cert-manager issued it for
    this cluster's Certificate and its password is wrong, and only in the version that was tested; the
    keystore is reported ready only when it is there and opens with the password the pods will read;
    the certificate's names cover every endpoint of every size. *)

From Stdlib Require Import ZArith Lia Ascii.
From stdpp Require Import base numbers strings pretty sorting gmap list.
From S2P Require Import Prelude GoStrings Types Naming Kahuna Autoscaler Entrypoint Resources Kube.

Open Scope Z_scope.

Definition certManagerCertificateAnnotation : string := "cert-manager.io/certificate-name".
Definition conditionKeystoreReady : string := "KeystoreReady".

(** ** The Certificate *)

(** The fields of the unstructured object the operator writes. *)
Record Certificate := mkCertificate {
  crt_Meta : ObjectMeta;
  crt_secretName : string;
  crt_issuerRef : gmap string string;
  crt_commonName : string;
  crt_dnsNames : list string;
  crt_passwordSecretRef : string * string;   (* name, key *)
  crt_duration : option string;
  crt_renewBefore : option string;
}.

#[export] Instance eta_Certificate : Eta Certificate := λ r,
  mkCertificate (crt_Meta r) (crt_secretName r) (crt_issuerRef r) (crt_commonName r) (crt_dnsNames r)
    (crt_passwordSecretRef r) (crt_duration r) (crt_renewBefore r).

Definition certificateDNSNames (cluster : KahunaCluster) : list string :=
  let peer := peerServiceName cluster in
  let svc := clientServiceName cluster in
  let ns := kc_Namespace cluster in
  ["*." +:+ peer +:+ "." +:+ ns +:+ ".svc.cluster.local";
   peer +:+ "." +:+ ns +:+ ".svc.cluster.local";
   svc +:+ "." +:+ ns +:+ ".svc.cluster.local";
   svc +:+ "." +:+ ns +:+ ".svc";
   svc +:+ "." +:+ ns;
   svc].

(** [cm] is [cluster.Spec.TLS.CertManager], non-nil at the call site, so that the password reference
    exists; [None] is the nil dereference that would follow otherwise. *)
Definition desiredCertificate `{!Format} (cluster : KahunaCluster) (cm : CertManagerSpec)
    : option Certificate :=
  pw ← tlsPasswordRef cluster;
  let iss := cm_IssuerRef cm in
  let issuer : gmap string string := {["name" := iss_Name iss]} in
  let issuer := if negb (String.eqb (iss_Kind iss) "") then <["kind" := iss_Kind iss]> issuer else issuer in
  let issuer := if negb (String.eqb (iss_Group iss) "") then <["group" := iss_Group iss]> issuer else issuer in
  Some (mkCertificate (objectMeta cluster (certificateName cluster)) (certificateName cluster) issuer
          (clientServiceName cluster +:+ "." +:+ kc_Namespace cluster +:+ ".svc")
          (certificateDNSNames cluster) (sks_Name pw, sks_Key pw)
          (duration_String <$> cm_Duration cm) (duration_String <$> cm_RenewBefore cm)).

(** ** The keystore *)

Record keystoreMaterial := mkKeystoreMaterial {
  ks_secret : Secret;
  ks_keystore : string;
  ks_password : string;
}.

(** errors.Is(err, pkcs12.ErrIncorrectPassword) for DecodeChain(keystore, password). *)
Class Pkcs12 := incorrect_password : string → string → bool.

Definition opensWith `{!Pkcs12} (k : keystoreMaterial) (password : string) : bool :=
  negb (incorrect_password (ks_keystore k) password).

(** strings.TrimRight with a newline cutset. *)
Fixpoint trim_newlines (s : string) : string :=
  match s with
  | EmptyString => EmptyString
  | String c s' => match trim_newlines s' with
                   | EmptyString => if Ascii.eqb c (ascii_of_nat 10) then EmptyString else String c EmptyString
                   | t => String c t
                   end
  end.

(** base64.RawURLEncoding.EncodeToString is only written into the Secret. *)
Class Base64 := base64_RawURL : string → string.

Section effects.
Context {W : Type} `{!KubeObject W Secret, !KubeObject W Certificate, !Random W}.
Context `{!Format, !Pkcs12, !Base64}.

Definition reconcileKeystorePassword (cluster : KahunaCluster) : go W (option error) :=
  let tls := spec_TLS (kc_Spec cluster) in
  if is_nil (tls_CertManager tls) || negb (is_nil (tls_PasswordSecretRef tls)) then mret None
  else
    let name := certPasswordSecretName cluster in
    existing ← kube_Get (T := Secret) (kc_Namespace cluster, name);
    match existing with
    | Ok _ => mret None
    | Err e =>
        if negb (IsNotFound e) then mret (Some e)
        else
          buf ← rand_Read 32;
          match buf with
          | Err e => mret (Some (ErrorWrap "generating keystore password: " e))
          | Ok buf =>
              let secret := mkSecret (objectMeta cluster name) "" "" ∅ "Opaque"
                              {[keystorePasswordKey := base64_RawURL buf]} in
              match SetControllerReference cluster secret with
              | Err e => mret (Some e)
              | Ok secret =>
                  created ← kube_Create secret;
                  mret match created with
                  | Ok _ => None
                  | Err e => if IsAlreadyExists e then None else Some e
                  end
              end
          end
    end.

Definition readKeystore (cluster : KahunaCluster) : go W (result (option keystoreMaterial)) :=
  match tlsPasswordRef cluster with
  | None => mret (Ok None)
  | Some ref =>
      r ← kube_Get (T := Secret) (kc_Namespace cluster, tlsSecretName cluster);
      match r with
      | Err e => mret (match IgnoreNotFound e with None => Ok None | Some e => Err e end)
      | Ok secret =>
          match sec_Data secret !! keystoreKey cluster with
          | None => mret (Ok None)
          | Some keystore =>
              r ← kube_Get (T := Secret) (kc_Namespace cluster, sks_Name ref);
              mret match r with
              | Err e => match IgnoreNotFound e with None => Ok None | Some e => Err e end
              | Ok pw =>
                  match sec_Data pw !! sks_Key ref with
                  | None => Ok None
                  | Some password => Ok (Some (mkKeystoreMaterial secret keystore password))
                  end
              end
          end
      end
  end.

(** The decision of [replaceStaleKeystore]: the Secret to delete, if any. *)
Definition staleKeystore (cluster : KahunaCluster) (k : keystoreMaterial) : bool :=
  bool_decide (sec_Annotations (ks_secret k) !! certManagerCertificateAnnotation
                 = Some (certificateName cluster))
  && negb (opensWith k (ks_password k)).

Definition replaceStaleKeystore (cluster : KahunaCluster) : go W (option error) :=
  if is_nil (tls_CertManager (spec_TLS (kc_Spec cluster))) then mret None
  else
    r ← readKeystore cluster;
    match r with
    | Err e => mret (Some e)
    | Ok None => mret None
    | Ok (Some k) =>
        if negb (staleKeystore cluster k) then mret None
        else
          err ← kube_Delete (ks_secret k)
                  (Some (mkPreconditions (sec_UID (ks_secret k)) (sec_ResourceVersion (ks_secret k))));
          mret match err with
          | None => None
          | Some e => if IsNotFound e || IsConflict e then None
                      else Some (ErrorWrap "deleting stale keystore Secret: " e)
          end
    end.

Definition reconcileCertificate (cluster : KahunaCluster) : go W (option error) :=
  match tls_CertManager (spec_TLS (kc_Spec cluster)) with
  | None => mret None
  | Some cm =>
      desired ← go_lift (desiredCertificate cluster cm);
      r ← kube_CreateOrUpdate (T := Certificate) (kc_Namespace cluster, om_Name (crt_Meta desired))
            (λ obj, SetControllerReference cluster
               (desired <| crt_Meta := (crt_Meta obj) <| om_Labels := om_Labels (crt_Meta desired) |> |>));
      match r with
      | Err e =>
          mret (Some (if IsNoMatchError e then
                  ErrorWrap "spec.tls.certManager is set but cert-manager is not installed in this cluster: " e
                else e))
      | Ok _ => replaceStaleKeystore cluster
      end
  end.

Definition certificateReady (cluster : KahunaCluster) : go W (bool * string) :=
  r ← kube_Get (T := Secret) (kc_Namespace cluster, tlsSecretName cluster);
  match r with
  | Err e => mret (false, if IsNotFound e then "waiting for keystore Secret " +:+ quoted (tlsSecretName cluster)
                          else error_Error e)
  | Ok secret =>
      if is_nil (sec_Data secret !! keystoreKey cluster) then
        mret (false, "Secret " +:+ quoted (tlsSecretName cluster) +:+ " has no "
                       +:+ quoted (keystoreKey cluster) +:+ " key")
      else
        r ← readKeystore cluster;
        match r with
        | Err e => mret (false, error_Error e)
        | Ok None => mret (true, "")
        | Ok (Some k) =>
            if negb (opensWith k (trim_newlines (ks_password k))) then
              ref ← go_lift (tlsPasswordRef cluster);
              mret (false, "keystore in Secret " +:+ quoted (tlsSecretName cluster)
                       +:+ " does not open with the password in Secret " +:+ quoted (sks_Name ref))
            else mret (true, "")
        end
  end.
End effects.

(** ** Properties *)

Section effects_spec.
Context {W : Type} `{!KubeObject W Secret, !KubeObject W Certificate, !Random W}.
Context `{!Format, !Pkcs12, !Base64}.

(** A password Secret that exists is left alone: the pass reads it and does nothing else. *)
Lemma reconcileKeystorePassword_once cluster w secret w' :
  kube_Get (T := Secret) (kc_Namespace cluster, certPasswordSecretName cluster) w = (Some (Ok secret), w') →
  reconcileKeystorePassword cluster w = (Some None, w) ∨ reconcileKeystorePassword cluster w = (Some None, w').
Proof.
  intros Hg. unfold reconcileKeystorePassword. case_match; [by left|right].
  unfold mbind, go_bind. by rewrite Hg.
Qed.

(** C29: a keystore Secret is deleted only when cert-manager issued it for this cluster's Certificate and
    the password, exactly as cert-manager read it, does not open it; and the delete is pinned to the
    version that was tested.  In every other case the pass only reads. *)
Theorem replaceStaleKeystore_safe cluster w r w' :
  replaceStaleKeystore cluster w = (Some r, w') →
  (tls_CertManager (spec_TLS (kc_Spec cluster)) = None ∧ w' = w) ∨
  ∃ rk w1, readKeystore cluster w = (Some rk, w1) ∧
    (w' = w1 ∨
     ∃ k err, rk = Ok (Some k) ∧
       sec_Annotations (ks_secret k) !! certManagerCertificateAnnotation = Some (certificateName cluster) ∧
       incorrect_password (ks_keystore k) (ks_password k) = true ∧
       kube_Delete (ks_secret k)
         (Some (mkPreconditions (sec_UID (ks_secret k)) (sec_ResourceVersion (ks_secret k)))) w1
         = (Some err, w')).
Proof.
  unfold replaceStaleKeystore. destruct (tls_CertManager _) eqn:Ecm; simpl; [|intros [= _ <-]; by left].
  intros (rk & w1 & Hk & Hr)%go_bind_Some. right. exists rk, w1. split; [done|].
  destruct rk as [[k|]|e]; [|injection Hr as _ <-; by left..].
  destruct (staleKeystore cluster k) eqn:Hs; simpl in Hr; [|injection Hr as _ <-; by left].
  right. apply go_bind_Some in Hr as (err & w2 & Hd & Hr). injection Hr as _ <-.
  unfold staleKeystore, opensWith in Hs. bsimpl. exists k, err. by split_and!.
Qed.

(** The keystore is reported ready only when its Secret holds it, and, when its password is known,
    only when it opens with the password as the pods read it, trailing newlines dropped. *)
Theorem certificateReady_sound cluster w msg w' :
  certificateReady cluster w = (Some (true, msg), w') →
  msg = "" ∧
  ∃ secret w1 rk, kube_Get (kc_Namespace cluster, tlsSecretName cluster) w = (Some (Ok secret), w1) ∧
    is_Some (sec_Data secret !! keystoreKey cluster) ∧
    readKeystore cluster w1 = (Some (Ok rk), w') ∧
    ∀ k, rk = Some k → incorrect_password (ks_keystore k) (trim_newlines (ks_password k)) = false.
Proof.
  unfold certificateReady. intros (r & w1 & Hg & Hr)%go_bind_Some.
  destruct r as [secret|e]; [|done].
  destruct (sec_Data secret !! keystoreKey cluster) as [ks|] eqn:Hk; simpl in Hr; [|done].
  apply go_bind_Some in Hr as (rk & w2 & Hrk & Hr). destruct rk as [[k|]|e]; [| |done].
  - unfold opensWith in Hr. destruct (incorrect_password _ _) eqn:Hp; simpl in Hr.
    + apply go_bind_Some in Hr as (? & ? & _ & Hr). done.
    + injection Hr as <- <-. split; [done|]. exists secret, w1, (Some k).
      rewrite Hk. split_and!; [done|by eexists|done|]. by intros k' [= <-].
  - injection Hr as <- <-. split; [done|]. exists secret, w1, None.
    rewrite Hk. split_and!; [done|by eexists|done|done].
Qed.
End effects_spec.

(** Matching of a certificate name against a host: a leading "*." stands for exactly one label. *)
Definition dns_match (name host : string) : Prop :=
  name = host ∨
  ∃ label rest, name = "*." +:+ rest ∧ host = label +:+ "." +:+ rest ∧ label ≠ "" ∧
                str_forall (λ c, negb (Ascii.eqb c ".")) label = true.

(** The certificate fits a cluster of any size: the Raft host of every ordinal, and each name clients
    and nodes reach the Services by, is covered by one of its names, so no scale reissues it. *)
Theorem certificate_covers cluster i :
  kc_Name cluster ≠ "" → str_forall (λ c, negb (Ascii.eqb c ".")) (kc_Name cluster) = true → 0 ≤ i →
  (∃ n, n ∈ certificateDNSNames cluster ∧ dns_match n (podFQDN cluster i)) ∧
  (∃ n, n ∈ certificateDNSNames cluster ∧
        dns_match n (clientServiceName cluster +:+ "." +:+ kc_Namespace cluster +:+ ".svc.cluster.local")) ∧
  (∃ n, n ∈ certificateDNSNames cluster ∧ dns_match n (peerDomain cluster)).
Proof.
  intros Hne Hdot Hi. split_and!.
  - exists ("*." +:+ peerDomain cluster). split; [by left|]. right.
    exists (podName cluster i), (peerDomain cluster). split_and!; [done|done| |].
    + unfold podName, stsName. by destruct (kc_Name cluster).
    + unfold podName, stsName. rewrite !str_forall_app, Hdot. simpl.
      eapply str_forall_impl; [|by apply itoa_digits]. intros c Hc. apply negb_true_iff. by apply is_digit_not.
  - eexists. split; [do 2 right; left|by left].
  - eexists. split; [right; left|by left].
Qed.

Lemma certificate_covers_witness :
  ∃ n, n ∈ certificateDNSNames (demoCluster 3) ∧ dns_match n (podFQDN (demoCluster 3) 12).
Proof. apply (certificate_covers (demoCluster 3) 12); [done|vm_compute; reflexivity|lia]. Defined.

(** An API server that holds fixed Secrets and logs the names of those it deletes, for the witnesses. *)
Definition demoSecret (name : string) (data annotations : gmap string string) : Secret :=
  mkSecret (mkObjectMeta name "kv" ∅) ("uid-" +:+ name) "7" annotations "Opaque" data.

Definition fixedSecrets (get : string → result Secret) : KubeObject (list string) Secret := {|
  kube_Get key := mret (get key.2);
  kube_Create s := mret (Ok s);
  kube_Delete s _ := λ log, (Some None, om_Name (sec_Meta s) :: log);
  kube_CreateOrUpdate key f := mret (f (demoSecret key.2 ∅ ∅));
  SetControllerReference _ s := Ok s;
|}.

Lemma certificateReady_sound_witness :
  let k := fixedSecrets (λ name, Ok (demoSecret name {["certificate.pfx" := "blob"]} ∅)) in
  let p : Pkcs12 := λ _ _, false in
  let f := plainFormat in
  (certificateReady (demoCluster 3) []).1 = Some (true, "") ∧ ("" : string) = "".
Proof.
  intros k p f.
  assert (certificateReady (demoCluster 3) [] = (Some (true, ""), [])) as E by (vm_compute; reflexivity).
  split; [by rewrite E|]. exact (proj1 (certificateReady_sound (demoCluster 3) [] "" [] E)).
Defined.

(** A cluster whose keystore comes from cert-manager, and a Secret that holds both keystore and password. *)
Definition demoCertManager : KahunaCluster :=
  (demoCluster 3) <| kc_Spec := (demoSpec 3) <| spec_TLS := mkTLSSpec None "" None
     (Some (mkCertManagerSpec (mkIssuerRef "ca" "" "") None None)) None |> |>.
Definition demoKeystore (name : string) : result Secret :=
  Ok (demoSecret name (<["password" := "pw"]> {["keystore.p12" := "blob"]})
        {[certManagerCertificateAnnotation := "kahuna-tls"]}).

Lemma replaceStaleKeystore_safe_witness :
  let k := fixedSecrets demoKeystore in
  let p : Pkcs12 := λ _ _, true in
  replaceStaleKeystore demoCertManager [] = (Some None, ["kahuna-tls"]) ∧
  ∃ rk w1, readKeystore demoCertManager [] = (Some rk, w1) ∧ (["kahuna-tls"] = w1 ∨
    ∃ k err, rk = Ok (Some k) ∧
      sec_Annotations (ks_secret k) !! certManagerCertificateAnnotation = Some (certificateName demoCertManager) ∧
      incorrect_password (ks_keystore k) (ks_password k) = true ∧
      kube_Delete (ks_secret k)
        (Some (mkPreconditions (sec_UID (ks_secret k)) (sec_ResourceVersion (ks_secret k)))) w1
        = (Some err, ["kahuna-tls"])).
Proof.
  intros k p.
  assert (replaceStaleKeystore demoCertManager [] = (Some None, ["kahuna-tls"])) as E by (vm_compute; reflexivity).
  split; [exact E|]. destruct (replaceStaleKeystore_safe demoCertManager [] None ["kahuna-tls"] E) as [[H _]|H];
    [vm_compute in H; done|exact H].
Defined.
