(* ===== verification/Backup.v ===== *)
(** * The backup controller (internal/controller/backup.go)

    The claim and the key that backups need, the state of the claim, the checks a backup waits for, and
    [reconcileBackup], the part of a pass that collects a finished backup and starts the next.  The
    cron parser is a parameter.  Proved: a backup is started only on a bootstrapped cluster whose roster
    is exactly the desired set, with every pod ready on the current configuration and image, a bound
    volume, schedules that parse, and nothing running; a pass is a step of the runner machine of
    BackupRunner, so that its guarantees hold for the real passes; a claim that may hold backups is
    never deleted and a key that exists is never replaced. *)

From Stdlib Require Import ZArith Lia Ascii.
From stdpp Require Import base numbers strings pretty sorting gmap list.
From S2P Require Import Prelude GoStrings Types Naming GoFloat Kahuna Placement Roster Plan Conditions.
From S2P Require Import Autoscaler BackupSchedule BackupRunner Sha256 Entrypoint Resources Kube Certificate.

Open Scope Z_scope.

(** ** Versions *)

Definition composedBackupVersion : list Z := [1; 12; 5].

(** The leading digits of a string, and the rest. *)
Fixpoint take_digits (s : string) : string * string :=
  match s with
  | String c s' => if is_digit c then let '(d, r) := take_digits s' in (String c d, r) else (EmptyString, s)
  | EmptyString => (EmptyString, EmptyString)
  end.

(** A non-empty run of digits. *)
Definition match_number (s : string) : option (string * string) :=
  match take_digits s with
  | (EmptyString, _) => None
  | (d, r) => Some (d, r)
  end.

Definition match_dot (s : string) : option string :=
  match s with String c s' => if Ascii.eqb c "." then Some s' else None | EmptyString => None end.

(** imageVersionPattern: an optional v, three numbers separated by dots, and an optional suffix that
    begins with a dash or a plus (the dot of a Go regular expression matches no newline). *)
Definition match_version (tag : string) : option (string * string * string) :=
  let tag := match tag with String c s' => if Ascii.eqb c "v" then s' else tag | EmptyString => tag end in
  '(a, r) ← match_number tag;
  r ← match_dot r;
  '(b, r) ← match_number r;
  r ← match_dot r;
  '(c, r) ← match_number r;
  match r with
  | EmptyString => Some (a, b, c)
  | String d r' =>
      if (Ascii.eqb d "-" || Ascii.eqb d "+") && negb (contains_byte r' (ascii_of_nat 10))
      then Some (a, b, c) else None
  end.

Definition imageVersion (image : string) : option (list Z) :=
  let image := match index_byte image "@" with Some i => str_take i image | None => image end in
  match last_index_byte image ":" with
  | None => None
  | Some i =>
      if contains_byte (str_drop i image) "/" then None
      else
        '(a, b, c) ← match_version (str_drop (S i) image);
        x ← atoi a; y ← atoi b; z ← atoi c;
        Some [x; y; z]
  end.

(** slices.Compare on integers: negative, zero or positive. *)
Fixpoint slices_compare (a b : list Z) : Z :=
  match a, b with
  | [], [] => 0
  | [], _ => -1
  | _, [] => 1
  | x :: a', y :: b' => if x <? y then -1 else if y <? x then 1 else slices_compare a' b'
  end.

Definition versionText (v : list Z) : string := str_join "." (itoa <$> v).

Definition backupUnsupported (cluster : KahunaCluster) : string :=
  let spec := kc_Spec cluster in
  match spec_Replication spec with
  | None => ""
  | Some r =>
      let most := match spec_Autoscaling spec with
                  | Some as_ => as_MaxReplicas as_
                  | None => specReplicas cluster
                  end in
      if most <=? rep_Factor r then ""
      else
        let message :=
          "image " +:+ spec_Image spec +:+ " is older than Kahuna " +:+ versionText composedBackupVersion
            +:+ ", and the cluster can have " +:+ itoa most +:+ " nodes with replication.factor "
            +:+ itoa (rep_Factor r) +:+ ": a backup from that server holds only the partitions that the node taking "
            +:+ "it hosts, and restore and seeding refuse such a backup. Use Kahuna "
            +:+ versionText composedBackupVersion +:+ " or later" in
        match imageVersion (spec_Image spec) with
        | None => ""
        | Some v => if 0 <=? slices_compare v composedBackupVersion then "" else message
        end
  end.

(** podImage: the image of the Kahuna container, or "". *)
Fixpoint containerImage (cs : list Container) : string :=
  match cs with
  | [] => ""
  | c :: rest => if String.eqb (c_Name c) containerName then c_Image c else containerImage rest
  end.

Definition podImage (pod : Pod) : string := containerImage (pod_Containers pod).

(** ** The claim *)

(** slices.Contains both ways. *)
Definition sameAccessModes (a b : list string) : bool :=
  forallb (λ m, bool_decide (m ∈ b)) a && forallb (λ m, bool_decide (m ∈ a)) b.

Definition claimNeedsReplacing `{!QuantityAPI} (existing desired : PersistentVolumeClaim) : bool :=
  if negb (is_nil (pvc_DeletionTimestamp existing)) || negb (String.eqb (pvc_VolumeName existing) "")
     || (negb (bool_decide (pvc_Phase existing = ClaimPhaseUnset))
         && negb (bool_decide (pvc_Phase existing = ClaimPending)))
  then false
  else if negb (sameAccessModes (pvc_AccessModes existing) (pvc_AccessModes desired)) then true
  else if match pvc_StorageClassName desired with
          | Some want => negb (bool_decide (pvc_StorageClassName existing = Some want))
          | None => false
          end then true
  else negb (quantity_Cmp (pvc_Storage existing) (pvc_Storage desired) =? 0).

Definition eventTime (e : Event) : Time :=
  let t := ev_CreationTimestamp e in
  let t := if time_after (ev_LastTimestamp e) t then ev_LastTimestamp e else t in
  let t := if time_after (ev_EventTime e) t then ev_EventTime e else t in
  match ev_Series e with
  | Some s => if time_after s t then s else t
  | None => t
  end.

Definition latestEvent (events : list Event) : option Event :=
  foldl (λ latest e, match latest with
                     | None => Some e
                     | Some l => if time_after (eventTime e) (eventTime l) then Some e else latest
                     end) None events.

Record backupVolume := mkBackupVolume {
  bvol_bound : bool;
  bvol_ready : bool;
  bvol_reason : string;
  bvol_message : string;
}.

Definition is_alpha (c : ascii) : bool :=
  let n := Z.of_nat (nat_of_ascii c) in ((65 <=? n) && (n <=? 90)) || ((97 <=? n) && (n <=? 122)).
Definition is_word (c : ascii) : bool := is_alpha c || is_digit c || Ascii.eqb c "_".

Fixpoint str_last (s : string) : option ascii :=
  match s with
  | EmptyString => None
  | String c EmptyString => Some c
  | String _ s' => str_last s'
  end.

(** conditionReason: a letter, then letters, digits and _,: ending in a letter, a digit or _. *)
Definition conditionReason_match (s : string) : bool :=
  match s with
  | EmptyString => false
  | String c rest =>
      is_alpha c &&
      match str_last rest with
      | None => true
      | Some l => str_forall (λ d, is_word d || Ascii.eqb d "," || Ascii.eqb d ":") rest && is_word l
      end
  end.

(** strings.TrimRight with a dot cutset. *)
Fixpoint trim_dots (s : string) : string :=
  match s with
  | EmptyString => EmptyString
  | String c s' => match trim_dots s' with
                   | EmptyString => if Ascii.eqb c "." then EmptyString else String c EmptyString
                   | t => String c t
                   end
  end.

(** ** The checks a backup waits for *)

Section checks.
Context `{!Conversions, !QuantityAPI}.

(** The loop over the pods, for the image and hash they should run: the reason to wait, or how many pods of the desired set were seen. *)
Fixpoint checkPods (image hash : string) (desired seen : Z) (pods : list Pod) : string + Z :=
  match pods with
  | [] => inr seen
  | pod :: rest =>
      let o := ordinalOf (pod_Name pod) in
      if (o <? 0) || (desired <=? o) then checkPods image hash desired seen rest
      else if negb (is_nil (pod_DeletionTimestamp pod)) || negb (podIsReady pod) then
        inl (pod_Name pod +:+ " is not ready")
      else if negb (bool_decide (default "" (pod_Annotations pod !! configHashAnnotation) = hash)) then
        inl (pod_Name pod +:+ " does not run the current configuration yet")
      else if negb (String.eqb (podImage pod) image) then
        inl (pod_Name pod +:+ " does not run image " +:+ image +:+ " yet")
      else checkPods image hash desired (i32 (seen + 1)) rest
  end.

Definition backupBlocked (cluster : KahunaCluster) (membership : option Membership) (pods : list Pod) : string :=
  if negb (st_Bootstrapped (kc_Status cluster)) then "the cluster has not finished bootstrap"
  else
    let desired := desiredReplicas cluster in
    if negb (rosterMatches cluster membership desired) then
      "the roster has not converged on the desired nodes"
    else
      match checkPods (spec_Image (kc_Spec cluster)) (configHash (entrypointScript cluster)) desired 0 pods with
      | inl reason => reason
      | inr seen => if seen <? desired then itoa seen +:+ " of " +:+ itoa desired +:+ " pods exist" else ""
      end.
End checks.

(** ** The controller *)

(** cron.ParseStandard. *)
Class Cron := ParseStandard : string → result Schedule.

(** What a pass hands to the background goroutine: the address of its job and the arguments of
    [runBackup], with the timeout. *)
Record spawn := mkSpawn {
  sw_job : backupJob;
  sw_targets : list backupTarget;
  sw_timeout : Duration;
}.

Section effects.
Context {W : Type} `{!KubeObject W PersistentVolumeClaim, !KubeObject W Secret, !KubeCluster W}.
Context `{!Random W, !Clock W, !Conversions, !QuantityAPI, !ConditionsAPI, !Format, !Cron}.

(** The backup claim part of [reconcileBackupResources]. *)
Definition reconcileBackupClaim (cluster : KahunaCluster) (b : BackupSpec) (claim : VolumeSpec)
    : go W (option error) :=
  let desired := desiredBackupClaim cluster b claim in
  r ← kube_Get (T := PersistentVolumeClaim) (om_Namespace (pvc_Meta desired), om_Name (pvc_Meta desired));
  match r with
  | Err e =>
      if IsNotFound e then
        c ← kube_Create desired;
        mret match c with
        | Ok _ => None
        | Err e => if IsAlreadyExists e then None else Some (ErrorWrap "creating backup claim: " e)
        end
      else mret (Some e)
  | Ok existing =>
      if claimNeedsReplacing existing desired then
        err ← kube_Delete existing (Some (mkPreconditions (pvc_UID existing) (pvc_ResourceVersion existing)));
        mret match err with
        | None => None
        | Some e => if IsNotFound e || IsConflict e then None
                    else Some (ErrorWrap "deleting unbound backup claim: " e)
        end
      else mret None
  end.

(** The generated key part. *)
Definition reconcileBackupKey (cluster : KahunaCluster) : go W (option error) :=
  let name := backupMACSecretName cluster in
  r ← kube_Get (T := Secret) (kc_Namespace cluster, name);
  match r with
  | Ok _ => mret None
  | Err e =>
      if IsNotFound e then
        k ← rand_Read backupMACKeyBytes;
        match k with
        | Err e => mret (Some (ErrorWrap "generating backup MAC key: " e))
        | Ok key =>
            c ← kube_Create (mkSecret (objectMeta cluster name) "" "" ∅ "Opaque" {[backupMACKey := key]});
            mret match c with
            | Ok _ => None
            | Err e => if IsAlreadyExists e then None else Some (ErrorWrap "creating backup MAC key: " e)
            end
        end
      else mret (Some e)
  end.

Definition reconcileBackupResources (cluster : KahunaCluster) : go W (option error) :=
  match spec_Backup (kc_Spec cluster) with
  | None => mret None
  | Some b =>
      err ← match bv_Claim (bk_Volume b) with
            | Some claim => reconcileBackupClaim cluster b claim
            | None => mret None
            end;
      match err with
      | Some e => mret (Some e)
      | None => match bk_MACKeySecretRef b with
                | None => reconcileBackupKey cluster
                | Some _ => mret None
                end
      end
  end.

Definition latestClaimWarning (pvc : PersistentVolumeClaim) : go W (result (option Event)) :=
  r ← kube_ListClaimWarnings (om_Namespace (pvc_Meta pvc)) (pvc_UID pvc);
  mret match r with Err e => Err e | Ok l => Ok (latestEvent l) end.

Definition stuckText : string := ". Every node mounts it, so no pod can start until it is bound".

Definition readBackupVolume (cluster : KahunaCluster) (b : BackupSpec) : go W backupVolume :=
  let name := backupClaimName cluster b in
  r ← kube_Get (T := PersistentVolumeClaim) (kc_Namespace cluster, name);
  match r with
  | Err e =>
      mret (if IsNotFound e then
              mkBackupVolume false false "ClaimNotFound"
                ("PersistentVolumeClaim " +:+ quoted name
                   +:+ " does not exist. Every node mounts it, so no pod can start until it exists")
            else mkBackupVolume false false "ClaimUnreadable"
                   ("reading PersistentVolumeClaim " +:+ quoted name +:+ ": " +:+ error_Error e))
  | Ok pvc =>
      match pvc_Phase pvc with
      | ClaimBound =>
          mret (if negb (singleNode cluster) && negb (bool_decide (ReadWriteMany ∈ pvc_StatusAccessModes pvc)) then
                  mkBackupVolume true false "NotReadWriteMany"
                    ("PersistentVolumeClaim " +:+ quoted name +:+ " is bound with access modes "
                       +:+ fmt_strings (pvc_StatusAccessModes pvc)
                       +:+ ", not ReadWriteMany. Every node mounts it, "
                       +:+ "so a pod that runs on a different Kubernetes node than the volume cannot start")
                else mkBackupVolume true true "ClaimBound"
                       ("PersistentVolumeClaim " +:+ quoted name +:+ " is bound"))
      | ClaimLost =>
          mret (mkBackupVolume false false "ClaimLost"
                  ("PersistentVolumeClaim " +:+ quoted name +:+ " lost its PersistentVolume "
                     +:+ quoted (pvc_VolumeName pvc)))
      | _ =>
          w ← latestClaimWarning pvc;
          mret match w with
          | Ok (Some warning) =>
              let reason := if conditionReason_match (ev_Reason warning) then ev_Reason warning
                            else "ClaimPending" in
              let msg := "PersistentVolumeClaim " +:+ quoted name +:+ " is not bound: " +:+ ev_Reason warning
                           +:+ ": " +:+ trim_dots (trim_space (ev_Message warning)) +:+ stuckText in
              let msg := if bool_decide (ReadWriteMany ∈ pvc_AccessModes pvc) then
                           msg +:+ ". The claim asks for ReadWriteMany, so its StorageClass must support that access mode. "
                             +:+ "Set spec.backup.volume.claim.storageClassName to a class that does, or name a ReadWriteMany claim in spec.backup.volume.claimName"
                         else msg in
              mkBackupVolume false false reason msg
          | _ => mkBackupVolume false false "ClaimPending"
                   ("PersistentVolumeClaim " +:+ quoted name +:+ " is not bound yet" +:+ stuckText)
          end
      end
  end.

Definition setBackupVolumeCondition (cluster : KahunaCluster) (v : backupVolume) : go W KahunaCluster :=
  condNow ← time_Now;
  mret (cluster <| kc_Status := (kc_Status cluster) <| st_Conditions :=
          SetStatusCondition condNow (st_Conditions (kc_Status cluster))
            (mkCondition ConditionBackupVolumeReady (bvol_ready v) zero_time (bvol_reason v) (bvol_message v)) |> |>).

Definition setBackupCondition (cluster : KahunaCluster) (failing : bool) (reason message : string)
    : go W KahunaCluster :=
  condNow ← time_Now;
  mret (cluster <| kc_Status := (kc_Status cluster) <| st_Conditions :=
          SetStatusCondition condNow (st_Conditions (kc_Status cluster))
            (mkCondition ConditionBackupFailing failing zero_time reason message) |> |>).

(** The nodes a backup goes to. *)
Definition backupTargets (cluster : KahunaCluster) (pods : list Pod) : list backupTarget :=
  (λ p, mkBackupTarget (pod_Name p) (podBaseURL cluster p)) <$>
    filter (λ p, 0 ≤ ordinalOf (pod_Name p) < desiredReplicas cluster ∧ pod_PodIP p ≠ "") pods.

Definition backupTimeout (spec : BackupSpec) : Duration :=
  match bk_Timeout spec with
  | Some d => if 0 <? d then d else defaultBackupTimeout
  | None => defaultBackupTimeout
  end.

(** [failing], [failure] and [failedOr] of the source. *)
Definition failingNow (st : BackupStatus) : bool := 0 <? bst_ConsecutiveFailures st.

Definition failureText (st : BackupStatus) : string :=
  if failingNow st then
    itoa (bst_ConsecutiveFailures st) +:+ " consecutive failures, latest: " +:+ bst_LastFailureMessage st +:+ ". "
  else "".

Definition failedOr (st : BackupStatus) (reason : string) : string :=
  if failingNow st then "BackupFailed" else reason.

(** The condition of a running backup. *)
Definition runningCondition (st : BackupStatus) (kind : backupKind) (scheduled : Time) : bool * string * string :=
  (failingNow st, failedOr st "BackupRunning",
   failureText st +:+ backupKind_string kind +:+ " backup scheduled for " +:+ rfc3339 scheduled +:+ " is running").

(** A backup is due: it is held with a reason, or it goes out. *)
Definition launchBackup (cluster : KahunaCluster) (spec : BackupSpec) (membership : option Membership)
    (pods : list Pod) (volume : backupVolume) (st : BackupStatus) (d : backupDecision)
    : option spawn * Duration * (bool * string * string) :=
  if default false (bk_Suspend spec) then
    (None, 0, (failingNow st, failedOr st "BackupSuspended", failureText st +:+ "backups are suspended"))
  else
    let reason := backupBlocked cluster membership pods in
    let reason := if negb (bvol_bound volume) then bvol_message volume else reason in
    if negb (String.eqb reason "") then
      (None, 0, (failingNow st, failedOr st "BackupWaiting",
         failureText st +:+ backupKind_string (bd_kind d) +:+ " backup is due, waiting because " +:+ reason))
    else
      (Some (mkSpawn (mkBackupJob (bd_kind d) (bd_scheduled d) (bst_LastBackupID st) None)
               (backupTargets cluster pods) (backupTimeout spec)),
       backupPollInterval, runningCondition st (bd_kind d) (bd_scheduled d)).

(** Nothing is due: when to look again, and the condition that says so. *)
Definition idleBackup (st : BackupStatus) (d : backupDecision) (now : Time)
    : option spawn * Duration * (bool * string * string) :=
  let retrying := negb (time_is_zero (bd_retryAt d)) in
  let scheduled :=
    (failingNow st, failedOr st "BackupScheduled",
     failureText st +:+ (if retrying then "retrying at " +:+ rfc3339 (bd_retryAt d)
                         else if negb (time_is_zero (bd_next d)) then "next backup at " +:+ rfc3339 (bd_next d)
                         else "no backup is scheduled")) in
  (None, untilDue (bd_next d) now,
   match bst_UnclaimedSince st with
   | Some since =>
       if retrying && negb (failingNow st) then
         (false, "BackupWaiting",
          "a backup is due, but no node has taken it since " +:+ rfc3339 since
            +:+ ": every node refused it with an outcome that clears "
            +:+ "on retry, such as a meta partition with no settled leader yet. Retrying at "
            +:+ rfc3339 (bd_retryAt d))
       else scheduled
   | None => scheduled
   end).

(** The tail of [reconcileBackup], once the schedules parsed and nothing is running: what to start,
    how soon to look again, and the condition.  [st] is the status with any finished result applied. *)
Definition startBackup (cluster : KahunaCluster) (spec : BackupSpec) (membership : option Membership)
    (pods : list Pod) (volume : backupVolume) (full : Schedule) (incremental : option Schedule)
    (st : BackupStatus) (now : Time) : option spawn * Duration * (bool * string * string) :=
  let d := decideBackup (mkBackupInput full incremental st now) in
  match bd_kind d with
  | backupNone => idleBackup st d now
  | _ => launchBackup cluster spec membership pods volume st d
  end.

(** The schedules of the spec, or the reason and message of the condition that reports a bad one. *)
Definition parseSchedules (spec : BackupSpec) : (string * string) + (Schedule * option Schedule) :=
  match ParseStandard (bk_Schedule spec) with
  | Err e => inl ("InvalidSchedule", "backup.schedule " +:+ quoted (bk_Schedule spec) +:+ ": " +:+ error_Error e)
  | Ok full =>
      if String.eqb (bk_IncrementalSchedule spec) "" then inr (full, None)
      else match ParseStandard (bk_IncrementalSchedule spec) with
           | Err e => inl ("InvalidSchedule", "backup.incrementalSchedule "
                             +:+ quoted (bk_IncrementalSchedule spec) +:+ ": " +:+ error_Error e)
           | Ok inc => inr (full, Some inc)
           end
  end.

(** The status and the job still running after the poll. *)
Definition collectBackup (st : BackupStatus) (job : option backupJob) (now : Time)
    : BackupStatus * option backupJob :=
  match job with
  | None => (st, None)
  | Some j => match job_result j with
              | Some r => (applyBackupResult st j r now, None)
              | None => (st, Some j)
              end
  end.

(** What the pass does after the poll: the spawn, the wake-up, and the condition. *)
Definition stepBackup (cluster : KahunaCluster) (spec : BackupSpec) (membership : option Membership)
    (pods : list Pod) (volume : backupVolume) (st : BackupStatus) (running : option backupJob) (now : Time)
    : option spawn * Duration * (bool * string * string) :=
  match parseSchedules spec with
  | inl (reason, msg) => (None, 0, (true, reason, msg))
  | inr (full, incremental) =>
      if negb (String.eqb (backupUnsupported cluster) "") then
        (None, 0, (true, "UnsupportedImage", backupUnsupported cluster))
      else
        match running with
        | Some job => (None, backupPollInterval, runningCondition st (job_kind job) (job_scheduled job))
        | None => startBackup cluster spec membership pods volume full incremental st now
        end
  end.

Definition reconcileBackup (cluster : KahunaCluster) (membership : option Membership) (pods : list Pod)
    (runner : backupRunner) : go W (KahunaCluster * backupRunner * option spawn * Duration) :=
  let key := clusterKey cluster in
  match spec_Backup (kc_Spec cluster) with
  | None =>
      let conds := RemoveStatusCondition (st_Conditions (kc_Status cluster)) ConditionBackupFailing in
      let conds := RemoveStatusCondition conds ConditionBackupVolumeReady in
      mret (cluster <| kc_Status := (kc_Status cluster) <| st_Backup := None |> <| st_Conditions := conds |> |>,
            runner_forget runner key, None, 0)
  | Some spec =>
      now ← time_Now;
      volume ← readBackupVolume cluster spec;
      cluster ← setBackupVolumeCondition cluster volume;
      let st := default zero_BackupStatus (st_Backup (kc_Status cluster)) in
      let '(job, runner) := runner_poll runner key in
      let '(st, running) := collectBackup st job now in
      let '(sp, wake, (failing, reason, msg)) := stepBackup cluster spec membership pods volume st running now in
      cluster ← setBackupCondition cluster failing reason msg;
      mret (cluster <| kc_Status := (kc_Status cluster) <| st_Backup := Some st |> |>,
            match sp with Some s => runner_start runner key (sw_job s) | None => runner end, sp, wake)
  end.
End effects.

(** ** What a backup waits for *)

Section checks_spec.
Context `{!Conversions, !QuantityAPI}.

(** A pod of the desired set that serves with the current configuration and image. *)
Definition podCurrent (cluster : KahunaCluster) (pod : Pod) : Prop :=
  pod_DeletionTimestamp pod = None ∧ podIsReady pod = true ∧
  default "" (pod_Annotations pod !! configHashAnnotation) = configHash (entrypointScript cluster) ∧
  podImage pod = spec_Image (kc_Spec cluster).

Definition inDesired (cluster : KahunaCluster) (pod : Pod) : Prop :=
  0 ≤ ordinalOf (pod_Name pod) < desiredReplicas cluster.

#[global] Instance inDesired_dec cluster pod : Decision (inDesired cluster pod).
Proof. unfold inDesired. apply _. Defined.

Lemma str_suffix_nonempty (a b : string) : b ≠ "" → a +:+ b ≠ "".
Proof. by destruct a. Qed.

Lemma checkPods_spec cluster seen pods :
  0 ≤ seen → seen + length pods < two31 →
  match checkPods (spec_Image (kc_Spec cluster)) (configHash (entrypointScript cluster))
          (desiredReplicas cluster) seen pods with
  | inl reason => reason ≠ "" ∧ ∃ p, p ∈ pods ∧ inDesired cluster p ∧ ¬ podCurrent cluster p
  | inr n => n = seen + length (filter (inDesired cluster) pods) ∧
             Forall (λ p, inDesired cluster p → podCurrent cluster p) pods
  end.
Proof.
  set (hash := configHash (entrypointScript cluster)).
  revert seen. induction pods as [|pod pods IH]; intros seen Hs Hl; cbn [checkPods length] in *.
  { simpl. split; [lia|constructor]. }
  destruct ((ordinalOf (pod_Name pod) <? 0) || (desiredReplicas cluster <=? ordinalOf (pod_Name pod))) eqn:Eo.
  { assert (¬ inDesired cluster pod) as Hno.
    { unfold inDesired. apply orb_true_iff in Eo as [Eo|Eo]; bsimpl; lia. }
    specialize (IH seen Hs ltac:(lia)). rewrite filter_cons, decide_False by done.
    destruct (checkPods _ _ _ _ _); [naive_solver set_solver|]. destruct IH. split; [done|]. constructor; [|done].
    intros Hin. by destruct Hno. }
  bsimpl. assert (inDesired cluster pod) as Hin by (unfold inDesired; lia).
  destruct (negb (is_nil (pod_DeletionTimestamp pod)) || negb (podIsReady pod)) eqn:Er.
  { split; [by apply str_suffix_nonempty|]. exists pod. split_and!; [by left|done|]. intros (Hd & Hr & _).
    by rewrite Hd, Hr in Er. }
  apply orb_false_iff in Er as [Er1 Er2]. apply negb_false_iff in Er1, Er2. apply is_nil_true in Er1.
  case_bool_decide as Eh; simpl; cycle 1.
  { split; [by apply str_suffix_nonempty|]. exists pod. split_and!; [by left|done|]. by intros (_ & _ & ? & _). }
  destruct (String.eqb_spec (podImage pod) (spec_Image (kc_Spec cluster))) as [Ei|Ei]; simpl; cycle 1.
  { split; [by apply str_suffix_nonempty|]. exists pod. split_and!; [by left|done|]. by intros (_ & _ & _ & ?). }
  rewrite i32_id by range. specialize (IH (seen + 1) ltac:(lia) ltac:(lia)).
  rewrite filter_cons, decide_True by done. cbn [length].
  destruct (checkPods _ _ _ _ _); [naive_solver set_solver|]. destruct IH. split; [lia|].
  by constructor.
Qed.

Lemma backupBlocked_spec cluster m pods :
  length pods < two31 →
  backupBlocked cluster m pods = "" ↔
  st_Bootstrapped (kc_Status cluster) = true ∧
  rosterMatches cluster m (desiredReplicas cluster) = true ∧
  Forall (λ p, inDesired cluster p → podCurrent cluster p) pods ∧
  desiredReplicas cluster ≤ length (filter (inDesired cluster) pods).
Proof.
  intros Hl. unfold backupBlocked. destruct (st_Bootstrapped _); simpl; [|naive_solver].
  destruct (rosterMatches _ _ _); simpl; [|naive_solver].
  pose proof (checkPods_spec cluster 0 pods ltac:(lia) ltac:(lia)) as Hc.
  destruct (checkPods _ _ _ _ _) as [reason|n].
  - destruct Hc as (Hne & p & Hp & Hin & Hno). split; [done|]. intros (_ & _ & Hall & _).
    rewrite Forall_forall in Hall. by destruct Hno; apply Hall.
  - destruct Hc as [-> Hall]. rewrite Z.add_0_l.
    destruct (Z.ltb_spec (length (filter (inDesired cluster) pods)) (desiredReplicas cluster)) as [Hlt|Hge].
    + split; [|lia]. intros He. exfalso. revert He. by apply str_suffix_nonempty.
    + naive_solver.
Qed.

(** C39: A pod annotation of the user with the operator's own key wins over the generated hash, and then
    no pod of the template ever counts as running the current configuration. *)
Theorem config_hash_override cluster v m pods :
  spec_PodAnnotations (kc_Spec cluster) !! configHashAnnotation = Some v →
  v ≠ configHash (entrypointScript cluster) →
  0 < desiredReplicas cluster → length pods < two31 →
  Forall (λ p, pod_Annotations p = podAnnotations cluster) pods →
  backupBlocked cluster m pods ≠ "".
Proof.
  intros Hv Hne Hd Hl Hp. rewrite backupBlocked_spec by done. intros (_ & _ & Hall & Hcount).
  destruct (filter (inDesired cluster) pods) as [|p l] eqn:Ef; [simpl in Hcount; lia|].
  assert (p ∈ filter (inDesired cluster) pods) as [Hin Hpp]%list_elem_of_filter by (rewrite Ef; left).
  rewrite Forall_forall in Hall. destruct (Hall p Hpp Hin) as (_ & _ & Hh & _). apply Hne. rewrite <- Hh.
  rewrite Forall_forall in Hp. rewrite (Hp p Hpp). unfold podAnnotations.
  by rewrite (lookup_union_Some_l _ _ _ _ Hv).
Qed.

(** C30: nothing holds a due backup exactly when the cluster has bootstrapped, the roster is the desired
    set, every pod of the desired set is there, is ready and not being deleted, and runs the current
    configuration and image. *)
Theorem backupBlocked_correct cluster m pods :
  length pods < two31 →
  backupBlocked cluster m pods = "" ↔
  st_Bootstrapped (kc_Status cluster) = true ∧
  rosterMatches cluster m (desiredReplicas cluster) = true ∧
  Forall (λ p, inDesired cluster p → podCurrent cluster p) pods ∧
  desiredReplicas cluster ≤ length (filter (inDesired cluster) pods).
Proof. apply backupBlocked_spec. Qed.
End checks_spec.

(** ** Passes *)

(** A volume that is not bound always has a message. *)
Definition wf_volume (v : backupVolume) : Prop := bvol_bound v = false → bvol_message v ≠ "".

Lemma readBackupVolume_wf {W} `{!KubeObject W PersistentVolumeClaim, !KubeCluster W, !Format} cluster b w v w' :
  readBackupVolume cluster b w = (Some v, w') → wf_volume v.
Proof.
  unfold readBackupVolume. intros (r & w1 & _ & Hr)%go_bind_Some. destruct r as [pvc|e].
  - destruct (pvc_Phase pvc); try (injection Hr as <- <-; unfold wf_volume; repeat case_match; done).
    all: apply go_bind_Some in Hr as (wn & w2 & _ & Hr); injection Hr as <- <-.
    all: unfold wf_volume; repeat case_match; done.
  - injection Hr as <- <-. unfold wf_volume. repeat case_match; done.
Qed.

Lemma launchBackup_spawn `{!Conversions, !QuantityAPI, !Format} cluster spec m pods volume st d sp wake cond :
  wf_volume volume →
  launchBackup cluster spec m pods volume st d = (Some sp, wake, cond) →
  bk_Suspend spec ≠ Some true ∧ bvol_bound volume = true ∧ backupBlocked cluster m pods = "" ∧
  sw_targets sp = backupTargets cluster pods ∧
  sw_job sp = mkBackupJob (bd_kind d) (bd_scheduled d) (bst_LastBackupID st) None.
Proof.
  unfold wf_volume, launchBackup. intros Hv. destruct (default false (bk_Suspend spec)) eqn:Es; [done|].
  destruct (bvol_bound volume); simpl; cycle 1.
  { destruct (String.eqb_spec (bvol_message volume) ""); [by destruct (Hv eq_refl)|done]. }
  destruct (String.eqb_spec (backupBlocked cluster m pods) ""); simpl; [|done]. intros [= <- _ _].
  split_and!; try done. intros Hs. by rewrite Hs in Es.
Qed.

Lemma startBackup_spawn `{!Conversions, !QuantityAPI, !Format} cluster spec m pods volume full inc st now sp wake cond :
  wf_volume volume →
  startBackup cluster spec m pods volume full inc st now = (Some sp, wake, cond) →
  bk_Suspend spec ≠ Some true ∧ bvol_bound volume = true ∧ backupBlocked cluster m pods = "" ∧
  sw_targets sp = backupTargets cluster pods ∧
  let d := decideBackup (mkBackupInput full inc st now) in
  bd_kind d ≠ backupNone ∧ sw_job sp = mkBackupJob (bd_kind d) (bd_scheduled d) (bst_LastBackupID st) None.
Proof.
  intros Hv. unfold startBackup. set (d := decideBackup _). clearbody d.
  destruct (bd_kind d) eqn:Ek; [by repeat case_match|..]; intros Hl;
    apply launchBackup_spawn in Hl as (? & ? & ? & ? & Hj); try done; rewrite Ek in Hj; by split_and!.
Qed.

(** ** The claim and the key *)

Section resources_spec.
Context {W : Type} `{!KubeObject W PersistentVolumeClaim, !KubeObject W Secret, !Random W, !QuantityAPI}.

(** A claim that no volume is bound to and that nobody is deleting: it holds no data. *)
Definition unboundClaim (pvc : PersistentVolumeClaim) : Prop :=
  pvc_VolumeName pvc = "" ∧ pvc_DeletionTimestamp pvc = None ∧
  (pvc_Phase pvc = ClaimPhaseUnset ∨ pvc_Phase pvc = ClaimPending).

Lemma claimNeedsReplacing_unbound existing desired :
  claimNeedsReplacing existing desired = true → unboundClaim existing.
Proof.
  unfold claimNeedsReplacing, unboundClaim. destruct (pvc_DeletionTimestamp existing); [done|].
  destruct (String.eqb_spec (pvc_VolumeName existing) ""); [|done]. cbn [is_nil negb orb].
  destruct (pvc_Phase existing); cbn; try done; naive_solver.
Qed.

Lemma reconcileBackupClaim_safe cluster b claim w r w' :
  let desired := desiredBackupClaim cluster b claim in
  reconcileBackupClaim cluster b claim w = (Some r, w') →
  ∃ got w1, kube_Get (T := PersistentVolumeClaim)
              (om_Namespace (pvc_Meta desired), om_Name (pvc_Meta desired)) w = (Some got, w1) ∧
    (w' = w1 ∨
     (∃ e res, got = Err e ∧ IsNotFound e = true ∧ kube_Create desired w1 = (Some res, w')) ∨
     (∃ pvc err, got = Ok pvc ∧ unboundClaim pvc ∧
        kube_Delete pvc (Some (mkPreconditions (pvc_UID pvc) (pvc_ResourceVersion pvc))) w1 = (Some err, w'))).
Proof.
  intros desired (got & w1 & Hget & Hr)%go_bind_Some. fold desired in Hget, Hr. exists got, w1. split; [done|].
  destruct got as [pvc|e].
  - destruct (claimNeedsReplacing pvc desired) eqn:Hc; [|left; by injection Hr].
    apply go_bind_Some in Hr as (err & w2 & Hdel & Hr). injection Hr as _ <-. right. right.
    exists pvc, err. split_and!; [done| |done]. by eapply claimNeedsReplacing_unbound.
  - destruct (IsNotFound e) eqn:He; [|left; by injection Hr].
    apply go_bind_Some in Hr as (res & w2 & Hc & Hr). injection Hr as _ <-. right. left. by exists e, res.
Qed.

(** The key part reads, and then writes nothing, or creates a key that it just drew after reading that
    there is none. *)
Definition keyWrites (cluster : KahunaCluster) (w : W) (r : option error) (w' : W) : Prop :=
  ∃ got w1, kube_Get (T := Secret) (kc_Namespace cluster, backupMACSecretName cluster) w = (Some got, w1) ∧
    match got with
    | Ok _ => r = None ∧ w' = w1
    | Err e =>
        if IsNotFound e then
          ∃ drawn w2, rand_Read backupMACKeyBytes w1 = (Some drawn, w2) ∧
            match drawn with
            | Err e => r = Some (ErrorWrap "generating backup MAC key: " e) ∧ w' = w2
            | Ok key => ∃ res,
                kube_Create (mkSecret (objectMeta cluster (backupMACSecretName cluster)) "" "" ∅ "Opaque"
                               {[backupMACKey := key]}) w2 = (Some res, w') ∧
                (r = None ↔ ∀ e, res = Err e → IsAlreadyExists e = true)
            end
        else r = Some e ∧ w' = w1
    end.

Lemma reconcileBackupKey_writes cluster w r w' :
  reconcileBackupKey cluster w = (Some r, w') → keyWrites cluster w r w'.
Proof.
  intros (got & w1 & Hget & Hr)%go_bind_Some. exists got, w1. split; [done|].
  destruct got as [secret|e]; [by injection Hr|]. destruct (IsNotFound e); [|by injection Hr].
  apply go_bind_Some in Hr as (drawn & w2 & Hrand & Hr). exists drawn, w2. split; [done|].
  destruct drawn as [key|e']; [|by injection Hr].
  apply go_bind_Some in Hr as (res & w3 & Hc & Hr). injection Hr as <- <-. exists res. split; [done|].
  destruct res as [o|e2]; [split; [intros _ e2 [=]|done]|].
  destruct (IsAlreadyExists e2) eqn:E; split; try done; [by intros _ ? [= <-]|].
  intros Hall. rewrite (Hall e2 eq_refl) in E. discriminate E.
Qed.

(** What no Create changes, such as a key that is there already, the key part does not change. *)
Lemma keeps_reconcileBackupKey (P : W → Prop) cluster :
  keeps P (kube_Get (T := Secret) (kc_Namespace cluster, backupMACSecretName cluster)) →
  keeps P (rand_Read backupMACKeyBytes) → (∀ s : Secret, keeps P (kube_Create s)) →
  keeps P (reconcileBackupKey cluster).
Proof. intros Hget Hrand Hcreate. unfold reconcileBackupKey. keeping. Qed.

(** C32: backups already taken stay readable.  Whatever the API server answers, a pass deletes a backup
    claim only when no volume is bound to it, in exactly the version it read, and creates one only when
    there is none.  The key that authenticates the backups is never updated, replaced or deleted: the one
    write a pass can make for it is a Create (which the API server refuses when there is a key) of a
    newly drawn key, after a read that said there is none; after a read that found one, or failed in any
    other way, nothing is written, and the failure is returned.  So whatever a Create leaves alone, as it
    does a key that is there already, the pass leaves alone, also when the read that missed it was old. *)
Theorem backup_resources_safe cluster b claim w r w' :
  let desired := desiredBackupClaim cluster b claim in
  (reconcileBackupClaim cluster b claim w = (Some r, w') →
   ∃ got w1, kube_Get (T := PersistentVolumeClaim)
               (om_Namespace (pvc_Meta desired), om_Name (pvc_Meta desired)) w = (Some got, w1) ∧
     (w' = w1 ∨
      (∃ e res, got = Err e ∧ IsNotFound e = true ∧ kube_Create desired w1 = (Some res, w')) ∨
      (∃ pvc err, got = Ok pvc ∧ unboundClaim pvc ∧
         kube_Delete pvc (Some (mkPreconditions (pvc_UID pvc) (pvc_ResourceVersion pvc))) w1
           = (Some err, w')))) ∧
  (reconcileBackupKey cluster w = (Some r, w') → keyWrites cluster w r w') ∧
  ∀ P : W → Prop,
    keeps P (kube_Get (T := Secret) (kc_Namespace cluster, backupMACSecretName cluster)) →
    keeps P (rand_Read backupMACKeyBytes) → (∀ s : Secret, keeps P (kube_Create s)) →
    keeps P (reconcileBackupKey cluster).
Proof.
  split_and!; [apply reconcileBackupClaim_safe|apply reconcileBackupKey_writes|].
  intros P. apply keeps_reconcileBackupKey.
Qed.
End resources_spec.

Section passes.
Context {W : Type} `{!KubeObject W PersistentVolumeClaim, !KubeCluster W, !Clock W}.
Context `{!Conversions, !QuantityAPI, !ConditionsAPI, !Format, !Cron}.

Definition withConditions (cluster : KahunaCluster) (conds : list Condition) : KahunaCluster :=
  cluster <| kc_Status := (kc_Status cluster) <| st_Conditions := conds |> |>.

Lemma setBackupVolumeCondition_inv cluster v w cl w' :
  setBackupVolumeCondition cluster v w = (Some cl, w') → ∃ conds, cl = withConditions cluster conds.
Proof. intros (t & w1 & _ & [= <- _])%go_bind_Some. by eexists. Qed.

Lemma setBackupCondition_inv cluster failing reason msg w cl w' :
  setBackupCondition cluster failing reason msg w = (Some cl, w') → ∃ conds, cl = withConditions cluster conds.
Proof. intros (t & w1 & _ & [= <- _])%go_bind_Some. by eexists. Qed.

(** A step that starts something found nothing running. *)
Lemma stepBackup_spawn cluster conds spec m pods volume st running now s wake cond :
  wf_volume volume →
  stepBackup (withConditions cluster conds) spec m pods volume st running now = (Some s, wake, cond) →
  running = None ∧ backupUnsupported cluster = "" ∧
  bk_Suspend spec ≠ Some true ∧ bvol_bound volume = true ∧ backupBlocked cluster m pods = "" ∧
  sw_targets s = backupTargets cluster pods ∧
  ∃ full inc, parseSchedules spec = inr (full, inc) ∧
    bd_kind (decideBackup (mkBackupInput full inc st now)) ≠ backupNone ∧
    sw_job s = mkBackupJob (bd_kind (decideBackup (mkBackupInput full inc st now)))
                 (bd_scheduled (decideBackup (mkBackupInput full inc st now))) (bst_LastBackupID st) None.
Proof.
  intros Hv. unfold stepBackup. destruct (parseSchedules spec) as [[]|[full inc]]; [done|].
  change (backupUnsupported (withConditions cluster conds)) with (backupUnsupported cluster).
  destruct (String.eqb_spec (backupUnsupported cluster) ""); cbn [negb]; [|done].
  destruct running; [done|]. intros Hst. apply startBackup_spawn in Hst as (Hsus & Hb & Hblk & Htg & Hk & Hj); [|done].
  split_and!; [done|done|exact Hsus|exact Hb|exact Hblk|exact Htg|]. by exists full, inc.
Qed.

Lemma collectBackup_running st job now st' :
  collectBackup st job now = (st', None) → match job with Some j => finished j = true | None => True end.
Proof. unfold collectBackup, finished. destruct job as [j|]; [|done]. by destruct (job_result j). Qed.

(** C16: a pass over a cluster with backups is a step of the runner machine: it collects the finished
    job, and starts one only when none is left, so that the guarantees of the machine are guarantees
    of the passes.  What it starts, it starts only on a cluster that is not suspended, whose volume is
    bound, whose schedules parse, whose image can take a complete backup, and which nothing blocks; the
    job is the one [decideBackup] chose from the status with the finished result applied. *)
Theorem reconcileBackup_start cluster m pods runner w cluster' runner' sp wake w' spec :
  spec_Backup (kc_Spec cluster) = Some spec →
  reconcileBackup cluster m pods runner w = (Some (cluster', runner', sp, wake), w') →
  runner' = runner_pass runner (clusterKey cluster) (sw_job <$> sp) ∧
  ∀ s, sp = Some s →
    bk_Suspend spec ≠ Some true ∧ backupUnsupported cluster = "" ∧
    backupBlocked cluster m pods = "" ∧ sw_targets s = backupTargets cluster pods ∧
    ∃ now w1 volume w2 full inc st d,
      time_Now w = (Some now, w1) ∧ readBackupVolume cluster spec w1 = (Some volume, w2) ∧
      bvol_bound volume = true ∧ parseSchedules spec = inr (full, inc) ∧
      st = (collectBackup (default zero_BackupStatus (st_Backup (kc_Status cluster)))
              (runner_poll runner (clusterKey cluster)).1 now).1 ∧
      st_Backup (kc_Status cluster') = Some st ∧ d = decideBackup (mkBackupInput full inc st now) ∧
      bd_kind d ≠ backupNone ∧
      sw_job s = mkBackupJob (bd_kind d) (bd_scheduled d) (bst_LastBackupID st) None.
Proof.
  intros Hspec. unfold reconcileBackup. rewrite Hspec.
  intros (now & w1 & Hnow & (volume & w2 & Hvol & Hr)%go_bind_Some)%go_bind_Some.
  pose proof (readBackupVolume_wf _ _ _ _ _ Hvol) as Hwf.
  apply go_bind_Some in Hr as (cl & w3 & [conds ->]%setBackupVolumeCondition_inv & Hr).
  change (st_Backup (kc_Status (withConditions cluster conds))) with (st_Backup (kc_Status cluster)) in Hr.
  unfold runner_pass. destruct (runner_poll runner (clusterKey cluster)) as [job runner1].
  destruct (collectBackup _ job now) as [st running] eqn:Ec.
  destruct (stepBackup _ spec m pods volume st running now) as [[sp' wake'] [[failing reason] msg]] eqn:Estep.
  apply go_bind_Some in Hr as (cl2 & w5 & [conds2 ->]%setBackupCondition_inv & Hr).
  injection Hr as <- <- <- <- <-. split.
  - destruct sp' as [s|]; cbn [fmap option_fmap option_map].
    + apply stepBackup_spawn in Estep as (-> & _); [|done]. apply collectBackup_running in Ec.
      destruct job as [j|]; [by rewrite Ec|done].
    + destruct job as [j|]; [|done]. by destruct (finished j).
  - intros s ->. apply stepBackup_spawn in Estep as (_ & ? & ? & ? & ? & ? & full & inc & Hp & Hk & Hj); [|done].
    split_and!; try done.
    exists now, w1, volume, w2, full, inc, st, (decideBackup (mkBackupInput full inc st now)).
    cbn [fst]. rewrite Ec. by split_and!.
Qed.
End passes.

(** ** Witnesses *)

Definition demoBackupCluster : KahunaCluster :=
  mkKahunaCluster "kahuna" "kv" 1
    ((demoSpec 1) <| spec_Backup := Some (mkBackupSpec "0 * * * *" "" None None
                                            (mkBackupVolumeSpec (Some "backups") None) "" None None) |>)
    (zero_Status <| st_Bootstrapped := true |>).

Definition demoConv : Conversions := λ _, 0.
Definition demoQuantities : QuantityAPI := {| quantity_Value q := q / 1000000000; quantity_Cmp a b := a - b |}.
Definition demoCron : Cron := λ _, Ok hourly.

Definition demoBackupPod : Pod :=
  mkPod "kahuna-0" "uid-0"
    {[configHashAnnotation := configHash (@entrypointScript demoConv demoQuantities demoBackupCluster)]} None
    [mkContainer containerName "kahunakv/kahuna:1.12.9"] "10.0.0.1" [mkPodCondition PodReady "True"].

Lemma backupBlocked_correct_witness :
  let c := demoConv in let q := demoQuantities in
  backupBlocked demoBackupCluster (Some (fullRoster demoBackupCluster 1)) [demoBackupPod] = "" ∧
  st_Bootstrapped (kc_Status demoBackupCluster) = true.
Proof.
  intros c q.
  assert (backupBlocked demoBackupCluster (Some (fullRoster demoBackupCluster 1)) [demoBackupPod] = "") as E
    by (vm_compute; reflexivity).
  split; [exact E|].
  apply (backupBlocked_correct demoBackupCluster (Some (fullRoster demoBackupCluster 1)) [demoBackupPod]);
    [vm_compute; done|exact E].
Defined.

Definition demoClaims : KubeObject unit PersistentVolumeClaim := {|
  kube_Get key := mret (Ok (mkPVC (mkObjectMeta key.2 key.1 ∅) "uid" "1" None [ReadWriteMany] None 1 "pv"
                              ClaimBound [ReadWriteMany]));
  kube_Create c := mret (Ok c);
  kube_Delete _ _ := mret None;
  kube_CreateOrUpdate key f := mret (Err (ErrorText "unused"));
  SetControllerReference _ c := Ok c;
|}.

Definition demoKubeCluster : KubeCluster unit := {|
  kube_GetCluster _ := mret (Ok demoBackupCluster);
  kube_UpdateStatus c := mret (Ok c);
  kube_ListPods _ _ := mret (Ok [demoBackupPod]);
  kube_ListClaimWarnings _ _ := mret (Ok []);
|}.

Lemma reconcileBackup_start_witness :
  let c := demoConv in let q := demoQuantities in let k := demoClaims in let kc := demoKubeCluster in
  let t := fixedClock Hour in let a := plainConditions in let f := plainFormat in let cr := demoCron in
  match reconcileBackup demoBackupCluster (Some (fullRoster demoBackupCluster 1)) [demoBackupPod] newRunner tt with
  | (Some (_, runner', Some s, _), _) =>
      runner' = runner_pass newRunner (clusterKey demoBackupCluster) (Some (sw_job s))
  | _ => False
  end.
Proof.
  intros c q k kc t a f cr.
  assert (match reconcileBackup demoBackupCluster (Some (fullRoster demoBackupCluster 1)) [demoBackupPod] newRunner tt with
          | (Some (_, _, Some _, _), _) => true | _ => false end = true) as Hok by (vm_compute; reflexivity).
  revert Hok.
  destruct (reconcileBackup demoBackupCluster (Some (fullRoster demoBackupCluster 1)) [demoBackupPod] newRunner tt)
    as [[[[[cl r] [s|]] wk]|] w] eqn:E; intros Hok; [|discriminate Hok|discriminate Hok].
  exact (proj1 (reconcileBackup_start demoBackupCluster (Some (fullRoster demoBackupCluster 1)) [demoBackupPod]
                  newRunner tt cl r (Some s) wk w
                  (mkBackupSpec "0 * * * *" "" None None (mkBackupVolumeSpec (Some "backups") None) "" None None)
                  eq_refl E)).
Defined.

Definition demoOverride : KahunaCluster :=
  demoBackupCluster <| kc_Spec := (kc_Spec demoBackupCluster)
                         <| spec_PodAnnotations := {[configHashAnnotation := "mine"]} |> |>.

Lemma config_hash_override_witness :
  let c := demoConv in let q := demoQuantities in
  backupBlocked demoOverride (Some (fullRoster demoOverride 1))
    [mkPod "kahuna-0" "uid-0" (podAnnotations demoOverride) None
       [mkContainer containerName "kahunakv/kahuna:1.12.9"] "10.0.0.1" [mkPodCondition PodReady "True"]] ≠ "".
Proof.
  intros c q. apply (config_hash_override demoOverride "mine").
  - vm_compute. reflexivity.
  - assert (bool_decide ("mine" = configHash (entrypointScript demoOverride)) = false) as Hb
      by (vm_compute; reflexivity).
    by apply bool_decide_eq_false_1 in Hb.
  - vm_compute. reflexivity.
  - vm_compute. reflexivity.
  - constructor; [reflexivity|constructor].
Defined.

(** A pending claim of the wrong size is replaced, and a missing key is created. *)
Lemma backup_resources_safe_witness :
  let claims : KubeObject (list string) PersistentVolumeClaim := {|
    kube_Get key := mret (Ok (mkPVC (mkObjectMeta key.2 key.1 ∅) "uid" "1" None [ReadWriteMany] None 1 ""
                                ClaimPending []));
    kube_Create c := mret (Ok c);
    kube_Delete c _ := λ w, (Some None, ("deleted " +:+ om_Name (pvc_Meta c)) :: w);
    kube_CreateOrUpdate key f := mret (Err (ErrorText "unused"));
    SetControllerReference _ c := Ok c;
  |} in
  let secrets : KubeObject (list string) Secret := {|
    kube_Get key := mret (Err (ErrStatus ReasonNotFound "secrets not found"));
    kube_Create s := λ w, (Some (Ok s), ("created " +:+ om_Name (sec_Meta s)) :: w);
    kube_Delete _ _ := mret None;
    kube_CreateOrUpdate key f := mret (Err (ErrorText "unused"));
    SetControllerReference _ c := Ok c;
  |} in
  let rnd : Random (list string) := λ _, mret (Ok "k") in
  let q := demoQuantities in
  (∃ pvc, unboundClaim pvc ∧ pvc_Storage pvc = 1 ∧
    (reconcileBackupClaim demoBackupCluster
       (mkBackupSpec "0 * * * *" "" None None (mkBackupVolumeSpec None (Some (mkVolumeSpec 2 None []))) "" None None)
       (mkVolumeSpec 2 None []) []).2 = ["deleted kahuna-backup"]) ∧
  keyWrites demoBackupCluster [] None ["created kahuna-backup-mac"].
Proof.
  intros claims secrets rnd q.
  set (b := mkBackupSpec "0 * * * *" "" None None
              (mkBackupVolumeSpec None (Some (mkVolumeSpec 2 None []))) "" None None).
  assert (reconcileBackupClaim demoBackupCluster b (mkVolumeSpec 2 None []) []
          = (Some None, ["deleted kahuna-backup"])) as E by (vm_compute; reflexivity).
  split; cycle 1.
  { destruct (backup_resources_safe demoBackupCluster b (mkVolumeSpec 2 None []) [] None
      ["created kahuna-backup-mac"]) as (_ & Hkey & _). apply Hkey. vm_compute. reflexivity. }
  destruct (proj1 (backup_resources_safe demoBackupCluster b (mkVolumeSpec 2 None []) [] None
                     ["deleted kahuna-backup"]) E)
    as (got & w1 & Hget & [Hw|[(e & res & -> & _)|(pvc & err & -> & Hu & _)]]).
  - exfalso. injection Hget as _ <-. discriminate Hw.
  - discriminate Hget.
  - exists pvc. split; [exact Hu|]. injection Hget as <- <-. split; [reflexivity|]. by rewrite E.
Defined.
