(* ===== verification/Status.v ===== *)
(** * The status of a cluster (reconcileStatus of internal/controller/kahunacluster_controller.go)

    The last part of a pass: the status is recomputed from the StatefulSet, the pods and the roster,
    and written when it changed.  Proved: [currentImage] moves only when every node of the set is ready
    on the new image; the bootstrap latch closes only on a committed roster with enough Voters and never
    opens again; the phase is exactly the state it names; a quorum is a strict majority; the conditions
    say what the status says; an unchanged status is not written; and a pass always asks for another
    one. *)

From Stdlib Require Import ZArith Lia.
From stdpp Require Import base numbers strings pretty sorting gmap list.
From S2P Require Import Prelude GoStrings Types Naming GoFloat Kahuna Placement Roster Plan Conditions.
From S2P Require Import Autoscaler BackupSchedule BackupRunner Sha256 Entrypoint Resources Kube Certificate Backup.

Open Scope Z_scope.

Definition requeueProgressing : Duration := 10 * Second.
Definition requeueSteady : Duration := 60 * Second.

(** ** Libraries *)

(** metav1.LabelSelectorAsSelector followed by Selector.String. *)
Class LabelSelectors := LabelSelectorAsSelector : gmap string string → result string.

(** apiequality.Semantic.DeepEqual on two statuses.  Its documented meaning, on values in which nil and
    empty collections are one: it holds exactly of equal values. *)
Class SemanticAPI := Semantic_DeepEqual : KahunaClusterStatus → KahunaClusterStatus → bool.
Class SemanticLaws `{!SemanticAPI} : Prop := Semantic_DeepEqual_eq x y : Semantic_DeepEqual x y = true ↔ x = y.

(** ** Operations *)

(** The loop of [imageRolledOut]: [None] is its [return false], otherwise the nodes seen. *)
Fixpoint rolledOutLoop (image : string) (replicas seen : Z) (pods : list Pod) : option Z :=
  match pods with
  | [] => Some seen
  | pod :: rest =>
      let o := ordinalOf (pod_Name pod) in
      if (o <? 0) || (replicas <=? o) then rolledOutLoop image replicas seen rest
      else if negb (is_nil (pod_DeletionTimestamp pod)) || negb (podIsReady pod)
              || negb (String.eqb (podImage pod) image) then None
      else rolledOutLoop image replicas (i32 (seen + 1)) rest
  end.

Definition imageRolledOut (cluster : KahunaCluster) (sts : StatefulSet) (pods : list Pod) : bool :=
  let replicas := default 0 (sts_Replicas sts) in
  match rolledOutLoop (spec_Image (kc_Spec cluster)) replicas 0 pods with
  | None => false
  | Some seen => (0 <? replicas) && (seen =? replicas)
  end.

Definition keystoreOrDefault (msg : string) : string :=
  if String.eqb msg "" then "PKCS#12 keystore is present" else msg.

Definition rosterMessage (known : bool) (voters learners desired : Z) : string :=
  if negb known then "cluster membership could not be read from any node"
  else if 0 <? learners then
    itoa voters +:+ " voters, " +:+ itoa learners +:+ " learners still catching up (want " +:+ itoa desired
      +:+ " voters)"
  else itoa voters +:+ " voters (want " +:+ itoa desired +:+ ")".

Definition hasQuorum (ready desired : Z) : bool :=
  if desired <=? 0 then false else desired / 2 + 1 <=? ready.

Definition clearTransition (c : Condition) : Condition := c <| cond_LastTransitionTime := zero_time |>.

Definition equalStatus `{!SemanticAPI} (a b : KahunaClusterStatus) : bool :=
  Semantic_DeepEqual (a <| st_Conditions := clearTransition <$> st_Conditions a |>)
                     (b <| st_Conditions := clearTransition <$> st_Conditions b |>).

(** What the StatefulSet and the pods say. *)
Definition observeSet (cluster : KahunaCluster) (sts : StatefulSet) (pods : list Pod) (label : string)
    (status : KahunaClusterStatus) : KahunaClusterStatus :=
  let status := status <| st_ObservedGeneration := kc_Generation cluster |>
                       <| st_Replicas := sts_StatusReplicas sts |>
                       <| st_ReadyReplicas := sts_StatusReadyReplicas sts |> in
  let status := if imageRolledOut cluster sts pods
                then status <| st_CurrentImage := spec_Image (kc_Spec cluster) |> else status in
  let status := status <| st_LabelSelector := label |> in
  match sts_RollingUpdate sts with
  | Some partition => status <| st_UpdatePartition := partition |>
  | None => status
  end.

(** What the roster says; an unknown roster leaves the previous one. *)
Definition observeRoster (cluster : KahunaCluster) (pods : list Pod) (membership : option Membership)
    (status : KahunaClusterStatus) : KahunaClusterStatus :=
  match membership with
  | None => status
  | Some m =>
      let members := buildMemberStatus cluster m pods in
      let '(voters, learners) := countRoles members in
      status <| st_MembershipVersion := m_MembershipVersion m |> <| st_Members := members |>
             <| st_Voters := voters |> <| st_Learners := learners |>
  end.

Definition latchBootstrap (membership : option Membership) (desired : Z) (status : KahunaClusterStatus)
    : KahunaClusterStatus :=
  match membership with
  | Some m =>
      if negb (st_Bootstrapped status) && (0 <? m_MembershipVersion m) && (desired <=? st_Voters status)
      then status <| st_Bootstrapped := true |> else status
  | None => status
  end.

Definition phaseOf (status : KahunaClusterStatus) (desired : Z) (rosterKnown progressing : bool) : ClusterPhase :=
  if negb (st_Bootstrapped status) then PhaseBootstrapping
  else if negb (hasQuorum (st_ReadyReplicas status) desired) || negb rosterKnown then PhaseDegraded
  else if (st_Replicas status <? desired) || (st_Voters status <? desired) then PhaseScalingUp
  else if (desired <? st_Replicas status) || (desired <? st_Voters status) then PhaseScalingDown
  else if progressing then PhaseUpgrading
  else PhaseRunning.

(** [rosterConverged], [imageCurrent] and [progressing] of the source. *)
Definition rosterConvergedIn (status : KahunaClusterStatus) (desired : Z) (rosterKnown : bool) : bool :=
  rosterKnown && (st_Voters status =? desired) && (st_Learners status =? 0).
Definition imageCurrentIn (cluster : KahunaCluster) (status : KahunaClusterStatus) : bool :=
  String.eqb (st_CurrentImage status) (spec_Image (kc_Spec cluster)).
Definition progressingIn (cluster : KahunaCluster) (status : KahunaClusterStatus) (desired : Z)
    (rosterKnown : bool) : bool :=
  (st_ReadyReplicas status <? desired) || negb (rosterConvergedIn status desired rosterKnown)
  || negb (imageCurrentIn cluster status).

(** The status up to its conditions. *)
Definition computeStatus (cluster : KahunaCluster) (sts : StatefulSet) (pods : list Pod)
    (membership : option Membership) (label : string) : KahunaClusterStatus :=
  let desired := desiredReplicas cluster in
  let rosterKnown := negb (is_nil membership) in
  let status := observeSet cluster sts pods label (kc_Status cluster) in
  let status := observeRoster cluster pods membership status in
  let status := latchBootstrap membership desired status in
  status <| st_Phase := phaseOf status desired rosterKnown (progressingIn cluster status desired rosterKnown) |>.

(** The interval until the next pass; [busy] is [progressing || status.Replicas != desired]. *)
Definition requeueFor (cluster : KahunaCluster) (busy : bool) : Duration :=
  if busy then requeueProgressing
  else if negb (is_nil (spec_Autoscaling (kc_Spec cluster))) then requeueAutoscaling
  else requeueSteady.

Section effects.
Context {W : Type} `{!KubeObject W StatefulSet, !KubeObject W Secret, !KubeCluster W, !Clock W}.
Context `{!ConditionsAPI, !SemanticAPI, !LabelSelectors, !Format, !Pkcs12}.

(** One [setCondition] call, with the clock reading its helper takes. *)
Definition putCondition (status : KahunaClusterStatus) (condType : string) (active : bool)
    (trueReason falseReason message : string) : go W KahunaClusterStatus :=
  now ← time_Now;
  mret (setCondition now status condType active trueReason falseReason message).

(** The four conditions of the status. *)
Definition putConditions (cluster : KahunaCluster) (status : KahunaClusterStatus) (rosterKnown : bool)
    : go W KahunaClusterStatus :=
  let desired := desiredReplicas cluster in
  '(keystoreReady, keystoreMsg) ← certificateReady cluster;
  status ← putCondition status conditionKeystoreReady keystoreReady
             "KeystoreAvailable" "KeystorePending" (keystoreOrDefault keystoreMsg);
  let progressMsg := itoa (st_ReadyReplicas status) +:+ "/" +:+ itoa desired +:+ " nodes ready, "
                       +:+ itoa (st_Voters status) +:+ " voters" in
  let progressMsg := if negb (imageCurrentIn cluster status)
                     then progressMsg +:+ ", rolling out image " +:+ spec_Image (kc_Spec cluster)
                     else progressMsg in
  status ← putCondition status ConditionProgressing (progressingIn cluster status desired rosterKnown)
             "Converging" "Converged" progressMsg;
  status ← putCondition status ConditionRosterConverged (rosterConvergedIn status desired rosterKnown)
             "RosterMatchesSpec" "RosterDiffers"
             (rosterMessage rosterKnown (st_Voters status) (st_Learners status) desired);
  putCondition status ConditionAvailable (hasQuorum (st_ReadyReplicas status) desired)
    "QuorumReady" "QuorumLost"
    (itoa (st_ReadyReplicas status) +:+ " of " +:+ itoa desired +:+ " nodes ready").

Definition reconcileStatus (cluster : KahunaCluster) (persisted : KahunaClusterStatus) (sts : StatefulSet)
    (pods : list Pod) (membership : option Membership) : go W (result (KahunaCluster * Duration)) :=
  let rosterKnown := negb (is_nil membership) in
  current ← kube_Get (T := StatefulSet) (kc_Namespace cluster, stsName cluster);
  let sts := match current with Ok c => c | Err _ => sts end in
  match LabelSelectorAsSelector (selector cluster) with
  | Err e => mret (Err e)
  | Ok label =>
      let status := computeStatus cluster sts pods membership label in
      status ← putConditions cluster status rosterKnown;
      let desired := desiredReplicas cluster in
      let busy := progressingIn cluster status desired rosterKnown
                  || negb (st_Replicas status =? desired) in
      if negb (equalStatus persisted status) then
        r ← kube_UpdateStatus (cluster <| kc_Status := status |>);
        mret match r with
        | Err e => Err e
        | Ok cluster => Ok (cluster, requeueFor cluster busy)
        end
      else mret (Ok (cluster, requeueFor cluster busy))
  end.
End effects.

(** ** Image rollout *)

(** The pods of the set of [n] nodes. *)
Definition inSet (n : Z) (pod : Pod) : Prop := 0 ≤ ordinalOf (pod_Name pod) < n.

Definition servesImage (image : string) (pod : Pod) : Prop :=
  pod_DeletionTimestamp pod = None ∧ podIsReady pod = true ∧ podImage pod = image.

Lemma rolledOutLoop_spec image n pods seen k :
  0 ≤ seen → seen + length pods < two31 →
  rolledOutLoop image n seen pods = Some k ↔
  Forall (servesImage image) (filter (inSet n) pods) ∧ k = seen + length (filter (inSet n) pods).
Proof.
  revert seen. induction pods as [|pod pods IH]; intros seen Hs Hlen; simpl in *.
  { rewrite filter_nil. simpl. rewrite Z.add_0_r. naive_solver. }
  rewrite filter_cons.
  destruct (Z.ltb_spec (ordinalOf (pod_Name pod)) 0); simpl; [rewrite decide_False by (unfold inSet; lia); apply IH; lia|].
  destruct (Z.leb_spec n (ordinalOf (pod_Name pod))); simpl; [rewrite decide_False by (unfold inSet; lia); apply IH; lia|].
  rewrite decide_True by (unfold inSet; lia). rewrite Forall_cons. unfold servesImage at 1.
  destruct (pod_DeletionTimestamp pod) as [t|]; simpl; [naive_solver|].
  destruct (podIsReady pod); simpl; [|naive_solver].
  destruct (String.eqb_spec (podImage pod) image); simpl; [|naive_solver].
  rewrite i32_id by range. rewrite IH by lia. simpl. naive_solver lia.
Qed.

(** The pods of a StatefulSet: distinct names, all of them built from an ordinal. *)
Definition setPods (cluster : KahunaCluster) (pods : list Pod) : Prop :=
  NoDup (pod_Name <$> pods) ∧ Forall (λ p, ∃ i, 0 ≤ i < two31 ∧ pod_Name p = podName cluster i) pods.

(** With distinct names, [n] pods in a set of [n] nodes are one pod for each node. *)
Lemma setPods_full cluster pods n :
  setPods cluster pods → 0 ≤ n < two31 → Z.of_nat (length (filter (inSet n) pods)) = n →
  ∀ i, 0 ≤ i < n → ∃ p, p ∈ pods ∧ pod_Name p = podName cluster i.
Proof.
  intros [Hnd Hall] Hn Hlen i Hi.
  assert (pod_Name <$> filter (inSet n) pods ≡ₚ podName cluster <$> go_range n) as Hp.
  { apply submseteq_length_Permutation.
    - apply NoDup_submseteq.
      + eapply sublist_NoDup; [exact Hnd|]. apply fmap_sublist, sublist_filter.
      + intros x (p & -> & [Hin Hp]%list_elem_of_filter)%list_elem_of_fmap.
        eapply Forall_forall in Hall as (j & Hj & Hname); [|done]. unfold inSet in Hin.
        rewrite Hname in Hin |- *. rewrite ordinalOf_podName_eq in Hin by done.
        apply list_elem_of_fmap_2, elem_of_go_range. done.
    - rewrite !length_fmap, length_go_range. lia. }
  assert (podName cluster i ∈ pod_Name <$> filter (inSet n) pods) as (p & Hname & [_ Hin]%list_elem_of_filter)%list_elem_of_fmap.
  { rewrite Hp. apply list_elem_of_fmap_2, elem_of_go_range. lia. }
  eauto.
Qed.

(** The image of status moves exactly when the rollout is over: with the pods of the StatefulSet
    listed once each, [imageRolledOut] holds exactly when the set has nodes and every one of them has a
    pod that is not being deleted, is ready and runs the cluster's image.  One pod missing, or two pods
    of one node, never counts as rolled out. *)
Theorem imageRolledOut_correct cluster sts pods n :
  setPods cluster pods → length pods < two31 → sts_Replicas sts = Some n → 0 ≤ n < two31 →
  imageRolledOut cluster sts pods = true ↔
  0 < n ∧ ∀ i, 0 ≤ i < n →
    ∃ p, p ∈ pods ∧ pod_Name p = podName cluster i ∧ servesImage (spec_Image (kc_Spec cluster)) p.
Proof.
  intros Hset Hlen Hsts Hn. unfold imageRolledOut. rewrite Hsts. simpl.
  pose proof (λ k, rolledOutLoop_spec (spec_Image (kc_Spec cluster)) n pods 0 k (Z.le_refl 0) ltac:(lia)) as Hloop.
  split.
  - destruct (rolledOutLoop _ n 0 pods) as [seen|]; [|done]. intros Hg. bsimpl.
    destruct (proj1 (Hloop seen) eq_refl) as [Hall Hseen]. split; [done|]. intros i Hi.
    destruct (setPods_full cluster pods n Hset Hn ltac:(lia) i Hi) as (p & Hp & Hname).
    exists p. split_and!; [done|done|]. eapply Forall_forall; [exact Hall|].
    apply list_elem_of_filter. split; [|done]. unfold inSet. rewrite Hname, ordinalOf_podName_eq; range.
  - intros [Hpos Hall].
    rewrite (proj2 (Hloop n)); [apply andb_true_iff; rewrite Z.ltb_lt, Z.eqb_eq; lia|].
    destruct Hset as [Hnd Hnames]. split.
    + apply Forall_forall. intros p [Hin Hp]%list_elem_of_filter.
      eapply Forall_forall in Hnames as (j & Hj & Hname); [|done]. unfold inSet in Hin.
      rewrite Hname, ordinalOf_podName_eq in Hin by done.
      destruct (Hall j Hin) as (q & Hq & Hqn & Hs).
      by rewrite (NoDup_fmap_elem_inj pod_Name pods p q) by (done || congruence).
    + assert (pod_Name <$> filter (inSet n) pods ≡ₚ podName cluster <$> go_range n) as Hp%Permutation_length.
      { apply NoDup_Permutation.
        - eapply sublist_NoDup; [exact Hnd|]. apply fmap_sublist, sublist_filter.
        - apply NoDup_fmap_2; [apply _|apply NoDup_go_range].
        - intros x. rewrite !list_elem_of_fmap. split.
          + intros (p & -> & [Hin Hp]%list_elem_of_filter).
            eapply Forall_forall in Hnames as (j & Hj & Hname); [|done]. unfold inSet in Hin.
            rewrite Hname, ordinalOf_podName_eq in Hin by done. exists j. by rewrite elem_of_go_range.
          + intros (j & -> & Hj%elem_of_go_range). destruct (Hall j Hj) as (p & Hp & Hname & _).
            exists p. rewrite list_elem_of_filter. unfold inSet. rewrite Hname, ordinalOf_podName_eq by range. done. }
      rewrite !length_fmap, length_go_range in Hp. lia.
Qed.

(** ** Bootstrap and phase *)

Definition rosterVoters (m : Membership) : Z := length (filter (λ mem, mem_Role mem = RoleVoter) (m_Members m)).
Definition rosterLearners (m : Membership) : Z := length (filter (λ mem, mem_Role mem = RoleLearner) (m_Members m)).

(** Fields that only the StatefulSet or only the roster decide. *)
Lemma observeSet_fields cluster sts pods label st :
  let st' := observeSet cluster sts pods label st in
  st_Bootstrapped st' = st_Bootstrapped st ∧ st_BootstrapSize st' = st_BootstrapSize st ∧
  st_Replicas st' = sts_StatusReplicas sts ∧ st_ReadyReplicas st' = sts_StatusReadyReplicas sts ∧
  st_Conditions st' = st_Conditions st ∧ st_Autoscaling st' = st_Autoscaling st ∧ st_Backup st' = st_Backup st ∧
  st_CurrentImage st' = if imageRolledOut cluster sts pods then spec_Image (kc_Spec cluster) else st_CurrentImage st.
Proof.
  unfold observeSet. destruct (imageRolledOut cluster sts pods), (sts_RollingUpdate sts); done.
Qed.

Lemma observeRoster_fields cluster pods m st :
  smallRoster m →
  let st' := observeRoster cluster pods m st in
  st_Bootstrapped st' = st_Bootstrapped st ∧ st_BootstrapSize st' = st_BootstrapSize st ∧
  st_Replicas st' = st_Replicas st ∧ st_ReadyReplicas st' = st_ReadyReplicas st ∧
  st_Conditions st' = st_Conditions st ∧ st_Autoscaling st' = st_Autoscaling st ∧ st_Backup st' = st_Backup st ∧
  st_CurrentImage st' = st_CurrentImage st ∧
  ∀ r, m = Some r → st_Voters st' = rosterVoters r ∧ st_Learners st' = rosterLearners r.
Proof.
  intros Hs. destruct m as [r|]; [|done]. unfold observeRoster.
  rewrite (countRoles_buildMemberStatus cluster r pods) by done. simpl. split_and!; try done.
  by intros ? [= <-].
Qed.

Lemma latchBootstrap_fields m desired st :
  let st' := latchBootstrap m desired st in
  st' <| st_Bootstrapped := st_Bootstrapped st |> = st ∧
  (st_Bootstrapped st' = true ↔
   st_Bootstrapped st = true ∨ ∃ r, m = Some r ∧ 0 < m_MembershipVersion r ∧ desired ≤ st_Voters st).
Proof.
  unfold latchBootstrap. destruct m as [r|]; simpl; [|split; [by destruct st|naive_solver]].
  destruct (st_Bootstrapped st) eqn:Eb; simpl; [split; [by destruct st; simpl in *; subst|naive_solver]|].
  destruct (Z.ltb_spec 0 (m_MembershipVersion r)), (Z.leb_spec desired (st_Voters st)); simpl;
    (split; [by destruct st; simpl in *; subst|]); rewrite ?Eb; naive_solver lia.
Qed.

(** The fields of a computed status, in terms of what was observed. *)
Lemma computeStatus_fields cluster sts pods m label :
  smallRoster m →
  let st := kc_Status cluster in
  let st' := computeStatus cluster sts pods m label in
  st_BootstrapSize st' = st_BootstrapSize st ∧
  st_Replicas st' = sts_StatusReplicas sts ∧ st_ReadyReplicas st' = sts_StatusReadyReplicas sts ∧
  st_Conditions st' = st_Conditions st ∧ st_Autoscaling st' = st_Autoscaling st ∧ st_Backup st' = st_Backup st ∧
  st_CurrentImage st' = (if imageRolledOut cluster sts pods then spec_Image (kc_Spec cluster)
                         else st_CurrentImage st) ∧
  (∀ r, m = Some r → st_Voters st' = rosterVoters r ∧ st_Learners st' = rosterLearners r) ∧
  (st_Bootstrapped st' = true ↔
   st_Bootstrapped st = true ∨
   ∃ r, m = Some r ∧ 0 < m_MembershipVersion r ∧ desiredReplicas cluster ≤ rosterVoters r) ∧
  st_Phase st' = phaseOf st' (desiredReplicas cluster) (negb (is_nil m))
                   (progressingIn cluster st' (desiredReplicas cluster) (negb (is_nil m))).
Proof.
  intros Hs. unfold computeStatus.
  pose proof (observeSet_fields cluster sts pods label (kc_Status cluster)) as H1.
  set (s1 := observeSet cluster sts pods label (kc_Status cluster)) in *. clearbody s1.
  pose proof (observeRoster_fields cluster pods m s1 Hs) as H2.
  set (s2 := observeRoster cluster pods m s1) in *. clearbody s2.
  pose proof (latchBootstrap_fields m (desiredReplicas cluster) s2) as [H3 H4].
  set (s3 := latchBootstrap m (desiredReplicas cluster) s2) in *. clearbody s3.
  assert (∀ {A} (f : KahunaClusterStatus → A),
            (∀ st v, f (st <| st_Bootstrapped := v |>) = f st) → f s3 = f s2) as Hf
    by (intros A f Hk; by rewrite <- H3, Hk).
  destruct H1 as (A1&A2&A3&A4&A5&A6&A7&A8), H2 as (B1&B2&B3&B4&B5&B6&B7&B8&Hv). clear H3.
  repeat match goal with |- _ ∧ _ ∧ _ => apply and_assoc end. split; [|reflexivity].
  cbv [set]. cbn [st_BootstrapSize st_Replicas st_ReadyReplicas st_Conditions st_Autoscaling st_Backup
    st_CurrentImage st_Voters st_Learners st_Bootstrapped].
  rewrite !(Hf _ st_BootstrapSize), !(Hf _ st_Replicas), !(Hf _ st_ReadyReplicas), !(Hf _ st_Conditions),
    !(Hf _ st_Autoscaling), !(Hf _ st_Backup), !(Hf _ st_CurrentImage), !(Hf _ st_Voters),
    !(Hf _ st_Learners) by done.
  split_and!; [congruence..|exact Hv|].
  rewrite H4, B1, A1. split; intros [?|(r & -> & ? & ?)]; [by left| |by left|];
    (right; exists r; destruct (Hv r eq_refl); split_and!; [done|done|lia]).
Qed.

(** C21: the bootstrap latch.  A computed status is bootstrapped exactly when the previous one was, or
    when this pass read a committed roster (version above zero) that has at least as many Voters as the
    cluster wants nodes; so the latch never opens again, an unreadable roster never closes it, and the
    founding size is left alone. *)
Theorem bootstrap_latch cluster sts pods m label :
  smallRoster m →
  let st' := computeStatus cluster sts pods m label in
  (st_Bootstrapped st' = true ↔
   st_Bootstrapped (kc_Status cluster) = true ∨
   ∃ r, m = Some r ∧ 0 < m_MembershipVersion r ∧ desiredReplicas cluster ≤ rosterVoters r) ∧
  st_BootstrapSize st' = st_BootstrapSize (kc_Status cluster).
Proof. intros Hs. destruct (computeStatus_fields cluster sts pods m label Hs) as (?&?&?&?&?&?&?&?&?&?). done. Qed.

Lemma hasQuorum_majority ready desired : 1 ≤ desired → hasQuorum ready desired = true ↔ desired < 2 * ready.
Proof.
  intros. unfold hasQuorum. destruct (Z.leb_spec desired 0); [lia|]. rewrite Z.leb_le.
  pose proof (Z.div_mod desired 2). pose proof (Z.mod_pos_bound desired 2). lia.
Qed.

(** C20: the phase says what it names.  Of a cluster that wants at least one node: Bootstrapping exactly
    before the latch; Degraded exactly when a formed cluster has no ready strict majority or its roster
    could not be read; Running exactly when it is formed, its roster is the wanted number of Voters with
    no Learner, the StatefulSet has the wanted size, every node is ready and the image is rolled out. *)
Theorem phase_correct cluster sts pods m label :
  smallRoster m → 1 ≤ desiredReplicas cluster →
  let desired := desiredReplicas cluster in
  let st' := computeStatus cluster sts pods m label in
  (st_Phase st' = PhaseBootstrapping ↔ st_Bootstrapped st' = false) ∧
  (st_Phase st' = PhaseDegraded ↔
     st_Bootstrapped st' = true ∧ (2 * sts_StatusReadyReplicas sts ≤ desired ∨ m = None)) ∧
  (st_Phase st' = PhaseRunning ↔
     st_Bootstrapped st' = true ∧
     (∃ r, m = Some r ∧ rosterVoters r = desired ∧ rosterLearners r = 0) ∧
     sts_StatusReplicas sts = desired ∧ desired ≤ sts_StatusReadyReplicas sts ∧
     st_CurrentImage st' = spec_Image (kc_Spec cluster)).
Proof.
  intros Hs Hd desired st'. destruct (computeStatus_fields cluster sts pods m label Hs)
    as (_ & Hrep & Hready & _ & _ & _ & _ & Hv & _ & Hphase).
  fold st' in Hrep, Hready, Hv, Hphase. rewrite Hphase. clear Hphase.
  unfold phaseOf, progressingIn, rosterConvergedIn, imageCurrentIn. rewrite Hrep, Hready.
  pose proof (hasQuorum_majority (sts_StatusReadyReplicas sts) (desiredReplicas cluster) Hd) as Hq.
  fold desired in Hq, Hd |- *. clearbody st'.
  destruct (st_Bootstrapped st'); simpl; [|naive_solver].
  destruct (hasQuorum (sts_StatusReadyReplicas sts) desired); simpl.
  2: { assert (2 * sts_StatusReadyReplicas sts ≤ desired) by (destruct (Z.lt_ge_cases desired (2 * sts_StatusReadyReplicas sts)) as [H%Hq|]; [done|lia]).
       split_and!; [done|naive_solver|split; [done|]; intros (_ & _ & ? & ? & ?); lia]. }
  assert (¬ 2 * sts_StatusReadyReplicas sts ≤ desired) by (pose proof (proj1 Hq eq_refl); lia).
  destruct m as [r|]; simpl; [|split_and!; naive_solver].
  destruct (Hv r eq_refl) as [-> ->].
  split_and!; [by repeat case_match|split; [by repeat case_match|by intros [_ [?|?]]]|]. split.
  - intros Hrun. repeat case_match; try discriminate Hrun. bsimpl. split_and!; try (done || lia).
    + exists r. split_and!; [done|lia..].
    + by apply String.eqb_eq.
  - intros (_ & (r' & [= <-] & -> & ->) & -> & Hr & ->).
    rewrite Z.ltb_irrefl, Z.eqb_refl, String.eqb_refl. simpl.
    by rewrite (proj2 (Z.ltb_ge _ _) Hr).
Qed.

(** ** The whole of reconcileStatus *)

(** Two statuses that differ in their conditions only. *)
Definition sameBut_conditions (a b : KahunaClusterStatus) : Prop :=
  a <| st_Conditions := [] |> = b <| st_Conditions := [] |>.

#[export] Instance sameBut_conditions_dec a b : Decision (sameBut_conditions a b).
Proof. unfold sameBut_conditions. apply _. Defined.

Lemma sameBut_conditions_field {A} (f : KahunaClusterStatus → A) a b :
  (∀ st v, f (st <| st_Conditions := v |>) = f st) → sameBut_conditions a b → f a = f b.
Proof. intros Hf Hab. by rewrite <- (Hf a []), <- (Hf b []), Hab. Qed.

Definition progressMessage (cluster : KahunaCluster) (st : KahunaClusterStatus) (desired : Z) : string :=
  let msg := itoa (st_ReadyReplicas st) +:+ "/" +:+ itoa desired +:+ " nodes ready, "
               +:+ itoa (st_Voters st) +:+ " voters" in
  if negb (imageCurrentIn cluster st)
  then msg +:+ ", rolling out image " +:+ spec_Image (kc_Spec cluster) else msg.

(** The four conditions of [st], as they are set from the rest of it and from the state of the keystore. *)
Definition conditionsSay (cluster : KahunaCluster) (known ready : bool) (msg : string)
    (st : KahunaClusterStatus) : Prop :=
  let desired := desiredReplicas cluster in
  let progressing := progressingIn cluster st desired known in
  let converged := rosterConvergedIn st desired known in
  let quorum := hasQuorum (st_ReadyReplicas st) desired in
  conditionIs (st_Conditions st) conditionKeystoreReady ready
    (if ready then "KeystoreAvailable" else "KeystorePending") (keystoreOrDefault msg) ∧
  conditionIs (st_Conditions st) ConditionProgressing progressing
    (if progressing then "Converging" else "Converged") (progressMessage cluster st desired) ∧
  conditionIs (st_Conditions st) ConditionRosterConverged converged
    (if converged then "RosterMatchesSpec" else "RosterDiffers")
    (rosterMessage known (st_Voters st) (st_Learners st) desired) ∧
  conditionIs (st_Conditions st) ConditionAvailable quorum
    (if quorum then "QuorumReady" else "QuorumLost")
    (itoa (st_ReadyReplicas st) +:+ " of " +:+ itoa desired +:+ " nodes ready").

(** Those four are set; the others (the autoscaler's and the backups') are left as they were. *)
Definition conditionsReport `{!ConditionsAPI} (cluster : KahunaCluster) (known ready : bool) (msg : string)
    (before : list Condition) (st : KahunaClusterStatus) : Prop :=
  conditionsSay cluster known ready msg st ∧
  ∀ ty, ty ∉ [conditionKeystoreReady; ConditionProgressing; ConditionRosterConverged; ConditionAvailable] →
    findCondition (st_Conditions st) ty = findCondition before ty.

(** The clock was read [k] times between the two worlds, and nothing else happened. *)
Fixpoint clockReads {W} `{!Clock W} (k : nat) (w w' : W) : Prop :=
  match k with
  | O => w' = w
  | S k => ∃ t w1, time_Now w = (Some t, w1) ∧ clockReads k w1 w'
  end.

Section effects_spec.
Context {W : Type} `{!KubeObject W StatefulSet, !KubeObject W Secret, !KubeCluster W, !Clock W}.
Context `{!ConditionsAPI, !ConditionsLaws, !SemanticAPI, !SemanticLaws, !LabelSelectors, !Format, !Pkcs12}.

Lemma putCondition_inv st ty active tr fr msg w st' w' :
  putCondition st ty active tr fr msg w = (Some st', w') →
  ∃ now, time_Now w = (Some now, w') ∧ st' = setCondition now st ty active tr fr msg.
Proof. intros (now & w1 & Hnow & [= <- <-])%go_bind_Some. by exists now. Qed.

(** Setting the conditions reads the keystore, then the clock once for each, and nothing else. *)
Lemma putConditions_spec cluster st known w st' w' :
  putConditions cluster st known w = (Some st', w') →
  ∃ ready msg w1, certificateReady cluster w = (Some (ready, msg), w1) ∧ clockReads 4 w1 w' ∧
    sameBut_conditions st' st ∧ conditionsReport cluster known ready msg (st_Conditions st) st'.
Proof.
  unfold putConditions.
  intros ([ready msg] & w1 & Hcert & Hr)%go_bind_Some.
  apply go_bind_Some in Hr as (s1 & w2 & (n1 & N1 & ->)%putCondition_inv & Hr).
  apply go_bind_Some in Hr as (s2 & w3 & (n2 & N2 & ->)%putCondition_inv & Hr).
  apply go_bind_Some in Hr as (s3 & w4 & (n3 & N3 & ->)%putCondition_inv & Hr).
  apply putCondition_inv in Hr as (n4 & N4 & ->).
  exists ready, msg, w1. split; [done|]. split; [by repeat (eexists _, _; split; [eassumption|])|].
  split; [done|]. split; [unfold conditionsSay; split_and!|].
  - do 3 (apply conditionIs_other; [done|]). apply setCondition_is.
  - do 2 (apply conditionIs_other; [done|]). apply setCondition_is.
  - apply conditionIs_other; [done|]. apply setCondition_is.
  - apply setCondition_is.
  - intros ty Hty. rewrite !setCondition_other by set_solver. done.
Qed.

Lemma equalStatus_eq a b :
  equalStatus a b = true ↔
  sameBut_conditions a b ∧ clearTransition <$> st_Conditions a = clearTransition <$> st_Conditions b.
Proof.
  unfold equalStatus, sameBut_conditions. rewrite Semantic_DeepEqual_eq. destruct a, b. simpl.
  split; [intros [=]; simplify_eq; split; congruence|intros [[=] ->]; simplify_eq; done].
Qed.

(** C22: one pass of [reconcileStatus].  It reads the StatefulSet, the keystore and, for each condition,
    the clock.  The status it arrives at is the computed one with its four conditions set, with their
    messages, from that very status (the conditions of the autoscaler and of the backups are left alone).
    When it differs from the stored one in more than condition timestamps it is written to the API
    server; when it does not, the pass ends in the world the reads left, so nothing is written.  The pass
    asks for another one in ten, fifteen or sixty seconds: ten whenever something is still in progress. *)
Theorem reconcileStatus_correct cluster persisted sts pods m w cluster' requeue w' :
  reconcileStatus cluster persisted sts pods m w = (Some (Ok (cluster', requeue)), w') →
  ∃ observed label ready msg st w1 w2 w3,
    kube_Get (T := StatefulSet) (kc_Namespace cluster, stsName cluster) w = (Some observed, w1) ∧
    LabelSelectorAsSelector (selector cluster) = Ok label ∧
    certificateReady cluster w1 = (Some (ready, msg), w2) ∧ clockReads 4 w2 w3 ∧
    let sts' := match observed with Ok s => s | Err _ => sts end in
    sameBut_conditions st (computeStatus cluster sts' pods m label) ∧
    conditionsReport cluster (negb (is_nil m)) ready msg (st_Conditions (kc_Status cluster)) st ∧
    (if decide (sameBut_conditions persisted st ∧
                clearTransition <$> st_Conditions persisted = clearTransition <$> st_Conditions st)
     then cluster' = cluster ∧ w' = w3
     else kube_UpdateStatus (cluster <| kc_Status := st |>) w3 = (Some (Ok cluster'), w')) ∧
    requeue = requeueFor cluster' (progressingIn cluster st (desiredReplicas cluster) (negb (is_nil m))
                                   || negb (st_Replicas st =? desiredReplicas cluster)).
Proof.
  unfold reconcileStatus. intros (observed & w1 & Hget & Hr)%go_bind_Some.
  destruct (LabelSelectorAsSelector (selector cluster)) as [label|e] eqn:Hl; [|discriminate Hr].
  apply go_bind_Some in Hr as (st & w3 & Hst & Hr).
  apply putConditions_spec in Hst as (ready & msg & w2 & Hcert & Hticks & Hsame & Hrep).
  exists observed, label, ready, msg, st, w1, w2, w3. do 5 (split; [done|]).
  assert (st_Conditions (computeStatus cluster (match observed with Ok s => s | Err _ => sts end) pods m label)
          = st_Conditions (kc_Status cluster)) as Hc.
  { unfold computeStatus, observeSet, observeRoster, latchBootstrap. repeat case_match; done. }
  rewrite Hc in Hrep. split; [done|]. clear Hget Hsame Hrep Hc.
  destruct (equalStatus persisted st) eqn:Eq; simpl in Hr.
  - rewrite decide_True by (by apply equalStatus_eq). by injection Hr as <- <- <-.
  - rewrite decide_False by (rewrite <- equalStatus_eq; congruence).
    apply go_bind_Some in Hr as ([c|e] & w4 & Hu & Hr); [|discriminate Hr].
    injection Hr as <- <- <-. done.
Qed.
End effects_spec.

(** ** Witnesses *)

Definition demoSet (n ready : Z) : StatefulSet :=
  (@desiredStatefulSet demoConv demoQuantities (demoCluster n) 0)
    <| sts_StatusReplicas := n |> <| sts_StatusReadyReplicas := ready |>.

(** The pods of a set, on the cluster's own image. *)
Definition demoSetPods (n : Z) : list Pod :=
  (λ i, mkPod (podName (demoCluster n) i) (itoa i) ∅ None
          [mkContainer containerName (spec_Image (kc_Spec (demoCluster n)))] "10.0.0.1"
          [mkPodCondition PodReady "True"]) <$> go_range n.

Lemma imageRolledOut_correct_witness :
  imageRolledOut (demoCluster 2) (demoSet 2 2) (demoSetPods 2) = true ∧
  ∃ p, p ∈ demoSetPods 2 ∧ pod_Name p = podName (demoCluster 2) 1 ∧
       servesImage (spec_Image (kc_Spec (demoCluster 2))) p.
Proof.
  assert (imageRolledOut (demoCluster 2) (demoSet 2 2) (demoSetPods 2) = true) as E by (vm_compute; reflexivity).
  split; [exact E|]. revert E. intros E.
  refine (proj2 (proj1 (imageRolledOut_correct (demoCluster 2) (demoSet 2 2) (demoSetPods 2) 2 _ _ _ _) E) 1 _).
  - split.
    + apply (bool_decide_eq_true_1 (NoDup _)). vm_compute. reflexivity.
    + apply Forall_fmap, Forall_forall. intros i Hi%elem_of_go_range. exists i. split; [range|reflexivity].
  - vm_compute. reflexivity.
  - reflexivity.
  - vm_compute. split; [discriminate|reflexivity].
  - lia.
Defined.

Lemma bootstrap_latch_witness :
  st_Bootstrapped (computeStatus (demoCluster 3) (demoSet 3 3) [] (Some (fullRoster (demoCluster 3) 3)) "") = true.
Proof.
  apply (bootstrap_latch (demoCluster 3) (demoSet 3 3) [] (Some (fullRoster (demoCluster 3) 3)) "");
    [vm_compute; done|].
  right. eexists. split; [reflexivity|]. vm_compute. split; [reflexivity|discriminate].
Defined.

Lemma phase_correct_witness :
  st_Phase (computeStatus (demoCluster 2) (demoSet 2 2) (demoSetPods 2) (Some (fullRoster (demoCluster 2) 2)) "")
    = PhaseRunning.
Proof.
  apply (phase_correct (demoCluster 2) (demoSet 2 2) (demoSetPods 2) (Some (fullRoster (demoCluster 2) 2)) "");
    [vm_compute; done|vm_compute; discriminate|].
  split_and!; [vm_compute; reflexivity| |vm_compute; reflexivity|vm_compute; discriminate|vm_compute; reflexivity].
  eexists. split; [reflexivity|]. vm_compute. done.
Defined.

Definition demoSets : KubeObject unit StatefulSet := {|
  kube_Get _ := mret (Ok (demoSet 2 2));
  kube_Create s := mret (Ok s);
  kube_Delete _ _ := mret None;
  kube_CreateOrUpdate _ f := mret (f (demoSet 2 2));
  SetControllerReference _ s := Ok s;
|}.

Definition demoSecrets : KubeObject unit Secret := {|
  kube_Get key := mret (Ok (demoSecret key.2 {["keystore.p12" := "data"; "password" := "pw"]} ∅));
  kube_Create s := mret (Ok s);
  kube_Delete _ _ := mret None;
  kube_CreateOrUpdate _ f := mret (Err (ErrorText "unused"));
  SetControllerReference _ s := Ok s;
|}.

Definition plainSemantic : SemanticAPI := λ a b, bool_decide (a = b).
Lemma plainSemantic_laws : @SemanticLaws plainSemantic.
Proof. intros a b. apply bool_decide_eq_true. Qed.

Lemma reconcileStatus_correct_witness :
  let _ := demoSets in let _ := demoSecrets in let _ := demoKubeCluster in let _ := fixedClock Hour in
  let _ := plainConditions in let _ := plainSemantic in
  let _ : LabelSelectors := λ _, Ok "app=kahuna" in
  let _ := plainFormat in let _ : Pkcs12 := λ _ _, false in
  let m := Some (fullRoster (demoCluster 2) 2) in
  ∃ cluster' requeue, reconcileStatus (demoCluster 2) zero_Status (demoSet 2 2) (demoSetPods 2) m tt
                        = (Some (Ok (cluster', requeue)), tt) ∧
  ∃ observed ready msg st,
    sameBut_conditions st (computeStatus (demoCluster 2) observed (demoSetPods 2) m "app=kahuna") ∧
    conditionsReport (demoCluster 2) true ready msg [] st ∧ ∃ busy, requeue = requeueFor cluster' busy.
Proof.
  intros s1 s2 s3 s4 s5 s6 s7 s8 s9 m.
  assert (match reconcileStatus (demoCluster 2) zero_Status (demoSet 2 2) (demoSetPods 2) m tt with
          | (Some (Ok _), _) => true | _ => false end = true) as Hok by (vm_compute; reflexivity).
  revert Hok.
  destruct (reconcileStatus (demoCluster 2) zero_Status (demoSet 2 2) (demoSetPods 2) m tt)
    as [[[[c rq]|e]|] []] eqn:E; intros Hok; [|discriminate Hok|discriminate Hok].
  exists c, rq. split; [reflexivity|].
  destruct (@reconcileStatus_correct unit s1 s2 s3 s4 s5 plainConditions_laws s6 plainSemantic_laws s7 s8 s9
              (demoCluster 2) zero_Status (demoSet 2 2) (demoSetPods 2) m tt c rq tt E)
    as (observed & label & ready & msg & st & w1 & w2 & w3 & _ & Hl & _ & _ & Hst & Hrep & _ & Hrq).
  injection Hl as <-. exists (match observed with Ok s => s | Err _ => demoSet 2 2 end), ready, msg, st.
  split; [exact Hst|]. split; [exact Hrep|]. eexists. exact Hrq.
Defined.
