(* ===== verification/Reconcile.v ===== *)
(** * One pass of the controller (internal/controller/kahunacluster_controller.go)

    [Reconcile] drives every component: the bootstrap size, TLS, the objects of the cluster, the roster
    and the placement, the autoscaler, the StatefulSet, the backups and the status.  Proved: the set
    shrinks only after the node of the highest ordinal is out of the roster, and once the cluster has
    formed by one node at a time and only when the data has settled; successive passes walk the size to
    the target, one node for each that may take its step; the fields Kubernetes refuses to change are never changed; over a whole pass, every status
    write keeps the spec, pins the founding size and never unlatches the bootstrap; and a pass that finds
    its cluster always asks for another one within a minute. *)

From Stdlib Require Import ZArith Lia.
From stdpp Require Import base numbers strings pretty sorting gmap list.
From S2P Require Import Prelude GoStrings Types Naming GoFloat Kahuna Placement Roster Plan Conditions.
From S2P Require Import Autoscaler BackupSchedule BackupRunner Sha256 Entrypoint Resources Kube Certificate Backup.
From S2P Require Import Status.

Open Scope Z_scope.

(** The mutable state of KahunaClusterReconciler: the traffic samples and the running backups. *)
Record reconciler := mkReconciler { r_traffic : trafficSampler; r_backups : backupRunner }.

(** ** The functions handed to CreateOrUpdate: they edit the object found on the server. *)

Definition editService (desired svc : Service) : Service :=
  mkService (mkObjectMeta (om_Name (svc_Meta svc)) (om_Namespace (svc_Meta svc)) (om_Labels (svc_Meta desired)))
    (if negb (String.eqb (svc_ClusterIP svc) "") then svc_ClusterIP svc else svc_ClusterIP desired)
    (svc_Type desired) (svc_PublishNotReadyAddresses desired) (svc_Selector desired) (svc_Ports desired).

Definition editConfigMap (desired cm : ConfigMap) : ConfigMap :=
  mkConfigMap ((cfg_Meta cm) <| om_Labels := om_Labels (cfg_Meta desired) |>) (cfg_Data desired).

Definition editPDB (desired pdb : PodDisruptionBudget) : PodDisruptionBudget :=
  mkPDB ((pdb_Meta pdb) <| om_Labels := om_Labels (pdb_Meta desired) |>) (pdb_Selector desired)
    (pdb_MaxUnavailable desired).

Definition editStatefulSet (desired sts : StatefulSet) : StatefulSet :=
  sts <| sts_Meta := (sts_Meta sts) <| om_Labels := om_Labels (sts_Meta desired) |> |>
      <| sts_Replicas := sts_Replicas desired |>
      <| sts_Template := sts_Template desired |>
      <| sts_UpdateType := sts_UpdateType desired |>
      <| sts_RollingUpdate := sts_RollingUpdate desired |>
      <| sts_WhenScaled := sts_WhenScaled desired |>
      <| sts_WhenDeleted := sts_WhenDeleted desired |>.

Section effects.
Context {W : Type} `{!Client W, !Clock W, !Random W, !KubeCluster W}.
Context `{!KubeObject W StatefulSet, !KubeObject W Service, !KubeObject W ConfigMap}.
Context `{!KubeObject W PodDisruptionBudget, !KubeObject W PersistentVolumeClaim}.
Context `{!KubeObject W Secret, !KubeObject W Certificate}.
Context `{!Conversions, !QuantityAPI, !ConditionsAPI, !SemanticAPI, !LabelSelectors}.
Context `{!Format, !Pkcs12, !Base64, !Cron}.

Fixpoint putServices (cluster : KahunaCluster) (services : list Service) : go W (option error) :=
  match services with
  | [] => mret None
  | desired :: rest =>
      r ← kube_CreateOrUpdate (om_Namespace (svc_Meta desired), om_Name (svc_Meta desired))
            (λ svc, SetControllerReference cluster (editService desired svc));
      match r with
      | Err e => mret (Some e)
      | Ok _ => putServices cluster rest
      end
  end.

Definition reconcileServices (cluster : KahunaCluster) : go W (option error) :=
  putServices cluster [desiredPeerService cluster; desiredClientService cluster].

Definition reconcileConfigMap (cluster : KahunaCluster) (bootstrapSize : Z) : go W (option error) :=
  let desired := desiredConfigMap cluster bootstrapSize in
  r ← kube_CreateOrUpdate (om_Namespace (cfg_Meta desired), om_Name (cfg_Meta desired))
        (λ cm, SetControllerReference cluster (editConfigMap desired cm));
  mret (err_of r).

Definition reconcilePDB (cluster : KahunaCluster) : go W (option error) :=
  let desired := desiredPDB cluster in
  let key := (om_Namespace (pdb_Meta desired), om_Name (pdb_Meta desired)) in
  if negb (wantsPDB cluster) then
    err ← kube_Delete (mkPDB (mkObjectMeta key.2 key.1 ∅) ∅ 0) None;
    mret (err ≫= IgnoreNotFound)
  else
    r ← kube_CreateOrUpdate key (λ pdb, SetControllerReference cluster (editPDB desired pdb));
    mret (err_of r).

(** The plan of the pass, once the node that a shrink removes was asked to leave. *)
Definition plannedStep (cluster : KahunaCluster) (currentReplicas : Z) (bootstrapped : bool)
    (membership : option Membership) (placement : option Placement) (placementErr : option error)
    (pods : list Pod) : go W plan :=
  let p := buildPlan cluster currentReplicas bootstrapped membership placement placementErr in
  if p_Replicas p <? currentReplicas then
    let ordinal := i32 (currentReplicas - 1) in
    '(gone, reason) ← decommission cluster pods ordinal;
    if negb gone then
      mret (p <| p_Replicas := currentReplicas |> <| p_Partition := currentReplicas |> <| p_Reason := reason |>)
    else mret p
  else mret p.

Definition stsKey (cluster : KahunaCluster) : NamespacedName := (kc_Namespace cluster, stsName cluster).

(** The edit of the StatefulSet that a plan asks for. *)
Definition applyPlan (cluster : KahunaCluster) (p : plan) (sts : StatefulSet) : result StatefulSet :=
  let desired := (desiredStatefulSet cluster (p_Partition p)) <| sts_Replicas := Some (p_Replicas p) |> in
  SetControllerReference cluster (editStatefulSet desired sts).

Definition reconcileStatefulSet (cluster : KahunaCluster) (bootstrapped : bool)
    (membership : option Membership) (placement : option Placement) (placementErr : option error)
    (pods : list Pod) : go W (result StatefulSet) :=
  existing ← kube_Get (T := StatefulSet) (stsKey cluster);
  match existing with
  | Err e =>
      if IsNotFound e then
        match SetControllerReference cluster (desiredStatefulSet cluster 0) with
        | Err e => mret (Err e)
        | Ok desired => kube_Create desired
        end
      else mret (Err e)
  | Ok existing =>
      let currentReplicas := default 0 (sts_Replicas existing) in
      p ← plannedStep cluster currentReplicas bootstrapped membership placement placementErr pods;
      kube_CreateOrUpdate (stsKey cluster) (applyPlan cluster p)
  end.

Definition listPods (cluster : KahunaCluster) : go W (result (list Pod)) :=
  kube_ListPods (kc_Namespace cluster) (selectorLabels cluster).

(** The founding size, pinned on the first pass. *)
Definition pinBootstrapSize (cluster : KahunaCluster) : go W (result KahunaCluster) :=
  if st_BootstrapSize (kc_Status cluster) =? 0 then
    r ← kube_UpdateStatus (cluster <| kc_Status := (kc_Status cluster)
                                        <| st_BootstrapSize := desiredReplicas cluster |> |>);
    mret match r with
    | Err e => Err (ErrorWrap "pinning bootstrap size: " e)
    | Ok cluster => Ok cluster
    end
  else mret (Ok cluster).

(** Run a step that can fail; on an error, the pass ends with it, wrapped. *)
Definition step (context : string) (m : go W (option error)) (next : go W (option error))
    : go W (option error) :=
  err ← m;
  match err with
  | Some e => mret (Some (ErrorWrap context e))
  | None => next
  end.

(** The objects the StatefulSet depends on, in the order of the source. *)
Definition reconcileObjects (cluster : KahunaCluster) (bootstrapSize : Z) : go W (option error) :=
  step "reconciling keystore password: " (reconcileKeystorePassword cluster)
  (step "reconciling certificate: " (reconcileCertificate cluster)
  (step "reconciling services: " (reconcileServices cluster)
  (step "reconciling config map: " (reconcileConfigMap cluster bootstrapSize)
  (step "reconciling pod disruption budget: " (reconcilePDB cluster)
  (step "reconciling backup resources: " (reconcileBackupResources cluster) (mret None)))))).

(** The placement and its error as the rest of the pass sees them. *)
Definition placementView (r : result Placement) : option Placement * option error :=
  match r with
  | Ok p => (Some p, None)
  | Err e => if is_placement_unsupported e then (None, None) else (None, Some e)
  end.

Definition membershipView (r : result Membership) : option Membership :=
  match r with Ok m => Some m | Err _ => None end.

(** The earlier of two wake-ups, zero meaning none. *)
Definition mergeWake (requeue backupWake : Duration) : Duration :=
  if (0 <? backupWake) && ((requeue =? 0) || (backupWake <? requeue)) then backupWake else requeue.

(** The pass once the pods are listed: what it returns, the reconciler's new state, and the backup it
    started. *)
Definition reconcileCluster (r : reconciler) (cluster : KahunaCluster) (bootstrapped : bool) (pods : list Pod)
    : go W (result Duration * reconciler * option spawn) :=
  mr ← readMembership cluster pods;
  let membership := membershipView mr in
  pr ← readPlacement cluster pods;
  let '(placement, placementErr) := placementView pr in
  let persisted := kc_Status cluster in
  '(cluster, traffic) ← reconcileAutoscaling cluster bootstrapped membership placement placementErr pods
                          (r_traffic r);
  let r := mkReconciler traffic (r_backups r) in
  s ← reconcileStatefulSet cluster bootstrapped membership placement placementErr pods;
  match s with
  | Err e => mret (Err (ErrorWrap "reconciling stateful set: " e), r, None)
  | Ok sts =>
      '(cluster, backups, sp, backupWake) ← reconcileBackup cluster membership pods (r_backups r);
      let r := mkReconciler (r_traffic r) backups in
      res ← reconcileStatus cluster persisted sts pods membership;
      mret (match res with
            | Err e => Err (ErrorWrap "updating status: " e)
            | Ok (_, requeue) => Ok (mergeWake requeue backupWake)
            end, r, sp)
  end.

Definition Reconcile (r : reconciler) (req : NamespacedName)
    : go W (result Duration * reconciler * option spawn) :=
  c ← kube_GetCluster req;
  match c with
  | Err e =>
      let r := if IsNotFound e then mkReconciler (forget (r_traffic r) req) (runner_forget (r_backups r) req)
               else r in
      mret (match IgnoreNotFound e with Some e => Err e | None => Ok 0 end, r, None)
  | Ok cluster =>
      let bootstrapped := st_Bootstrapped (kc_Status cluster) in
      pinned ← pinBootstrapSize cluster;
      match pinned with
      | Err e => mret (Err e, r, None)
      | Ok cluster =>
          err ← reconcileObjects cluster (st_BootstrapSize (kc_Status cluster));
          match err with
          | Some e => mret (Err e, r, None)
          | None =>
              l ← listPods cluster;
              match l with
              | Err e => mret (Err (ErrorWrap "listing pods: " e), r, None)
              | Ok pods => reconcileCluster r cluster bootstrapped pods
              end
          end
      end
  end.
End effects.

(** ** The StatefulSet *)

(** controllerutil.SetControllerReference sets the owner reference of an object and nothing else; owner
    references are not part of the objects here. *)
Class OwnerLaws (W T : Type) `{!KubeObject W T} : Prop :=
  SetControllerReference_id cluster (o o' : T) : SetControllerReference cluster o = Ok o' → o' = o.

Section set_spec.
Context {W : Type} `{!Client W, !KubeObject W StatefulSet, !OwnerLaws W StatefulSet}.
Context `{!Conversions, !QuantityAPI}.

(** Applying a plan sets what the plan says and leaves alone what Kubernetes refuses to change. *)
Lemma applyPlan_fields cluster p (o o' : StatefulSet) :
  applyPlan cluster p o = Ok o' →
  sts_Replicas o' = Some (p_Replicas p) ∧ sts_RollingUpdate o' = Some (Some (p_Partition p)) ∧
  sts_Template o' = desiredTemplate cluster ∧
  sts_Selector o' = sts_Selector o ∧ sts_VolumeClaimTemplates o' = sts_VolumeClaimTemplates o ∧
  sts_ServiceName o' = sts_ServiceName o ∧ sts_PodManagementPolicy o' = sts_PodManagementPolicy o.
Proof. unfold applyPlan. by intros ->%SetControllerReference_id. Qed.

Lemma nextSize_near n target : 0 ≤ n → Z.abs (nextSize n target - n) ≤ 1 ∧ (target = n → nextSize n target = n).
Proof. unfold nextSize. intros. repeat case_match; bsimpl; lia. Qed.

Lemma plannedStep_spec cluster n bootstrapped m placement perr pods w p w' :
  smallRoster m → 0 ≤ n < two31 → is_i32 (desiredReplicas cluster) →
  plannedStep cluster n bootstrapped m placement perr pods w = (Some p, w') →
  (p_Replicas p < n → departed cluster pods (n - 1) w w') ∧
  (bootstrapped = true → Z.abs (p_Replicas p - n) ≤ 1 ∧
     (p_Replicas p ≠ n → stepReady cluster n m placement perr)).
Proof.
  intros Hs Hn Ht. unfold plannedStep.
  set (b := buildPlan cluster n bootstrapped m placement perr).
  assert (bootstrapped = true → Z.abs (p_Replicas b - n) ≤ 1 ∧
            (p_Replicas b ≠ n → stepReady cluster n m placement perr)) as Hb.
  { intros ->. destruct (buildPlan_size cluster n m placement perr Hs Hn Ht) as [[Hr Hp]|[_ (reason & _ & Hp)]];
      unfold b; rewrite Hp; simpl; [|lia].
    split; [apply nextSize_near; lia|done]. }
  clearbody b. destruct (Z.ltb_spec (p_Replicas b) n) as [Hlt|Hge].
  - intros ([gone reason] & w1 & Hd & Hr)%go_bind_Some. rewrite i32_id in Hd by range.
    destruct gone; simpl in Hr; injection Hr as <- <-; simpl; [|split; [lia|intros; lia]].
    split; [|done]. intros _. by apply decommission_departed in Hd as [_ ?].
  - intros [= <- <-]. split; [lia|done].
Qed.

(** A formed cluster takes its step exactly when it is ready for one and, for a shrink, the node of the
    highest ordinal is gone or agrees to leave. *)
Definition mayStep (cluster : KahunaCluster) (n : Z) (m : option Membership) (placement : option Placement)
    (perr : option error) (pods : list Pod) (w : W) : Prop :=
  stepReady cluster n m placement perr ∧
  (nextSize n (desiredReplicas cluster) < n →
   ∃ msg w', decommission cluster pods (n - 1) w = (Some (true, msg), w')).

Lemma plannedStep_next cluster n m placement perr pods w p w' :
  smallRoster m → 0 ≤ n < two31 → is_i32 (desiredReplicas cluster) →
  plannedStep cluster n true m placement perr pods w = (Some p, w') →
  (mayStep cluster n m placement perr pods w → p_Replicas p = nextSize n (desiredReplicas cluster)) ∧
  (¬ mayStep cluster n m placement perr pods w → p_Replicas p = n).
Proof.
  intros Hs Hn Ht. unfold plannedStep, mayStep.
  destruct (buildPlan_size cluster n m placement perr Hs Hn Ht) as [[Hr ->]|[Hr (reason & _ & ->)]];
    cbn [p_Replicas]; cycle 1.
  { rewrite Z.ltb_irrefl. intros [= <- <-]. simpl. naive_solver. }
  destruct (Z.ltb_spec (nextSize n (desiredReplicas cluster)) n) as [Hlt|Hge]; cycle 1.
  { intros [= <- <-]. split; [done|]. intros []. split; [done|lia]. }
  rewrite i32_id by range. intros ([gone why] & w1 & Hd & Hp)%go_bind_Some.
  destruct gone; injection Hp as <- <-; simpl; split; [done|intros []; split; [done|eauto]| |done].
  intros [_ (msg & w2 & Hd')]; [lia|]. congruence.
Qed.

(** C2: how a pass may change the StatefulSet.  An absent one is created whole.  Of an existing one of
    [n] replicas, the edit sets the planned size, partition and pod template and leaves the immutable
    fields as they are.  It makes the set smaller only after the node of the highest ordinal left the
    roster (or no pod of it has an address to ask), and once the cluster has formed it changes the size by one node at
    most, and only when the roster is exactly the current Voters and the data has settled. *)
Theorem reconcileStatefulSet_correct cluster bootstrapped m placement perr pods w sts w' :
  smallRoster m → is_i32 (desiredReplicas cluster) →
  reconcileStatefulSet cluster bootstrapped m placement perr pods w = (Some (Ok sts), w') →
  (∃ e w1, kube_Get (T := StatefulSet) (stsKey cluster) w = (Some (Err e), w1) ∧ IsNotFound e = true ∧
     kube_Create (desiredStatefulSet cluster 0) w1 = (Some (Ok sts), w')) ∨
  (∃ existing n p w1 w2,
     kube_Get (T := StatefulSet) (stsKey cluster) w = (Some (Ok existing), w1) ∧
     n = default 0 (sts_Replicas existing) ∧
     kube_CreateOrUpdate (stsKey cluster) (applyPlan cluster p) w2 = (Some (Ok sts), w') ∧
     (∀ o o' : StatefulSet, applyPlan cluster p o = Ok o' →
        sts_Replicas o' = Some (p_Replicas p) ∧ sts_RollingUpdate o' = Some (Some (p_Partition p)) ∧
        sts_Template o' = desiredTemplate cluster ∧
        sts_Selector o' = sts_Selector o ∧ sts_VolumeClaimTemplates o' = sts_VolumeClaimTemplates o ∧
        sts_ServiceName o' = sts_ServiceName o ∧ sts_PodManagementPolicy o' = sts_PodManagementPolicy o) ∧
     (0 ≤ n < two31 →
        (p_Replicas p < n → departed cluster pods (n - 1) w1 w2) ∧
        (bootstrapped = true → Z.abs (p_Replicas p - n) ≤ 1 ∧
           (p_Replicas p ≠ n → stepReady cluster n m placement perr)))).
Proof.
  intros Hs Ht. unfold reconcileStatefulSet. intros ([existing|e] & w1 & Hget & Hr)%go_bind_Some.
  - right. apply go_bind_Some in Hr as (p & w2 & Hp & Hr).
    exists existing, (default 0 (sts_Replicas existing)), p, w1, w2.
    split_and!; [done|done|done|intros o o'; apply applyPlan_fields|].
    intros Hn. by eapply plannedStep_spec in Hp.
  - left. destruct (IsNotFound e) eqn:He; [|discriminate Hr]. exists e, w1.
    destruct (SetControllerReference cluster (desiredStatefulSet cluster 0)) as [d|e'] eqn:Hd; [|discriminate Hr].
    by apply SetControllerReference_id in Hd as ->.
Qed.

(** ** The walk of the size over many passes *)

(** controllerutil.CreateOrUpdate hands back the object its edit made of the one it found; a field the
    edit sets comes back as set. *)
Class EditLaws : Prop :=
  CreateOrUpdate_edited key (f : StatefulSet → result StatefulSet) (w : W) o w' :
    kube_CreateOrUpdate key f w = (Some (Ok o), w') → ∃ o1 o2, f o1 = Ok o2 ∧ sts_Replicas o = sts_Replicas o2.

Lemma reconcileStatefulSet_next `{!EditLaws} cluster m placement perr pods w existing n w1 sts w' :
  smallRoster m → 0 ≤ n < two31 → is_i32 (desiredReplicas cluster) →
  kube_Get (T := StatefulSet) (stsKey cluster) w = (Some (Ok existing), w1) → sts_Replicas existing = Some n →
  reconcileStatefulSet cluster true m placement perr pods w = (Some (Ok sts), w') →
  (mayStep cluster n m placement perr pods w1 → sts_Replicas sts = Some (nextSize n (desiredReplicas cluster))) ∧
  (¬ mayStep cluster n m placement perr pods w1 → sts_Replicas sts = Some n).
Proof.
  intros Hs Hn Ht Hget Hrep. unfold reconcileStatefulSet. intros (r & w2 & Hget' & Hr)%go_bind_Some.
  rewrite Hget in Hget'. injection Hget' as <- <-. rewrite Hrep in Hr. simpl default in Hr.
  apply go_bind_Some in Hr as (p & w3 & Hp & Hr).
  apply CreateOrUpdate_edited in Hr as (o1 & o2 & Ho & ->). apply applyPlan_fields in Ho as [-> _].
  destruct (plannedStep_next _ _ _ _ _ _ _ _ _ Hs Hn Ht Hp) as [Hyes Hno]. split; intros; f_equal; auto.
Qed.

(** [walk target n k n']: successful passes of [reconcileStatefulSet] over a formed cluster that wants
    [target] nodes take its set from [n] to [n'] replicas.  Each reads the set as the one before left it;
    everything else (spec, roster, placement, pods, the world) is what that pass finds.  [k] counts the
    passes that may take a step: ready, and for a shrink with the leaving node's consent. *)
Inductive walk (target : Z) : Z → nat → Z → Prop :=
  | walk_done n : walk target n 0 n
  | walk_held n k n1 n' c m placement perr pods w existing w1 sts w2 :
      desiredReplicas c = target → smallRoster m →
      kube_Get (T := StatefulSet) (stsKey c) w = (Some (Ok existing), w1) → sts_Replicas existing = Some n →
      reconcileStatefulSet c true m placement perr pods w = (Some (Ok sts), w2) → sts_Replicas sts = Some n1 →
      ¬ mayStep c n m placement perr pods w1 → walk target n1 k n' → walk target n k n'
  | walk_step n k n1 n' c m placement perr pods w existing w1 sts w2 :
      desiredReplicas c = target → smallRoster m →
      kube_Get (T := StatefulSet) (stsKey c) w = (Some (Ok existing), w1) → sts_Replicas existing = Some n →
      reconcileStatefulSet c true m placement perr pods w = (Some (Ok sts), w2) → sts_Replicas sts = Some n1 →
      mayStep c n m placement perr pods w1 → walk target n1 k n' → walk target n (S k) n'.

Lemma walk_distance `{!EditLaws} target n k n' :
  1 ≤ target < two31 → walk target n k n' → 1 ≤ n < two31 →
  Z.abs (target - n') = Z.max 0 (Z.abs (target - n) - k) ∧ Z.min n target ≤ n' ≤ Z.max n target.
Proof.
  intros Ht Hw. induction Hw as [n|n k n1 n' c m pl perr pods w ex w1 sts w2 <- Hs Hget Hrep Hrun Hn1 Hno Hw IH
    |n k n1 n' c m pl perr pods w ex w1 sts w2 <- Hs Hget Hrep Hrun Hn1 Hyes Hw IH]; intros Hn; [lia|..];
    destruct (reconcileStatefulSet_next c m pl perr pods w ex n w1 sts w2) as [Hstep Hhold]; try done; try range.
  - rewrite (Hhold Hno) in Hn1. injection Hn1 as <-. by apply IH.
  - rewrite (Hstep Hyes) in Hn1. injection Hn1 as <-.
    pose proof (nextSize_toward n (desiredReplicas c)). range.
Qed.

(** C5: scaling is a walk toward the target.  Over successive passes of [reconcileStatefulSet] over a
    formed cluster whose wanted size stays the same and that read the set as the last one left it: the
    size never leaves the interval between where it started and the target, and [k] passes that may take
    their step (the roster is the current Voters, the data has settled, and a node that is to go has left
    or agrees to) bring it exactly [k] nodes closer, or to the target; the other passes leave it where it
    is, also when the leaving node refuses.  So [|target - n|] such passes reach the target. *)
Theorem scaling_walk `{!EditLaws} target n k n' :
  1 ≤ target < two31 → 1 ≤ n < two31 → walk target n k n' →
  Z.abs (target - n') = Z.max 0 (Z.abs (target - n) - k) ∧
  Z.min n target ≤ n' ≤ Z.max n target ∧
  (Z.abs (target - n) ≤ k → n' = target).
Proof.
  intros Ht Hn Hw. destruct (walk_distance target n k n' Ht Hw Hn) as [Hd Hb]. split_and!; [done|lia|lia|lia].
Qed.
End set_spec.

(** ** What a pass may write to the status *)

(** The calls that do not write the status keep [I]. *)
Class QuietRead {W} (I : W → Prop) (T : Type) `{!KubeObject W T} : Prop :=
  quiet_Get key : keeps I (kube_Get (T := T) key).

Class QuietObject {W} (I : W → Prop) (T : Type) `{!KubeObject W T} : Prop := {
  quiet_read :: QuietRead I T;
  quiet_Create (o : T) : keeps I (kube_Create o);
  quiet_Delete (o : T) pre : keeps I (kube_Delete o pre);
  quiet_CreateOrUpdate key (f : T → result T) : keeps I (kube_CreateOrUpdate key f);
}.

Class QuietClient {W} (I : W → Prop) `{!Client W} : Prop := {
  quiet_Membership url : keeps I (client_Membership url);
  quiet_Leave url : keeps I (client_Leave url);
  quiet_Placement url : keeps I (client_Placement url);
  quiet_Metrics url : keeps I (client_Metrics url);
}.

Class QuietRest {W} (I : W → Prop) `{!Clock W, !Random W, !KubeCluster W} : Prop := {
  quiet_Now : keeps I time_Now;
  quiet_Rand n : keeps I (rand_Read n);
  quiet_ListPods ns l : keeps I (kube_ListPods ns l);
  quiet_ListClaimWarnings ns uid : keeps I (kube_ListClaimWarnings ns uid);
}.

#[export] Hint Resolve quiet_read quiet_Get quiet_Create quiet_Delete quiet_CreateOrUpdate quiet_Membership quiet_Leave
  quiet_Placement quiet_Metrics quiet_Now quiet_Rand quiet_ListPods quiet_ListClaimWarnings : quiet.

(** A status update that goes through stored what it was given: it carries the resource version that was
    read, and the API server refuses it when the object changed meanwhile. *)
Class UpdateLaws (W : Type) `{!KubeCluster W} : Prop :=
  UpdateStatus_stored c w c' w' : kube_UpdateStatus c w = (Some (Ok c'), w') → c' = c.

Section reads.
Context {W : Type} (I : W → Prop) `{!Client W, !Clock W, !Random W, !KubeCluster W}.
Context `{!KubeObject W StatefulSet, !KubeObject W Service, !KubeObject W ConfigMap}.
Context `{!KubeObject W PodDisruptionBudget, !KubeObject W PersistentVolumeClaim}.
Context `{!KubeObject W Secret, !KubeObject W Certificate}.
Context `{!Conversions, !QuantityAPI, !ConditionsAPI, !SemanticAPI, !LabelSelectors}.
Context `{!Format, !Pkcs12, !Base64, !Cron}.
Context `{!QuietClient I, !QuietRest I, !QuietRead I StatefulSet, !QuietRead I PersistentVolumeClaim}.
Context `{!QuietRead I Secret}.

Lemma keeps_readMembership cluster pods : keeps I (readMembership cluster pods).
Proof.
  unfold readMembership. generalize (@None error). induction (membershipCandidates pods); simpl; keeping.
Qed.

Lemma keeps_readPlacement cluster pods : keeps I (readPlacement cluster pods).
Proof.
  unfold readPlacement. generalize (@None error). induction pods; simpl; keeping.
Qed.

Lemma keeps_readKeystore cluster : keeps I (readKeystore cluster).
Proof. unfold readKeystore. keeping. Qed.
Hint Resolve keeps_readKeystore : quiet.

Lemma keeps_certificateReady cluster : keeps I (certificateReady cluster).
Proof. unfold certificateReady. keeping. Qed.

Lemma keeps_plannedStep cluster n b m pl perr pods : keeps I (plannedStep cluster n b m pl perr pods).
Proof. unfold plannedStep, decommission. keeping. Qed.
Hint Resolve keeps_plannedStep : quiet.

(** The parts of a cluster that neither the autoscaler nor the backups touch. *)
Definition sameCluster (c c' : KahunaCluster) : Prop :=
  kc_Name c' = kc_Name c ∧ kc_Namespace c' = kc_Namespace c ∧ kc_Generation c' = kc_Generation c ∧
  kc_Spec c' = kc_Spec c ∧ st_Bootstrapped (kc_Status c') = st_Bootstrapped (kc_Status c) ∧
  st_BootstrapSize (kc_Status c') = st_BootstrapSize (kc_Status c).

Lemma keeps_measure cluster pods traffic : keeps I (measure cluster pods traffic).
Proof.
  unfold measure. destruct (length _ =? 0)%nat; [keeping|]. apply keeps_bind; [|keeping].
  induction (filter _ pods); simpl; keeping.
Qed.

Lemma reconcileAutoscaling_same cluster b m pl perr pods traffic :
  triple I (reconcileAutoscaling cluster b m pl perr pods traffic) (λ r, sameCluster cluster r.1).
Proof.
  unfold reconcileAutoscaling. destruct (spec_Autoscaling (kc_Spec cluster)) as [spec|]; [|by apply triple_ret].
  apply (triple_bind I _ _ (λ _, True)); [apply quiet_Now|]. intros now _.
  apply (triple_bind I _ _ (λ _, True)); [by apply triple_lift|]. intros [converged waiting] _.
  apply (triple_bind I _ _ (λ _, True)).
  - destruct converged; [|by apply triple_ret].
    apply keeps_bind; [apply keeps_measure|]. intros [sig traffic']. keeping.
  - intros [d traffic'] _. apply (triple_bind I _ _ (λ _, True)); [apply quiet_Now|].
    intros condNow _. by apply triple_ret.
Qed.

Lemma reconcileBackup_same cluster m pods runner :
  triple I (reconcileBackup cluster m pods runner)
    (λ r, sameCluster cluster r.1.1.1 ∧ st_Autoscaling (kc_Status r.1.1.1) = st_Autoscaling (kc_Status cluster)).
Proof.
  set (sameSize := λ c, sameCluster cluster c ∧ st_Autoscaling (kc_Status c) = st_Autoscaling (kc_Status cluster)).
  unfold reconcileBackup. destruct (spec_Backup (kc_Spec cluster)) as [spec|]; [|by apply triple_ret].
  apply (triple_bind I _ _ (λ _, True)); [apply quiet_Now|]. intros now _.
  apply (triple_bind I _ _ (λ _, True)).
  { unfold readBackupVolume, latestClaimWarning. keeping. }
  intros volume _. apply (triple_bind I _ _ sameSize).
  { apply (triple_bind I _ _ (λ _, True)); [apply quiet_Now|]. intros t _. by apply triple_ret. }
  intros cl Hcl. destruct (runner_poll runner (clusterKey cluster)) as [job runner1].
  destruct (collectBackup _ job now) as [st running].
  destruct (stepBackup _ spec m pods volume st running now) as [[sp' wake'] [[failing reason] msg]].
  apply (triple_bind I _ _ sameSize).
  { apply (triple_bind I _ _ (λ _, True)); [apply quiet_Now|]. intros t _. by apply triple_ret. }
  intros cl2 Hcl2. by apply triple_ret.
Qed.

(** What a pass that read [c0] may write: the same object and spec; the founding size it was founded
    with, pinned to the wanted size when it had none; the bootstrap latch never opened, and closed only
    together with a committed roster that has enough Voters. *)
Definition statusWrite (c0 c : KahunaCluster) : Prop :=
  kc_Name c = kc_Name c0 ∧ kc_Namespace c = kc_Namespace c0 ∧ kc_Spec c = kc_Spec c0 ∧
  st_BootstrapSize (kc_Status c) =
    (if st_BootstrapSize (kc_Status c0) =? 0 then desiredReplicas c0 else st_BootstrapSize (kc_Status c0)) ∧
  (st_Bootstrapped (kc_Status c0) = true → st_Bootstrapped (kc_Status c) = true) ∧
  (st_Bootstrapped (kc_Status c) = true → st_Bootstrapped (kc_Status c0) = true ∨
     0 < st_MembershipVersion (kc_Status c) ∧ desiredReplicas c ≤ st_Voters (kc_Status c)).

Lemma putConditions_same cluster st known :
  triple I (putConditions cluster st known) (λ st', sameBut_conditions st' st).
Proof.
  unfold putConditions, putCondition.
  apply (triple_bind I _ _ (λ _, True)); [apply keeps_certificateReady|]. intros [ready msg] _.
  repeat (apply (triple_bind I _ _ (λ st', sameBut_conditions st' st));
    [apply (triple_bind I _ _ (λ _, True)); [apply quiet_Now|]; intros ? _; by apply triple_ret|];
    intros ? ?).
  apply (triple_bind I _ _ (λ _, True)); [apply quiet_Now|]. intros ? _. by apply triple_ret.
Qed.

Lemma computeStatus_latch cluster sts pods m label :
  let st' := computeStatus cluster sts pods m label in
  st_BootstrapSize st' = st_BootstrapSize (kc_Status cluster) ∧
  st_Autoscaling st' = st_Autoscaling (kc_Status cluster) ∧
  (st_Bootstrapped (kc_Status cluster) = true → st_Bootstrapped st' = true) ∧
  (st_Bootstrapped st' = true → st_Bootstrapped (kc_Status cluster) = true ∨
     0 < st_MembershipVersion st' ∧ desiredReplicas cluster ≤ st_Voters st').
Proof.
  unfold computeStatus.
  pose proof (observeSet_fields cluster sts pods label (kc_Status cluster)) as (E1 & E2 & _ & _ & _ & E6 & _).
  set (s1 := observeSet cluster sts pods label (kc_Status cluster)) in *. clearbody s1.
  rewrite <- E1, <- E2, <- E6. clear E1 E2 E6. unfold observeRoster, latchBootstrap.
  destruct m as [r|]; [|simpl; naive_solver].
  destruct (countRoles (buildMemberStatus cluster r pods)) as [v l]. simpl.
  destruct (st_Bootstrapped s1) eqn:Eb; simpl; [rewrite ?Eb; naive_solver|].
  destruct (Z.ltb_spec 0 (m_MembershipVersion r)), (Z.leb_spec (desiredReplicas cluster) v); simpl;
    rewrite ?Eb; naive_solver.
Qed.

Lemma desiredReplicas_ext c c' :
  kc_Spec c' = kc_Spec c → st_Autoscaling (kc_Status c') = st_Autoscaling (kc_Status c) →
  desiredReplicas c' = desiredReplicas c.
Proof.
  intros Hs Ha. unfold desiredReplicas, initialAutoscaledReplicas, specReplicas. by rewrite Hs, Ha.
Qed.

Context `{!UpdateLaws W}.

(** From a cluster that is [c0] with its founding size pinned, [reconcileStatus] writes what it may. *)
Lemma keeps_reconcileStatus c0 c persisted sts pods m :
  (∀ c', statusWrite c0 c' → keeps I (kube_UpdateStatus c')) →
  kc_Name c = kc_Name c0 → kc_Namespace c = kc_Namespace c0 → kc_Spec c = kc_Spec c0 →
  st_Bootstrapped (kc_Status c) = st_Bootstrapped (kc_Status c0) →
  st_BootstrapSize (kc_Status c) =
    (if st_BootstrapSize (kc_Status c0) =? 0 then desiredReplicas c0 else st_BootstrapSize (kc_Status c0)) →
  keeps I (reconcileStatus c persisted sts pods m).
Proof.
  intros Hup Hn Hns Hspec Hb Hbs. unfold reconcileStatus.
  apply keeps_bind; [apply quiet_Get|]. intros observed.
  set (sts' := match observed with Ok s => s | Err _ => sts end).
  destruct (LabelSelectorAsSelector (selector c)) as [label|e]; [|apply keeps_ret].
  apply (triple_bind I _ _ (λ st', sameBut_conditions st' (computeStatus c sts' pods m label)));
    [apply putConditions_same|]. intros st Hst.
  destruct (equalStatus persisted st); cbn [negb]; [apply keeps_ret|].
  apply keeps_bind; [|intros; apply keeps_ret]. apply Hup.
  destruct (computeStatus_latch c sts' pods m label) as (A1 & A2 & A3 & A4).
  pose proof (λ A f, @sameBut_conditions_field A f) as Hf.
  unfold statusWrite.
  assert (desiredReplicas (c <| kc_Status := st |>) = desiredReplicas c) as ->.
  { apply desiredReplicas_ext; [done|]. simpl. by rewrite (Hf _ st_Autoscaling st _ (λ _ _, eq_refl) Hst). }
  cbn [set kc_Name kc_Namespace kc_Spec kc_Status].
  rewrite (Hf _ st_BootstrapSize st _ (λ _ _, eq_refl) Hst), (Hf _ st_Bootstrapped st _ (λ _ _, eq_refl) Hst),
    (Hf _ st_MembershipVersion st _ (λ _ _, eq_refl) Hst), (Hf _ st_Voters st _ (λ _ _, eq_refl) Hst).
  rewrite <- Hb. split_and!; try done. congruence.
Qed.

Lemma pinBootstrapSize_spec c0 :
  (∀ c, statusWrite c0 c → keeps I (kube_UpdateStatus c)) →
  triple I (pinBootstrapSize c0) (λ r, ∀ c, r = Ok c → c = c0 <| kc_Status := (kc_Status c0)
    <| st_BootstrapSize := if st_BootstrapSize (kc_Status c0) =? 0 then desiredReplicas c0
                           else st_BootstrapSize (kc_Status c0) |> |>).
Proof.
  intros Hup. unfold pinBootstrapSize. destruct (st_BootstrapSize (kc_Status c0) =? 0) eqn:E.
  - set (c1 := c0 <| kc_Status := _ |>).
    apply (triple_bind I _ _ (λ r, ∀ c, r = Ok c → c = c1)).
    + assert (statusWrite c0 c1) as Hw by (unfold statusWrite; rewrite E; split_and!; by try left).
      intros w Hw0. destruct (Hup c1 Hw w Hw0) as [HI _]. split; [done|]. intros a Ha c ->.
      destruct (kube_UpdateStatus c1 w) as [o w'] eqn:Eu. simpl in Ha. subst o.
      by eapply UpdateStatus_stored.
    + intros [c|e] Hc; apply triple_ret; [|done]. intros ? [= <-]. by apply Hc.
  - apply triple_ret. intros c [= <-]. by destruct c0 as [? ? ? ? []].
Qed.
End reads.
#[export] Hint Resolve keeps_readKeystore keeps_plannedStep : quiet.

Section quiet.
Context {W : Type} (I : W → Prop) `{!Client W, !Clock W, !Random W, !KubeCluster W}.
Context `{!KubeObject W StatefulSet, !KubeObject W Service, !KubeObject W ConfigMap}.
Context `{!KubeObject W PodDisruptionBudget, !KubeObject W PersistentVolumeClaim}.
Context `{!KubeObject W Secret, !KubeObject W Certificate}.
Context `{!Conversions, !QuantityAPI, !ConditionsAPI, !SemanticAPI, !LabelSelectors}.
Context `{!Format, !Pkcs12, !Base64, !Cron}.
Context `{!QuietClient I, !QuietRest I, !QuietObject I StatefulSet, !QuietObject I Service}.
Context `{!QuietObject I ConfigMap, !QuietObject I PodDisruptionBudget, !QuietObject I PersistentVolumeClaim}.
Context `{!QuietObject I Secret, !QuietObject I Certificate, !UpdateLaws W}.

Lemma keeps_services cluster l : keeps I (putServices cluster l).
Proof. induction l; simpl; keeping. Qed.
Hint Resolve keeps_services : quiet.

Lemma keeps_reconcileObjects cluster n : keeps I (reconcileObjects cluster n).
Proof.
  unfold reconcileObjects, step, reconcileKeystorePassword, reconcileCertificate, replaceStaleKeystore,
    reconcileServices, reconcileConfigMap, reconcilePDB, reconcileBackupResources, reconcileBackupClaim,
    reconcileBackupKey.
  keeping.
Qed.

Lemma keeps_reconcileStatefulSet cluster b m pl perr pods :
  keeps I (reconcileStatefulSet cluster b m pl perr pods).
Proof. unfold reconcileStatefulSet. keeping. Qed.

Lemma keeps_reconcileCluster c0 c r b pods :
  (∀ c', statusWrite c0 c' → keeps I (kube_UpdateStatus c')) →
  kc_Name c = kc_Name c0 → kc_Namespace c = kc_Namespace c0 → kc_Spec c = kc_Spec c0 →
  st_Bootstrapped (kc_Status c) = st_Bootstrapped (kc_Status c0) →
  st_BootstrapSize (kc_Status c) =
    (if st_BootstrapSize (kc_Status c0) =? 0 then desiredReplicas c0 else st_BootstrapSize (kc_Status c0)) →
  keeps I (reconcileCluster r c b pods).
Proof.
  intros Hup Hn Hns Hspec Hb Hbs. unfold reconcileCluster.
  apply keeps_bind; [apply (keeps_readMembership I)|]. intros mr.
  apply keeps_bind; [apply (keeps_readPlacement I)|]. intros pr. destruct (placementView pr) as [pl perr].
  apply (triple_bind I _ _ (λ r, sameCluster c r.1)); [apply (reconcileAutoscaling_same I)|].
  intros [c1 traffic] (A1 & A2 & A3 & A4 & A5 & A6). simpl in *.
  apply keeps_bind; [apply keeps_reconcileStatefulSet|]. intros [sts|e]; [|apply keeps_ret].
  apply (triple_bind I _ _ (λ r, sameCluster c1 r.1.1.1));
    [eapply triple_weaken; [apply (reconcileBackup_same I)|by intros ? []]|].
  intros [[[c2 backups] sp] wake] (B1 & B2 & B3 & B4 & B5 & B6). simpl in *.
  apply keeps_bind; [|intros; apply keeps_ret].
  apply (keeps_reconcileStatus I c0); try done; congruence.
Qed.

(** C6: what a whole pass may write to the status.  Whatever the API server and the nodes answer, every
    status update of a pass that read [c0] is one [statusWrite] allows: stated as, any property of the
    world that every other call keeps, and that permitted updates keep, is kept by the pass, also when
    it fails or panics half-way.  In particular the founding size is written once and never revised,
    and a formed cluster is never declared unformed. *)
Theorem Reconcile_status_writes r req w c0 w1 :
  kube_GetCluster req w = (Some (Ok c0), w1) → I w1 →
  (∀ c, statusWrite c0 c → keeps I (kube_UpdateStatus c)) →
  I (Reconcile r req w).2.
Proof.
  intros Hget HI Hup. unfold Reconcile, mbind at 1, go_bind at 1. rewrite Hget.
  refine (proj1 ((_ : keeps I _) w1 HI)).
  eapply triple_bind; [by apply (pinBootstrapSize_spec I)|]. intros [c|e] Hc; [|apply keeps_ret].
  specialize (Hc c eq_refl). subst c.
  apply keeps_bind; [apply keeps_reconcileObjects|]. intros [e|]; [apply keeps_ret|].
  apply keeps_bind; [apply quiet_ListPods|]. intros [pods|e]; [|apply keeps_ret].
  by apply (keeps_reconcileCluster c0).
Qed.
End quiet.

(** ** Waking up again *)

Section requeue.
Context {W : Type} `{!Client W, !Clock W, !Random W, !KubeCluster W}.
Context `{!KubeObject W StatefulSet, !KubeObject W Service, !KubeObject W ConfigMap}.
Context `{!KubeObject W PodDisruptionBudget, !KubeObject W PersistentVolumeClaim}.
Context `{!KubeObject W Secret, !KubeObject W Certificate}.
Context `{!Conversions, !QuantityAPI, !ConditionsAPI, !SemanticAPI, !LabelSelectors}.
Context `{!Format, !Pkcs12, !Base64, !Cron}.

Lemma requeueFor_bounds cluster busy :
  0 < requeueFor cluster busy ≤ requeueSteady ∧ (busy = true → requeueFor cluster busy = requeueProgressing).
Proof.
  unfold requeueFor, requeueProgressing, requeueAutoscaling, requeueSteady, Second.
  repeat case_match; lia.
Qed.

Lemma mergeWake_bounds requeue wake : 0 < requeue →
  0 < mergeWake requeue wake ≤ requeue ∧ (0 < wake → mergeWake requeue wake ≤ wake).
Proof. unfold mergeWake. intros. repeat case_match; bsimpl; try lia. Qed.

Lemma reconcileStatus_requeue cluster persisted sts pods m w c rq w' :
  reconcileStatus cluster persisted sts pods m w = (Some (Ok (c, rq)), w') → 0 < rq ≤ requeueSteady.
Proof.
  unfold reconcileStatus. intros (observed & w1 & _ & Hr)%go_bind_Some.
  destruct (LabelSelectorAsSelector (selector cluster)) as [label|e]; [|discriminate Hr].
  apply go_bind_Some in Hr as (st & w2 & _ & Hr). destruct (negb (equalStatus persisted st)).
  - apply go_bind_Some in Hr as ([c'|e] & w3 & _ & Hr); [|discriminate Hr].
    injection Hr as <- <- <-. apply requeueFor_bounds.
  - injection Hr as <- <- <-. apply requeueFor_bounds.
Qed.

(** C23: the controller never goes to sleep on a cluster.  A pass that found the cluster and succeeded
    asks for the next one after a positive time of at most sixty seconds, so a change of the roster
    that no Kubernetes object shows is noticed within a minute; a pass that found it deleted asks for
    none and drops its traffic samples and its backup. *)
Theorem Reconcile_requeues r req w d r' sp w' :
  Reconcile r req w = (Some (Ok d, r', sp), w') →
  ((∃ c0 w1, kube_GetCluster req w = (Some (Ok c0), w1)) ∧ 0 < d ≤ requeueSteady) ∨
  (∃ e, kube_GetCluster req w = (Some (Err e), w') ∧ IsNotFound e = true ∧ d = 0 ∧ sp = None ∧
     r_traffic r' !! req = None ∧ rn_jobs (r_backups r') !! req = None).
Proof.
  unfold Reconcile. intros ([c0|e] & w1 & Hget & Hr)%go_bind_Some.
  - left. split; [eauto|].
    apply go_bind_Some in Hr as ([c|e] & w2 & _ & Hr); [|discriminate Hr].
    apply go_bind_Some in Hr as ([e|] & w3 & _ & Hr); [discriminate Hr|].
    apply go_bind_Some in Hr as ([pods|e] & w4 & _ & Hr); [|discriminate Hr].
    unfold reconcileCluster in Hr.
    apply go_bind_Some in Hr as (mr & w5 & _ & Hr). apply go_bind_Some in Hr as (pr & w6 & _ & Hr).
    destruct (placementView pr) as [pl perr].
    apply go_bind_Some in Hr as ([c1 traffic] & w7 & _ & Hr).
    apply go_bind_Some in Hr as ([sts|e] & w8 & _ & Hr); [|discriminate Hr].
    apply go_bind_Some in Hr as ([[[c2 backups] sp'] wake] & w9 & _ & Hr).
    apply go_bind_Some in Hr as ([[c3 rq]|e] & w10 & Hst & Hr); [|discriminate Hr].
    injection Hr as <- <- <- <-. apply reconcileStatus_requeue in Hst.
    pose proof (mergeWake_bounds rq wake). lia.
  - right. exists e. unfold IgnoreNotFound in Hr. destruct (IsNotFound e) eqn:He; [|discriminate Hr].
    injection Hr as <- <- <- <-. split_and!; try done; simpl; apply lookup_delete_eq.
Qed.
End requeue.

(** ** Witnesses: an API server that logs the status updates and serves a formed cluster of three nodes
    that is being scaled to two. *)

Abbreviation statusLog := (list KahunaCluster).

Definition formed : KahunaCluster :=
  (demoCluster 2) <| kc_Status := zero_Status <| st_Bootstrapped := true |> <| st_BootstrapSize := 3 |> |>.

Definition logObjects {W T} (get : NamespacedName → result T) (base : T) : KubeObject W T := {|
  kube_Get key := mret (get key);
  kube_Create o := mret (Ok o);
  kube_Delete _ _ := mret None;
  kube_CreateOrUpdate _ f := mret (f base);
  SetControllerReference _ o := Ok o;
|}.

Definition logCluster : KubeCluster statusLog := {|
  kube_GetCluster _ := mret (Ok formed);
  kube_UpdateStatus c := λ w, (Some (Ok c), c :: w);
  kube_ListPods _ _ := mret (Ok (demoSetPods 3));
  kube_ListClaimWarnings _ _ := mret (Ok []);
|}.

Definition logClient : Client statusLog := {|
  client_Membership _ := mret (Ok (fullRoster formed 3));
  client_Health _ := mret (Err (ErrorText "connection refused"));
  client_Leave _ := mret (Ok (mkLeaveResult true OutcomeCommitted 7 false ""));
  client_Placement _ := mret (Err ErrPlacementUnsupported);
  client_Metrics _ := mret (Err (ErrorText "connection refused"));
  client_TakeCoordinatedBackup _ := mret (Err (ErrorText "connection refused"));
  client_TakeIncrementalBackup _ _ := mret (Err (ErrorText "connection refused"));
|}.

#[local] Existing Instance logCluster.
#[local] Existing Instance logClient.
#[local] Instance logClock : Clock statusLog := mret Hour.
#[local] Instance logRandom : Random statusLog := λ _, mret (Ok "r").
#[local] Instance logSets : KubeObject statusLog StatefulSet := logObjects (λ _, Ok (demoSet 3 3)) (demoSet 3 3).
#[local] Instance logServices : KubeObject statusLog Service :=
  logObjects (λ _, Err (ErrorText "unused")) (desiredClientService formed).
#[local] Instance logConfigMaps : KubeObject statusLog ConfigMap :=
  logObjects (λ _, Err (ErrorText "unused")) (mkConfigMap (mkObjectMeta "" "" ∅) ∅).
#[local] Instance logBudgets : KubeObject statusLog PodDisruptionBudget :=
  logObjects (λ _, Err (ErrorText "unused")) (desiredPDB formed).
#[local] Instance logClaims : KubeObject statusLog PersistentVolumeClaim :=
  logObjects (λ _, Err (ErrorText "unused")) (volumeClaim "" (mkVolumeSpec 0 None [])).
#[local] Instance logSecrets : KubeObject statusLog Secret :=
  logObjects (λ key, Ok (demoSecret key.2 {["certificate.pfx" := "data"]} ∅)) (demoSecret "" ∅ ∅).
#[local] Instance logCertificates : KubeObject statusLog Certificate :=
  {| kube_Get _ := mret (Err (ErrorText "unused")); kube_Create o := mret (Ok o); kube_Delete _ _ := mret None;
     kube_CreateOrUpdate _ f := mret (Err (ErrorText "unused")); SetControllerReference _ o := Ok o |}.
#[local] Existing Instance demoConv.
#[local] Existing Instance demoQuantities.
#[local] Existing Instance demoCron.
#[local] Existing Instance plainConditions.
#[local] Existing Instance plainSemantic.
#[local] Existing Instance plainFormat.
#[local] Instance logSelectors : LabelSelectors := λ _, Ok "app=kahuna".
#[local] Instance logPkcs12 : Pkcs12 := λ _ _, false.
#[local] Instance logBase64 : Base64 := λ s, s.

(** The nodes agree to leave, so the pass shrinks the set by one. *)
Lemma reconcileStatefulSet_correct_witness :
  (∃ sts, reconcileStatefulSet formed true (Some (fullRoster formed 3)) None None (demoSetPods 3) []
            = (Some (Ok sts), []) ∧ sts_Replicas sts = Some 2) ∧
  departed formed (demoSetPods 3) 2 ([] : statusLog) [].
Proof.
  assert (OwnerLaws statusLog StatefulSet) as Hown by (intros c o o' E; by injection E as <-).
  pose proof (reconcileStatefulSet_correct formed true (Some (fullRoster formed 3)) None None (demoSetPods 3) []) as Hthm.
  destruct (reconcileStatefulSet formed true (Some (fullRoster formed 3)) None None (demoSetPods 3) [])
    as [[[sts|e]|] l] eqn:E;
    [|exfalso; vm_compute in E; discriminate E|exfalso; vm_compute in E; discriminate E].
  assert (l = [] ∧ sts_Replicas sts = Some 2) as [-> Hrep].
  { assert (match reconcileStatefulSet formed true (Some (fullRoster formed 3)) None None (demoSetPods 3) [] with
            | (Some (Ok s), []) => bool_decide (sts_Replicas s = Some 2) | _ => false end = true) as Hb
      by (vm_compute; reflexivity).
    rewrite E in Hb. destruct l; [|discriminate Hb]. by apply bool_decide_eq_true_1 in Hb. }
  split; [by exists sts|].
  destruct (Hthm sts [] ltac:(vm_compute; done) ltac:(vm_compute; done) eq_refl)
    as [(e & w1 & Hget & _)|(ex & n & p & w1 & w2 & Hget & -> & Hput & Hfields & Hstep)].
  - discriminate Hget.
  - injection Hget as <- <-. assert (w2 = []) as -> by exact (f_equal snd Hput).
    assert (applyPlan formed p (demoSet 3 3) = Ok sts) as Ha by (apply (inj Some); exact (f_equal fst Hput)).
    destruct (Hfields _ _ Ha) as [Hp _]. rewrite Hrep in Hp. injection Hp as Hp.
    apply Hstep; [vm_compute; split; [discriminate|reflexivity]|]. rewrite <- Hp. reflexivity.
Defined.

(** A world that is the size of the set, over nodes that agree to leave. *)
Definition sizedSets : KubeObject Z StatefulSet := {|
  kube_Get _ n := (Some (Ok ((demoSet 3 3) <| sts_Replicas := Some n |>)), n);
  kube_Create o n := (Some (Ok o), default 0 (sts_Replicas o));
  kube_Delete _ _ := mret None;
  kube_CreateOrUpdate _ f n := match f ((demoSet 3 3) <| sts_Replicas := Some n |>) with
    | Ok o => (Some (Ok o), default 0 (sts_Replicas o))
    | Err e => (Some (Err e), n)
    end;
  SetControllerReference _ o := Ok o;
|}.
Definition agreeing : Client Z := {|
  client_Membership _ := mret (Err (ErrorText "connection refused"));
  client_Health _ := mret (Err (ErrorText "connection refused"));
  client_Leave _ := mret (Ok (mkLeaveResult true OutcomeCommitted 7 false ""));
  client_Placement _ := mret (Err ErrPlacementUnsupported);
  client_Metrics _ := mret (Err (ErrorText "connection refused"));
  client_TakeCoordinatedBackup _ := mret (Err (ErrorText "connection refused"));
  client_TakeIncrementalBackup _ _ := mret (Err (ErrorText "connection refused"));
|}.

(** A formed cluster of three nodes that is scaled to one: a step, a pass that could not read the roster,
    and another step. *)
Lemma scaling_walk_witness :
  @walk Z agreeing sizedSets demoConv demoQuantities 1 3 2 1 ∧ (Z.abs (1 - 3) ≤ 2%nat → 1 = 1).
Proof.
  set (c := demoCluster 1).
  pose (run := λ m n, @reconcileStatefulSet Z agreeing sizedSets demoConv demoQuantities c true m None None
                        (demoSetPods 3) n).
  assert (∀ n, 0 ≤ n → stepReady c n (Some (fullRoster c n)) None None) as Hready.
  { intros n Hn. split; [|done]. eexists. split; [done|]. by apply rosterIs_fullRoster. }
  assert (∀ m n n1, match run m n with (Some (Ok sts), _) => bool_decide (sts_Replicas sts = Some n1) | _ => false end
            = true → ∃ sts w2, run m n = (Some (Ok sts), w2) ∧ sts_Replicas sts = Some n1) as Hrun.
  { intros m n n1. destruct (run m n) as [[[sts|e]|] w2]; try done. intros Hb%bool_decide_eq_true_1. by exists sts, w2. }
  assert (∀ n, ∃ msg w', @decommission Z agreeing c (demoSetPods 3) (n - 1) n = (Some (true, msg), w')) as Hleave.
  { intros n. exists "", n. unfold decommission. by destruct (decommissionTarget _ _ _). }
  destruct (Hrun (Some (fullRoster c 3)) 3 2 ltac:(vm_compute; reflexivity)) as (s1 & v1 & R1 & E1).
  destruct (Hrun None 2 2 ltac:(vm_compute; reflexivity)) as (s2 & v2 & R2 & E2).
  destruct (Hrun (Some (fullRoster c 2)) 2 1 ltac:(vm_compute; reflexivity)) as (s3 & v3 & R3 & E3).
  assert (@walk Z agreeing sizedSets demoConv demoQuantities 1 3 2 1) as Hw.
  { eapply (walk_step 1 3 1 2 1 c (Some (fullRoster c 3)) None None (demoSetPods 3) 3);
      [reflexivity|vm_compute; done|reflexivity|reflexivity|exact R1|exact E1| |].
    { split; [apply Hready; lia|]. intros _. apply (Hleave 3). }
    eapply (walk_held 1 2 1 2 1 c None None None (demoSetPods 3) 2);
      [reflexivity|done|reflexivity|reflexivity|exact R2|exact E2| |].
    { intros [[(r & [=] & _) _] _]. }
    eapply (walk_step 1 2 0 1 1 c (Some (fullRoster c 2)) None None (demoSetPods 3) 2);
      [reflexivity|vm_compute; done|reflexivity|reflexivity|exact R3|exact E3| |apply walk_done].
    split; [apply Hready; lia|]. intros _. apply (Hleave 2). }
  split; [exact Hw|].
  apply (@scaling_walk Z agreeing sizedSets ltac:(by intros x o o' [= <-]) demoConv demoQuantities
    ltac:(intros key f w o w'; simpl; destruct (f _) as [o2|e] eqn:E; [|done]; intros [= <- _]; by eexists _, _)
    1 3 2 1); [unfold two31; lia..|exact Hw].
Defined.

(** Every status the pass writes is a permitted one: here the log holds exactly them. *)
Lemma Reconcile_status_writes_witness :
  let r := mkReconciler ∅ newRunner in
  (1 <=? length (Reconcile r (clusterKey formed) []).2)%nat = true ∧
  Forall (statusWrite formed) (Reconcile r (clusterKey formed) []).2.
Proof.
  intros r. split; [vm_compute; reflexivity|].
  assert (∀ {A} (a : A), keeps (Forall (statusWrite formed)) (mret a)) as Hq by (intros; apply keeps_ret).
  assert (UpdateLaws statusLog) by (intros c w c' w' E; by injection E as <-).
  set (P := Forall (statusWrite formed)) in *.
  assert (QuietClient P) by (split; intros; apply Hq).
  assert (QuietRest P) by (split; intros; apply Hq).
  assert (QuietObject P StatefulSet) by (split; [intros key|intros..]; apply Hq).
  assert (QuietObject P Service) by (split; [intros key|intros..]; apply Hq).
  assert (QuietObject P ConfigMap) by (split; [intros key|intros..]; apply Hq).
  assert (QuietObject P PodDisruptionBudget) by (split; [intros key|intros..]; apply Hq).
  assert (QuietObject P PersistentVolumeClaim) by (split; [intros key|intros..]; apply Hq).
  assert (QuietObject P Secret) by (split; [intros key|intros..]; apply Hq).
  assert (QuietObject P Certificate) by (split; [intros key|intros..]; apply Hq).
  apply (Reconcile_status_writes P r (clusterKey formed) [] formed []).
  - reflexivity.
  - constructor.
  - intros c Hc w Hw. split; [by constructor|done].
Defined.

Lemma Reconcile_requeues_witness :
  let r := mkReconciler ∅ newRunner in
  match Reconcile r (clusterKey formed) [] with
  | (Some (Ok d, _, _), _) => 0 < d ≤ requeueSteady
  | _ => False
  end.
Proof.
  intros r.
  assert (match Reconcile r (clusterKey formed) [] with (Some (Ok _, _, _), _) => true | _ => false end = true)
    as Hok by (vm_compute; reflexivity).
  revert Hok. destruct (Reconcile r (clusterKey formed) []) as [[[[[d|e] r'] sp]|] l] eqn:E; intros Hok;
    [|discriminate Hok|discriminate Hok].
  destruct (Reconcile_requeues r (clusterKey formed) [] d r' sp l E) as [[_ Hd]|(e & Hget & _)];
    [exact Hd|discriminate Hget].
Defined.
