(* ===== verification/Frame.v ===== *)
(** * Which objects a pass writes, and why passes of different clusters do not interfere

    The controller runs up to four passes in parallel (maxConcurrentReconciles,
    kahunacluster_controller.go), on the ground that each touches only objects named after its own cluster
    and that these are disjoint.  [owned] lists the objects of a cluster by kind and name;
    [Reconcile_writes_own] proves that a pass writes nothing else; [owned_disjoint] says exactly when the
    objects of two clusters are disjoint, which is not always: the peer Service of [x] is the client
    Service of [x-peer]. *)

From Stdlib Require Import ZArith Lia Ascii.
From stdpp Require Import base numbers strings pretty sorting gmap list.
From S2P Require Import Prelude GoStrings Types Naming GoFloat Kahuna Placement Roster Plan Conditions.
From S2P Require Import Autoscaler BackupSchedule BackupRunner Sha256 Entrypoint Resources Kube Certificate Backup.
From S2P Require Import Status Reconcile.

Open Scope Z_scope.

(** ** The objects of a cluster *)

Inductive kind := KCluster | KSet | KService | KConfigMap | KBudget | KClaim | KSecret | KCertificate.

Definition owned (c : KahunaCluster) (k : kind) (key : NamespacedName) : Prop :=
  let ns := kc_Namespace c in
  match k with
  | KCluster => key = clusterKey c
  | KSet => key = (ns, stsName c)
  | KService => key = (ns, peerServiceName c) ∨ key = (ns, clientServiceName c)
  | KConfigMap => key = (ns, configMapName c)
  | KBudget => key = (ns, pdbName c)
  | KClaim => ∃ b, spec_Backup (kc_Spec c) = Some b ∧ is_Some (bv_Claim (bk_Volume b)) ∧
                   key = (ns, backupClaimName c b)
  | KSecret => key = (ns, certPasswordSecretName c) ∨ key = (ns, backupMACSecretName c) ∨
               is_Some (tls_CertManager (spec_TLS (kc_Spec c))) ∧ key = (ns, tlsSecretName c)
  | KCertificate => key = (ns, certificateName c)
  end.

Lemma owned_ext c c' k key :
  kc_Name c' = kc_Name c → kc_Namespace c' = kc_Namespace c → kc_Spec c' = kc_Spec c →
  owned c' k key → owned c k key.
Proof.
  intros Hn Hns Hs. unfold owned, clusterKey, stsName, peerServiceName, clientServiceName, configMapName, pdbName,
    backupClaimName, certPasswordSecretName, backupMACSecretName, tlsSecretName, certificateName.
  by rewrite Hn, Hns, Hs.
Qed.

(** ** What a write may disturb *)

(** The name of an object. *)
Class Keyed (T : Type) := { keyed_kind : kind; keyed_meta : T → ObjectMeta }.
Definition keyOf {T} `{!Keyed T} (o : T) : NamespacedName := (om_Namespace (keyed_meta o), om_Name (keyed_meta o)).
#[export] Instance keyed_Service : Keyed Service := {| keyed_kind := KService; keyed_meta := svc_Meta |}.
#[export] Instance keyed_ConfigMap : Keyed ConfigMap := {| keyed_kind := KConfigMap; keyed_meta := cfg_Meta |}.
#[export] Instance keyed_PDB : Keyed PodDisruptionBudget := {| keyed_kind := KBudget; keyed_meta := pdb_Meta |}.
#[export] Instance keyed_PVC : Keyed PersistentVolumeClaim := {| keyed_kind := KClaim; keyed_meta := pvc_Meta |}.
#[export] Instance keyed_Secret : Keyed Secret := {| keyed_kind := KSecret; keyed_meta := sec_Meta |}.
#[export] Instance keyed_Certificate : Keyed Certificate := {| keyed_kind := KCertificate; keyed_meta := crt_Meta |}.
#[export] Instance keyed_StatefulSet : Keyed StatefulSet := {| keyed_kind := KSet; keyed_meta := sts_Meta |}.

(** Reading keeps [I] and returns the object that was asked for; writing an object that [may] be written
    keeps [I]; setting an owner reference leaves the name of an object alone. *)
Class OwnObject {W} (I : W → Prop) (may : kind → NamespacedName → Prop) (T : Type)
    `{!KubeObject W T, !Keyed T} : Prop := {
  own_Get key : triple I (kube_Get (T := T) key) (λ r, ∀ o, r = Ok o → keyOf o = key);
  own_Create (o : T) : may keyed_kind (keyOf o) → keeps I (kube_Create o);
  own_Delete (o : T) pre : may keyed_kind (keyOf o) → keeps I (kube_Delete o pre);
  own_CreateOrUpdate key (f : T → result T) : may keyed_kind key → keeps I (kube_CreateOrUpdate key f);
  own_SetControllerReference cluster (o o' : T) : SetControllerReference cluster o = Ok o' → keyOf o' = keyOf o;
}.

Section frame.
Context {W : Type} (I : W → Prop) (may : kind → NamespacedName → Prop).
Context `{!Client W, !Clock W, !Random W, !KubeCluster W}.
Context `{!KubeObject W StatefulSet, !KubeObject W Service, !KubeObject W ConfigMap}.
Context `{!KubeObject W PodDisruptionBudget, !KubeObject W PersistentVolumeClaim}.
Context `{!KubeObject W Secret, !KubeObject W Certificate}.
Context `{!Conversions, !QuantityAPI, !ConditionsAPI, !SemanticAPI, !LabelSelectors}.
Context `{!Format, !Pkcs12, !Base64, !Cron}.
Context `{!QuietClient I, !QuietRest I}.
Context `{!OwnObject I may StatefulSet, !OwnObject I may Service, !OwnObject I may ConfigMap}.
Context `{!OwnObject I may PodDisruptionBudget, !OwnObject I may PersistentVolumeClaim}.
Context `{!OwnObject I may Secret, !OwnObject I may Certificate}.

Instance own_read {T} `{!KubeObject W T, !Keyed T, !OwnObject I may T} : QuietRead I T.
Proof. intros key. eapply triple_weaken; [apply own_Get|done]. Qed.
Hint Resolve own_read : quiet.

Section cluster.
Context (c : KahunaCluster) (Hmay : ∀ k key, owned c k key → may k key).

Lemma frame_services l :
  Forall (λ s, owned c KService (keyOf s)) l → keeps I (putServices c l).
Proof.
  induction 1 as [|s l Hs Hl IH]; simpl; [keeping|]. apply keeps_bind.
  - apply own_CreateOrUpdate, Hmay, Hs.
  - intros [?|?]; [done|keeping].
Qed.

Lemma frame_keystorePassword : keeps I (reconcileKeystorePassword c).
Proof.
  unfold reconcileKeystorePassword. destruct (_ || _); [keeping|].
  apply keeps_bind; [keeping|]. intros [?|e]; [keeping|]. destruct (negb (IsNotFound e)); [keeping|].
  apply keeps_bind; [apply quiet_Rand|]. intros [buf|?]; [|keeping].
  destruct (SetControllerReference c _) as [secret|?] eqn:Hs; [|keeping].
  apply keeps_bind; [|keeping]. apply own_Create, Hmay.
  rewrite (own_SetControllerReference _ _ _ Hs). by left.
Qed.

Lemma frame_readKeystore : is_Some (tls_CertManager (spec_TLS (kc_Spec c))) →
  triple I (readKeystore c) (λ r, ∀ k, r = Ok (Some k) → keyOf (ks_secret k) = (kc_Namespace c, tlsSecretName c)).
Proof.
  intros _. unfold readKeystore. destruct (tlsPasswordRef c) as [ref|]; [|by apply triple_ret].
  eapply triple_bind; [apply own_Get|]. intros [secret|e] Hs;
    [|apply triple_ret; intros k; by destruct (IgnoreNotFound e)].
  destruct (sec_Data secret !! keystoreKey c) as [ks|]; [|by apply triple_ret].
  eapply triple_bind; [apply own_Get|]. intros [pw|e] _;
    apply triple_ret; [destruct (sec_Data pw !! sks_Key ref)|destruct (IgnoreNotFound e)]; intros k [=].
  subst k. by apply Hs.
Qed.

Lemma frame_certificate : keeps I (reconcileCertificate c).
Proof.
  unfold reconcileCertificate. destruct (tls_CertManager _) as [cm|] eqn:Hcm; [|keeping].
  apply (keeps_bind_post I _ _ (λ d, om_Name (crt_Meta d) = certificateName c)).
  { apply triple_lift. intros d. unfold desiredCertificate. by intros (? & _ & [= <-])%bind_Some. }
  intros d Hd. apply keeps_bind; [apply own_CreateOrUpdate, Hmay; by rewrite Hd|].
  intros [?|?]; [|keeping]. unfold replaceStaleKeystore. rewrite Hcm. cbn [is_nil].
  eapply keeps_bind_post; [apply frame_readKeystore; by rewrite Hcm|].
  intros [[k|]|e] Hk; [|keeping..]. destruct (negb (staleKeystore c k)); [keeping|].
  apply keeps_bind; [|keeping]. apply own_Delete, Hmay. rewrite (Hk k eq_refl). right. right.
  split; [by rewrite Hcm|done].
Qed.

Lemma frame_backupResources : keeps I (reconcileBackupResources c).
Proof.
  unfold reconcileBackupResources. destruct (spec_Backup (kc_Spec c)) as [b|] eqn:Hb; [|keeping].
  apply keeps_bind.
  - destruct (bv_Claim (bk_Volume b)) as [claim|] eqn:Hcl; [|keeping].
    assert (owned c KClaim (keyOf (desiredBackupClaim c b claim))) as Hown by (exists b; by rewrite Hb, Hcl).
    unfold reconcileBackupClaim. eapply keeps_bind_post; [apply own_Get|]. intros [existing|e] He.
    + destruct (claimNeedsReplacing _ _); [|keeping]. apply keeps_bind; [|keeping].
      apply own_Delete, Hmay. by rewrite (He existing eq_refl).
    + destruct (IsNotFound e); [|keeping]. apply keeps_bind; [|keeping]. by apply own_Create, Hmay.
  - intros [e|]; [keeping|]. destruct (bk_MACKeySecretRef b); [keeping|].
    unfold reconcileBackupKey. apply keeps_bind; [keeping|]. intros [?|e]; [keeping|].
    destruct (IsNotFound e); [|keeping]. apply keeps_bind; [apply quiet_Rand|]. intros [k|?]; [|keeping].
    apply keeps_bind; [|keeping]. apply own_Create, Hmay. right. by left.
Qed.

Lemma frame_PDB : keeps I (reconcilePDB c).
Proof.
  unfold reconcilePDB. destruct (negb (wantsPDB c)); (apply keeps_bind; [|keeping]).
  - by apply own_Delete, Hmay.
  - by apply own_CreateOrUpdate, Hmay.
Qed.

Lemma frame_step context m next : keeps I m → keeps I next → keeps I (step context m next).
Proof. intros Hm Hn. unfold step. apply keeps_bind; [done|]. intros [?|]; [keeping|done]. Qed.

Lemma frame_objects n : keeps I (reconcileObjects c n).
Proof.
  unfold reconcileObjects. repeat apply frame_step.
  - apply frame_keystorePassword.
  - apply frame_certificate.
  - apply frame_services. repeat apply Forall_cons_2; [by left|by right|done].
  - unfold reconcileConfigMap. apply keeps_bind; [|keeping]. by apply own_CreateOrUpdate, Hmay.
  - apply frame_PDB.
  - apply frame_backupResources.
  - keeping.
Qed.

Lemma frame_statefulSet b m pl perr pods : keeps I (reconcileStatefulSet c b m pl perr pods).
Proof.
  unfold reconcileStatefulSet. apply keeps_bind; [keeping|]. intros [existing|e].
  - apply keeps_bind; [by apply keeps_plannedStep|]. intros p. by apply own_CreateOrUpdate, Hmay.
  - destruct (IsNotFound e); [|keeping].
    destruct (SetControllerReference c (desiredStatefulSet c 0)) as [d|?] eqn:Hd; [|keeping].
    apply own_Create, Hmay. by rewrite (own_SetControllerReference _ _ _ Hd).
Qed.

End cluster.

(** ** The whole pass *)

(** The KahunaCluster is an object too: it is read by its name, and its status written under it. *)
Class OwnCluster `{!KubeCluster W} : Prop := {
  own_GetCluster key : triple I (kube_GetCluster key) (λ r, ∀ c, r = Ok c → clusterKey c = key);
  own_UpdateStatus c : may KCluster (clusterKey c) → keeps I (kube_UpdateStatus c);
}.
Context `{!OwnCluster, !UpdateLaws W}.

Definition sameObject (c c' : KahunaCluster) : Prop :=
  kc_Name c' = kc_Name c ∧ kc_Namespace c' = kc_Namespace c ∧ kc_Spec c' = kc_Spec c.

Lemma frame_pin c : may KCluster (clusterKey c) →
  triple I (pinBootstrapSize c) (λ r, ∀ c', r = Ok c' → sameObject c c').
Proof.
  intros Hc. unfold pinBootstrapSize. destruct (_ =? 0); [|by apply triple_ret; intros c' [= <-]].
  set (c1 := c <| kc_Status := _ |>).
  apply (triple_bind I _ _ (λ r, ∀ c', r = Ok c' → c' = c1)).
  - intros w Hw. destruct (own_UpdateStatus c1 Hc w Hw) as [HI _]. split; [done|].
    intros a Ha c' ->. destruct (kube_UpdateStatus c1 w) as [o w'] eqn:Eu. simpl in Ha. subst o.
    by eapply UpdateStatus_stored.
  - intros [c'|e] Hr; apply triple_ret; [|done]. intros ? [= <-]. by rewrite (Hr c' eq_refl).
Qed.

Lemma frame_status c persisted sts pods m : may KCluster (clusterKey c) →
  keeps I (reconcileStatus c persisted sts pods m).
Proof.
  intros Hc. unfold reconcileStatus. apply keeps_bind; [apply quiet_Get|]. intros observed.
  destruct (LabelSelectorAsSelector (selector c)) as [label|e]; [|keeping].
  eapply keeps_bind_post; [apply (putConditions_same I)|]. intros st _.
  destruct (negb _); [|keeping]. apply keeps_bind; [by apply own_UpdateStatus|keeping].
Qed.

Lemma frame_cluster c r b pods :
  (∀ k key, owned c k key → may k key) → keeps I (reconcileCluster r c b pods).
Proof.
  intros Hmay. unfold reconcileCluster.
  apply keeps_bind; [apply (keeps_readMembership I)|]. intros mr.
  apply keeps_bind; [apply (keeps_readPlacement I)|]. intros pr. destruct (placementView pr) as [pl perr].
  eapply keeps_bind_post; [apply (reconcileAutoscaling_same I)|].
  intros [c1 traffic] (A1 & A2 & _ & A4 & _). simpl in *.
  assert (∀ k key, owned c1 k key → may k key) as Hmay1 by (intros; by eapply Hmay, owned_ext).
  apply keeps_bind; [by apply frame_statefulSet|]. intros [sts|e]; [|keeping].
  eapply keeps_bind_post; [apply (reconcileBackup_same I)|].
  intros [[[c2 backups] sp] wake] [(B1 & B2 & _) _]. simpl in *.
  apply keeps_bind; [|keeping]. apply frame_status, Hmay1. unfold owned, clusterKey. by rewrite B1, B2.
Qed.

(** C8: a pass writes only the objects of its own cluster.  Whatever the API server and the nodes answer, a
    property of the world that survives every write to an object of the cluster (its status included)
    survives the pass, also when the pass fails or panics half-way. *)
Theorem Reconcile_writes_own r req w c w1 :
  kube_GetCluster req w = (Some (Ok c), w1) → I w1 → (∀ k key, owned c k key → may k key) →
  I (Reconcile r req w).2.
Proof.
  intros Hget HI Hmay. unfold Reconcile, mbind at 1, go_bind at 1. rewrite Hget.
  refine (proj1 ((_ : keeps I _) w1 HI)).
  eapply keeps_bind_post; [apply frame_pin, Hmay; done|]. intros [c'|e] Hc; [|keeping].
  destruct (Hc c' eq_refl) as (Hn & Hns & Hs).
  assert (∀ k key, owned c' k key → may k key) as Hmay' by (intros; by eapply Hmay, owned_ext).
  apply keeps_bind; [by apply frame_objects|]. intros [e|]; [keeping|].
  apply keeps_bind; [apply quiet_ListPods|]. intros [pods|e]; [|keeping].
  by apply frame_cluster.
Qed.
End frame.

(** ** When the objects of two clusters are disjoint *)

Lemma ascii_list_app (a b : string) :
  String.list_ascii_of_string (a +:+ b) = String.list_ascii_of_string a ++ String.list_ascii_of_string b.
Proof. induction a; simpl; [done|]. by f_equal. Qed.

(** Two names with suffixes that end in different letters are different. *)
Lemma suffix_neq (a b s t : string) :
  last (String.list_ascii_of_string s) ≠ None → last (String.list_ascii_of_string t) ≠ None →
  last (String.list_ascii_of_string s) ≠ last (String.list_ascii_of_string t) → a +:+ s ≠ b +:+ t.
Proof.
  intros Hs Ht Hne Heq. apply (f_equal (λ x, last (String.list_ascii_of_string x))) in Heq.
  rewrite !ascii_list_app, !last_app in Heq. repeat case_match; congruence.
Qed.

(** Names the user did not choose: the CRD accepts a keystore Secret or cert-manager, and a claim or the name
    of one, but not both. *)
Definition ownNames (c : KahunaCluster) : Prop :=
  (is_Some (tls_CertManager (spec_TLS (kc_Spec c))) → tls_SecretRef (spec_TLS (kc_Spec c)) = None) ∧
  (∀ b, spec_Backup (kc_Spec c) = Some b → is_Some (bv_Claim (bk_Volume b)) → bv_ClaimName (bk_Volume b) = None).

Lemma ownNames_secret c : ownNames c → is_Some (tls_CertManager (spec_TLS (kc_Spec c))) →
  tlsSecretName c = kc_Name c +:+ "-tls".
Proof. intros [Hn _] Hs. unfold tlsSecretName. by rewrite (Hn Hs). Qed.

Lemma ownNames_claim c b : ownNames c → spec_Backup (kc_Spec c) = Some b → is_Some (bv_Claim (bk_Volume b)) →
  backupClaimName c b = kc_Name c +:+ "-backup".
Proof. intros [_ Hn] Hb Hs. unfold backupClaimName. by rewrite (Hn b Hb Hs). Qed.

(** An object of two clusters is the client Service of one and the peer Service of the other, unless they are
    the same cluster. *)
Lemma owned_shared a b k key : ownNames a → ownNames b → owned a k key → owned b k key →
  kc_Namespace a = kc_Namespace b ∧
  (kc_Name a = kc_Name b ∨ k = KService ∧ (kc_Name b = kc_Name a +:+ "-peer" ∨ kc_Name a = kc_Name b +:+ "-peer")).
Proof.
  intros Ha Hb. destruct k; simpl.
  - intros -> [=]. split; [done|]. by left.
  - intros -> [=]. split; [done|]. by left.
  - intros [-> | ->] [[= ? Hn] | [= ? Hn]]; (split; [done|]); unfold peerServiceName, clientServiceName in Hn.
    + left. by apply str_app_inj_r in Hn.
    + right. by split; [|left].
    + right. by split; [|right].
    + by left.
  - intros -> [= ? Hn%str_app_inj_r]. split; [done|]. by left.
  - intros -> [=]. split; [done|]. by left.
  - intros (ba & Hba & Hca & ->) (bb & Hbb & Hcb & [= ? Hn]). split; [done|]. left.
    rewrite (ownNames_claim a ba Ha Hba Hca), (ownNames_claim b bb Hb Hbb Hcb) in Hn. by apply str_app_inj_r in Hn.
  - intros [-> |[-> |[Hca ->]]] [[= ? Hn]|[[= ? Hn]|[Hcb [= ? Hn]]]]; (split; [done|]);
      try rewrite (ownNames_secret a Ha Hca) in Hn; try rewrite (ownNames_secret b Hb Hcb) in Hn;
      unfold certPasswordSecretName, backupMACSecretName in Hn;
      try (left; by apply str_app_inj_r in Hn); exfalso; revert Hn; by apply suffix_neq.
  - intros -> [= ? Hn%str_app_inj_r]. split; [done|]. by left.
Qed.

(** C36: when two clusters share an object.  They do exactly when they are the same cluster, or are in one
    namespace and the name of one is the name of the other followed by -peer: the peer Service of the
    second then is the client Service of the first.  In every other case the objects of two clusters are
    disjoint, whatever their specs ask for. *)
Theorem owned_disjoint a b : ownNames a → ownNames b →
  (∃ k key, owned a k key ∧ owned b k key) ↔
  kc_Namespace a = kc_Namespace b ∧
  (kc_Name a = kc_Name b ∨ kc_Name b = kc_Name a +:+ "-peer" ∨ kc_Name a = kc_Name b +:+ "-peer").
Proof.
  intros Ha Hb. split.
  - intros (k & key & Ho & Ho'). destruct (owned_shared a b k key Ha Hb Ho Ho') as [? [?|[_ ?]]]; tauto.
  - intros [Hns [Hn|[Hn|Hn]]].
    + exists KSet, (kc_Namespace a, kc_Name a). simpl. unfold stsName. by rewrite Hns, Hn.
    + exists KService, (kc_Namespace a, peerServiceName a). split; [by left|right].
      unfold peerServiceName, clientServiceName. by rewrite Hn, Hns.
    + exists KService, (kc_Namespace b, peerServiceName b). split; [right|by left].
      unfold peerServiceName, clientServiceName. by rewrite Hn, Hns.
Qed.

(** ** Witnesses *)

Definition namedCluster (name : string) : KahunaCluster := mkKahunaCluster name "kv" 1 (demoSpec 3) zero_Status.

Lemma owned_disjoint_witness :
  (∃ k key, owned (namedCluster "x") k key ∧ owned (namedCluster "x-peer") k key) ∧
  ¬ (∃ k key, owned (namedCluster "x") k key ∧ owned (namedCluster "y") k key).
Proof.
  assert (∀ name, ownNames (namedCluster name)) as Hown by (intros name; split; [by intros [? [=]]|by intros b [=]]).
  split.
  - apply (owned_disjoint (namedCluster "x") (namedCluster "x-peer") (Hown "x") (Hown "x-peer")).
    split; [reflexivity|]. right. left. reflexivity.
  - intros H. apply (owned_disjoint (namedCluster "x") (namedCluster "y") (Hown "x") (Hown "y")) in H.
    destruct H as [_ [H|[H|H]]]; discriminate H.
Defined.

(** An API server that records every write by kind and name. *)
Abbreviation writeLog := (list (kind * NamespacedName)).

Definition recordedObjects {T} `{!Keyed T} (get : NamespacedName → result T) (base : T) : KubeObject writeLog T := {|
  kube_Get key := mret (get key);
  kube_Create o := λ w, (Some (Ok o), (keyed_kind, keyOf o) :: w);
  kube_Delete o _ := λ w, (Some None, (keyed_kind, keyOf o) :: w);
  kube_CreateOrUpdate key f := λ w, (Some (f base), (keyed_kind, key) :: w);
  SetControllerReference _ o := Ok o;
|}.

#[local] Instance recordedCluster : KubeCluster writeLog := {|
  kube_GetCluster key := mret (if bool_decide (key = clusterKey formed) then Ok formed else Err (ErrorText "unused"));
  kube_UpdateStatus c := λ w, (Some (Ok c), (KCluster, clusterKey c) :: w);
  kube_ListPods _ _ := mret (Ok (demoSetPods 3));
  kube_ListClaimWarnings _ _ := mret (Ok []);
|}.

#[local] Instance recordedClient : Client writeLog := {|
  client_Membership _ := mret (Ok (fullRoster formed 3));
  client_Health _ := mret (Err (ErrorText "connection refused"));
  client_Leave _ := mret (Ok (mkLeaveResult true OutcomeCommitted 7 false ""));
  client_Placement _ := mret (Err ErrPlacementUnsupported);
  client_Metrics _ := mret (Err (ErrorText "connection refused"));
  client_TakeCoordinatedBackup _ := mret (Err (ErrorText "connection refused"));
  client_TakeIncrementalBackup _ _ := mret (Err (ErrorText "connection refused"));
|}.

Definition unread {T} (key : NamespacedName) : result T := Err (ErrorText "unused").

#[local] Instance recordedClock : Clock writeLog := mret Hour.
#[local] Instance recordedRandom : Random writeLog := λ _, mret (Ok "r").
#[local] Instance recordedSets : KubeObject writeLog StatefulSet :=
  recordedObjects (λ key, Ok ((demoSet 3 3) <| sts_Meta := mkObjectMeta key.2 key.1 ∅ |>)) (demoSet 3 3).
#[local] Instance recordedServices : KubeObject writeLog Service :=
  recordedObjects unread (desiredClientService formed).
#[local] Instance recordedConfigMaps : KubeObject writeLog ConfigMap :=
  recordedObjects unread (mkConfigMap (mkObjectMeta "" "" ∅) ∅).
#[local] Instance recordedBudgets : KubeObject writeLog PodDisruptionBudget :=
  recordedObjects unread (desiredPDB formed).
#[local] Instance recordedClaims : KubeObject writeLog PersistentVolumeClaim :=
  recordedObjects unread (volumeClaim "" (mkVolumeSpec 0 None [])).
#[local] Instance recordedSecrets : KubeObject writeLog Secret :=
  recordedObjects unread (demoSecret "" ∅ ∅).
#[local] Instance recordedCertificates : KubeObject writeLog Certificate :=
  recordedObjects unread (mkCertificate (mkObjectMeta "" "" ∅) "" ∅ "" [] ("", "") None None).
#[local] Existing Instance demoConv.
#[local] Existing Instance demoQuantities.
#[local] Existing Instance demoCron.
#[local] Existing Instance plainConditions.
#[local] Existing Instance plainSemantic.
#[local] Existing Instance plainFormat.
#[local] Existing Instance logSelectors.
#[local] Existing Instance logPkcs12.
#[local] Existing Instance logBase64.

Definition ownLog (w : writeLog) : Prop := Forall (λ o, owned formed o.1 o.2) w.

Lemma recorded_own {T} `{!Keyed T} get base : (∀ key o, get key = Ok o → keyOf o = key) →
  @OwnObject writeLog ownLog (owned formed) T (recordedObjects get base) _.
Proof.
  intros Hget. split; simpl.
  - intros key. apply triple_ret. apply Hget.
  - intros o Ho w Hw. split; [by constructor|done].
  - intros o pre Ho w Hw. split; [by constructor|done].
  - intros key f Hk w Hw. split; [by constructor|done].
  - by intros c o o' [= <-].
Qed.

Lemma Reconcile_writes_own_witness :
  let r := mkReconciler ∅ newRunner in
  (5 <=? length (Reconcile r (clusterKey formed) []).2)%nat = true ∧
  ownLog (Reconcile r (clusterKey formed) []).2.
Proof.
  intros r. split; [vm_compute; reflexivity|].
  assert (∀ {A} (a : A), keeps ownLog (mret a)) as Hq by (intros; apply keeps_ret).
  assert (UpdateLaws writeLog) by (intros c w c' w' E; by injection E as <-).
  assert (QuietClient ownLog) by (split; intros; apply Hq).
  assert (QuietRest ownLog) by (split; intros; apply Hq).
  assert (OwnCluster ownLog (owned formed)).
  { split.
    - intros key. apply triple_ret. intros c. case_bool_decide as Hk; [|done]. by intros [= <-].
    - intros c Hc w Hw. split; [by constructor|done]. }
  assert (OwnObject ownLog (owned formed) StatefulSet) by (apply recorded_own; by intros [? ?] o [= <-]).
  assert (OwnObject ownLog (owned formed) Service) by (by apply recorded_own).
  assert (OwnObject ownLog (owned formed) ConfigMap) by (by apply recorded_own).
  assert (OwnObject ownLog (owned formed) PodDisruptionBudget) by (by apply recorded_own).
  assert (OwnObject ownLog (owned formed) PersistentVolumeClaim) by (by apply recorded_own).
  assert (OwnObject ownLog (owned formed) Secret) by (by apply recorded_own).
  assert (OwnObject ownLog (owned formed) Certificate) by (by apply recorded_own).
  apply (Reconcile_writes_own ownLog (owned formed) r (clusterKey formed) [] formed []);
    [reflexivity|constructor|done].
Defined.
