(* ===== verification/Settle.v ===== *)
(** * The status comes to rest

    A status update is itself a change of the watched object, so it triggers another pass: unless that
    pass finds nothing to write, the controller feeds itself.  [computeStatus] is idempotent, setting a
    condition to what it already says changes nothing, removing one that is not there neither, and so the
    status that one pass of [Reconcile] (internal/controller/kahunacluster_controller.go) writes is the
    last one until something that the passes read changes: [status_settles]. *)

From Stdlib Require Import ZArith Lia.
From stdpp Require Import base numbers strings pretty sorting gmap list.
From S2P Require Import Prelude GoStrings Types Naming GoFloat Kahuna Placement Roster Plan Conditions.
From S2P Require Import Autoscaler BackupSchedule BackupRunner Sha256 Entrypoint Resources Kube Certificate Backup.
From S2P Require Import Status Reconcile.

Open Scope Z_scope.

(** ** [computeStatus] is idempotent *)

Section idempotent.
Context (c : KahunaCluster) (st : KahunaClusterStatus).

(** The cluster with another status that asks for the same size. *)
Let c' := c <| kc_Status := st |>.
Hypothesis same_size : st_Autoscaling st = st_Autoscaling (kc_Status c).

Lemma desiredReplicas_status : desiredReplicas c' = desiredReplicas c.
Proof. unfold desiredReplicas, initialAutoscaledReplicas. simpl. by rewrite same_size. Qed.

Lemma buildMemberStatus_status m pods : buildMemberStatus c' m pods = buildMemberStatus c m pods.
Proof.
  unfold buildMemberStatus. f_equal. apply list_fmap_ext. intros _ mem _. unfold memberStatusOf.
  assert (endpointToPod c' pods = endpointToPod c pods) as ->; [|done].
  unfold endpointToPod. by rewrite desiredReplicas_status.
Qed.
End idempotent.

(** What each stage of [computeStatus] has settled in a status, the later ones leave settled. *)
Section stages.
Context (c : KahunaCluster) (sts : StatefulSet) (pods : list Pod) (m : option Membership) (label : string).
Context (desired : Z).

Definition setFixed st := observeSet c sts pods label st = st.
Definition rosterFixed st := observeRoster c pods m st = st.
Definition latchFixed st := latchBootstrap m desired st = st.

Ltac stage st :=
  destruct st; unfold setFixed, rosterFixed, latchFixed, observeSet, observeRoster, latchBootstrap;
  repeat case_match; simpl; intros; simplify_eq; (done || simpl in *; congruence).

Lemma observeSet_fixed st : setFixed (observeSet c sts pods label st).
Proof. stage st. Qed.
Lemma observeRoster_keeps st : setFixed st → setFixed (observeRoster c pods m st).
Proof. stage st. Qed.
Lemma observeRoster_fixed st : rosterFixed (observeRoster c pods m st).
Proof. stage st. Qed.
Lemma latch_keeps_set st : setFixed st → setFixed (latchBootstrap m desired st).
Proof. stage st. Qed.
Lemma latch_keeps_roster st : rosterFixed st → rosterFixed (latchBootstrap m desired st).
Proof. stage st. Qed.
Lemma latch_fixed st : latchFixed (latchBootstrap m desired st).
Proof. stage st. Qed.

(** The phase and the conditions play no part in any of them. *)
Lemma rest_fixed st phase conds : setFixed st → rosterFixed st → latchFixed st →
  let st' := st <| st_Phase := phase |> <| st_Conditions := conds |> in
  setFixed st' ∧ rosterFixed st' ∧ latchFixed st'.
Proof. intros Hs Hr Hl. split_and!; [revert Hs|revert Hr|revert Hl]; clear; stage st. Qed.
End stages.

(** Computing the status of a cluster that already has the computed one, whatever its conditions, changes
    nothing. *)
Lemma computeStatus_idem c sts pods m label st :
  sameBut_conditions st (computeStatus c sts pods m label) →
  computeStatus (c <| kc_Status := st |>) sts pods m label = st.
Proof.
  intros Hst.
  assert (st_Autoscaling st = st_Autoscaling (kc_Status c)) as Ha.
  { rewrite (sameBut_conditions_field st_Autoscaling st _ (λ _ _, eq_refl) Hst).
    apply (computeStatus_latch c sts pods m label). }
  assert (∃ s2, let p := phaseOf s2 (desiredReplicas c) (negb (is_nil m))
                           (progressingIn c s2 (desiredReplicas c) (negb (is_nil m))) in
                setFixed c sts pods label s2 ∧ rosterFixed c pods m s2 ∧ latchFixed m (desiredReplicas c) s2 ∧
                st = s2 <| st_Phase := p |> <| st_Conditions := st_Conditions st |>) as (s2 & Hs & Hr & Hl & Heq).
  { exists (latchBootstrap m (desiredReplicas c) (observeRoster c pods m (observeSet c sts pods label (kc_Status c)))).
    pose proof (observeSet_fixed c sts pods label (kc_Status c)) as F1.
    pose proof (observeRoster_keeps c sts pods m label _ F1) as F2.
    pose proof (observeRoster_fixed c pods m (observeSet c sts pods label (kc_Status c))) as F3.
    split_and!; [by apply latch_keeps_set|by apply latch_keeps_roster|apply latch_fixed|].
    unfold computeStatus in Hst. revert Hst. generalize (latchBootstrap m (desiredReplicas c)
      (observeRoster c pods m (observeSet c sts pods label (kc_Status c)))).
    intros s2. unfold sameBut_conditions. destruct st, s2; simpl. by intros [=]; simplify_eq. }
  set (p := phaseOf _ _ _ _) in Heq.
  destruct (rest_fixed c sts pods m label (desiredReplicas c) s2 p (st_Conditions st) Hs Hr Hl) as (G1 & G2 & G3).
  rewrite <- Heq in G1, G2, G3. set (c' := c <| kc_Status := st |>).
  pose proof (desiredReplicas_status c st Ha : desiredReplicas c' = _) as Hd.
  pose proof (λ m, buildMemberStatus_status c st Ha m pods : buildMemberStatus c' m pods = _) as Hmem.
  assert (latchBootstrap m (desiredReplicas c') (observeRoster c' pods m (observeSet c' sts pods label st)) = st)
    as Hst'.
  { rewrite Hd. change (observeSet c' sts pods label st) with (observeSet c sts pods label st). rewrite G1.
    assert (observeRoster c' pods m st = observeRoster c pods m st) as ->; [|by rewrite G2].
    unfold observeRoster. destruct m; [|done]. by rewrite Hmem. }
  unfold computeStatus. change (kc_Status c') with st. rewrite Hst', Hd.
  match goal with |- set st_Phase (λ _, ?phase) _ = _ => assert (phase = st_Phase st) as -> end;
    [|by destruct st].
  clear -Heq. revert Heq. generalize (st_Conditions st). intros conds ->. reflexivity.
Qed.

(** ** The conditions *)

Lemma conditionIs_clear l1 l2 ty a r msg :
  clearTransition <$> l1 = clearTransition <$> l2 → conditionIs l1 ty a r msg → conditionIs l2 ty a r msg.
Proof.
  revert l2. induction l1 as [|c l1 IH]; intros [|d l2]; simpl; try done.
  intros Heq. injection Heq as E1 E2 E3 E4 Hrest. unfold conditionIs. rewrite !findCondition_cons, E1.
  case_decide; [|by apply IH]. intros (x & [= <-] & ? & ? & ?). exists d. split; [done|]. split_and!; congruence.
Qed.

(** Nothing but the conditions counts for what the conditions say, up to their transition times. *)
Lemma conditionsSay_equal cluster cluster' known ready msg a b :
  kc_Spec cluster' = kc_Spec cluster → desiredReplicas cluster' = desiredReplicas cluster →
  sameBut_conditions a b → clearTransition <$> st_Conditions b = clearTransition <$> st_Conditions a →
  conditionsSay cluster known ready msg b → conditionsSay cluster' known ready msg a.
Proof.
  intros Hs Hd Hab Hc. unfold conditionsSay, progressMessage, progressingIn, rosterConvergedIn, imageCurrentIn.
  pose proof (λ A f, @sameBut_conditions_field A f a b) as Hf.
  rewrite Hs, Hd, (Hf _ st_ReadyReplicas (λ _ _, eq_refl) Hab), (Hf _ st_Voters (λ _ _, eq_refl) Hab),
    (Hf _ st_Learners (λ _ _, eq_refl) Hab), (Hf _ st_CurrentImage (λ _ _, eq_refl) Hab).
  intros (A1 & A2 & A3 & A4). split_and!; by eapply conditionIs_clear.
Qed.

(** ** The pass after a write *)

(** Reading the clock does not panic. *)
Class ClockRuns (W : Type) `{!Clock W} : Prop := Now_runs (w : W) : ∃ t w', time_Now w = (Some t, w').

Section settle.
Context {W : Type} `{!KubeObject W StatefulSet, !KubeObject W Secret, !Clock W}.
Context `{!ConditionsAPI, !ConditionsLaws, !ConditionsStable, !SemanticAPI, !SemanticLaws}.
Context `{!LabelSelectors, !Format, !Pkcs12, !ClockRuns W}.

Lemma putCondition_stable st ty active tr fr msg w :
  conditionIs (st_Conditions st) ty active (if active then tr else fr) msg →
  ∃ w', putCondition st ty active tr fr msg w = (Some st, w').
Proof.
  intros Hc. destruct (Now_runs w) as (t & w' & Ht). exists w'.
  unfold putCondition, mbind, go_bind. rewrite Ht. unfold setCondition. cbv zeta.
  rewrite set_unchanged by done. by destruct st.
Qed.

Lemma putConditions_stable cluster st known ready msg w w1 :
  certificateReady cluster w = (Some (ready, msg), w1) → conditionsSay cluster known ready msg st →
  ∃ w', putConditions cluster st known w = (Some st, w').
Proof.
  intros Hcert (A1 & A2 & A3 & A4). unfold putConditions. setoid_rewrite go_bind_Some.
  destruct (putCondition_stable _ _ _ "KeystoreAvailable" "KeystorePending" _ w1 A1) as [w2 E2].
  destruct (putCondition_stable _ _ _ "Converging" "Converged" _ w2 A2) as [w3 E3].
  destruct (putCondition_stable _ _ _ "RosterMatchesSpec" "RosterDiffers" _ w3 A3) as [w4 E4].
  destruct (putCondition_stable _ _ _ "QuorumReady" "QuorumLost" _ w4 A4) as [w5 E5].
  exists w5, (ready, msg), w1. split; [done|].
  apply go_bind_Some. exists st, w2. split; [done|].
  apply go_bind_Some. exists st, w3. split; [done|].
  apply go_bind_Some. by exists st, w4.
Qed.

(** The status [reconcileStatus] arrives at from what it reads: the set [sts'] it computes the status from
    and the state of the keystore. *)
Definition arrivesAt (cluster : KahunaCluster) (sts : StatefulSet) (pods : list Pod) (m : option Membership)
    (w : W) (sts' : StatefulSet) (ready : bool) (msg : string) (st : KahunaClusterStatus) (w' : W) : Prop :=
  ∃ observed label w1 w2,
    kube_Get (T := StatefulSet) (stsKey cluster) w = (Some observed, w1) ∧
    sts' = match observed with Ok s => s | Err _ => sts end ∧
    LabelSelectorAsSelector (selector cluster) = Ok label ∧
    certificateReady cluster w1 = (Some (ready, msg), w2) ∧
    putConditions cluster (computeStatus cluster sts' pods m label) (negb (is_nil m)) w1 = (Some st, w').

(** From a stored status that equals the one arrived at, up to transition times, nothing is written:
    [reconcileStatus] runs the same whatever an update of the status would do. *)
Lemma atRest cluster sts pods m w sts' ready msg st w1 stored sts2 w2 w3 w4 :
  arrivesAt cluster sts pods m w sts' ready msg st w1 → equalStatus stored st = true →
  kube_Get (T := StatefulSet) (stsKey cluster) w2 = (Some (Ok sts'), w3) →
  certificateReady cluster w3 = (Some (ready, msg), w4) →
  let c2 := cluster <| kc_Status := stored |> in
  ∃ rq w5, putConditions c2 stored (negb (is_nil m)) w3 = (Some stored, w5) ∧
    ∀ K : KubeCluster W, @reconcileStatus W _ _ K _ _ _ _ _ _ c2 stored sts2 pods m w2 = (Some (Ok (c2, rq)), w5).
Proof.
  intros (observed & label & v1 & v2 & _ & _ & Hlabel & Hready & Hput) [Hsame Hconds]%equalStatus_eq Hget2 Hready2 c2.
  destruct (putConditions_spec _ _ _ _ _ _ Hput) as (ready' & msg' & v3 & Hready' & _ & Hst & Hsay & _).
  rewrite Hready in Hready'. injection Hready' as <- <- <-.
  assert (sameBut_conditions stored (computeStatus cluster sts' pods m label)) as Hstored
    by (unfold sameBut_conditions in *; congruence).
  pose proof (computeStatus_idem cluster sts' pods m label stored Hstored
    : computeStatus c2 sts' pods m label = stored) as Hidem.
  assert (desiredReplicas c2 = desiredReplicas cluster) as Hd.
  { apply desiredReplicas_ext; [done|]. simpl.
    rewrite (sameBut_conditions_field st_Autoscaling stored _ (λ _ _, eq_refl) Hstored).
    apply (computeStatus_latch cluster sts' pods m label). }
  assert (conditionsSay c2 (negb (is_nil m)) ready msg stored) as Hsay2
    by (by apply (conditionsSay_equal cluster c2 _ _ _ _ st)).
  destruct (putConditions_stable c2 stored (negb (is_nil m)) ready msg w3 w4 Hready2 Hsay2) as [w5 Hput2].
  eexists _, w5. split; [done|]. intros K. unfold reconcileStatus. apply go_bind_Some.
  exists (Ok sts'), w3. split; [exact Hget2|].
  cbv zeta. change (selector c2) with (selector cluster). rewrite Hlabel.
  apply go_bind_Some. exists stored, w5. rewrite Hidem. split; [exact Hput2|].
  assert (equalStatus stored stored = true) as -> by (by apply equalStatus_eq). reflexivity.
Qed.
End settle.

(** ** Whole passes *)

Section passes.
Context {W : Type} `{!Client W, !Clock W, !Random W, !KubeCluster W}.
Context `{!KubeObject W StatefulSet, !KubeObject W Service, !KubeObject W ConfigMap}.
Context `{!KubeObject W PodDisruptionBudget, !KubeObject W PersistentVolumeClaim}.
Context `{!KubeObject W Secret, !KubeObject W Certificate}.
Context `{!Conversions, !QuantityAPI, !ConditionsAPI, !SemanticAPI, !LabelSelectors}.
Context `{!Format, !Pkcs12, !Base64, !Cron}.

(** The successful pass of [key] from [w] got as far as [reconcileStatus]: with this cluster, the status
    it found stored, this set, these pods and this roster, in this world. *)
Inductive passStatus (r : reconciler) (key : NamespacedName) (w : W) :
    KahunaCluster → KahunaClusterStatus → StatefulSet → list Pod → option Membership → W → Prop :=
  | status_of c0 c c1 c2 pods mr pr traffic sts backups sp wake w1 w2 w3 w4 w5 w6 w7 w8 w9 :
      kube_GetCluster key w = (Some (Ok c0), w1) →
      pinBootstrapSize c0 w1 = (Some (Ok c), w2) →
      reconcileObjects c (st_BootstrapSize (kc_Status c)) w2 = (Some None, w3) →
      listPods c w3 = (Some (Ok pods), w4) →
      readMembership c pods w4 = (Some mr, w5) →
      readPlacement c pods w5 = (Some pr, w6) →
      reconcileAutoscaling c (st_Bootstrapped (kc_Status c0)) (membershipView mr) (placementView pr).1
        (placementView pr).2 pods (r_traffic r) w6 = (Some (c1, traffic), w7) →
      reconcileStatefulSet c1 (st_Bootstrapped (kc_Status c0)) (membershipView mr) (placementView pr).1
        (placementView pr).2 pods w7 = (Some (Ok sts), w8) →
      reconcileBackup c1 (membershipView mr) pods (r_backups r) w8 = (Some (c2, backups, sp, wake), w9) →
      passStatus r key w c2 (kc_Status c) sts pods (membershipView mr) w9.

Lemma Reconcile_passStatus r key w d r' sp w' c0 w1 :
  kube_GetCluster key w = (Some (Ok c0), w1) → Reconcile r key w = (Some (Ok d, r', sp), w') →
  ∃ c persisted sts pods m w9 c' rq, passStatus r key w c persisted sts pods m w9 ∧
    reconcileStatus c persisted sts pods m w9 = (Some (Ok (c', rq)), w').
Proof.
  intros Hget. unfold Reconcile. intros (r0 & v1 & Hget' & Hr)%go_bind_Some.
  rewrite Hget in Hget'. injection Hget' as <- <-.
  apply go_bind_Some in Hr as ([c|e] & w2 & Hs2 & Hr); [|discriminate Hr].
  apply go_bind_Some in Hr as ([e|] & w3 & Hs3 & Hr); [discriminate Hr|].
  apply go_bind_Some in Hr as ([pods|e] & w4 & Hs4 & Hr); [|discriminate Hr].
  unfold reconcileCluster in Hr.
  apply go_bind_Some in Hr as (mr & w5 & Hs5 & Hr). apply go_bind_Some in Hr as (pr & w6 & Hs6 & Hr).
  destruct (placementView pr) as [pl perr] eqn:Hview.
  apply go_bind_Some in Hr as ([c1 traffic] & w7 & Hs7 & Hr).
  apply go_bind_Some in Hr as ([sts|e] & w8 & Hs8 & Hr); [|discriminate Hr].
  apply go_bind_Some in Hr as ([[[c2 backups] sp'] wake] & w9 & Hs9 & Hr).
  apply go_bind_Some in Hr as ([[c3 rq]|e] & w10 & Hst & Hr); [|discriminate Hr].
  injection Hr as _ _ _ <-. exists c2, (kc_Status c), sts, pods, (membershipView mr), w9, c3, rq. split; [|done].
  apply (status_of r key w c0 c c1 c2 pods mr pr traffic sts backups sp' wake w1 w2 w3 w4 w5 w6 w7 w8 w9);
    rewrite ?Hview; done.
Qed.

(** *** What a cluster without autoscaling, or without backups, keeps of them in its status: nothing *)

Definition noAutoscaling (st : KahunaClusterStatus) : Prop :=
  st_Autoscaling st = None ∧ findCondition (st_Conditions st) ConditionAutoscalingLimited = None.
Definition noBackup (st : KahunaClusterStatus) : Prop :=
  st_Backup st = None ∧ findCondition (st_Conditions st) ConditionBackupFailing = None ∧
  findCondition (st_Conditions st) ConditionBackupVolumeReady = None.

Context `{!ConditionsLaws, !ConditionsStable, !SemanticLaws, !ClockRuns W}.

Lemma reconcileBackup_fields c m pods runner w c' runner' sp wake w' :
  reconcileBackup c m pods runner w = (Some (c', runner', sp, wake), w') →
  kc_Spec c' = kc_Spec c ∧ st_Autoscaling (kc_Status c') = st_Autoscaling (kc_Status c) ∧
  findCondition (st_Conditions (kc_Status c')) ConditionAutoscalingLimited
    = findCondition (st_Conditions (kc_Status c)) ConditionAutoscalingLimited ∧
  (spec_Backup (kc_Spec c) = None → noBackup (kc_Status c')).
Proof.
  unfold reconcileBackup. destruct (spec_Backup (kc_Spec c)) as [spec|].
  - intros (now & w1 & _ & (volume & w2 & _ & Hr)%go_bind_Some)%go_bind_Some.
    apply go_bind_Some in Hr as (c1 & w3 & (t1 & w4 & _ & [= <- _])%go_bind_Some & Hr).
    destruct (runner_poll runner (clusterKey c)) as [job runner1]. destruct (collectBackup _ job now) as [st running].
    destruct (stepBackup _ spec m pods volume st running now) as [[sp1 wake1] [[failing reason] msg]].
    apply go_bind_Some in Hr as (c2 & w5 & (t2 & w6 & _ & [= <- _])%go_bind_Some & Hr).
    injection Hr as <- _ _ _ _. simpl. split_and!; [done|done| |done]. by rewrite !set_other.
  - intros [= <- _ _ _ _]. simpl. split_and!; [done|done|by rewrite !remove_other|]. intros _. unfold noBackup. simpl.
    split_and!; [done| |apply remove_same]. rewrite remove_other by done. apply remove_same.
Qed.

Lemma passStatus_sections r key w c persisted sts pods m w9 :
  passStatus r key w c persisted sts pods m w9 →
  (spec_Autoscaling (kc_Spec c) = None → noAutoscaling (kc_Status c)) ∧
  (spec_Backup (kc_Spec c) = None → noBackup (kc_Status c)).
Proof.
  intros [c0 c' c1 c2 pods' mr pr traffic sts' backups sp wake w1 w2 w3 w4 w5 w6 w7 w8 w9' _ _ _ _ _ _ Ha _ Hb].
  destruct (reconcileBackup_fields _ _ _ _ _ _ _ _ _ _ Hb) as (Hs & Hau & Hcond & Hno). rewrite Hs.
  split; [|done]. intros Hnone. unfold reconcileAutoscaling in Ha.
  destruct (spec_Autoscaling (kc_Spec c')) as [spec|] eqn:E.
  - exfalso. apply go_bind_Some in Ha as (now & v1 & _ & Ha). apply go_bind_Some in Ha as ([cv wt] & v2 & _ & Ha).
    apply go_bind_Some in Ha as ([d t'] & v3 & _ & Ha). apply go_bind_Some in Ha as (cn & v4 & _ & Ha).
    injection Ha as <- _ _. simpl in Hnone. congruence.
  - injection Ha as <- _ _. unfold noAutoscaling. rewrite Hau, Hcond. simpl. split; [done|]. apply remove_same.
Qed.

(** Both survive [reconcileStatus], and storing the status. *)
Lemma findCondition_clear l1 l2 ty :
  clearTransition <$> l1 = clearTransition <$> l2 → findCondition l2 ty = None → findCondition l1 ty = None.
Proof.
  revert l2. induction l1 as [|c l1 IH]; intros [|d l2]; simpl; try done.
  intros Heq. injection Heq as E1 _ _ _ Hrest. rewrite !findCondition_cons, E1. case_decide; [done|by apply IH].
Qed.

Lemma arrivesAt_sections c sts pods m w sts' ready msg st w' stored :
  arrivesAt c sts pods m w sts' ready msg st w' → equalStatus stored st = true →
  (noAutoscaling (kc_Status c) → noAutoscaling stored) ∧ (noBackup (kc_Status c) → noBackup stored).
Proof.
  intros (observed & label & v1 & v2 & _ & _ & _ & _ & Hput) [Hsame Hconds]%equalStatus_eq.
  destruct (putConditions_spec _ _ _ _ _ _ Hput) as (ready' & msg' & v3 & _ & _ & Hst & _ & Hoth).
  assert (sameBut_conditions stored (computeStatus c sts' pods m label)) as Hstored
    by (unfold sameBut_conditions in *; congruence).
  set (st0 := computeStatus c sts' pods m label) in *.
  assert (st_Autoscaling st0 = st_Autoscaling (kc_Status c) ∧ st_Backup st0 = st_Backup (kc_Status c) ∧
          st_Conditions st0 = st_Conditions (kc_Status c)) as (E1 & E2 & E3).
  { unfold st0, computeStatus, observeSet, observeRoster, latchBootstrap. repeat case_match; done. }
  rewrite E3 in Hoth.
  pose proof (sameBut_conditions_field st_Autoscaling stored st0 (λ _ _, eq_refl) Hstored) as F1.
  pose proof (sameBut_conditions_field st_Backup stored st0 (λ _ _, eq_refl) Hstored) as F2.
  split.
  - intros [Ha Hc]. split; [congruence|]. eapply findCondition_clear; [exact Hconds|].
    rewrite Hoth; [done|]. set_solver.
  - intros (Ha & Hc1 & Hc2). split_and!; [congruence| |]; (eapply findCondition_clear; [exact Hconds|]);
      (rewrite Hoth; [done|]); set_solver.
Qed.

Lemma reconcileAutoscaling_none c b m pl perr pods t w :
  spec_Autoscaling (kc_Spec c) = None → noAutoscaling (kc_Status c) →
  reconcileAutoscaling c b m pl perr pods t w = (Some (c, forget t (clusterKey c)), w).
Proof.
  intros Hs [Ha Hc]. unfold reconcileAutoscaling. rewrite Hs, remove_absent by done.
  destruct c as [? ? ? ? []]. simpl in *. by subst.
Qed.

Lemma reconcileBackup_none c m pods runner w :
  spec_Backup (kc_Spec c) = None → noBackup (kc_Status c) →
  reconcileBackup c m pods runner w = (Some (c, runner_forget runner (clusterKey c), None, 0), w).
Proof.
  intros Hs (Ha & Hc1 & Hc2). unfold reconcileBackup. rewrite Hs, !remove_absent by (rewrite ?remove_absent; done).
  destruct c as [? ? ? ? []]. simpl in *. by subst.
Qed.

(** *** Worlds in which nothing that the passes read changes *)

(** [unchanging J key c pods m sts ready msg]: in the worlds of [J], which every call but a status update
    leads back to, the passes of [key] find the cluster [c], these pods, this roster, this StatefulSet and
    this state of the keystore; and its autoscaler and its backups, if it has them, leave its status as
    they find it. *)
Record unchanging (J : W → Prop) (key : NamespacedName) (c : KahunaCluster) (pods : list Pod)
    (m : option Membership) (sts : StatefulSet) (ready : bool) (msg : string) : Prop := {
  un_client : QuietClient J;
  un_rest : QuietRest J;
  un_sets : QuietObject J StatefulSet;
  un_services : QuietObject J Service;
  un_configMaps : QuietObject J ConfigMap;
  un_budgets : QuietObject J PodDisruptionBudget;
  un_claims : QuietObject J PersistentVolumeClaim;
  un_secrets : QuietObject J Secret;
  un_certificates : QuietObject J Certificate;
  un_get : triple J (kube_GetCluster key) (λ r, r = Ok c);
  un_pods : triple J (listPods c) (λ r, r = Ok pods);
  un_roster : triple J (readMembership c pods) (λ r, membershipView r = m);
  un_set w : J w → (kube_Get (T := StatefulSet) (stsKey c) w).1 = Some (Ok sts);
  un_keystore w : J w → (certificateReady c w).1 = Some (ready, msg);
  un_autoscaler b pl perr t : spec_Autoscaling (kc_Spec c) ≠ None →
    triple J (reconcileAutoscaling c b m pl perr pods t) (λ r, r.1 = c);
  un_backup runner : spec_Backup (kc_Spec c) ≠ None →
    triple J (reconcileBackup c m pods runner) (λ r, r.1.1.1 = c);
}.

(** The API server with another way to update a status. *)
Definition withUpdate (upd : KahunaCluster → go W (result KahunaCluster)) : KubeCluster W := {|
  kube_GetCluster := kube_GetCluster;
  kube_UpdateStatus := upd;
  kube_ListPods := kube_ListPods;
  kube_ListClaimWarnings := kube_ListClaimWarnings;
|}.

(** The pass of [key] makes no status update: it runs the same whatever one would do. *)
Definition writesNoStatus (r : reconciler) (key : NamespacedName) (w : W) : Prop :=
  ∀ upd, @Reconcile W _ _ _ (withUpdate upd) _ _ _ _ _ _ _ _ _ _ _ _ _ _ _ _ r key w = Reconcile r key w.

(** Sequencing, for the two at once. *)
Definition same_from {A} (J : W → Prop) (m m' : go W A) (w : W) : Prop := J (m w).2 ∧ m' w = m w.

Lemma same_bind {A B} (J : W → Prop) (m : go W A) (P : A → Prop) (m' : go W A) (f f' : A → go W B) w :
  m' = m → J w → triple J m P → (∀ a w', J w' → P a → same_from J (f a) (f' a) w') →
  same_from J (m ≫= f) (m' ≫= f') w.
Proof.
  intros -> HJ Hm Hf. destruct (Hm w HJ) as [HJ' HP]. unfold same_from, mbind, go_bind.
  destruct (m w) as [[a|] w'] eqn:E; [|done]. simpl in *. apply Hf; [done|]. by apply HP.
Qed.

Lemma same_ret {A} (J : W → Prop) (a : A) w : J w → same_from J (mret a) (mret a) w.
Proof. by split. Qed.

(** The autoscaler and the backups leave the status of a cluster at rest alone. *)
Lemma triple_const {A} (J : W → Prop) (m : go W A) (P : A → Prop) :
  (∀ w, ∃ a, m w = (Some a, w) ∧ P a) → triple J m P.
Proof. intros Hm w HJ. destruct (Hm w) as (a & -> & Ha). split; [done|]. by intros ? [= <-]. Qed.

Section rest.
Context (J : W → Prop) (key : NamespacedName) (c : KahunaCluster) (sts : StatefulSet) (pods : list Pod).
Context (m : option Membership) (w : W) (sts' : StatefulSet) (ready : bool) (msg : string).
Context (st : KahunaClusterStatus) (w' : W) (stored : KahunaClusterStatus).
Hypothesis arrived : arrivesAt c sts pods m w sts' ready msg st w'.
Hypothesis same : equalStatus stored st = true.
Hypothesis pinned : st_BootstrapSize stored ≠ 0.
Hypothesis sections : (spec_Autoscaling (kc_Spec c) = None → noAutoscaling (kc_Status c)) ∧
                      (spec_Backup (kc_Spec c) = None → noBackup (kc_Status c)).
Let c2 := c <| kc_Status := stored |>.
Hypothesis quiet : unchanging J key c2 pods m sts' ready msg.

Lemma autoscaler_rests b pl perr t : triple J (reconcileAutoscaling c2 b m pl perr pods t) (λ r, r.1 = c2).
Proof.
  destruct (spec_Autoscaling (kc_Spec c2)) as [spec|] eqn:E; [apply (un_autoscaler _ _ _ _ _ _ _ _ quiet); congruence|].
  apply triple_const. intros w0. eexists. split; [apply reconcileAutoscaling_none; [done|]|done].
  apply (arrivesAt_sections c sts pods m w sts' ready msg st w' stored arrived same). by apply sections.
Qed.

Lemma backup_rests runner : triple J (reconcileBackup c2 m pods runner) (λ r, r.1.1.1 = c2).
Proof.
  destruct (spec_Backup (kc_Spec c2)) as [spec|] eqn:E; [apply (un_backup _ _ _ _ _ _ _ _ quiet); congruence|].
  apply triple_const. intros w0. eexists. split; [apply reconcileBackup_none; [done|]|done].
  apply (arrivesAt_sections c sts pods m w sts' ready msg st w' stored arrived same). by apply sections.
Qed.

Lemma status_rests {A} upd sts2 (f : result (KahunaCluster * Duration) → A) w2 :
  J w2 →
  same_from J (x ← reconcileStatus c2 stored sts2 pods m; mret (f x))
    (x ← @reconcileStatus W _ _ (withUpdate upd) _ _ _ _ _ _ c2 stored sts2 pods m; mret (f x)) w2.
Proof.
  intros HJ. pose proof (un_client _ _ _ _ _ _ _ _ quiet). pose proof (un_rest _ _ _ _ _ _ _ _ quiet).
  pose proof (un_sets _ _ _ _ _ _ _ _ quiet). pose proof (un_secrets _ _ _ _ _ _ _ _ quiet).
  pose proof (un_set _ _ _ _ _ _ _ _ quiet w2 HJ) as Hget.
  pose proof (proj1 (quiet_Get (T := StatefulSet) (stsKey c2) w2 HJ)) as HJ3.
  destruct (kube_Get (T := StatefulSet) (stsKey c2) w2) as [o w3] eqn:E3. simpl in Hget, HJ3. subst o.
  pose proof (un_keystore _ _ _ _ _ _ _ _ quiet w3 HJ3) as Hcert.
  destruct (certificateReady c2 w3) as [o w4] eqn:E4. simpl in Hcert. subst o.
  destruct (atRest c sts pods m w sts' ready msg st w' stored sts2 w2 w3 w4 arrived same E3 E4)
    as (rq & w5 & Hput & Hrun).
  destruct (putConditions_same J c2 stored (negb (is_nil m)) w3 HJ3) as [HJ5 _].
  fold c2 in Hput, Hrun. rewrite Hput in HJ5. unfold same_from, mbind, go_bind. by rewrite !Hrun.
Qed.

(** A pass over the cluster at rest ends where it would have ended whatever a status update did. *)
Lemma pass_rests r2 upd w2 :
  J w2 → same_from J (Reconcile r2 key)
           (@Reconcile W _ _ _ (withUpdate upd) _ _ _ _ _ _ _ _ _ _ _ _ _ _ _ _ r2 key) w2.
Proof.
  intros HJ. pose proof (un_client _ _ _ _ _ _ _ _ quiet). pose proof (un_rest _ _ _ _ _ _ _ _ quiet).
  pose proof (un_sets _ _ _ _ _ _ _ _ quiet). pose proof (un_services _ _ _ _ _ _ _ _ quiet).
  pose proof (un_configMaps _ _ _ _ _ _ _ _ quiet). pose proof (un_budgets _ _ _ _ _ _ _ _ quiet).
  pose proof (un_claims _ _ _ _ _ _ _ _ quiet). pose proof (un_secrets _ _ _ _ _ _ _ _ quiet).
  pose proof (un_certificates _ _ _ _ _ _ _ _ quiet).
  unfold Reconcile. apply (same_bind J (kube_GetCluster key) (λ r, r = Ok c2)); [reflexivity|done|by apply (un_get _ _ _ _ _ _ _ _ quiet)|].
  intros ? w3 HJ3 ->. unfold pinBootstrapSize.
  assert ((st_BootstrapSize (kc_Status c2) =? 0) = false) as -> by (by apply Z.eqb_neq).
  apply (same_bind J (mret (Ok c2)) (λ r, r = Ok c2)); [reflexivity|done|by apply triple_ret|]. intros ? w4 HJ4 ->.
  apply (same_bind J (reconcileObjects c2 (st_BootstrapSize (kc_Status c2))) (λ _, True));
    [reflexivity|done|apply (keeps_reconcileObjects J)|]. intros [e|] w5 HJ5 _; [by apply same_ret|].
  apply (same_bind J (listPods c2) (λ r, r = Ok pods)); [reflexivity|done|by apply (un_pods _ _ _ _ _ _ _ _ quiet)|].
  intros ? w6 HJ6 ->. unfold reconcileCluster.
  apply (same_bind J (readMembership c2 pods) (λ r, membershipView r = m)); [reflexivity|done|by apply (un_roster _ _ _ _ _ _ _ _ quiet)|].
  intros mr w7 HJ7 Hm. cbv zeta. rewrite Hm.
  apply (same_bind J (readPlacement c2 pods) (λ _, True)); [reflexivity|done|apply (keeps_readPlacement J)|].
  intros pr w8 HJ8 _. destruct (placementView pr) as [pl perr].
  apply (same_bind J (reconcileAutoscaling c2 (st_Bootstrapped (kc_Status c2)) m pl perr pods (r_traffic r2))
    (λ r, r.1 = c2)); [reflexivity|done|apply autoscaler_rests|]. intros [c3 traffic] w9 HJ9 Hc3. simpl in Hc3. subst c3.
  apply (same_bind J (reconcileStatefulSet c2 (st_Bootstrapped (kc_Status c2)) m pl perr pods) (λ _, True));
    [reflexivity|done|apply (keeps_reconcileStatefulSet J)|]. intros [sts2|e] w10 HJ10 _; [|by apply same_ret].
  apply (same_bind J (reconcileBackup c2 m pods (r_backups r2)) (λ r, r.1.1.1 = c2)); [reflexivity|done|apply backup_rests|].
  intros [[[c3 backups] sp] wake] w11 HJ11 Hc3. simpl in Hc3. subst c3. by apply status_rests.
Qed.
End rest.

End passes.

(** ** Witness: a two-node cluster on an API server that stores its status.  After the first pass, which
    pins the founding size and writes the status, no pass writes one. *)

Abbreviation statusStore := KahunaClusterStatus.

#[local] Instance storedCluster : KubeCluster statusStore := {|
  kube_GetCluster _ st := (Some (Ok ((demoCluster 2) <| kc_Status := st |>)), st);
  kube_UpdateStatus c _ := (Some (Ok c), kc_Status c);
  kube_ListPods _ _ := mret (Ok (demoSetPods 2));
  kube_ListClaimWarnings _ _ := mret (Ok []);
|}.
#[local] Instance storedClient : Client statusStore := {|
  client_Membership _ := mret (Ok (fullRoster (demoCluster 2) 2));
  client_Health _ := mret (Err (ErrorText "connection refused"));
  client_Leave _ := mret (Err (ErrorText "connection refused"));
  client_Placement _ := mret (Err ErrPlacementUnsupported);
  client_Metrics _ := mret (Err (ErrorText "connection refused"));
  client_TakeCoordinatedBackup _ := mret (Err (ErrorText "connection refused"));
  client_TakeIncrementalBackup _ _ := mret (Err (ErrorText "connection refused"));
|}.
#[local] Instance storedClock : Clock statusStore := mret Hour.
#[local] Instance storedRandom : Random statusStore := λ _, mret (Ok "r").
#[local] Instance storedSets : KubeObject statusStore StatefulSet := logObjects (λ _, Ok (demoSet 2 2)) (demoSet 2 2).
#[local] Instance storedServices : KubeObject statusStore Service :=
  logObjects (λ _, Err (ErrorText "unused")) (desiredClientService (demoCluster 2)).
#[local] Instance storedConfigMaps : KubeObject statusStore ConfigMap :=
  logObjects (λ _, Err (ErrorText "unused")) (mkConfigMap (mkObjectMeta "" "" ∅) ∅).
#[local] Instance storedBudgets : KubeObject statusStore PodDisruptionBudget :=
  logObjects (λ _, Err (ErrorText "unused")) (desiredPDB (demoCluster 2)).
#[local] Instance storedClaims : KubeObject statusStore PersistentVolumeClaim :=
  logObjects (λ _, Err (ErrorText "unused")) (volumeClaim "" (mkVolumeSpec 0 None [])).
#[local] Instance storedSecrets : KubeObject statusStore Secret :=
  logObjects (λ key, Ok (demoSecret key.2 {["certificate.pfx" := "data"]} ∅)) (demoSecret "" ∅ ∅).
#[local] Instance storedCertificates : KubeObject statusStore Certificate :=
  {| kube_Get _ := mret (Err (ErrorText "unused")); kube_Create o := mret (Ok o); kube_Delete _ _ := mret None;
     kube_CreateOrUpdate _ f := mret (Err (ErrorText "unused")); SetControllerReference _ o := Ok o |}.
#[local] Existing Instance demoConv.
#[local] Existing Instance demoQuantities.
#[local] Existing Instance demoCron.
#[local] Existing Instance plainConditions.
#[local] Existing Instance plainSemantic.
#[local] Existing Instance plainFormat.
#[local] Existing Instance logSelectors.
#[local] Existing Instance logPkcs12.
#[local] Existing Instance logBase64.
#[local] Existing Instance plainConditions_laws.
#[local] Existing Instance plainConditions_stable.
#[local] Existing Instance plainSemantic_laws.
#[local] Instance storedClockRuns : ClockRuns statusStore.
Proof. intros w. by exists Hour, w. Qed.

(** What the passes read there never changes. *)
Lemma stored_unchanging c st sts ready msg :
  c <| kc_Status := st |> = (demoCluster 2) <| kc_Status := st |> → sts = demoSet 2 2 →
  (certificateReady c st).1 = Some (ready, msg) →
  unchanging (λ w, w = st) (clusterKey (demoCluster 2)) (c <| kc_Status := st |>) (demoSetPods 2)
    (Some (fullRoster (demoCluster 2) 2)) sts ready msg.
Proof.
  intros Hc -> Hcert.
  assert (∀ {A} (a : A), keeps (λ w, w = st) (mret a)) as Hq by (intros; apply keeps_ret).
  assert (∀ T (k : KubeObject statusStore T) get base, k = logObjects get base → QuietObject (λ w, w = st) T) as Hobj.
  { intros T k get base ->. split; [intros key|intros..]; apply Hq. }
  constructor; [split; intros; apply Hq|split; intros; apply Hq|by eapply Hobj..| | | | | | | |].
  - split; [intros key|intros..]; apply Hq.
  - intros w ->. split; [done|]. intros r [= <-]. by rewrite Hc.
  - intros w ->. split; [done|]. by intros r [= <-].
  - intros w ->. split; [done|]. by intros r [= <-].
  - by intros w ->.
  - by intros w ->.
  - intros b pl perr t Hs. by rewrite Hc in Hs.
  - intros runner Hs. by rewrite Hc in Hs.
Qed.

