(* ===== verification/Operator.v ===== *)
(** * The operator as a small machine, and the refinement of it by [Reconcile]

    What the reconcile loop promises about a cluster fits in a few numbers: the size it was founded with
    (pinned once), whether it has formed (latched once), the number of replicas of its StatefulSet, and
    the sizes the set has had.  The set is read through the informer cache, which may lag behind the API
    server, so a pass plans from some size the set has had, not always from the present one.  [opPass] is
    the promise: in one pass the founding size may be pinned, then the set created or resized by one node
    from the size that was read, then the latch closed, each under a condition a reader can check.
    [Reconcile_refines] proves that every pass of the controller (kahunacluster_controller.go), also one
    that fails or panics half-way, is such an abstract pass over what it read, however old that is;
    [operator_runs] follows the machine over any number of passes, with others resizing the set in
    between.  [stale_read_regrows] shows what a stale read of the StatefulSet costs. *)

From Stdlib Require Import ZArith Lia.
From stdpp Require Import base numbers strings pretty sorting gmap list.
From S2P Require Import Prelude GoStrings Types Naming GoFloat Kahuna Placement Roster Plan Conditions.
From S2P Require Import Autoscaler BackupSchedule BackupRunner Sha256 Entrypoint Resources Kube Certificate Backup.
From S2P Require Import Status Reconcile.

Open Scope Z_scope.

(** ** The abstract machine *)

Record op := mkOp {
  op_founding : Z;            (* status.bootstrapSize; 0 until pinned *)
  op_formed : bool;           (* status.bootstrapped *)
  op_size : option Z;         (* replicas of the StatefulSet; None before it exists *)
  op_past : list Z;           (* every size it was stored with, the newest first *)
}.
#[export] Instance op_eta : Eta op := λ s, mkOp (op_founding s) (op_formed s) (op_size s) (op_past s).
#[export] Instance op_eq_dec : EqDecision op.
Proof. solve_decision. Defined.

(** The set is stored with [n] replicas. *)
Definition stored (n : Z) (s : op) : op := s <| op_size := Some n |> <| op_past := n :: op_past s |>.

(** What one pass may rely on: the size a cluster is founded with, the size the pass drives toward, the
    size its read of the set showed, the sizes at which a membership change is safe, the ordinals whose
    node is out of the roster, and the sizes a committed roster has Voters for. *)
Record facts := mkFacts {
  f_found : Z → Prop;
  f_target : Z → Prop;
  f_seen : Z → Prop;
  f_ready : Z → Prop;
  f_gone : Z → Prop;
  f_committed : Z → Prop;
}.

Inductive pinStep (f : facts) (s : op) : op → Prop :=
  | pin n : op_founding s = 0 → f_found f n → pinStep f s (s <| op_founding := n |>).

(** A set is created at the target; an existing one is given a size that depends on the size that was
    read, which is one it has had: the same, any size while the cluster has not formed, or one node closer
    to the target. *)
Inductive sizeStep (f : facts) (s : op) : op → Prop :=
  | size_create t : op_size s = None → f_target f t → sizeStep f s (stored t s)
  | size_hold n : f_seen f n → n ∈ op_past s → sizeStep f s (stored n s)
  | size_form n t : f_seen f n → n ∈ op_past s → op_formed s = false → f_target f t →
      (t < n → f_gone f (n - 1)) → sizeStep f s (stored t s)
  | size_grow n t : f_seen f n → n ∈ op_past s → op_formed s = true → f_ready f n → f_target f t → n < t →
      sizeStep f s (stored (n + 1) s)
  | size_shrink n t : f_seen f n → n ∈ op_past s → op_formed s = true → f_ready f n → f_target f t → t < n →
      1 < n → f_gone f (n - 1) → sizeStep f s (stored (n - 1) s).

Inductive latchStep (f : facts) (s : op) : op → Prop :=
  | latch t : op_formed s = false → f_target f t → f_committed f t → latchStep f s (s <| op_formed := true |>).

Definition maybe_step {A} (R : A → A → Prop) (x y : A) : Prop := y = x ∨ R x y.

(** The set is touched only once the founding size is pinned. *)
Definition opPass (f : facts) (s s' : op) : Prop :=
  ∃ s1 s2, maybe_step (pinStep f) s s1 ∧ (s2 = s1 ∨ op_founding s1 ≠ 0 ∧ sizeStep f s1 s2) ∧
    maybe_step (latchStep f) s2 s'.

(** ** What the machine does over many passes *)

(** Others than the controller may give an existing set one of the sizes of [E]; the status is the
    controller's own, and nobody deletes the set. *)
Inductive others (E : Z → Prop) (s : op) : op → Prop :=
  | others_idle : others E s s
  | others_scale n : E n → op_size s ≠ None → others E s (stored n s).

(** The pass read the size the set has. *)
Definition current (f : facts) (s : op) : Prop := ∀ n, f_seen f n → op_size s = Some n.

(** The sizes a pass works with: a founding size is positive, a target is between [lo] and [hi]. *)
Definition wants (lo hi : Z) (f : facts) : Prop :=
  (∀ n, f_found f n → 1 ≤ n) ∧ (∀ n, f_target f n → lo ≤ n ≤ hi).

(** [opRun E lo hi fresh k s s']: [k] passes, each with facts of its own, and the others in between; with
    [fresh], every pass reads the size the set has. *)
Inductive opRun (E : Z → Prop) (lo hi : Z) (fresh : bool) : nat → op → op → Prop :=
  | opRun_nil s : opRun E lo hi fresh 0 s s
  | opRun_others k s s1 s' : others E s s1 → opRun E lo hi fresh k s1 s' → opRun E lo hi fresh k s s'
  | opRun_pass k f s s1 s' : wants lo hi f → (fresh = true → current f s) → opPass f s s1 →
      opRun E lo hi fresh k s1 s' → opRun E lo hi fresh (S k) s s'.

(** The machine's own invariant: no negative founding size, no set without a founding size, the present
    size is one the set has had, and all of them are between [lo] and [hi]. *)
Definition opInv (lo hi : Z) (s : op) : Prop :=
  0 ≤ op_founding s ∧ (op_size s ≠ None → op_founding s ≠ 0) ∧
  (∀ n, op_size s = Some n → n ∈ op_past s) ∧ Forall (λ n, lo ≤ n ≤ hi) (op_past s).

(** What never goes back: a founding size, the latch, and the existence of the set.  Once formed, every
    size is within [k] of one it had before or was given by others; and when every read was current and
    nobody else resized the set, its size moved by at most [k]. *)
Definition opMono (E : Z → Prop) (fresh : bool) (k : nat) (s s' : op) : Prop :=
  (op_founding s ≠ 0 → op_founding s' = op_founding s) ∧
  (op_formed s = true → op_formed s' = true) ∧
  (∀ n, op_size s = Some n → ∃ n', op_size s' = Some n' ∧
     (op_formed s = true → fresh = true → (∀ m, ¬ E m) → Z.abs (n' - n) ≤ k)) ∧
  (op_formed s = true → op_size s ≠ None →
     ∀ n', n' ∈ op_past s' → ∃ n, (n ∈ op_past s ∨ E n) ∧ Z.abs (n' - n) ≤ k).

Section machine.
Context (E : Z → Prop) (lo hi : Z) (fresh : bool).

(** A step that leaves the set alone. *)
Lemma opMono_same k s s' :
  op_size s' = op_size s → op_past s' = op_past s → (op_founding s ≠ 0 → op_founding s' = op_founding s) →
  (op_formed s = true → op_formed s' = true) → opMono E fresh k s s'.
Proof.
  intros Hs Hp Hf Hb. split_and!; [done|done| |].
  - intros n Hn. exists n. split; [congruence|]. lia.
  - intros _ _ n'. rewrite Hp. intros. exists n'. split; [by left|]. lia.
Qed.

(** A step that stores [n'] because of a size [m] the set has had or others gave it. *)
Lemma opMono_stored (k : nat) n' s :
  (op_formed s = true → op_size s ≠ None → ∃ m, (m ∈ op_past s ∨ E m) ∧ Z.abs (n' - m) ≤ k) →
  (op_formed s = true → fresh = true → (∀ m, ¬ E m) → ∀ n, op_size s = Some n → Z.abs (n' - n) ≤ k) →
  opMono E fresh k s (stored n' s).
Proof.
  intros Hm Hfresh. split_and!; [done|done| |]; simpl.
  - intros n Hn. exists n'. split; [done|]. intros. by apply Hfresh.
  - intros Hf Hs x [->|Hx]%elem_of_cons; [by apply Hm|]. exists x. split; [by left|]. lia.
Qed.

Lemma opMono_trans j k s1 s2 s3 :
  opMono E fresh j s1 s2 → opMono E fresh k s2 s3 → opMono E fresh (j + k) s1 s3.
Proof.
  intros (A1 & A2 & A3 & A4) (B1 & B2 & B3 & B4). split_and!; [naive_solver congruence|naive_solver| |].
  - intros n (n2 & E2 & H2)%A3. destruct (B3 n2 E2) as (n3 & E3 & H3). exists n3. split; [done|].
    intros Hf Hr HE'. specialize (H2 Hf Hr HE'). specialize (H3 (A2 Hf) Hr HE'). lia.
  - intros Hf Hs n3 Hn3. assert (op_size s2 ≠ None) as Hs2.
    { destruct (op_size s1) as [n|] eqn:En; [|done]. destruct (A3 n eq_refl) as (n2 & -> & _). done. }
    destruct (B4 (A2 Hf) Hs2 n3 Hn3) as (n2 & [Hn2|HE2] & H2).
    + destruct (A4 Hf Hs n2 Hn2) as (n & Hn & H1). exists n. split; [done|]. lia.
    + exists n2. split; [by right|]. lia.
Qed.

Lemma opInv_stored n s :
  opInv lo hi s → op_founding s ≠ 0 → lo ≤ n ≤ hi → opInv lo hi (stored n s).
Proof.
  intros (H0 & _ & _ & Hall) Hf Hn. split_and!; simpl; [done|done| |by constructor].
  intros m [= <-]. by left.
Qed.

Lemma pinStep_ok f s s' : wants lo hi f → maybe_step (pinStep f) s s' → opInv lo hi s →
  opInv lo hi s' ∧ opMono E fresh 0 s s'.
Proof.
  intros [Hp _] [->|[n H0 Hf]] (Hpos & Hex & Hcur & Hall); [by split; [|apply opMono_same]|].
  specialize (Hp n Hf). split; [split_and!; simpl; [lia|lia|done|done]|]. by apply opMono_same.
Qed.

Lemma sizeStep_ok f s s' :
  wants lo hi f → (fresh = true → current f s) →
  s' = s ∨ op_founding s ≠ 0 ∧ sizeStep f s s' → opInv lo hi s → opInv lo hi s' ∧ opMono E fresh 1 s s'.
Proof.
  intros [_ Ht] Hcur [->|[Hfound Hstep]] Hinv; [by split; [|apply opMono_same]|].
  pose proof Hinv as (_ & _ & _ & Hall). rewrite Forall_forall in Hall.
  assert (∀ n m, f_seen f n → n ∈ op_past s → Z.abs (m - n) ≤ 1 → opMono E fresh 1 s (stored m s)) as Hnear.
  { intros n m Hseen Hn Hm. apply opMono_stored; [intros; exists n; split; [by left|done]|].
    intros _ Hr _ x Hx. rewrite (Hcur Hr n Hseen) in Hx. injection Hx as <-. done. }
  destruct Hstep as [t Hnone Htt|n Hseen Hn|n t Hseen Hn Hform Htt _|n t Hseen Hn Hform _ Htt Hlt
    |n t Hseen Hn Hform _ Htt Hlt _ _]; try (pose proof (Ht t Htt)); try (pose proof (Hall n Hn)).
  - split; [by apply opInv_stored|]. apply opMono_stored; [done|]. intros _ _ _ n Hn. congruence.
  - split; [by apply opInv_stored|]. apply (Hnear n); [done|done|lia].
  - split; [by apply opInv_stored|]. apply opMono_stored; congruence.
  - split; [apply opInv_stored; [done|done|lia]|]. apply (Hnear n); [done|done|lia].
  - split; [apply opInv_stored; [done|done|lia]|]. apply (Hnear n); [done|done|lia].
Qed.

Lemma latchStep_ok f s s' :
  maybe_step (latchStep f) s s' → opInv lo hi s → opInv lo hi s' ∧ opMono E fresh 0 s s'.
Proof.
  intros [->|[t ? ? ?]] Hs; [by split; [|apply opMono_same]|]. split; [done|]. by apply opMono_same.
Qed.

Lemma opPass_ok f s s' :
  wants lo hi f → (fresh = true → current f s) → opPass f s s' → opInv lo hi s →
  opInv lo hi s' ∧ opMono E fresh 1 s s'.
Proof.
  intros Hp Hc (s1 & s2 & H1 & H2 & H3) Hi.
  destruct (pinStep_ok f s s1 Hp H1 Hi) as [Hi1 M1].
  assert (fresh = true → current f s1) as Hc1.
  { intros Hr n Hn. rewrite <- (Hc Hr n Hn). by destruct H1 as [->|[]]. }
  destruct (sizeStep_ok f s1 s2 Hp Hc1 H2 Hi1) as [Hi2 M2].
  destruct (latchStep_ok f s2 s' H3 Hi2) as [Hi3 M3]. split; [done|].
  exact (opMono_trans 1 0 _ _ _ (opMono_trans 0 1 _ _ _ M1 M2) M3).
Qed.

(** The others keep to the bounds too. *)
Hypothesis HE : ∀ n, E n → lo ≤ n ≤ hi.

Lemma others_ok s s' : others E s s' → opInv lo hi s → opInv lo hi s' ∧ opMono E fresh 0 s s'.
Proof.
  intros [|n Hn Hs] Hi; [by split; [|apply opMono_same]|]. pose proof Hi as (_ & Hex & _).
  split; [by apply opInv_stored; [|apply Hex|apply HE]|]. apply opMono_stored.
  - intros _ _. exists n. split; [by right|]. lia.
  - intros _ _ Hno. by destruct (Hno n).
Qed.

Lemma opRun_ok k s s' :
  opRun E lo hi fresh k s s' → opInv lo hi s → opInv lo hi s' ∧ opMono E fresh k s s'.
Proof.
  induction 1 as [s|k s s1 s' Ho Hrun IH|k f s s1 s' Hf Hc Hpass Hrun IH]; intros Hi;
    [by split; [|apply opMono_same]|..].
  - destruct (others_ok s s1 Ho Hi) as [Hi1 M1]. destruct (IH Hi1) as [Hi2 M2].
    split; [done|]. by apply (opMono_trans 0 k _ s1).
  - destruct (opPass_ok f s s1 Hf Hc Hpass Hi) as [Hi1 M1]. destruct (IH Hi1) as [Hi2 M2].
    split; [done|]. by apply (opMono_trans 1 k _ s1).
Qed.
End machine.

(** ** The controller, seen as the machine *)

(** [view key w] is what the API server holds of the cluster named [key]. *)
Class View (W : Type) := view : NamespacedName → W → op.

Section laws.
Context (W : Type) `{!View W, !Client W, !KubeCluster W, !KubeObject W StatefulSet} (key : NamespacedName).

(** The cluster is read from the API server itself, past the cache (the Reader of the reconciler), so
    what comes back is what is stored; the CRD's validation ran on it.  A status update either left the
    status as it was or stored what it was given, and an error does not tell which. *)
Class ClusterLaws : Prop := {
  GetCluster_view w : view key (kube_GetCluster key w).2 = view key w;
  GetCluster_current w c w' : kube_GetCluster key w = (Some (Ok c), w') →
    clusterKey c = key ∧ valid_replicas c ∧
    (∀ spec, spec_Autoscaling (kc_Spec c) = Some spec → valid_autoscaling spec) ∧
    st_BootstrapSize (kc_Status c) = op_founding (view key w) ∧
    st_Bootstrapped (kc_Status c) = op_formed (view key w);
  UpdateStatus_view c w : clusterKey c = key →
    let w' := (kube_UpdateStatus c w).2 in
    view key w' = view key w ∨
    view key w' = (view key w) <| op_founding := st_BootstrapSize (kc_Status c) |>
                               <| op_formed := st_Bootstrapped (kc_Status c) |>;
  UpdateStatus_Ok c w c' w' : clusterKey c = key → kube_UpdateStatus c w = (Some (Ok c'), w') →
    c' = c ∧ op_founding (view key w') = st_BootstrapSize (kc_Status c);
}.

(** Writing the StatefulSet: it is stored as given, or not at all; and it is created only where there is
    none (Create fails on an existing object). *)
Class SetLaws : Prop := {
  GetSet_view k w : view key (kube_Get (T := StatefulSet) k w).2 = view key w;
  CreateSet_view (o : StatefulSet) w :
    let w' := (kube_Create o w).2 in
    view key w' = view key w ∨
    op_size (view key w) = None ∧ view key w' = stored (default 0 (sts_Replicas o)) (view key w);
  UpdateSet_view k (f : StatefulSet → result StatefulSet) w :
    let w' := (kube_CreateOrUpdate k f w).2 in
    view key w' = view key w ∨
    ∃ o o', f o = Ok o' ∧ view key w' = stored (default 0 (sts_Replicas o')) (view key w);
}.

(** The StatefulSet, named like its cluster, is read through the informer cache: what comes back is some
    version of it that was stored, not necessarily the last, and a read that finds none may be just as
    old.  The API server accepts no size outside an int32 and none below zero. *)
Class CachedReads : Prop :=
  GetSet_past s w w' : kube_Get (T := StatefulSet) key w = (Some (Ok s), w') →
    default 0 (sts_Replicas s) ∈ op_past (view key w) ∧ 0 ≤ default 0 (sts_Replicas s) < two31.

(** A node's roster has fewer than 2^31 members. *)
Class RosterLaws : Prop :=
  Membership_small url w m w' : client_Membership url w = (Some (Ok m), w') → smallRoster (Some m).
End laws.

(** Every other call leaves all of this alone. *)
Class QuietView (W : Type) `{!View W, !Client W, !Clock W, !Random W, !KubeCluster W}
    `{!KubeObject W Service, !KubeObject W ConfigMap, !KubeObject W PodDisruptionBudget}
    `{!KubeObject W PersistentVolumeClaim, !KubeObject W Secret, !KubeObject W Certificate}
    (key : NamespacedName) : Prop := {
  qv_client s :: QuietClient (λ w, view key w = s);
  qv_rest s :: QuietRest (λ w, view key w = s);
  qv_services s :: QuietObject (λ w, view key w = s) Service;
  qv_configMaps s :: QuietObject (λ w, view key w = s) ConfigMap;
  qv_budgets s :: QuietObject (λ w, view key w = s) PodDisruptionBudget;
  qv_claims s :: QuietObject (λ w, view key w = s) PersistentVolumeClaim;
  qv_secrets s :: QuietObject (λ w, view key w = s) Secret;
  qv_certificates s :: QuietObject (λ w, view key w = s) Certificate;
}.

Section refinement.
Context {W : Type} `{!View W, !Client W, !Clock W, !Random W, !KubeCluster W}.
Context `{!KubeObject W StatefulSet, !KubeObject W Service, !KubeObject W ConfigMap}.
Context `{!KubeObject W PodDisruptionBudget, !KubeObject W PersistentVolumeClaim}.
Context `{!KubeObject W Secret, !KubeObject W Certificate}.
Context `{!Conversions, !QuantityAPI, !ConditionsAPI, !SemanticAPI, !LabelSelectors}.
Context `{!Format, !Pkcs12, !Base64, !Cron}.

(** What the pass of [key] from [w] read before it touched the StatefulSet: the cluster with the size it
    now drives toward, the pods, the roster, the placement; and the world it was then in. *)
Inductive passReads (r : reconciler) (key : NamespacedName) (w : W) :
    KahunaCluster → list Pod → option Membership → option Placement → option error → W → Prop :=
  | reads c0 c c1 pods mr pr traffic w1 w2 w3 w4 w5 w6 w7 :
      kube_GetCluster key w = (Some (Ok c0), w1) →
      pinBootstrapSize c0 w1 = (Some (Ok c), w2) →
      reconcileObjects c (st_BootstrapSize (kc_Status c)) w2 = (Some None, w3) →
      listPods c w3 = (Some (Ok pods), w4) →
      readMembership c pods w4 = (Some mr, w5) →
      readPlacement c pods w5 = (Some pr, w6) →
      reconcileAutoscaling c (st_Bootstrapped (kc_Status c0)) (membershipView mr) (placementView pr).1
        (placementView pr).2 pods (r_traffic r) w6 = (Some (c1, traffic), w7) →
      passReads r key w c1 pods (membershipView mr) (placementView pr).1 (placementView pr).2 w7.

Definition passFacts (r : reconciler) (key : NamespacedName) (w : W) : facts := {|
  f_found n := ∃ c0 w1, kube_GetCluster key w = (Some (Ok c0), w1) ∧ n = desiredReplicas c0;
  f_target n := ∃ c pods m pl perr w1, passReads r key w c pods m pl perr w1 ∧ n = desiredReplicas c;
  f_seen n := ∃ c pods m pl perr w1 existing w2, passReads r key w c pods m pl perr w1 ∧
    kube_Get (T := StatefulSet) key w1 = (Some (Ok existing), w2) ∧ n = default 0 (sts_Replicas existing);
  f_ready n := ∃ c pods m pl perr w1, passReads r key w c pods m pl perr w1 ∧ stepReady c n m pl perr;
  f_gone n := ∃ c pods m pl perr w1 existing w2 w3, passReads r key w c pods m pl perr w1 ∧
    kube_Get (T := StatefulSet) key w1 = (Some (Ok existing), w2) ∧ departed c pods n w2 w3;
  f_committed n := ∃ c pods roster pl perr w1, passReads r key w c pods (Some roster) pl perr w1 ∧
    0 < m_MembershipVersion roster ∧ n ≤ rosterVoters roster;
|}.

(** The world after a computation, panics included. *)
Lemma bind_after {A B} (P : W → Prop) (m : go W A) (f : A → go W B) w :
  P (m w).2 → (∀ a w', m w = (Some a, w') → P (f a w').2) → P ((m ≫= f) w).2.
Proof. intros Hp Hf. unfold mbind, go_bind. destruct (m w) as [[a|] w'] eqn:E; [by apply Hf|done]. Qed.

Lemma bind_ret_after {A B} (P : W → Prop) (m : go W A) (g : A → B) w :
  P (m w).2 → P ((m ≫= λ a, mret (g a)) w).2.
Proof. intros Hp. apply bind_after; [done|]. intros a w' E. by rewrite E in Hp. Qed.

Lemma keeps_after {A} key (m : go W A) :
  (∀ s, keeps (λ w, view key w = s) m) → ∀ w, view key (m w).2 = view key w.
Proof. intros Hm w. by destruct (Hm (view key w) w eq_refl). Qed.

Lemma triple_result {A} key (m : go W A) Q w a w' :
  (∀ s, triple (λ w, view key w = s) m Q) → m w = (Some a, w') → view key w' = view key w ∧ Q a.
Proof.
  intros Hm E. destruct (Hm (view key w) w eq_refl) as [Hv HQ]. rewrite E in Hv, HQ. split; [done|]. by apply HQ.
Qed.

Lemma readMembership_small cluster pods w mr w' `{!RosterLaws W} :
  readMembership cluster pods w = (Some mr, w') → smallRoster (membershipView mr).
Proof.
  destruct mr as [m|e]; [|done].
  intros (pre & p & post & w1 & _ & _ & Hm)%askMembership_Ok. by eapply Membership_small.
Qed.

(** ** The stages of a pass *)

(** A spec the CRD accepts. *)
Definition validCluster (c : KahunaCluster) : Prop :=
  valid_replicas c ∧ ∀ spec, spec_Autoscaling (kc_Spec c) = Some spec → valid_autoscaling spec.

Lemma validCluster_ext c c' : kc_Spec c' = kc_Spec c → validCluster c → validCluster c'.
Proof. unfold validCluster, valid_replicas, specReplicas. by intros ->. Qed.

Lemma desiredReplicas_positive c : validCluster c → 1 ≤ desiredReplicas c.
Proof.
  intros [[? _] Hv]. unfold desiredReplicas. destruct (spec_Autoscaling (kc_Spec c)) as [a|]; [|lia].
  pose proof (initialAutoscaledReplicas_bounds c a (Hv a eq_refl)). destruct (Hv a eq_refl) as (? & _ & _).
  destruct (st_Autoscaling _) as [st|]; [|lia]. destruct (Z.ltb_spec 0 (ast_DesiredReplicas st)); lia.
Qed.

(** After the autoscaler the size to drive toward fits the spec. *)
Lemma autoscaled_target c b m pl perr pods t w c1 t' w' :
  validCluster c → reconcileAutoscaling c b m pl perr pods t w = (Some (c1, t'), w') →
  kc_Spec c1 = kc_Spec c → 1 ≤ desiredReplicas c1 < two31.
Proof.
  intros [[Hr _] Hv] Hrun Hspec. destruct (spec_Autoscaling (kc_Spec c)) as [a|] eqn:Ha.
  - destruct (reconcileAutoscaling_size _ _ _ _ _ _ _ _ _ _ _ _ Ha (Hv a eq_refl) Hrun) as [_ ?].
    destruct (Hv a eq_refl) as (? & ? & _). lia.
  - unfold desiredReplicas, specReplicas. rewrite Hspec, Ha. exact Hr.
Qed.

Context (key : NamespacedName) `{!ClusterLaws W key, !SetLaws W key, !CachedReads W key, !QuietView W key}.

Lemma pin_stage f c0 w :
  clusterKey c0 = key → f_found f (desiredReplicas c0) →
  st_BootstrapSize (kc_Status c0) = op_founding (view key w) →
  st_Bootstrapped (kc_Status c0) = op_formed (view key w) →
  maybe_step (pinStep f) (view key w) (view key (pinBootstrapSize c0 w).2) ∧
  ∀ c w', pinBootstrapSize c0 w = (Some (Ok c), w') →
    clusterKey c = key ∧ kc_Spec c = kc_Spec c0 ∧ st_Bootstrapped (kc_Status c) = op_formed (view key w') ∧
    st_BootstrapSize (kc_Status c) = op_founding (view key w') ∧
    (1 ≤ desiredReplicas c0 → st_BootstrapSize (kc_Status c) ≠ 0).
Proof.
  intros Hk Hf Hs Hb. unfold pinBootstrapSize. destruct (Z.eqb_spec (st_BootstrapSize (kc_Status c0)) 0) as [E|E].
  - set (c1 := c0 <| kc_Status := _ |>). pose proof (UpdateStatus_view W key c1 w Hk) as Hup.
    assert (maybe_step (pinStep f) (view key w) (view key (kube_UpdateStatus c1 w).2)) as Hstep.
    { destruct Hup as [->| ->]; [by left|right]. unfold c1. revert Hs Hb. generalize (view key w).
      intros [founding formed size past]; simpl. intros Hs ->.
      apply (pin f (mkOp founding formed size past)); [simpl; congruence|done]. }
    split; [by apply (bind_ret_after (λ w', maybe_step (pinStep f) (view key w) (view key w')))|].
    intros c w' ([c'|e] & w1 & Hc & Hr)%go_bind_Some; [|discriminate Hr]. injection Hr as <- <-.
    destruct (UpdateStatus_Ok W key c1 w c' w1 Hk Hc) as [-> Hfound].
    rewrite Hc in Hup. simpl in Hup, Hfound |- *. rewrite Hfound.
    split_and!; [done..| |done|lia]. by destruct Hup as [->| ->].
  - split; [by left|]. intros c w' [= <- <-]. split_and!; congruence || done.
Qed.

Lemma plannedStep_size cluster n b m pl perr pods w p w' :
  plannedStep cluster n b m pl perr pods w = (Some p, w') →
  p_Replicas p = n ∨ p_Replicas p = p_Replicas (buildPlan cluster n b m pl perr).
Proof.
  unfold plannedStep. set (q := buildPlan cluster n b m pl perr). destruct (_ <? n).
  - intros ([gone reason] & w1 & _ & Hr)%go_bind_Some. destruct gone; injection Hr as <- <-; [by right|by left].
  - intros [= <- <-]. by right.
Qed.

Lemma plannedStep_view cluster n b m pl perr pods w :
  view key (plannedStep cluster n b m pl perr pods w).2 = view key w.
Proof. apply keeps_after. intros s. apply (keeps_plannedStep _). Qed.

Context `{!OwnerLaws W StatefulSet}.

(** Writing the planned size is a step of the machine. *)
Lemma planned_sizeStep r w c pods m pl perr w1 existing w2 p w3 s :
  passReads r key w c pods m pl perr w1 →
  kube_Get (T := StatefulSet) key w1 = (Some (Ok existing), w2) →
  smallRoster m → 1 ≤ desiredReplicas c < two31 → 0 ≤ default 0 (sts_Replicas existing) < two31 →
  default 0 (sts_Replicas existing) ∈ op_past s →
  plannedStep c (default 0 (sts_Replicas existing)) (op_formed s) m pl perr pods w2 = (Some p, w3) →
  sizeStep (passFacts r key w) s (stored (p_Replicas p) s).
Proof.
  intros Hreads Hget Hm Ht Hn Hs Hp. remember (default 0 (sts_Replicas existing)) as n eqn:En.
  assert (is_i32 (desiredReplicas c)) as Hi by range.
  destruct (plannedStep_spec _ _ _ _ _ _ _ _ _ _ Hm Hn Hi Hp) as [Hgone _].
  assert (f_seen (passFacts r key w) n) as Hseen.
  { simpl. exists c, pods, m, pl, perr, w1, existing, w2. eauto. }
  assert (p_Replicas p < n → f_gone (passFacts r key w) (n - 1)) as Hout.
  { intros Hlt. simpl. exists c, pods, m, pl, perr, w1, existing, w2, w3. eauto. }
  assert (f_target (passFacts r key w) (desiredReplicas c)) as Htarget by (simpl; eauto 10).
  destruct (plannedStep_size _ _ _ _ _ _ _ _ _ _ Hp) as [->|Hplan]; [by apply size_hold|].
  destruct (op_formed s) eqn:Hf.
  - destruct (buildPlan_size c n m pl perr Hm Hn Hi) as [[Hr Hb]|[_ (reason & _ & Hb)]];
      rewrite Hb in Hplan; simpl in Hplan; [|rewrite Hplan; by apply size_hold].
    assert (f_ready (passFacts r key w) n) as Hready by (simpl; eauto 10).
    revert Hplan Hout. unfold nextSize.
    destruct (Z.ltb_spec n (desiredReplicas c)); [intros -> _; by eapply size_grow|].
    destruct (Z.ltb_spec (desiredReplicas c) n), (Z.ltb_spec 1 n); simpl; intros -> Hout;
      [eapply size_shrink; eauto; apply Hout; lia|by apply size_hold..].
  - simpl in Hplan. rewrite Hplan in Hout |- *. by eapply size_form.
Qed.

Lemma size_stage r w c pods m pl perr w1 :
  passReads r key w c pods m pl perr w1 → clusterKey c = key → smallRoster m →
  1 ≤ desiredReplicas c < two31 →
  let s' := view key (reconcileStatefulSet c (op_formed (view key w1)) m pl perr pods w1).2 in
  s' = view key w1 ∨ sizeStep (passFacts r key w) (view key w1) s'.
Proof.
  intros Hreads Hk Hm Ht. change (stsKey c) with (clusterKey c). unfold reconcileStatefulSet.
  change (stsKey c) with (clusterKey c). rewrite Hk.
  set (P := λ w', view key w' = view key w1 ∨ sizeStep (passFacts r key w) (view key w1) (view key w')).
  assert (f_target (passFacts r key w) (desiredReplicas c)) as Htarget by (simpl; eauto 10).
  pose proof (GetSet_view W key key w1) as Hsame.
  apply (bind_after P); [by left|]. intros [existing|e] w2 Hget; rewrite Hget in Hsame; simpl in Hsame.
  - destruct (GetSet_past W key _ _ _ Hget) as [Hpast Hn].
    pose proof (plannedStep_view c (default 0 (sts_Replicas existing)) (op_formed (view key w1)) m pl perr pods w2)
      as Hv.
    apply (bind_after P); [left; congruence|]. intros p w3 Hp. rewrite Hp in Hv. simpl in Hv.
    unfold P. destruct (UpdateSet_view W key key (applyPlan c p) w3) as [->|(o & o' & Ho & ->)]; [left; congruence|].
    destruct (applyPlan_fields c p o o' Ho) as [-> _]. rewrite Hv, Hsame. simpl default.
    right. by eapply planned_sizeStep.
  - destruct (IsNotFound e) eqn:He; [|left; done].
    destruct (SetControllerReference c (desiredStatefulSet c 0)) as [d|e'] eqn:Hd; [|left; done].
    apply SetControllerReference_id in Hd as ->. unfold P.
    destruct (CreateSet_view W key (desiredStatefulSet c 0) w2) as [->|[Hnone ->]]; [by left|right].
    rewrite Hsame in Hnone |- *. simpl default. by apply size_create.
Qed.

Lemma status_stage r w c pods m pl perr w1 c2 persisted sts w2 :
  passReads r key w c pods m pl perr w1 → smallRoster m →
  clusterKey c2 = key → desiredReplicas c2 = desiredReplicas c →
  st_Bootstrapped (kc_Status c2) = op_formed (view key w2) →
  st_BootstrapSize (kc_Status c2) = op_founding (view key w2) →
  maybe_step (latchStep (passFacts r key w)) (view key w2)
    (view key (reconcileStatus c2 persisted sts pods m w2).2).
Proof.
  intros Hreads Hm Hk Hd Hb Hfound. unfold reconcileStatus.
  set (P := λ w', maybe_step (latchStep (passFacts r key w)) (view key w2) (view key w')).
  pose proof (GetSet_view W key (kc_Namespace c2, stsName c2) w2) as Hsame.
  apply (bind_after P); [by left|]. intros observed w3 Hget. rewrite Hget in Hsame. simpl in Hsame.
  set (sts' := match observed with Ok s => s | Err _ => sts end).
  destruct (LabelSelectorAsSelector (selector c2)) as [label|e]; [|by left].
  set (st := computeStatus c2 sts' pods m label).
  pose proof (keeps_after key (putConditions c2 st (negb (is_nil m)))
    (λ s, triple_weaken _ _ _ _ (putConditions_same _ c2 st _) (λ _ _, I)) w3) as Hput.
  apply (bind_after P); [left; congruence|]. intros st' w4 Hst. rewrite Hst in Hput. simpl in Hput.
  destruct (triple_result key _ _ _ _ _ (λ s, putConditions_same _ c2 st _) Hst) as [_ Hbut].
  destruct (equalStatus persisted st'); cbn [negb]; [left; simpl; congruence|].
  set (c3 := c2 <| kc_Status := st' |>). assert (P (kube_UpdateStatus c3 w4).2) as Hup.
  2: by apply (bind_ret_after P).
  unfold P. destruct (UpdateStatus_view W key c3 w4 Hk) as [->| ->]; [left; congruence|].
  rewrite Hput, Hsame. simpl.
  destruct (computeStatus_fields c2 sts' pods m label Hm) as (F1 & _ & _ & _ & _ & _ & _ & _ & F9 & _).
  fold st in F1, F9.
  rewrite (sameBut_conditions_field st_BootstrapSize st' st (λ _ _, eq_refl) Hbut), F1, Hfound.
  rewrite (sameBut_conditions_field st_Bootstrapped st' st (λ _ _, eq_refl) Hbut). rewrite Hb in F9.
  clear Hsame Hput Hb Hfound. clearbody st. destruct (view key w2) as [founding formed size past]; simpl in *.
  destruct formed.
  - left. rewrite (proj2 F9 (or_introl eq_refl)). done.
  - destruct (st_Bootstrapped st); [right|by left].
    apply (latch _ (mkOp founding false size past) (desiredReplicas c)); [done|simpl; eauto 10|].
    destruct (proj1 F9 eq_refl) as [[=]|(roster & -> & ? & ?)]. rewrite Hd in *. simpl.
    exists c, pods, roster, pl, perr, w1. done.
Qed.

(** The part of [reconcileCluster] that follows the StatefulSet. *)
Definition afterSet (r : reconciler) (cluster : KahunaCluster) (persisted : KahunaClusterStatus)
    (sts : StatefulSet) (membership : option Membership) (pods : list Pod)
    : go W (result Duration * reconciler * option spawn) :=
  '(cluster, backups, sp, backupWake) ← reconcileBackup cluster membership pods (r_backups r);
  let r := mkReconciler (r_traffic r) backups in
  res ← reconcileStatus cluster persisted sts pods membership;
  mret (match res with
        | Err e => Err (ErrorWrap "updating status: " e)
        | Ok (_, requeue) => Ok (mergeWake requeue backupWake)
        end, r, sp).

Lemma after_stage r r' w c pods m pl perr w1 persisted sts w2 :
  passReads r key w c pods m pl perr w1 → smallRoster m → clusterKey c = key →
  st_Bootstrapped (kc_Status c) = op_formed (view key w2) →
  st_BootstrapSize (kc_Status c) = op_founding (view key w2) →
  maybe_step (latchStep (passFacts r key w)) (view key w2) (view key (afterSet r' c persisted sts m pods w2).2).
Proof.
  intros Hreads Hm Hk Hb Hfound.
  set (P := λ w', maybe_step (latchStep (passFacts r key w)) (view key w2) (view key w')).
  pose proof (λ s, reconcileBackup_same (λ w, view key w = s) c m pods (r_backups r')) as Hbk.
  unfold afterSet. apply (bind_after P); [left; by apply (Hbk (view key w2) w2)|].
  intros [[[c2 backups] sp] wake] w3 Hc2. destruct (triple_result key _ _ _ _ _ Hbk Hc2) as [Hv [HB BA]].
  simpl in HB, BA. destruct HB as (B1 & B2 & _ & B4 & B5 & B6).
  apply (bind_ret_after P). unfold P. rewrite <- Hv.
  apply (status_stage r w c pods m pl perr w1); try done; try congruence.
  - unfold clusterKey in *; congruence.
  - by apply desiredReplicas_ext.
Qed.

(** The part of it that follows the autoscaler. *)
Lemma resize_stage r r' w c pods m pl perr w1 persisted :
  passReads r key w c pods m pl perr w1 → smallRoster m → clusterKey c = key →
  1 ≤ desiredReplicas c < two31 → st_Bootstrapped (kc_Status c) = op_formed (view key w1) →
  st_BootstrapSize (kc_Status c) = op_founding (view key w1) → op_founding (view key w1) ≠ 0 →
  let f := passFacts r key w in
  let w' := ((s ← reconcileStatefulSet c (op_formed (view key w1)) m pl perr pods;
              match s with
              | Err e => mret (Err (ErrorWrap "reconciling stateful set: " e), r', None)
              | Ok sts => afterSet r' c persisted sts m pods
              end) w1).2 in
  ∃ s2, (s2 = view key w1 ∨ op_founding (view key w1) ≠ 0 ∧ sizeStep f (view key w1) s2) ∧
        maybe_step (latchStep f) s2 (view key w').
Proof.
  intros Hreads Hm Hk Ht Hb Hfound Hpos f. cbv zeta.
  pose proof (size_stage r w c pods m pl perr w1 Hreads Hk Hm Ht) as Hsize. cbv zeta in Hsize. fold f in Hsize.
  set (P := λ w', ∃ s2, (s2 = view key w1 ∨ op_founding (view key w1) ≠ 0 ∧ sizeStep f (view key w1) s2) ∧
                        maybe_step (latchStep f) s2 (view key w')).
  assert (P (reconcileStatefulSet c (op_formed (view key w1)) m pl perr pods w1).2) as Hset.
  { eexists. split; [|by left]. destruct Hsize as [->|?]; [by left|by right]. }
  apply (bind_after P); [done|]. intros [sts|e] w2 Hsts; rewrite Hsts in Hsize, Hset; [|done].
  simpl in Hsize. exists (view key w2). split; [destruct Hsize; [by left|by right]|].
  assert (op_formed (view key w2) = op_formed (view key w1) ∧ op_founding (view key w2) = op_founding (view key w1))
    as [E1 E2] by (destruct Hsize as [->|[ ]]; done).
  apply (after_stage r r' w c pods m pl perr w1); congruence.
Qed.

(** The pass once the pods are listed. *)
Lemma cluster_stage r w c0 c pods w1 w2 w3 w4 `{!RosterLaws W} :
  kube_GetCluster key w = (Some (Ok c0), w1) →
  pinBootstrapSize c0 w1 = (Some (Ok c), w2) →
  reconcileObjects c (st_BootstrapSize (kc_Status c)) w2 = (Some None, w3) →
  listPods c w3 = (Some (Ok pods), w4) →
  validCluster c → clusterKey c = key → st_Bootstrapped (kc_Status c0) = op_formed (view key w4) →
  st_Bootstrapped (kc_Status c) = op_formed (view key w4) →
  st_BootstrapSize (kc_Status c) = op_founding (view key w4) → op_founding (view key w4) ≠ 0 →
  let f := passFacts r key w in
  let s' := view key (reconcileCluster r c (st_Bootstrapped (kc_Status c0)) pods w4).2 in
  ∃ s2, (s2 = view key w4 ∨ op_founding (view key w4) ≠ 0 ∧ sizeStep f (view key w4) s2) ∧
        maybe_step (latchStep f) s2 s'.
Proof.
  intros Hget Hpin Hobj Hlist Hvalid Hk Hb0 Hb Hfound Hpos f. remember (view key w4) as s eqn:Es.
  set (P := λ w', ∃ s2, (s2 = s ∨ op_founding s ≠ 0 ∧ sizeStep f s s2) ∧ maybe_step (latchStep f) s2 (view key w')).
  change (P (reconcileCluster r c (st_Bootstrapped (kc_Status c0)) pods w4).2).
  assert (∀ w', view key w' = s → P w') as Hstay by (intros w' E; exists s; split; [by left|by left]).
  unfold reconcileCluster.
  pose proof (keeps_after key _ (λ s, keeps_readMembership (λ w, view key w = s) c pods) w4) as V5.
  apply (bind_after P); [apply Hstay; congruence|]. intros mr w5 Hmr. rewrite Hmr in V5. simpl in V5.
  pose proof (keeps_after key _ (λ s, keeps_readPlacement (λ w, view key w = s) c pods) w5) as V6.
  apply (bind_after P); [apply Hstay; congruence|]. intros pr w6 Hpr. rewrite Hpr in V6. simpl in V6.
  destruct (placementView pr) as [pl perr] eqn:Hview.
  pose proof (λ s, reconcileAutoscaling_same (λ w, view key w = s) c (st_Bootstrapped (kc_Status c0))
    (membershipView mr) pl perr pods (r_traffic r)) as Hauto.
  apply (bind_after P); [apply Hstay, (Hauto s w6); congruence|].
  intros [c1 traffic] w7 Hc1. destruct (triple_result key _ _ _ _ _ Hauto Hc1) as [V7 HA].
  simpl in HA. destruct HA as (A1 & A2 & A3 & A4 & A5 & A6).
  assert (passReads r key w c1 pods (membershipView mr) pl perr w7) as Hreads.
  { pose proof (reads r key w c0 c c1 pods mr pr traffic w1 w2 w3 w4 w5 w6 w7) as Hr. rewrite Hview in Hr.
    by apply Hr. }
  assert (view key w7 = s) as <- by congruence. rewrite Hb0.
  apply (resize_stage r (mkReconciler traffic (r_backups r)) w c1); try done; try congruence.
  - by eapply readMembership_small.
  - unfold clusterKey in *; congruence.
  - by eapply autoscaled_target.
Qed.

Lemma pass_simulated r w `{!RosterLaws W} :
  opPass (passFacts r key w) (view key w) (view key (Reconcile r key w).2).
Proof.
  set (f := passFacts r key w). set (s := view key w).
  assert (opPass f s s) as Hidle by (exists s, s; split_and!; by left).
  set (P := λ w', opPass f s (view key w')). change (P (Reconcile r key w).2).
  pose proof (GetCluster_view W key w : _ = s) as V1. unfold Reconcile.
  apply (bind_after P); [unfold P; by rewrite V1|]. intros [c0|e] w1 Hget; rewrite Hget in V1; simpl in V1.
  2: { unfold P. simpl. by rewrite V1. }
  destruct (GetCluster_current W key w c0 w1 Hget) as (Hk & Hr & Ha & Hfound & Hformed).
  fold s in Hfound, Hformed. assert (f_found f (desiredReplicas c0)) as Hff by (simpl; eauto).
  rewrite <- V1 in Hfound, Hformed.
  destruct (pin_stage f c0 w1 Hk Hff Hfound Hformed) as [Hpin Hok]. rewrite V1 in Hpin.
  assert (∀ w', view key w' = view key (pinBootstrapSize c0 w1).2 → P w') as Hstay.
  { intros w' Hw. exists (view key w'), (view key w'). split_and!; [by rewrite Hw|by left|by left]. }
  apply (bind_after P); [by apply Hstay|]. intros [c|e] w2 Hc; rewrite Hc in Hpin, Hstay; [|by apply Hstay].
  destruct (Hok c w2 Hc) as (Hk' & Hspec & Hb' & Hf' & Hne).
  pose proof (validCluster_ext c0 c Hspec (conj Hr Ha)) as Hvalid.
  specialize (Hne (desiredReplicas_positive c0 (conj Hr Ha))).
  pose proof (keeps_after key _ (λ s, keeps_reconcileObjects (λ w, view key w = s) c
    (st_BootstrapSize (kc_Status c))) w2) as V3.
  apply (bind_after P); [by apply Hstay|]. intros [e|] w3 Hobj; rewrite Hobj in V3; [by apply Hstay|]. simpl in V3.
  pose proof (keeps_after key (listPods c) (λ s, quiet_ListPods _ _) w3) as V4.
  apply (bind_after P); [apply Hstay; simpl; congruence|].
  intros [pods|e] w4 Hlist; rewrite Hlist in V4; simpl in V4; [|apply Hstay; simpl; congruence].
  assert (view key w4 = view key w2) as V by congruence. simpl in Hpin.
  assert (st_Bootstrapped (kc_Status c0) = op_formed (view key w4)) as Hb0.
  { rewrite V, Hformed, V1. destruct Hpin as [->|[]]; done. }
  destruct (cluster_stage r w c0 c pods w1 w2 w3 w4) as (s2 & Hsize & Hlatch); try congruence || done.
  exists (view key w4), s2. split_and!; [congruence|done|done].
Qed.

(** C1: every pass of the controller is one pass of the abstract machine, over what the pass itself read:
    whatever the nodes and the API server answer, however old the version of the StatefulSet that the
    cache serves, and also when it fails or panics half-way.  The stored cluster has had at most its
    founding size pinned (when it had none), then its StatefulSet created where there was none, or written
    with the size that was read, or sized freely before the cluster formed, or with one node more or less
    than was read, toward the target, at a moment when roster and data were settled at that size and, for
    a shrink, the last node was out; then the latch closed on a committed roster with enough Voters. *)
Theorem Reconcile_refines r w `{!RosterLaws W} :
  opPass (passFacts r key w) (view key w) (view key (Reconcile r key w).2).
Proof. exact (pass_simulated r w). Qed.

(** ** Any number of passes *)

(** [runs E lo hi fresh k w w']: [k] passes that drive toward sizes between [lo] and [hi], and between them
    anything (the nodes work, the clock runs, users edit the spec, the operator restarts) in which others
    at most give the set a size of [E]; with [fresh], each pass reads the set as it is stored. *)
Inductive runs (E : Z → Prop) (lo hi : Z) (fresh : bool) : nat → W → W → Prop :=
  | runs_nil w : runs E lo hi fresh 0 w w
  | runs_env k w w1 w' : others E (view key w) (view key w1) → runs E lo hi fresh k w1 w' →
      runs E lo hi fresh k w w'
  | runs_pass k r w w' :
      (∀ n, f_target (passFacts r key w) n → lo ≤ n ≤ hi) →
      (fresh = true → current (passFacts r key w) (view key w)) →
      runs E lo hi fresh k (Reconcile r key w).2 w' → runs E lo hi fresh (S k) w w'.

Lemma passFacts_found r w n : f_found (passFacts r key w) n → 1 ≤ n.
Proof.
  simpl. intros (c0 & w1 & Hget & ->). destruct (GetCluster_current W key w c0 w1 Hget) as (_ & Hr & Ha & _ & _).
  by apply desiredReplicas_positive.
Qed.

Lemma runs_simulated E lo hi fresh k w w' `{!RosterLaws W} :
  runs E lo hi fresh k w w' → opRun E lo hi fresh k (view key w) (view key w').
Proof.
  induction 1 as [w|k w w1 w' Hv Hrun IH|k r w w' Ht Hc Hrun IH]; [constructor|by econstructor|].
  econstructor; [split; [apply passFacts_found|exact Ht]|exact Hc|exact (pass_simulated r w)|done].
Qed.

(** C7: over any number of passes, with others resizing the set between them but not deleting it nor
    writing the status, and with the cache as old as it likes: a founding size is never revised, a formed
    cluster never becomes unformed, there is no StatefulSet without a pinned founding size, and its size
    never leaves the interval that holds the sizes the passes drove toward and the sizes others gave it.
    Every size a formed cluster's set is given within [k] passes is at most [k] nodes from one it had
    before, or was given by others; and when every pass read the set as it was and nobody else resized
    it, its size moved by at most [k]. *)
Theorem operator_runs E lo hi fresh k w w' `{!RosterLaws W} :
  (∀ n, E n → lo ≤ n ≤ hi) → runs E lo hi fresh k w w' → opInv lo hi (view key w) →
  opInv lo hi (view key w') ∧ opMono E fresh k (view key w) (view key w').
Proof. intros HE Hrun. apply opRun_ok; [done|]. by apply runs_simulated. Qed.
End refinement.

(** ** What a stale read costs *)

Section stale.
Context {W : Type} `{!Client W, !KubeObject W StatefulSet, !Conversions, !QuantityAPI}.

(** C37: a stale read of the StatefulSet is not harmless.  The size is planned from one read, and
    CreateOrUpdate makes another: when the first still shows the [n] replicas of before a shrink and the
    second the current [n - 1], the roster no longer matches [n], the plan holds at [n], and the edit that
    is applied to the current object, whose resource version is current, sets it back to [n] although
    the cluster wants, and its roster has, [n - 1]. *)
Theorem stale_read_regrows cluster m placement perr pods n (w w1 : W) (stale fresh : StatefulSet) :
  1 < n < two31 → desiredReplicas cluster = n - 1 → rosterIs cluster m (n - 1) →
  kube_Get (stsKey cluster) w = (Some (Ok stale), w1) → sts_Replicas stale = Some n →
  sts_Replicas fresh = Some (n - 1) →
  (∀ o : StatefulSet, SetControllerReference cluster o = Ok o) →
  ∃ edit, reconcileStatefulSet cluster true (Some m) placement perr pods w
            = kube_CreateOrUpdate (stsKey cluster) edit w1 ∧
          sts_Replicas <$> (match edit fresh with Ok o => Some o | Err _ => None end) = Some (Some n).
Proof.
  intros Hn Hd Hm Hget Hstale Hfresh Hown.
  pose proof (rosterIs_length _ _ _ Hm) as Hlen.
  assert (smallRoster (Some m)) as Hsmall by (simpl; lia).
  destruct (buildPlan_size cluster n (Some m) placement perr Hsmall ltac:(lia)) as [[Hr _]|[_ (reason & _ & Hp)]];
    [rewrite Hd; range| |].
  { destruct Hr as [(r & [= <-] & Hr%rosterIs_length) _]. lia. }
  eexists (applyPlan cluster _). split.
  - unfold reconcileStatefulSet, mbind, go_bind. rewrite Hget, Hstale. change (default 0 (Some n)) with n.
    unfold plannedStep. rewrite Hp. cbn [p_Replicas]. rewrite Z.ltb_irrefl. reflexivity.
  - unfold applyPlan. rewrite Hown. reflexivity.
Qed.
End stale.

(** ** Witnesses: a store that holds the status and the StatefulSet of the demo cluster of three nodes, and
    nodes that form a roster of [s_voters] Voters. *)

Record store := mkStore {
  s_status : KahunaClusterStatus; s_set : option StatefulSet; s_past : list StatefulSet; s_voters : Z;
  s_lag : nat (* how many versions behind the cache is *)
}.
#[local] Instance store_eta : Eta store := λ s, mkStore (s_status s) (s_set s) (s_past s) (s_voters s) (s_lag s).

Definition putSet (o : StatefulSet) (s : store) : store := s <| s_set := Some o |> <| s_past := o :: s_past s |>.

Definition storedCluster (s : store) : KahunaCluster := (demoCluster 3) <| kc_Status := s_status s |>.
Definition demoKey : NamespacedName := clusterKey (demoCluster 3).

#[local] Instance storeView : View store := λ _ s,
  mkOp (st_BootstrapSize (s_status s)) (st_Bootstrapped (s_status s))
    ((λ o, default 0 (sts_Replicas o)) <$> s_set s) ((λ o, default 0 (sts_Replicas o)) <$> s_past s).

#[local] Instance storeCluster : KubeCluster store := {|
  kube_GetCluster _ s := (Some (Ok (storedCluster s)), s);
  kube_UpdateStatus c s := (Some (Ok c), s <| s_status := kc_Status c |>);
  kube_ListPods _ _ s := (Some (Ok (demoSetPods (default 0 (s_set s ≫= sts_Replicas)))), s);
  kube_ListClaimWarnings _ _ := mret (Ok []);
|}.

#[local] Instance storeClient : Client store := {|
  client_Membership _ s := (Some (Ok (fullRoster (demoCluster 3) (Z.min (s_voters s) 9))), s);
  client_Health _ := mret (Err (ErrorText "connection refused"));
  client_Leave _ := mret (Ok (mkLeaveResult true OutcomeCommitted 7 false ""));
  client_Placement _ := mret (Err ErrPlacementUnsupported);
  client_Metrics _ := mret (Err (ErrorText "connection refused"));
  client_TakeCoordinatedBackup _ := mret (Err (ErrorText "connection refused"));
  client_TakeIncrementalBackup _ _ := mret (Err (ErrorText "connection refused"));
|}.

(** The set is read as it was [s_lag] versions ago, and validated when it is read: a replica count outside
    int32 is not served. *)
#[local] Instance storeSets : KubeObject store StatefulSet := {|
  kube_Get _ s := (Some match s_past s !! s_lag s with
    | None => Err (ErrStatus ReasonNotFound "statefulsets kahuna not found")
    | Some o => if bool_decide (0 ≤ default 0 (sts_Replicas o) < two31) then Ok o
                else Err (ErrorText "invalid")
    end, s);
  kube_Create o s := match s_set s with
    | None => (Some (Ok o), putSet o s)
    | Some _ => (Some (Err (ErrStatus ReasonAlreadyExists "statefulsets kahuna already exists")), s)
    end;
  kube_Delete _ _ := mret None;
  kube_CreateOrUpdate _ f s := match f (default (demoSet 3 3) (s_set s)) with
    | Ok o => (Some (Ok o), putSet o s)
    | Err e => (Some (Err e), s)
    end;
  SetControllerReference _ o := Ok o;
|}.

#[local] Instance storeClock : Clock store := mret Hour.
#[local] Instance storeRandom : Random store := λ _, mret (Ok "r").
#[local] Instance storeServices : KubeObject store Service :=
  logObjects (λ _, Err (ErrorText "unused")) (desiredClientService formed).
#[local] Instance storeConfigMaps : KubeObject store ConfigMap :=
  logObjects (λ _, Err (ErrorText "unused")) (mkConfigMap (mkObjectMeta "" "" ∅) ∅).
#[local] Instance storeBudgets : KubeObject store PodDisruptionBudget :=
  logObjects (λ _, Err (ErrorText "unused")) (desiredPDB formed).
#[local] Instance storeClaims : KubeObject store PersistentVolumeClaim :=
  logObjects (λ _, Err (ErrorText "unused")) (volumeClaim "" (mkVolumeSpec 0 None [])).
#[local] Instance storeSecrets : KubeObject store Secret :=
  logObjects (λ key, Ok (demoSecret key.2 {["certificate.pfx" := "data"]} ∅)) (demoSecret "" ∅ ∅).
#[local] Instance storeCertificates : KubeObject store Certificate :=
  {| kube_Get _ := mret (Err (ErrorText "unused")); kube_Create o := mret (Ok o); kube_Delete _ _ := mret None;
     kube_CreateOrUpdate _ f := mret (Err (ErrorText "unused")); SetControllerReference _ o := Ok o |}.
#[local] Existing Instance demoConv.
#[local] Existing Instance demoQuantities.
#[local] Existing Instance demoCron.
#[local] Existing Instance plainConditions.
#[local] Existing Instance plainSemantic.
#[local] Existing Instance plainFormat.
#[local] Existing Instance logSelectors.
#[local] Existing Instance logPkcs12.
#[local] Existing Instance logBase64.

Lemma storeClusterLaws : ClusterLaws store demoKey.
Proof.
  split; [done| |by right|by intros c w c' w' _ [= <- <-]].
  intros w c w' [= <- <-]. split_and!; try done.
Qed.

Lemma storeSetLaws : SetLaws store demoKey.
Proof.
  split; [done| |].
  - intros o s. simpl. destruct (s_set s) as [o'|] eqn:E; [by left|right].
    split; [|done]. unfold view, storeView. simpl. by rewrite ?E.
  - intros k f s. simpl. destruct (f _) as [o|e] eqn:E; [right|by left]. eexists _, o. by split; [exact E|].
Qed.

Lemma storeCached : CachedReads store demoKey.
Proof.
  intros o s s' Hget. injection Hget as Hget _. destruct (s_past s !! s_lag s) as [o'|] eqn:E; [|done].
  case_bool_decide; [|done]. injection Hget as ->. split; [|done].
  apply (list_elem_of_fmap_2 (λ o, default 0 (sts_Replicas o))). by eapply list_elem_of_lookup_2.
Qed.

Lemma storeQuiet : QuietView store demoKey.
Proof.
  assert (∀ {A} s (m : go store A), (∀ w, (m w).2 = w) → keeps (λ w, view demoKey w = s) m) as Hq
    by (intros A s m Hm w <-; rewrite Hm; done).
  split; intros s; split; try (intros key); intros; by apply Hq.
Qed.

Lemma storeRosters : RosterLaws store.
Proof.
  intros url s m s' [= <- <-]. simpl. rewrite length_fmap, length_go_range. unfold two31. lia.
Qed.

Lemma storeOwner : OwnerLaws store StatefulSet.
Proof. by intros c o o' [= <-]. Qed.

Definition emptyStore : store := mkStore zero_Status None [] 0 0.
Definition freshReconciler : reconciler := mkReconciler ∅ newRunner.

(** The first pass pins the founding size and creates the set. *)
Lemma Reconcile_refines_witness :
  view demoKey emptyStore = mkOp 0 false None [] ∧
  view demoKey (Reconcile freshReconciler demoKey emptyStore).2 = mkOp 3 false (Some 3) [3] ∧
  opPass (passFacts freshReconciler demoKey emptyStore) (mkOp 0 false None []) (mkOp 3 false (Some 3) [3]).
Proof.
  assert (view demoKey (Reconcile freshReconciler demoKey emptyStore).2 = mkOp 3 false (Some 3) [3]) as E
    by (vm_compute; reflexivity).
  split_and!; [reflexivity|exact E|]. rewrite <- E.
  exact (@Reconcile_refines store _ _ _ _ _ _ _ _ _ _ _ _ _ _ _ _ _ _ _ _ _ demoKey storeClusterLaws storeSetLaws
    storeCached storeQuiet storeOwner freshReconciler emptyStore storeRosters).
Defined.

(** The passes of the demo cluster drive toward its three nodes. *)
Lemma demo_target w n : f_target (passFacts freshReconciler demoKey w) n → 3 ≤ n ≤ 4.
Proof.
  simpl. intros (c1 & pods & m & pl & perr & w7 & Hreads & ->).
  destruct Hreads as [c0 c c1 pods mr pr traffic w1 w2 w3 w4 w5 w6 w7 Hget Hpin _ _ _ _ Hauto].
  injection Hget as <- <-.
  assert (kc_Spec c = kc_Spec (demoCluster 3)) as Hc.
  { unfold pinBootstrapSize in Hpin. destruct (_ =? 0); by injection Hpin as <- _. }
  destruct (triple_result demoKey _ _ _ _ _ (λ s,
    let _ := @qv_client _ _ _ _ _ _ _ _ _ _ _ _ _ storeQuiet s in
    let _ := @qv_rest _ _ _ _ _ _ _ _ _ _ _ _ _ storeQuiet s in
    reconcileAutoscaling_same (λ w, view demoKey w = s) c _ _ _ _ _ _) Hauto) as [_ (_ & _ & _ & Hs & _)].
  simpl in Hs. unfold desiredReplicas, specReplicas. rewrite Hs, Hc. simpl. lia.
Qed.

(** Three passes: the nodes form a roster of three after the first, so that the second closes the latch;
    then somebody scales the set to four, and the third, whose read is one version old, sets it back. *)
Lemma operator_runs_witness :
  ∃ w', view demoKey w' = mkOp 3 true (Some 3) [3; 4; 3; 3] ∧ opInv 3 4 (view demoKey w') ∧
    opMono (λ n, n = 4) false 3 (view demoKey emptyStore) (view demoKey w').
Proof.
  assert (opInv 3 4 (view demoKey emptyStore)) as Hinv by (split_and!; [simpl; lia|done|done|constructor]).
  set (w1 := (Reconcile freshReconciler demoKey emptyStore).2 <| s_voters := 3 |>).
  set (w2 := (Reconcile freshReconciler demoKey w1).2).
  set (w3 := (putSet ((demoSet 3 3) <| sts_Replicas := Some 4 |>) w2) <| s_lag := 1%nat |>).
  assert (∀ w v, others (λ n, n = 4) (view demoKey w) (view demoKey (w <| s_voters := v |>))) as Hform
    by (intros; apply others_idle).
  assert (∀ w, s_set w ≠ None → others (λ n, n = 4) (view demoKey w)
            (view demoKey ((putSet ((demoSet 3 3) <| sts_Replicas := Some 4 |>) w) <| s_lag := 1%nat |>))) as Hscale.
  { intros w Hw. change (others (λ n, n = 4) (view demoKey w) (stored 4 (view demoKey w))).
    apply others_scale; [done|]. unfold view, storeView. simpl. by destruct (s_set w). }
  assert (is_nil (s_set w2) = false) as Hset by (vm_compute; reflexivity).
  exists (Reconcile freshReconciler demoKey w3).2. split; [vm_compute; reflexivity|].
  apply (@operator_runs store _ _ _ _ _ _ _ _ _ _ _ _ _ _ _ _ _ _ _ _ _ demoKey storeClusterLaws storeSetLaws
    storeCached storeQuiet storeOwner (λ n, n = 4) 3 4 false 3 emptyStore (Reconcile freshReconciler demoKey w3).2
    storeRosters); [lia| |].
  - apply (runs_pass _ _ _ _ _ _ freshReconciler); [apply demo_target|done|].
    apply (runs_env _ _ _ _ _ _ _ w1); [exact (Hform _ 3)|].
    apply (runs_pass _ _ _ _ _ _ freshReconciler); [apply demo_target|done|]. fold w2.
    apply (runs_env _ _ _ _ _ _ _ w3); [apply Hscale; by destruct (s_set w2)|].
    apply (runs_pass _ _ _ _ _ _ freshReconciler); [apply demo_target|done|]. apply runs_nil.
  - exact Hinv.
Defined.

(** A cluster that was shrunk from three nodes to two: the cache still shows three, the server has two,
    and the pass sets three. *)
Lemma stale_read_regrows_witness :
  let c := demoCluster 2 in
  let k : KubeObject store StatefulSet := logObjects (λ _, Ok (demoSet 3 3)) (demoSet 2 2) in
  ∃ edit, @reconcileStatefulSet store _ k _ _ c true (Some (fullRoster c 2)) None None (demoSetPods 2) emptyStore
            = @kube_CreateOrUpdate store StatefulSet k (stsKey c) edit emptyStore ∧
          sts_Replicas <$> (match edit (demoSet 2 2) with Ok o => Some o | Err _ => None end) = Some (Some 3).
Proof.
  intros c k.
  apply (@stale_read_regrows store _ k _ _ c (fullRoster c 2) None None (demoSetPods 2) 3 emptyStore emptyStore
    (demoSet 3 3) (demoSet 2 2)); [unfold two31; lia|reflexivity|apply rosterIs_fullRoster; lia|reflexivity..].
Defined.
