(* ===== verification/DeepCopy.v ===== *)
(** * The generated deep copies (api/v1alpha1/zz_generated.deepcopy.go)

    The rest of the development treats a cluster as a value.  In Go it is a graph of pointers, slices and
    maps, and [persisted := cluster.Status.DeepCopy()] stays what it was while the pass edits
    [cluster.Status] only because the generated functions copy everything that can be reached.  Here the
    structs live in a memory of cells, each generated function is the sequence of field copies it is in
    the source, and the structs of kahunacluster_types.go are described by the types of their fields.
    Proved: every function copies every field of its type that holds a reference, so the copy reads the
    same and shares no cell with the original. *)

From Stdlib Require Import ZArith Lia.
From stdpp Require Import base numbers strings pretty sorting gmap list.
From S2P Require Import Prelude.

(** ** Memory *)

Abbreviation loc := positive.

(** What a variable or a field holds: a number, a boolean or a string; a pointer, a slice or a map (nil, or
    the cell with its contents); or a struct, field by field. *)
Inductive gv :=
  | GScalar (s : string)
  | GRef (r : option loc)
  | GEnd
  | GField (name : string) (v rest : gv).

(** A cell: the pointee under the name "", the elements of a slice, or the entries of a map. *)
Abbreviation cell := (list (string * gv)).
Abbreviation mem := (gmap loc cell).

(** The type of a variable: flat, a reference to cells of a type, or a struct. *)
Inductive ty :=
  | TFlat
  | TPtr (t : ty)
  | TSlice (t : ty)
  | TMap (t : ty)
  | TEnd
  | TField (name : string) (t rest : ty).

Definition struct (fields : list (string * ty)) : ty := foldr (λ f rest, TField f.1 f.2 rest) TEnd fields.

(** The value behind a variable, with every reference followed. *)
#[local] Set Warnings "-register-all".
Inductive val :=
  | VScalar (s : string)
  | VNil
  | VRef (vs : list (string * val))
  | VEnd
  | VField (name : string) (v rest : val).

(** Read a variable of a type; [None] when the memory does not fit the type. *)
Fixpoint deref (t : ty) (m : mem) (g : gv) : option val :=
  let ref t := match g with
               | GRef None => Some VNil
               | GRef (Some l) =>
                   c ← m !! l;
                   vs ← mapM (λ kg, pair kg.1 <$> deref t m kg.2) c;
                   Some (VRef vs)
               | _ => None
               end in
  match t with
  | TFlat => match g with GScalar s => Some (VScalar s) | _ => None end
  | TPtr t => ref t
  | TSlice t => ref t
  | TMap t => ref t
  | TEnd => match g with GEnd => Some VEnd | _ => None end
  | TField name t rest =>
      match g with
      | GField name' g1 g2 =>
          if String.eqb name name' then
            v1 ← deref t m g1; v2 ← deref rest m g2; Some (VField name v1 v2)
          else None
      | _ => None
      end
  end.

(** ** Statements of the generated code *)

Definition alloc (c : cell) : go mem loc :=
  λ m, let l := fresh (dom m) in (Some l, <[l := c]> m).
Definition load (l : loc) : go mem cell := λ m, (m !! l, m).
Definition store (l : loc) (c : cell) : go mem unit := λ m, (Some tt, <[l := c]> m).

Fixpoint getField (name : string) (g : gv) : option gv :=
  match g with
  | GField n v rest => if String.eqb name n then Some v else getField name rest
  | _ => None
  end.

Fixpoint setField (name : string) (v g : gv) : gv :=
  match g with
  | GField n v' rest => if String.eqb name n then GField n v rest else GField n v' (setField name v rest)
  | _ => g
  end.

(** A copy of one variable: from what it holds in [in], what it holds in [out]. *)
Abbreviation copyVar := (gv → go mem gv).

(** [if in.F != nil { ...; *out = ... }]: a nil reference stays nil. *)
Definition unlessNil (f : loc → go mem gv) : copyVar := λ g,
  match g with
  | GRef (Some l) => f l
  | _ => mret g
  end.

(** A new cell with the same contents. *)
Definition copyCell : copyVar := unlessNil (λ l, c ← load l; l' ← alloc c; mret (GRef (Some l'))).

(** A new pointee assigned from the old ([**out = **in]), a new slice filled with [copy], and a new map
    filled entry by entry. *)
Definition newCopy : copyVar := copyCell.
Definition sliceCopy : copyVar := copyCell.
Definition mapCopy : copyVar := copyCell.

(** DeepCopyInto of every element of a slice, or of the one pointee. *)
Fixpoint intoAll (f : copyVar) (c : cell) : go mem cell :=
  match c with
  | [] => mret []
  | (k, g) :: rest => g' ← f g; rest' ← intoAll f rest; mret ((k, g') :: rest')
  end.

(** A new cell that DeepCopyInto fills: it starts as a copy of the old one ([*out = *in] opens every
    DeepCopyInto) and is then filled. *)
Definition copyInto (f : copyVar) : copyVar :=
  unlessNil (λ l, c ← load l; l' ← alloc c; c' ← intoAll f c; _ ← store l' c'; mret (GRef (Some l'))).

(** A new pointee, and a new slice, filled by DeepCopyInto. *)
Definition newInto : copyVar → copyVar := copyInto.
Definition sliceInto : copyVar → copyVar := copyInto.

(** A copy made first, [x], and then its address, [*out = &x]. *)
Definition addrOf (f : copyVar) : copyVar :=
  unlessNil (λ l, c ← load l; c' ← intoAll f c; l' ← alloc c'; mret (GRef (Some l'))).

(** A pointer's own DeepCopy, called on a pointer that is not nil. *)
Definition guarded (f : copyVar) : copyVar := λ g, unlessNil (λ _, f g) g.

(** A statement of a DeepCopyInto: copy one field of [in] into [out]. *)
Definition field (name : string) (f : copyVar) (g : gv) (out : gv) : go mem gv :=
  v ← go_lift (getField name g); v' ← f v; mret (setField name v' out).

(** [out.F = in.F]. *)
Definition assign (name : string) : gv → gv → go mem gv := field name mret.

(** DeepCopyInto: [*out = *in], then the statements in order. *)
Fixpoint statements (steps : list (gv → gv → go mem gv)) (g out : gv) : go mem gv :=
  match steps with
  | [] => mret out
  | s :: rest => out ← s g out; statements rest g out
  end.
Definition deepCopyInto (steps : list (gv → gv → go mem gv)) : copyVar := λ g, statements steps g g.

(** DeepCopy: nil for nil, otherwise a new struct that DeepCopyInto fills. *)
Definition deepCopy (into : copyVar) : copyVar := newInto into.

(** DeepCopyObject: an interface that holds the copy, and the nil interface, not a nil pointer in an
    interface, for nil. *)
Definition deepCopyObject (copy : copyVar) : gv → go mem (option gv) := λ g,
  c ← copy g;
  mret match c with GRef None => None | c => Some c end.

(** ** Copies and what they promise *)

(** [owns P t m g v]: [g] reads as [v], and every cell it reaches satisfies [P]. *)
Fixpoint owns (P : loc → Prop) (t : ty) (m : mem) (g : gv) (v : val) : Prop :=
  let ref t := match g with
               | GRef None => v = VNil
               | GRef (Some l) => P l ∧ ∃ c vs, m !! l = Some c ∧ v = VRef vs ∧
                   Forall2 (λ kg kv, kg.1 = kv.1 ∧ owns P t m kg.2 kv.2) c vs
               | _ => False
               end in
  match t with
  | TFlat => ∃ s, g = GScalar s ∧ v = VScalar s
  | TPtr t => ref t
  | TSlice t => ref t
  | TMap t => ref t
  | TEnd => g = GEnd ∧ v = VEnd
  | TField name t rest => ∃ g1 g2 v1 v2, g = GField name g1 g2 ∧ v = VField name v1 v2 ∧
      owns P t m g1 v1 ∧ owns P rest m g2 v2
  end.

(** A variable whose cells are unchanged reads the same. *)
Lemma owns_agree (P Q : loc → Prop) t m m' g v :
  (∀ l, P l → Q l ∧ m' !! l = m !! l) → owns P t m g v → owns Q t m' g v.
Proof.
  intros Hm. revert g v. induction t as [|t IH|t IH|t IH| |name t IH1 rest IH2]; intros g v; simpl; try done.
  1-3: destruct g as [s|[l|]| |]; try done; intros (Hl & c & vs & Hc & -> & Hf);
       destruct (Hm l Hl) as [Hq Heq]; (split; [done|]); exists c, vs; rewrite Heq; (split_and!; [done..|]);
       eapply Forall2_impl; [exact Hf|]; intros x y [? ?]; split; [done|]; by apply IH.
  intros (g1 & g2 & v1 & v2 & -> & -> & H1 & H2). exists g1, g2, v1, v2. split_and!; auto.
Qed.

Lemma owns_grow P t m m' g v : m ⊆ m' → owns P t m g v → (∀ l, P l → is_Some (m !! l)) → owns P t m' g v.
Proof.
  intros Hm Ho HP. eapply owns_agree, Ho. intros l Hl. split; [done|].
  destruct (HP l Hl) as [c Hc]. rewrite Hc. by eapply lookup_weaken.
Qed.

Lemma mapM_Forall2 {A B} (f : A → option B) (R : A → B → Prop) l k :
  (∀ x y, x ∈ l → f x = Some y → R x y) → mapM f l = Some k → Forall2 R l k.
Proof.
  intros HR Hm%mapM_Some. induction Hm as [|x y l k Hxy Hm IH]; constructor.
  - by apply HR; [left|].
  - apply IH. intros x' y' ?. apply HR. by right.
Qed.

Lemma owns_deref P t m g v : owns P t m g v → deref t m g = Some v.
Proof.
  revert g v. induction t as [|t IH|t IH|t IH| |name t IH1 rest IH2]; intros g v; simpl.
  1: by intros (s & -> & ->).
  1-3: destruct g as [s|[l|]| |]; try done; [|by intros ->]; intros (Hl & c & vs & -> & -> & Hf); simpl;
       assert (mapM (λ kg, pair kg.1 <$> deref t m kg.2) c = Some vs) as ->; [|done];
       apply mapM_Some; eapply Forall2_impl; [exact Hf|]; intros [k g] [k' v'] [Hk Ho]; simpl in *;
       rewrite (IH _ _ Ho), Hk; done.
  - by intros [-> ->].
  - intros (g1 & g2 & v1 & v2 & -> & -> & H1 & H2). rewrite String.eqb_refl, (IH1 _ _ H1). simpl.
    by rewrite (IH2 _ _ H2).
Qed.

Lemma deref_owns t m g v : deref t m g = Some v → owns (λ l, is_Some (m !! l)) t m g v.
Proof.
  revert g v. induction t as [|t IH|t IH|t IH| |name t IH1 rest IH2]; intros g v; simpl.
  1: destruct g; try done; intros [= <-]; by eexists.
  1-3: destruct g as [s|[l|]| |]; try done; [|by intros [= <-]];
       destruct (m !! l) as [c|] eqn:Hc; simpl; [|done];
       destruct (mapM _ c) as [vs|] eqn:Hm; simpl; [|done]; intros [= <-]; (split; [by eexists|]);
       exists c, vs; (split_and!; [done..|]);
       eapply mapM_Forall2; [|exact Hm]; intros [k g] [k' v'] _ Hd; simpl in *;
       apply fmap_Some in Hd as (x & Hx & [= <- <-]); split; [done|]; by apply IH.
  - destruct g; try done. by intros [= <-].
  - destruct g as [| | |name' g1 g2]; try done. destruct (String.eqb_spec name name') as [<-|]; [|done].
    intros (v1 & H1 & (v2 & H2 & [= <-])%bind_Some)%bind_Some. exists g1, g2, v1, v2. split_and!; auto.
Qed.

(** A copier of a type reads any variable of it and returns one that reads the same from cells it
    allocated, leaving the memory it found as it was. *)
Definition copier (t : ty) (f : copyVar) : Prop := ∀ m g v,
  deref t m g = Some v →
  ∃ g' m', f g m = (Some g', m') ∧ m ⊆ m' ∧ owns (λ l, m !! l = None ∧ is_Some (m' !! l)) t m' g' v.

(** What a caller of DeepCopy counts on: the copy reads like the original; whatever then happens to the
    cells that existed before, the copy reads the same; and whatever happens to the others, the original
    does. *)
Definition isolated (t : ty) (f : copyVar) : Prop := ∀ m g v,
  deref t m g = Some v →
  ∃ g' m', f g m = (Some g', m') ∧ m ⊆ m' ∧ deref t m' g' = Some v ∧
    (∀ m2 : mem, (∀ l, m !! l = None → m2 !! l = m' !! l) → deref t m2 g' = Some v) ∧
    (∀ m2 : mem, (∀ l, is_Some (m !! l) → m2 !! l = m' !! l) → deref t m2 g = Some v).

Lemma copier_isolated t f : copier t f → isolated t f.
Proof.
  intros Hf m g v Hd. destruct (Hf m g v Hd) as (g' & m' & Hrun & Hm & Ho).
  exists g', m'. split_and!; [done|done|by eapply owns_deref|..]; intros m2 Hm2.
  - eapply owns_deref, owns_agree, Ho. intros l [Hn Hs]. split; [exact (conj Hn Hs)|]. by apply Hm2.
  - apply deref_owns in Hd. eapply owns_deref, (owns_agree _ (λ _, True)), Hd. intros l [c Hc]. split; [done|].
    rewrite Hm2 by (by rewrite Hc). rewrite Hc. by eapply lookup_weaken.
Qed.

(** Types without references: their variables are copied by assignment. *)
Fixpoint flat (t : ty) : bool :=
  match t with
  | TFlat | TEnd => true
  | TField _ t rest => flat t && flat rest
  | _ => false
  end.

Lemma flat_owns P t m m' g v : flat t = true → deref t m g = Some v → owns P t m' g v.
Proof.
  revert g v. induction t as [|t IH|t IH|t IH| |name t IH1 rest IH2]; intros g v Hf; simpl in *; try done.
  - destruct g; try done. intros [= <-]. by eexists.
  - destruct g; try done. by intros [= <-].
  - bsimpl. destruct g as [| | |name' g1 g2]; try done. destruct (String.eqb_spec name name') as [<-|]; [|done].
    intros (v1 & H1 & (v2 & H2 & [= <-])%bind_Some)%bind_Some. exists g1, g2, v1, v2. split_and!; auto.
Qed.

(** The cells that [m'] has and [m] does not. *)
Definition newIn (m m' : mem) (l : loc) : Prop := m !! l = None ∧ is_Some (m' !! l).

Lemma deref_grow t m m' g v : m ⊆ m' → deref t m g = Some v → deref t m' g = Some v.
Proof. intros Hm Hd%deref_owns. eapply owns_deref, owns_grow; [done|exact Hd|done]. Qed.

Lemma owns_new_later t m m1 m2 g v :
  m1 ⊆ m2 → owns (newIn m m1) t m1 g v → owns (newIn m m2) t m2 g v.
Proof.
  intros Hm. apply owns_agree. intros l [Hn [c Hc]]. rewrite Hc.
  pose proof (lookup_weaken _ _ _ _ Hc Hm) as Hc'. split; [split; [done|by rewrite Hc']|done].
Qed.

Lemma owns_new_earlier t m m1 m2 g v :
  m ⊆ m1 → owns (newIn m1 m2) t m2 g v → owns (newIn m m2) t m2 g v.
Proof.
  intros Hm. apply owns_agree. intros l [Hn Hc]. split; [|done]. split; [|done].
  by eapply lookup_weaken_None.
Qed.

Lemma alloc_spec c m : ∃ l, alloc c m = (Some l, <[l := c]> m) ∧ m !! l = None ∧ m ⊆ <[l := c]> m.
Proof.
  exists (fresh (dom m)). assert (m !! fresh (dom m) = None) as Hn by (apply not_elem_of_dom, is_fresh).
  split_and!; [done|done|by apply insert_subseteq].
Qed.

Lemma copier_flat t : flat t = true → copier t mret.
Proof.
  intros Hf m g v Hd. exists g, m. split_and!; [done|done|]. by eapply flat_owns.
Qed.

(** Element-wise facts of a cell. *)
Abbreviation cellOwns P t m := (Forall2 (λ kg kv, kg.1 = kv.1 ∧ owns P t m kg.2 kv.2)).

Lemma cell_deref t m g v : deref (TPtr t) m g = Some v →
  (g = GRef None ∧ v = VNil) ∨
  (∃ l c vs, g = GRef (Some l) ∧ m !! l = Some c ∧ v = VRef vs ∧ cellOwns (λ l, is_Some (m !! l)) t m c vs).
Proof.
  intros Hd%deref_owns. destruct g as [s|[l|]| |]; simpl in Hd; try done; [right|by left].
  destruct Hd as (_ & c & vs & ? & ? & ?). by exists l, c, vs.
Qed.

Lemma copier_copyCell t : flat t = true → copier (TPtr t) copyCell.
Proof.
  intros Hf m g v Hd. destruct (cell_deref t m g v Hd) as [[-> ->]|(l & c & vs & -> & Hc & -> & Hall)].
  { exists (GRef None), m. by split_and!. }
  destruct (alloc_spec c m) as (l' & Ha & Hn & Hsub).
  exists (GRef (Some l')), (<[l' := c]> m). split_and!; [|done|].
  - unfold copyCell, unlessNil, mbind, go_bind, load. rewrite Hc, Ha. done.
  - simpl. rewrite lookup_insert_eq. split; [by eauto|]. exists c, vs. split_and!; [done..|].
    eapply Forall2_impl; [exact Hall|]. intros x y [? Ho]. split; [done|].
    by eapply flat_owns; [|eapply owns_deref].
Qed.

Lemma intoAll_spec t f : copier t f → ∀ c vs m,
  cellOwns (λ l, is_Some (m !! l)) t m c vs →
  ∃ c' m', intoAll f c m = (Some c', m') ∧ m ⊆ m' ∧ cellOwns (newIn m m') t m' c' vs.
Proof.
  intros Hf. induction c as [|[k g] c IH]; intros vs m Hall.
  { inversion Hall; subst. exists [], m. split_and!; [done..|constructor]. }
  inversion Hall as [|? [k' v] ? vs' [Hk Ho] Hrest]; subst; simpl in Hk, Ho; subst k'.
  destruct (Hf m g v (owns_deref _ _ _ _ _ Ho)) as (g' & m1 & Hg & Hm1 & Ho').
  destruct (IH vs' m1) as (c' & m2 & Hc & Hm2 & Hall').
  { eapply Forall2_impl; [exact Hrest|]. intros x y [? Hx]. split; [done|].
    apply deref_owns. eapply deref_grow; [exact Hm1|]. by eapply owns_deref. }
  exists ((k, g') :: c'), m2. split_and!; [|by etrans|constructor].
  - simpl. unfold mbind, go_bind. by rewrite Hg, Hc.
  - split; [done|]. by eapply owns_new_later.
  - eapply Forall2_impl; [exact Hall'|]. intros x y [? Hx]. split; [done|]. by eapply owns_new_earlier.
Qed.

Lemma copier_copyInto t f : copier t f → copier (TPtr t) (copyInto f).
Proof.
  intros Hf m g v Hd. destruct (cell_deref t m g v Hd) as [[-> ->]|(l & c & vs & -> & Hc & -> & Hall)].
  { exists (GRef None), m. by split_and!. }
  destruct (alloc_spec c m) as (l' & Ha & Hn & Hsub).
  destruct (intoAll_spec t f Hf c vs (<[l' := c]> m)) as (c' & m2 & Hi & Hm2 & Hall').
  { eapply Forall2_impl; [exact Hall|]. intros x y [? Hx]. split; [done|].
    apply deref_owns. eapply deref_grow; [exact Hsub|]. by eapply owns_deref. }
  exists (GRef (Some l')), (<[l' := c']> m2). split_and!.
  - unfold copyInto, unlessNil, mbind, go_bind, load, store. by rewrite Hc, Ha, Hi.
  - apply map_subseteq_spec. intros i x Hx. rewrite lookup_insert_ne by congruence.
    eapply lookup_weaken; [|exact Hm2]. rewrite lookup_insert_ne by congruence. done.
  - simpl. rewrite lookup_insert_eq. split; [by eauto|]. exists c', vs. split_and!; [done..|].
    eapply Forall2_impl; [exact Hall'|]. intros x y [? Hx]. split; [done|]. eapply owns_agree, Hx.
    intros i [Hni Hsi]. assert (i ≠ l') as Hne by (intros ->; rewrite lookup_insert_eq in Hni; done).
    rewrite lookup_insert_ne in Hni by done. rewrite lookup_insert_ne by done. done.
Qed.

Lemma copier_addrOf t f : copier t f → copier (TPtr t) (addrOf f).
Proof.
  intros Hf m g v Hd. destruct (cell_deref t m g v Hd) as [[-> ->]|(l & c & vs & -> & Hc & -> & Hall)].
  { exists (GRef None), m. by split_and!. }
  destruct (intoAll_spec t f Hf c vs m Hall) as (c' & m2 & Hi & Hm2 & Hall').
  destruct (alloc_spec c' m2) as (l' & Ha & Hn & Hsub).
  exists (GRef (Some l')), (<[l' := c']> m2). split_and!; [|by etrans|].
  - unfold addrOf, unlessNil, mbind, go_bind, load. by rewrite Hc, Hi, Ha.
  - simpl. rewrite lookup_insert_eq. split; [split; [by eapply lookup_weaken_None|by eexists]|].
    exists c', vs. split_and!; [done..|].
    eapply Forall2_impl; [exact Hall'|]. intros x y [? Hx]. split; [done|]. by eapply owns_new_later.
Qed.

Lemma copier_guarded t f : copier (TPtr t) f → copier (TPtr t) (guarded f).
Proof.
  intros Hf m g v Hd. destruct (cell_deref t m g v Hd) as [[-> ->]|(l & c & vs & -> & _)].
  { exists (GRef None), m. by split_and!. }
  by apply Hf.
Qed.

(** Slices and maps are cells too. *)
Lemma copier_newCopy t : flat t = true → copier (TPtr t) newCopy.
Proof. exact (copier_copyCell t). Qed.
Lemma copier_sliceCopy t : flat t = true → copier (TSlice t) sliceCopy.
Proof. exact (copier_copyCell t). Qed.
Lemma copier_mapCopy t : flat t = true → copier (TMap t) mapCopy.
Proof. exact (copier_copyCell t). Qed.
Lemma copier_newInto t f : copier t f → copier (TPtr t) (newInto f).
Proof. exact (copier_copyInto t f). Qed.
Lemma copier_sliceInto t f : copier t f → copier (TSlice t) (sliceInto f).
Proof. exact (copier_copyInto t f). Qed.
Lemma copier_deepCopy t f : copier t f → copier (TPtr t) (deepCopy f).
Proof. exact (copier_copyInto t f). Qed.

Create HintDb copies discriminated.
#[export] Hint Constants Opaque : copies.
#[export] Hint Resolve copier_flat copier_newCopy copier_sliceCopy copier_mapCopy copier_newInto copier_sliceInto
  copier_addrOf copier_guarded : copies.

(** ** Structs *)

Fixpoint fieldTy (name : string) (t : ty) : option ty :=
  match t with
  | TField n t rest => if String.eqb name n then Some t else fieldTy name rest
  | _ => None
  end.

Fixpoint fieldNames (t : ty) : list string :=
  match t with TField n _ rest => n :: fieldNames rest | _ => [] end.

(** Every field is copied by a statement or needs none. *)
Fixpoint complete (copied : list string) (t : ty) : bool :=
  match t with
  | TField n t rest => (bool_decide (n ∈ copied) || flat t) && complete copied rest
  | TEnd => true
  | _ => false
  end.

(** Half-way through a DeepCopyInto that started in [m0]: the fields of [D] are copies, the others still
    what [*out = *in] made them. *)
Fixpoint mixed (D : list string) (t : ty) (m0 m : mem) (g out : gv) (v : val) : Prop :=
  match t with
  | TEnd => g = GEnd ∧ out = GEnd ∧ v = VEnd
  | TField n t rest => ∃ g1 g2 o1 o2 v1 v2,
      g = GField n g1 g2 ∧ out = GField n o1 o2 ∧ v = VField n v1 v2 ∧ deref t m0 g1 = Some v1 ∧
      (if decide (n ∈ D) then owns (newIn m0 m) t m o1 v1 else o1 = g1) ∧ mixed D rest m0 m g2 o2 v2
  | _ => False
  end.

Lemma mixed_start names t m g v : complete names t = true → deref t m g = Some v → mixed [] t m m g g v.
Proof.
  revert g v. induction t as [| | | | |n t _ rest IH]; intros g v Hc; simpl in *; try done.
  { by destruct g; intros [= <-]. }
  bsimpl. destruct g as [| | |n' g1 g2]; try done. destruct (String.eqb_spec n n') as [<-|]; [|done].
  intros (v1 & H1 & (v2 & H2 & [= <-])%bind_Some)%bind_Some.
  exists g1, g2, g1, g2, v1, v2. split_and!; auto.
Qed.

Lemma mixed_end names t m0 m g out v :
  complete names t = true → mixed names t m0 m g out v → owns (newIn m0 m) t m out v.
Proof.
  revert g out v. induction t as [| | | | |n t _ rest IH]; intros g out v Hc; simpl in *; try done.
  { by intros (_ & -> & ->). }
  intros (g1 & g2 & o1 & o2 & v1 & v2 & -> & -> & -> & Hd & Ho & Hr). bsimpl.
  exists o1, o2, v1, v2. split_and!; [done..| |by eapply IH].
  case_decide; [done|]. subst o1. eapply flat_owns; [|exact Hd].
  match goal with Hx : _ || _ = true |- _ => apply orb_true_iff in Hx as [Hx%bool_decide_eq_true_1|Hx]; done end.
Qed.

Lemma mixed_grow D t m0 m m' g out v : m ⊆ m' → mixed D t m0 m g out v → mixed D t m0 m' g out v.
Proof.
  intros Hm. revert g out v. induction t as [| | | | |n t _ rest IH]; intros g out v; simpl; try done.
  intros (g1 & g2 & o1 & o2 & v1 & v2 & -> & -> & -> & Hd & Ho & Hr).
  exists g1, g2, o1, o2, v1, v2. split_and!; auto. case_decide; [|done]. by eapply owns_new_later.
Qed.

Lemma mixed_get D t m0 m g out v n tn :
  mixed D t m0 m g out v → fieldTy n t = Some tn →
  ∃ g1 v1, getField n g = Some g1 ∧ deref tn m0 g1 = Some v1 ∧
    ∀ o1, NoDup (fieldNames t) → owns (newIn m0 m) tn m o1 v1 → mixed (n :: D) t m0 m g (setField n o1 out) v.
Proof.
  revert g out v. induction t as [| | | | |n' t _ rest IH]; intros g out v; simpl; try done.
  intros (g1 & g2 & o1 & o2 & v1 & v2 & -> & -> & -> & Hd & Ho & Hr). simpl.
  assert (∀ D', (∀ x, x ∈ fieldNames rest → x ∈ D ↔ x ∈ D') → mixed D' rest m0 m g2 o2 v2) as Hext.
  { clear -Hr. revert g2 o2 v2 Hr. induction rest as [| | | | |x t _ rest IH]; intros g2 o2 v2; simpl; try done.
    intros (a1 & a2 & b1 & b2 & c1 & c2 & -> & -> & -> & Hd & Ho & Hr) D' HD.
    exists a1, a2, b1, b2, c1, c2. split_and!; try done; [|apply IH; [done|]; intros y Hy; apply HD; by right].
    destruct (HD x ltac:(by left)) as [Hi Hj]. repeat case_decide; naive_solver. }
  destruct (String.eqb_spec n n') as [<-|Hne].
  - intros [= <-]. exists g1, v1. split_and!; [done..|]. intros o [Hni _]%NoDup_cons Hown.
    exists g1, g2, o, o2, v1, v2. split_and!; try done.
    + by rewrite decide_True by left.
    + apply Hext. intros x Hx. rewrite elem_of_cons. naive_solver.
  - intros Hft. destruct (IH g2 o2 v2 Hr Hft) as (h & u & Hg & Hu & Hset).
    exists h, u. split_and!; [done..|]. intros o [_ Hnd]%NoDup_cons Hown.
    exists g1, g2, o1, (setField n o o2), v1, v2. split_and!; try done; [|by apply Hset].
    repeat case_decide; set_solver.
Qed.

(** A statement copies the field it names. *)
Inductive stepOk (t : ty) (name : string) : (gv → gv → go mem gv) → Prop :=
  | stepOk_field tn f : fieldTy name t = Some tn → copier tn f → stepOk t name (field name f).

Lemma stepOk_assign t name tn : fieldTy name t = Some tn → flat tn = true → stepOk t name (assign name).
Proof. intros Hft Hf. eapply stepOk_field; [done|by apply copier_flat]. Qed.

Lemma field_spec t m0 m D g out v name s :
  NoDup (fieldNames t) → m0 ⊆ m → stepOk t name s → mixed D t m0 m g out v →
  ∃ out' m', s g out m = (Some out', m') ∧ m ⊆ m' ∧ mixed (name :: D) t m0 m' g out' v.
Proof.
  intros Hnd Hm [tn f Hft Hf] Hmix.
  destruct (mixed_get D t m0 m g out v name tn Hmix Hft) as (g1 & v1 & Hget & Hd & _).
  destruct (Hf m g1 v1) as (o1 & m' & Hrun & Hm' & Hown); [by eapply deref_grow|].
  exists (setField name o1 out), m'. split_and!; [|done|].
  - unfold field, go_lift, mbind, go_bind. by rewrite Hget, Hrun.
  - apply (mixed_grow _ _ _ _ m') in Hmix; [|done].
    destruct (mixed_get D t m0 m' g out v name tn Hmix Hft) as (g1' & v1' & Hget' & Hd' & Hset).
    assert (g1' = g1 ∧ v1' = v1) as [-> ->] by (split; congruence).
    apply Hset; [done|]. by eapply owns_new_earlier.
Qed.

Lemma statements_spec t m0 names steps : NoDup (fieldNames t) → Forall2 (stepOk t) names steps →
  ∀ m D g out v, m0 ⊆ m → mixed D t m0 m g out v →
  ∃ out' m', statements steps g out m = (Some out', m') ∧ m ⊆ m' ∧ mixed (reverse names ++ D) t m0 m' g out' v.
Proof.
  intros Hnd. induction 1 as [|name s names steps Hs Hall IH]; intros m D g out v Hm Hmix.
  { exists out, m. by split_and!. }
  destruct (field_spec t m0 m D g out v name s Hnd Hm Hs Hmix) as (out1 & m1 & Hrun & Hm1 & Hmix1).
  destruct (IH m1 (name :: D) g out1 v) as (out2 & m2 & Hrun2 & Hm2 & Hmix2); [by etrans|done|].
  exists out2, m2. split_and!; [|by etrans|].
  - simpl. unfold mbind, go_bind. by rewrite Hrun.
  - rewrite reverse_cons, <- app_assoc. done.
Qed.

(** A DeepCopyInto whose statements copy every field of the struct that holds a reference is a copier. *)
Lemma struct_copier t names steps :
  Forall2 (stepOk t) names steps → NoDup (fieldNames t) → complete (reverse names) t = true →
  copier t (deepCopyInto steps).
Proof.
  intros Hall Hnd Hc m g v Hd.
  pose proof (mixed_start _ t m g v Hc Hd) as Hmix.
  destruct (statements_spec t m names steps Hnd Hall m [] g g v) as (out & m' & Hrun & Hm & Hend); [done..|].
  exists out, m'. split_and!; [done..|]. rewrite app_nil_r in Hend. by eapply mixed_end.
Qed.

(** ** The types of the API *)

(** Types of Kubernetes and of its libraries: their fields, DeepCopyInto (or, of a Quantity, DeepCopy) of a
    variable of them, and DeepCopy of a pointer to one. *)
Class Library := {
  lib_ty : string → ty;
  lib_copy : string → copyVar;
  lib_DeepCopy : string → copyVar;
}.

(** What the generated code relies on: the libraries' own copies are deep, and the types it copies by
    assignment hold no reference. *)
Class LibraryLaws `{!Library} : Prop := {
  lib_copier name : copier (lib_ty name) (lib_copy name);
  lib_pointer_copier name : copier (TPtr (lib_ty name)) (lib_DeepCopy name);
  lib_flat name : name ∈ ["Duration"; "LocalObjectReference"; "TypeMeta"] → flat (lib_ty name) = true;
}.
#[export] Hint Resolve lib_copier lib_pointer_copier : copies.
#[export] Hint Extern 1 (flat (lib_ty _) = true) => apply lib_flat, (bool_decide_unpack _); exact I : copies.
#[export] Hint Extern 2 (flat _ = true) => reflexivity : copies.

Section api.
Context `{!Library}.

(** *** The structs of kahunacluster_types.go *)

Definition VolumeSpec_ty : ty := struct
  [("Size", lib_ty "Quantity"); ("StorageClassName", TPtr TFlat); ("AccessModes", TSlice TFlat)].
Definition StorageSpec_ty : ty := struct
  [("Backend", TFlat); ("Revision", TFlat); ("WALBackend", TFlat); ("WALRevision", TFlat);
   ("Data", VolumeSpec_ty); ("WAL", TPtr VolumeSpec_ty); ("SyncWrites", TPtr TFlat);
   ("DirectReads", TPtr TFlat); ("SharedMemory", TPtr TFlat); ("SharedMemoryBudgetMB", TPtr TFlat);
   ("SharedMemtableBudgetMB", TPtr TFlat); ("PVCRetentionPolicy", TFlat)].
Definition CertManagerIssuerRef_ty : ty := struct
  [("Name", TFlat); ("Kind", TFlat); ("Group", TFlat)].
Definition CertManagerSpec_ty : ty := struct
  [("IssuerRef", CertManagerIssuerRef_ty); ("Duration", TPtr (lib_ty "Duration"));
   ("RenewBefore", TPtr (lib_ty "Duration"))].
Definition TLSSpec_ty : ty := struct
  [("SecretRef", TPtr (lib_ty "LocalObjectReference")); ("KeystoreKey", TFlat);
   ("PasswordSecretRef", TPtr (lib_ty "SecretKeySelector")); ("CertManager", TPtr CertManagerSpec_ty);
   ("InsecureSkipVerify", TPtr TFlat)].
Definition PortsSpec_ty : ty := struct
  [("HTTP", TFlat); ("HTTPS", TFlat); ("InternalHTTP", TFlat); ("Raft", TFlat)].
Definition RaftSpec_ty : ty := struct
  [("HeartbeatIntervalMs", TPtr TFlat); ("VotingTimeoutMs", TPtr TFlat); ("StartElectionTimeoutMs", TPtr TFlat);
   ("EndElectionTimeoutMs", TPtr TFlat); ("EnableCheckQuorum", TPtr TFlat); ("GossipIntervalMs", TPtr TFlat);
   ("GossipFanout", TPtr TFlat); ("PingTimeoutMs", TPtr TFlat); ("IndirectPingFanout", TPtr TFlat);
   ("SuspicionTimeoutMs", TPtr TFlat); ("DeadMemberEvictionGraceMs", TPtr TFlat);
   ("BackfillThreshold", TPtr TFlat); ("MaxBackfillEntriesPerRound", TPtr TFlat);
   ("LearnerPromotionLag", TPtr TFlat); ("LearnerPromotionStableWindowMs", TPtr TFlat)].
Definition TransactionsSpec_ty : ty := struct
  [("DefaultTimeoutMs", TPtr TFlat); ("DefaultAdmissionWaitMs", TPtr TFlat); ("MaxAdmissionWaitMs", TPtr TFlat);
   ("MaxConcurrentTransactions", TPtr TFlat); ("MaxConcurrentSessions", TPtr TFlat)].
Definition WorkersSpec_ty : ty := struct
  [("Locks", TPtr TFlat); ("KeyValue", TPtr TFlat); ("Sequencer", TPtr TFlat);
   ("BackgroundWriter", TPtr TFlat)].
Definition ReplicationSpec_ty : ty := struct
  [("Factor", TFlat)].
Definition AutoscalingSpec_ty : ty := struct
  [("MinReplicas", TFlat); ("MaxReplicas", TFlat); ("TargetWritesPerSecond", TPtr TFlat);
   ("TargetQueueDepth", TPtr TFlat); ("ScaleUpStabilizationSeconds", TPtr TFlat);
   ("ScaleDownStabilizationSeconds", TPtr TFlat); ("TolerancePercent", TPtr TFlat)].
Definition BackupVolumeSpec_ty : ty := struct
  [("ClaimName", TPtr TFlat); ("Claim", TPtr VolumeSpec_ty)].
Definition BackupRetentionSpec_ty : ty := struct
  [("MaxChains", TPtr TFlat); ("MaxAge", TPtr (lib_ty "Duration")); ("MaxBytes", TPtr (lib_ty "Quantity"))].
Definition BackupSpec_ty : ty := struct
  [("Schedule", TFlat); ("IncrementalSchedule", TFlat); ("Suspend", TPtr TFlat);
   ("Timeout", TPtr (lib_ty "Duration")); ("Volume", BackupVolumeSpec_ty); ("ClusterID", TFlat);
   ("MACKeySecretRef", TPtr (lib_ty "SecretKeySelector")); ("Retention", TPtr BackupRetentionSpec_ty)].
Definition KahunaClusterSpec_ty : ty := struct
  [("Replicas", TPtr TFlat); ("Replication", TPtr ReplicationSpec_ty); ("Autoscaling", TPtr AutoscalingSpec_ty);
   ("Backup", TPtr BackupSpec_ty); ("Image", TFlat); ("ImagePullPolicy", TFlat);
   ("ImagePullSecrets", TSlice (lib_ty "LocalObjectReference")); ("Partitions", TPtr TFlat);
   ("Storage", StorageSpec_ty); ("TLS", TLSSpec_ty); ("Ports", TPtr PortsSpec_ty); ("Raft", TPtr RaftSpec_ty);
   ("Transactions", TPtr TransactionsSpec_ty); ("Workers", TPtr WorkersSpec_ty); ("LogLevel", TFlat);
   ("ExtraArgs", TSlice TFlat); ("Resources", lib_ty "ResourceRequirements"); ("NodeSelector", TMap TFlat);
   ("Tolerations", TSlice (lib_ty "Toleration")); ("Affinity", TPtr (lib_ty "Affinity"));
   ("TopologySpreadConstraints", TSlice (lib_ty "TopologySpreadConstraint")); ("PodAnnotations", TMap TFlat);
   ("PodLabels", TMap TFlat); ("ServiceAccountName", TFlat);
   ("PodSecurityContext", TPtr (lib_ty "PodSecurityContext"));
   ("SecurityContext", TPtr (lib_ty "SecurityContext")); ("TerminationGracePeriodSeconds", TPtr TFlat);
   ("PodDisruptionBudget", TPtr TFlat)].
Definition MemberStatus_ty : ty := struct
  [("PodName", TFlat); ("Endpoint", TFlat); ("NodeID", TFlat); ("Role", TFlat); ("JoinedVersion", TFlat);
   ("Ready", TFlat)].
Definition AutoscalingStatus_ty : ty := struct
  [("DesiredReplicas", TFlat); ("RecommendedReplicas", TFlat); ("WritesPerSecondPerNode", TPtr TFlat);
   ("QueueDepthPerNode", TPtr TFlat); ("AboveTargetSince", TPtr (lib_ty "Time"));
   ("BelowTargetSince", TPtr (lib_ty "Time")); ("LastScaleTime", TPtr (lib_ty "Time"))].
Definition BackupStatus_ty : ty := struct
  [("LastFullScheduleTime", TPtr (lib_ty "Time")); ("LastIncrementalScheduleTime", TPtr (lib_ty "Time"));
   ("LastSuccessfulTime", TPtr (lib_ty "Time")); ("LastBackupID", TFlat); ("LastBackupType", TFlat);
   ("ConsecutiveFailures", TFlat); ("LastFailureTime", TPtr (lib_ty "Time")); ("LastFailureMessage", TFlat);
   ("UnclaimedSince", TPtr (lib_ty "Time")); ("LastUnclaimedTime", TPtr (lib_ty "Time"))].
Definition KahunaClusterStatus_ty : ty := struct
  [("ObservedGeneration", TFlat); ("Phase", TFlat); ("Replicas", TFlat); ("ReadyReplicas", TFlat);
   ("Voters", TFlat); ("Learners", TFlat); ("MembershipVersion", TFlat); ("Members", TSlice MemberStatus_ty);
   ("Bootstrapped", TFlat); ("BootstrapSize", TFlat); ("CurrentImage", TFlat); ("LabelSelector", TFlat);
   ("UpdatePartition", TPtr TFlat); ("Autoscaling", TPtr AutoscalingStatus_ty);
   ("Backup", TPtr BackupStatus_ty); ("Conditions", TSlice (lib_ty "Condition"))].
Definition KahunaCluster_ty : ty := struct
  [("TypeMeta", lib_ty "TypeMeta"); ("ObjectMeta", lib_ty "ObjectMeta"); ("Spec", KahunaClusterSpec_ty);
   ("Status", KahunaClusterStatus_ty)].
Definition KahunaClusterList_ty : ty := struct
  [("TypeMeta", lib_ty "TypeMeta"); ("ListMeta", lib_ty "ListMeta"); ("Items", TSlice KahunaCluster_ty)].

(** *** Their generated functions, in the order of the types *)

Definition VolumeSpec_DeepCopyInto : copyVar := deepCopyInto
  [field "Size" (lib_copy "Quantity"); field "StorageClassName" newCopy; field "AccessModes" sliceCopy].
Definition VolumeSpec_DeepCopy : copyVar := deepCopy VolumeSpec_DeepCopyInto.

Definition StorageSpec_DeepCopyInto : copyVar := deepCopyInto
  [field "Data" VolumeSpec_DeepCopyInto; field "WAL" (newInto VolumeSpec_DeepCopyInto);
   field "SyncWrites" newCopy; field "DirectReads" newCopy; field "SharedMemory" newCopy;
   field "SharedMemoryBudgetMB" newCopy; field "SharedMemtableBudgetMB" newCopy].
Definition StorageSpec_DeepCopy : copyVar := deepCopy StorageSpec_DeepCopyInto.

Definition CertManagerIssuerRef_DeepCopyInto : copyVar := deepCopyInto [].
Definition CertManagerIssuerRef_DeepCopy : copyVar := deepCopy CertManagerIssuerRef_DeepCopyInto.

Definition CertManagerSpec_DeepCopyInto : copyVar := deepCopyInto
  [assign "IssuerRef"; field "Duration" newCopy; field "RenewBefore" newCopy].
Definition CertManagerSpec_DeepCopy : copyVar := deepCopy CertManagerSpec_DeepCopyInto.

Definition TLSSpec_DeepCopyInto : copyVar := deepCopyInto
  [field "SecretRef" newCopy; field "PasswordSecretRef" (newInto (lib_copy "SecretKeySelector"));
   field "CertManager" (newInto CertManagerSpec_DeepCopyInto); field "InsecureSkipVerify" newCopy].
Definition TLSSpec_DeepCopy : copyVar := deepCopy TLSSpec_DeepCopyInto.

Definition PortsSpec_DeepCopyInto : copyVar := deepCopyInto [].
Definition PortsSpec_DeepCopy : copyVar := deepCopy PortsSpec_DeepCopyInto.

Definition RaftSpec_DeepCopyInto : copyVar := deepCopyInto
  [field "HeartbeatIntervalMs" newCopy; field "VotingTimeoutMs" newCopy;
   field "StartElectionTimeoutMs" newCopy; field "EndElectionTimeoutMs" newCopy;
   field "EnableCheckQuorum" newCopy; field "GossipIntervalMs" newCopy; field "GossipFanout" newCopy;
   field "PingTimeoutMs" newCopy; field "IndirectPingFanout" newCopy; field "SuspicionTimeoutMs" newCopy;
   field "DeadMemberEvictionGraceMs" newCopy; field "BackfillThreshold" newCopy;
   field "MaxBackfillEntriesPerRound" newCopy; field "LearnerPromotionLag" newCopy;
   field "LearnerPromotionStableWindowMs" newCopy].
Definition RaftSpec_DeepCopy : copyVar := deepCopy RaftSpec_DeepCopyInto.

Definition TransactionsSpec_DeepCopyInto : copyVar := deepCopyInto
  [field "DefaultTimeoutMs" newCopy; field "DefaultAdmissionWaitMs" newCopy;
   field "MaxAdmissionWaitMs" newCopy; field "MaxConcurrentTransactions" newCopy;
   field "MaxConcurrentSessions" newCopy].
Definition TransactionsSpec_DeepCopy : copyVar := deepCopy TransactionsSpec_DeepCopyInto.

Definition WorkersSpec_DeepCopyInto : copyVar := deepCopyInto
  [field "Locks" newCopy; field "KeyValue" newCopy; field "Sequencer" newCopy;
   field "BackgroundWriter" newCopy].
Definition WorkersSpec_DeepCopy : copyVar := deepCopy WorkersSpec_DeepCopyInto.

Definition ReplicationSpec_DeepCopyInto : copyVar := deepCopyInto [].
Definition ReplicationSpec_DeepCopy : copyVar := deepCopy ReplicationSpec_DeepCopyInto.

Definition AutoscalingSpec_DeepCopyInto : copyVar := deepCopyInto
  [field "TargetWritesPerSecond" newCopy; field "TargetQueueDepth" newCopy;
   field "ScaleUpStabilizationSeconds" newCopy; field "ScaleDownStabilizationSeconds" newCopy;
   field "TolerancePercent" newCopy].
Definition AutoscalingSpec_DeepCopy : copyVar := deepCopy AutoscalingSpec_DeepCopyInto.

Definition BackupVolumeSpec_DeepCopyInto : copyVar := deepCopyInto
  [field "ClaimName" newCopy; field "Claim" (newInto VolumeSpec_DeepCopyInto)].
Definition BackupVolumeSpec_DeepCopy : copyVar := deepCopy BackupVolumeSpec_DeepCopyInto.

Definition BackupRetentionSpec_DeepCopyInto : copyVar := deepCopyInto
  [field "MaxChains" newCopy; field "MaxAge" newCopy; field "MaxBytes" (addrOf (lib_copy "Quantity"))].
Definition BackupRetentionSpec_DeepCopy : copyVar := deepCopy BackupRetentionSpec_DeepCopyInto.

Definition BackupSpec_DeepCopyInto : copyVar := deepCopyInto
  [field "Suspend" newCopy; field "Timeout" newCopy; field "Volume" BackupVolumeSpec_DeepCopyInto;
   field "MACKeySecretRef" (newInto (lib_copy "SecretKeySelector"));
   field "Retention" (newInto BackupRetentionSpec_DeepCopyInto)].
Definition BackupSpec_DeepCopy : copyVar := deepCopy BackupSpec_DeepCopyInto.

Definition KahunaClusterSpec_DeepCopyInto : copyVar := deepCopyInto
  [field "Replicas" newCopy; field "Replication" newCopy;
   field "Autoscaling" (newInto AutoscalingSpec_DeepCopyInto);
   field "Backup" (newInto BackupSpec_DeepCopyInto); field "ImagePullSecrets" sliceCopy;
   field "Partitions" newCopy; field "Storage" StorageSpec_DeepCopyInto; field "TLS" TLSSpec_DeepCopyInto;
   field "Ports" newCopy; field "Raft" (newInto RaftSpec_DeepCopyInto);
   field "Transactions" (newInto TransactionsSpec_DeepCopyInto);
   field "Workers" (newInto WorkersSpec_DeepCopyInto); field "ExtraArgs" sliceCopy;
   field "Resources" (lib_copy "ResourceRequirements"); field "NodeSelector" mapCopy;
   field "Tolerations" (sliceInto (lib_copy "Toleration")); field "Affinity" (newInto (lib_copy "Affinity"));
   field "TopologySpreadConstraints" (sliceInto (lib_copy "TopologySpreadConstraint"));
   field "PodAnnotations" mapCopy; field "PodLabels" mapCopy;
   field "PodSecurityContext" (newInto (lib_copy "PodSecurityContext"));
   field "SecurityContext" (newInto (lib_copy "SecurityContext"));
   field "TerminationGracePeriodSeconds" newCopy; field "PodDisruptionBudget" newCopy].
Definition KahunaClusterSpec_DeepCopy : copyVar := deepCopy KahunaClusterSpec_DeepCopyInto.

Definition MemberStatus_DeepCopyInto : copyVar := deepCopyInto [].
Definition MemberStatus_DeepCopy : copyVar := deepCopy MemberStatus_DeepCopyInto.

Definition AutoscalingStatus_DeepCopyInto : copyVar := deepCopyInto
  [field "WritesPerSecondPerNode" newCopy; field "QueueDepthPerNode" newCopy;
   field "AboveTargetSince" (guarded (lib_DeepCopy "Time")); field "BelowTargetSince" (guarded (lib_DeepCopy "Time"));
   field "LastScaleTime" (guarded (lib_DeepCopy "Time"))].
Definition AutoscalingStatus_DeepCopy : copyVar := deepCopy AutoscalingStatus_DeepCopyInto.

Definition BackupStatus_DeepCopyInto : copyVar := deepCopyInto
  [field "LastFullScheduleTime" (guarded (lib_DeepCopy "Time"));
   field "LastIncrementalScheduleTime" (guarded (lib_DeepCopy "Time"));
   field "LastSuccessfulTime" (guarded (lib_DeepCopy "Time"));
   field "LastFailureTime" (guarded (lib_DeepCopy "Time")); field "UnclaimedSince" (guarded (lib_DeepCopy "Time"));
   field "LastUnclaimedTime" (guarded (lib_DeepCopy "Time"))].
Definition BackupStatus_DeepCopy : copyVar := deepCopy BackupStatus_DeepCopyInto.

Definition KahunaClusterStatus_DeepCopyInto : copyVar := deepCopyInto
  [field "Members" sliceCopy; field "UpdatePartition" newCopy;
   field "Autoscaling" (newInto AutoscalingStatus_DeepCopyInto);
   field "Backup" (newInto BackupStatus_DeepCopyInto); field "Conditions" (sliceInto (lib_copy "Condition"))].
Definition KahunaClusterStatus_DeepCopy : copyVar := deepCopy KahunaClusterStatus_DeepCopyInto.

Definition KahunaCluster_DeepCopyInto : copyVar := deepCopyInto
  [assign "TypeMeta"; field "ObjectMeta" (lib_copy "ObjectMeta"); field "Spec" KahunaClusterSpec_DeepCopyInto;
   field "Status" KahunaClusterStatus_DeepCopyInto].
Definition KahunaCluster_DeepCopy : copyVar := deepCopy KahunaCluster_DeepCopyInto.
Definition KahunaCluster_DeepCopyObject : gv → go mem (option gv) := deepCopyObject KahunaCluster_DeepCopy.

Definition KahunaClusterList_DeepCopyInto : copyVar := deepCopyInto
  [assign "TypeMeta"; field "ListMeta" (lib_copy "ListMeta");
   field "Items" (sliceInto KahunaCluster_DeepCopyInto)].
Definition KahunaClusterList_DeepCopy : copyVar := deepCopy KahunaClusterList_DeepCopyInto.
Definition KahunaClusterList_DeepCopyObject : gv → go mem (option gv) := deepCopyObject KahunaClusterList_DeepCopy.

(** Every DeepCopy, with the type of pointer it copies. *)
Definition deepCopies : list (ty * copyVar) :=
    [(TPtr VolumeSpec_ty, VolumeSpec_DeepCopy);
     (TPtr StorageSpec_ty, StorageSpec_DeepCopy);
     (TPtr CertManagerIssuerRef_ty, CertManagerIssuerRef_DeepCopy);
     (TPtr CertManagerSpec_ty, CertManagerSpec_DeepCopy);
     (TPtr TLSSpec_ty, TLSSpec_DeepCopy);
     (TPtr PortsSpec_ty, PortsSpec_DeepCopy);
     (TPtr RaftSpec_ty, RaftSpec_DeepCopy);
     (TPtr TransactionsSpec_ty, TransactionsSpec_DeepCopy);
     (TPtr WorkersSpec_ty, WorkersSpec_DeepCopy);
     (TPtr ReplicationSpec_ty, ReplicationSpec_DeepCopy);
     (TPtr AutoscalingSpec_ty, AutoscalingSpec_DeepCopy);
     (TPtr BackupVolumeSpec_ty, BackupVolumeSpec_DeepCopy);
     (TPtr BackupRetentionSpec_ty, BackupRetentionSpec_DeepCopy);
     (TPtr BackupSpec_ty, BackupSpec_DeepCopy);
     (TPtr KahunaClusterSpec_ty, KahunaClusterSpec_DeepCopy);
     (TPtr MemberStatus_ty, MemberStatus_DeepCopy);
     (TPtr AutoscalingStatus_ty, AutoscalingStatus_DeepCopy);
     (TPtr BackupStatus_ty, BackupStatus_DeepCopy);
     (TPtr KahunaClusterStatus_ty, KahunaClusterStatus_DeepCopy);
     (TPtr KahunaCluster_ty, KahunaCluster_DeepCopy);
     (TPtr KahunaClusterList_ty, KahunaClusterList_DeepCopy)].
End api.

(** ** Every generated function copies everything *)

Section copies.
Context `{!Library, !LibraryLaws}.

(** Check a DeepCopyInto against the fields of its struct, statement by statement. *)
Ltac copies_struct :=
  eapply struct_copier;
  [ repeat (first
      [ apply Forall2_nil_2
      | apply Forall2_cons_2;
        [first [ eapply stepOk_field; [reflexivity|cbn [snd]; solve [eauto 6 with copies]]
               | eapply stepOk_assign; [reflexivity|cbn [snd]; solve [eauto 6 with copies]] ]|] ])
  | apply (bool_decide_unpack _); reflexivity
  | reflexivity ].

Lemma VolumeSpec_copier : copier VolumeSpec_ty VolumeSpec_DeepCopyInto.
Proof. copies_struct. Qed.
Hint Resolve VolumeSpec_copier : copies.
Lemma StorageSpec_copier : copier StorageSpec_ty StorageSpec_DeepCopyInto.
Proof. copies_struct. Qed.
Hint Resolve StorageSpec_copier : copies.
Lemma CertManagerIssuerRef_copier : copier CertManagerIssuerRef_ty CertManagerIssuerRef_DeepCopyInto.
Proof. copies_struct. Qed.
Hint Resolve CertManagerIssuerRef_copier : copies.
Lemma CertManagerSpec_copier : copier CertManagerSpec_ty CertManagerSpec_DeepCopyInto.
Proof. copies_struct. Qed.
Hint Resolve CertManagerSpec_copier : copies.
Lemma TLSSpec_copier : copier TLSSpec_ty TLSSpec_DeepCopyInto.
Proof. copies_struct. Qed.
Hint Resolve TLSSpec_copier : copies.
Lemma PortsSpec_copier : copier PortsSpec_ty PortsSpec_DeepCopyInto.
Proof. copies_struct. Qed.
Hint Resolve PortsSpec_copier : copies.
Lemma RaftSpec_copier : copier RaftSpec_ty RaftSpec_DeepCopyInto.
Proof. copies_struct. Qed.
Hint Resolve RaftSpec_copier : copies.
Lemma TransactionsSpec_copier : copier TransactionsSpec_ty TransactionsSpec_DeepCopyInto.
Proof. copies_struct. Qed.
Hint Resolve TransactionsSpec_copier : copies.
Lemma WorkersSpec_copier : copier WorkersSpec_ty WorkersSpec_DeepCopyInto.
Proof. copies_struct. Qed.
Hint Resolve WorkersSpec_copier : copies.
Lemma ReplicationSpec_copier : copier ReplicationSpec_ty ReplicationSpec_DeepCopyInto.
Proof. copies_struct. Qed.
Hint Resolve ReplicationSpec_copier : copies.
Lemma AutoscalingSpec_copier : copier AutoscalingSpec_ty AutoscalingSpec_DeepCopyInto.
Proof. copies_struct. Qed.
Hint Resolve AutoscalingSpec_copier : copies.
Lemma BackupVolumeSpec_copier : copier BackupVolumeSpec_ty BackupVolumeSpec_DeepCopyInto.
Proof. copies_struct. Qed.
Hint Resolve BackupVolumeSpec_copier : copies.
Lemma BackupRetentionSpec_copier : copier BackupRetentionSpec_ty BackupRetentionSpec_DeepCopyInto.
Proof. copies_struct. Qed.
Hint Resolve BackupRetentionSpec_copier : copies.
Lemma BackupSpec_copier : copier BackupSpec_ty BackupSpec_DeepCopyInto.
Proof. copies_struct. Qed.
Hint Resolve BackupSpec_copier : copies.
Lemma KahunaClusterSpec_copier : copier KahunaClusterSpec_ty KahunaClusterSpec_DeepCopyInto.
Proof. copies_struct. Qed.
Hint Resolve KahunaClusterSpec_copier : copies.
Lemma MemberStatus_copier : copier MemberStatus_ty MemberStatus_DeepCopyInto.
Proof. copies_struct. Qed.
Hint Resolve MemberStatus_copier : copies.
Lemma AutoscalingStatus_copier : copier AutoscalingStatus_ty AutoscalingStatus_DeepCopyInto.
Proof. copies_struct. Qed.
Hint Resolve AutoscalingStatus_copier : copies.
Lemma BackupStatus_copier : copier BackupStatus_ty BackupStatus_DeepCopyInto.
Proof. copies_struct. Qed.
Hint Resolve BackupStatus_copier : copies.
Lemma KahunaClusterStatus_copier : copier KahunaClusterStatus_ty KahunaClusterStatus_DeepCopyInto.
Proof. copies_struct. Qed.
Hint Resolve KahunaClusterStatus_copier : copies.
Lemma KahunaCluster_copier : copier KahunaCluster_ty KahunaCluster_DeepCopyInto.
Proof. copies_struct. Qed.
Hint Resolve KahunaCluster_copier : copies.
Lemma KahunaClusterList_copier : copier KahunaClusterList_ty KahunaClusterList_DeepCopyInto.
Proof. copies_struct. Qed.
Hint Resolve KahunaClusterList_copier : copies.

(** C10: a deep copy is isolated from its original.  Each of the generated DeepCopy functions copies every
    pointer, slice and map its type can reach: the copy reads the same value, the memory of the original is
    left as it was, and from then on no write to the cells of the one changes what the other reads.  This
    is what lets a status captured with DeepCopy be compared with the one the pass went on to edit. *)
Theorem DeepCopy_isolated : Forall (λ tf, isolated tf.1 tf.2) deepCopies.
Proof. repeat constructor; apply copier_isolated, copier_deepCopy; eauto with copies. Qed.

(** A nil cluster is copied to the nil interface, and any other to an interface that holds its copy. *)
Theorem DeepCopyObject_nil m g v :
  deref (TPtr KahunaCluster_ty) m g = Some v →
  ∃ g' m', KahunaCluster_DeepCopy g m = (Some g', m') ∧
    KahunaCluster_DeepCopyObject g m = (Some (match v with VNil => None | _ => Some g' end), m').
Proof.
  intros Hd. destruct (copier_deepCopy _ _ KahunaCluster_copier m g v Hd) as (g' & m' & Hrun & _ & Ho).
  exists g', m'. split; [done|]. unfold KahunaCluster_DeepCopyObject, deepCopyObject, mbind, go_bind.
  change (KahunaCluster_DeepCopy g m) with (deepCopy KahunaCluster_DeepCopyInto g m). rewrite Hrun.
  unfold mret, go_ret. f_equal. f_equal. destruct g' as [| [l|] | |]; simpl in Ho; try done.
  - destruct Ho as (_ & c & vs & _ & -> & _). done.
  - by rewrite Ho.
Qed.
End copies.

(** ** Witness: a status with an autoscaling status behind a pointer, and libraries of flat types. *)

Fixpoint zeroOf (t : ty) : gv :=
  match t with
  | TFlat => GScalar ""
  | TPtr _ | TSlice _ | TMap _ => GRef None
  | TEnd => GEnd
  | TField n t rest => GField n (zeroOf t) (zeroOf rest)
  end.

Definition flatLibrary : Library :=
  {| lib_ty _ := TFlat; lib_copy _ := mret; lib_DeepCopy _ := newCopy |}.

Lemma flatLibrary_laws : @LibraryLaws flatLibrary.
Proof. split; [intros; by apply copier_flat|intros; by apply copier_newCopy|done]. Qed.

Definition demoMemory : mem :=
  let _ := flatLibrary in
  <[1%positive := [("", setField "Autoscaling" (GRef (Some 2%positive)) (zeroOf KahunaClusterStatus_ty))]]>
  {[2%positive := [("", setField "DesiredReplicas" (GScalar "3") (zeroOf AutoscalingStatus_ty))]]}.

(** The desired size is then overwritten in the original; the copy still reads the old one. *)
Lemma DeepCopy_isolated_witness :
  let _ := flatLibrary in
  let T := TPtr KahunaClusterStatus_ty in
  ∃ v g' m', deref T demoMemory (GRef (Some 1%positive)) = Some v ∧
    KahunaClusterStatus_DeepCopy (GRef (Some 1%positive)) demoMemory = (Some g', m') ∧
    let m2 := <[2%positive := [("", setField "DesiredReplicas" (GScalar "4") (zeroOf AutoscalingStatus_ty))]]> m' in
    deref T m2 g' = Some v ∧ deref T m2 (GRef (Some 1%positive)) ≠ Some v.
Proof.
  intros lib T.
  assert (is_Some (deref T demoMemory (GRef (Some 1%positive)))) as [v Hv] by (vm_compute; by eexists).
  pose proof (@DeepCopy_isolated lib flatLibrary_laws) as Hall. rewrite Forall_forall in Hall.
  assert ((T, KahunaClusterStatus_DeepCopy) ∈ deepCopies) as Hin
    by (apply (list_elem_of_lookup_2 _ 18); reflexivity).
  destruct (Hall (T, KahunaClusterStatus_DeepCopy) Hin demoMemory
              (GRef (Some 1%positive)) v Hv) as (g' & m' & Hrun & Hm & _ & Hcopy & _).
  exists v, g', m'. split; [done|]. split; [exact Hrun|]. split.
  - apply Hcopy. intros l Hl. apply lookup_insert_ne. by intros <-.
  - set (c4 := [("", setField "DesiredReplicas" (GScalar "4") (zeroOf AutoscalingStatus_ty))]).
    assert (<[2%positive := c4]> demoMemory ⊆ <[2%positive := c4]> m') as Hm2 by (by apply insert_mono).
    intros Hbad. destruct (deref T (<[2%positive := c4]> demoMemory) (GRef (Some 1%positive))) as [v'|] eqn:Hv';
      [|vm_compute in Hv'; discriminate Hv'].
    rewrite (deref_grow T _ _ _ _ Hm2 Hv') in Hbad. injection Hbad as ->. rewrite <- Hv in Hv'.
    vm_compute in Hv'. discriminate Hv'.
Defined.
