(* ===== verification/Main.v ===== *)
(** * The program entry and the controller's registration (cmd/main.go)

    The command line is parsed by Go's flag package, whose syntax is modelled here; the flags decide how the
    manager is configured, and the manager, a library, is a parameter.  [main] returns the exit code of the
    process.  Proved: what the flags print as, they parse back to; the process ends with the code that
    tells what failed, and the manager is started only after the controller and both health checks are
    registered; and the servers it is given speak HTTP/1.1 only unless HTTP/2 was asked for. *)

From Stdlib Require Import ZArith Lia Ascii.
From stdpp Require Import base numbers strings pretty sorting gmap list.
From S2P Require Import Prelude GoStrings Types Naming Kahuna.

Open Scope Z_scope.

(** ** The flag package *)

(** strconv.ParseBool. *)
Definition ParseBool (s : string) : option bool :=
  if bool_decide (s ∈ ["1"; "t"; "T"; "true"; "TRUE"; "True"]) then Some true
  else if bool_decide (s ∈ ["0"; "f"; "F"; "false"; "FALSE"; "False"]) then Some false
  else None.

(** A defined flag: its name, whether it is boolean, and how its value is set; [None] is a value that does
    not parse. *)
Record flagDef (A : Type) := mkFlagDef { fl_name : string; fl_bool : bool; fl_set : string → A → option A }.
Arguments mkFlagDef {A}. Arguments fl_name {A}. Arguments fl_bool {A}. Arguments fl_set {A}.

(** What an argument is to the parser. *)
Inductive argument :=
  | NotFlag
  | Terminator
  | BadFlag
  | FlagArg (name : string) (value : option string).

(** Split [name=value] at the first equals sign. *)
Fixpoint cutEquals (s : string) : string * option string :=
  match s with
  | EmptyString => (EmptyString, None)
  | String c rest =>
      if Ascii.eqb c "=" then (EmptyString, Some rest)
      else let '(name, value) := cutEquals rest in (String c name, value)
  end.

Definition cutFlagName (s : string) : argument :=
  match s with
  | EmptyString => BadFlag
  | String c _ => if Ascii.eqb c "-" || Ascii.eqb c "=" then BadFlag
                  else let '(name, value) := cutEquals s in FlagArg name value
  end.

Definition classify (s : string) : argument :=
  match s with
  | String c (String c' rest) =>
      if negb (Ascii.eqb c "-") then NotFlag
      else if Ascii.eqb c' "-" then
        match rest with EmptyString => Terminator | _ => cutFlagName rest end
      else cutFlagName (String c' rest)
  | _ => NotFlag
  end.

Inductive parsed (A : Type) :=
  | Parsed (flags : A) (rest : list string)
  | ParseHelp
  | ParseError.
Arguments Parsed {A}. Arguments ParseHelp {A}. Arguments ParseError {A}.

Section parse.
Context {A : Type} (formal : list (flagDef A)).

Definition lookupFlag (name : string) : option (flagDef A) :=
  snd <$> list_find (λ f, fl_name f = name) formal.

(** FlagSet.Parse. *)
Fixpoint parseArgs (st : A) (args : list string) : parsed A :=
  match args with
  | [] => Parsed st []
  | s :: rest =>
      match classify s with
      | NotFlag => Parsed st args
      | Terminator => Parsed st rest
      | BadFlag => ParseError
      | FlagArg name value =>
          match lookupFlag name with
          | None => if bool_decide (name ∈ ["help"; "h"]) then ParseHelp else ParseError
          | Some f =>
              if fl_bool f then
                match fl_set f (default "true" value) st with
                | Some st => parseArgs st rest
                | None => ParseError
                end
              else
                match value with
                | Some v => match fl_set f v st with Some st => parseArgs st rest | None => ParseError end
                | None =>
                    match rest with
                    | [] => ParseError
                    | v :: rest => match fl_set f v st with Some st => parseArgs st rest | None => ParseError end
                    end
                end
          end
      end
  end.
End parse.

(** ** The operator's flags *)

Record flags := mkFlags {
  metricsAddr : string;
  probeAddr : string;
  enableLeaderElection : bool;
  secureMetrics : bool;
  webhookCertPath : string;
  webhookCertName : string;
  webhookCertKey : string;
  metricsCertPath : string;
  metricsCertName : string;
  metricsCertKey : string;
  enableHTTP2 : bool;
}.
#[export] Instance flags_eta : Eta flags := λ f, mkFlags (metricsAddr f) (probeAddr f) (enableLeaderElection f)
  (secureMetrics f) (webhookCertPath f) (webhookCertName f) (webhookCertKey f) (metricsCertPath f)
  (metricsCertName f) (metricsCertKey f) (enableHTTP2 f).

Definition defaultFlags : flags :=
  mkFlags "0" ":8081" false true "" "tls.crt" "tls.key" "" "tls.crt" "tls.key" false.

(** The flags that the logger binds (zap.Options.BindFlags), and the state they set. *)
Class ZapFlags := {
  zapOptions : Type;
  zapDefault : zapOptions;
  zapFlags : list (flagDef zapOptions);
}.

Section main.
Context `{!ZapFlags}.

Definition StringVar (name : string) (set : string → flags → flags) : flagDef (flags * zapOptions) :=
  mkFlagDef name false (λ v st, Some (set v st.1, st.2)).
Definition BoolVar (name : string) (set : bool → flags → flags) : flagDef (flags * zapOptions) :=
  mkFlagDef name true (λ v st, b ← ParseBool v; Some (set b st.1, st.2)).

Definition commandLine : list (flagDef (flags * zapOptions)) :=
  [StringVar "metrics-bind-address" (λ v f, f <| metricsAddr := v |>);
   StringVar "health-probe-bind-address" (λ v f, f <| probeAddr := v |>);
   BoolVar "leader-elect" (λ v f, f <| enableLeaderElection := v |>);
   BoolVar "metrics-secure" (λ v f, f <| secureMetrics := v |>);
   StringVar "webhook-cert-path" (λ v f, f <| webhookCertPath := v |>);
   StringVar "webhook-cert-name" (λ v f, f <| webhookCertName := v |>);
   StringVar "webhook-cert-key" (λ v f, f <| webhookCertKey := v |>);
   StringVar "metrics-cert-path" (λ v f, f <| metricsCertPath := v |>);
   StringVar "metrics-cert-name" (λ v f, f <| metricsCertName := v |>);
   StringVar "metrics-cert-key" (λ v f, f <| metricsCertKey := v |>);
   BoolVar "enable-http2" (λ v f, f <| enableHTTP2 := v |>)] ++
  ((λ z, mkFlagDef (fl_name z) (fl_bool z) (λ v st, o ← fl_set z v st.2; Some (st.1, o))) <$> zapFlags).

(** ** The manager's configuration *)

(** The part of tls.Config that is set. *)
Record tlsConfig := mkTLSConfig { NextProtos : list string }.

Record webhookOptions := mkWebhookOptions {
  wo_TLSOpts : list (tlsConfig → tlsConfig); wo_CertDir : string; wo_CertName : string; wo_KeyName : string;
}.
#[local] Instance webhookOptions_eta : Eta webhookOptions := λ o,
  mkWebhookOptions (wo_TLSOpts o) (wo_CertDir o) (wo_CertName o) (wo_KeyName o).

Inductive filterProvider := WithAuthenticationAndAuthorization.

Record metricsOptions := mkMetricsOptions {
  mo_BindAddress : string; mo_SecureServing : bool; mo_TLSOpts : list (tlsConfig → tlsConfig);
  mo_FilterProvider : option filterProvider; mo_CertDir : string; mo_CertName : string; mo_KeyName : string;
}.
#[local] Instance metricsOptions_eta : Eta metricsOptions := λ o,
  mkMetricsOptions (mo_BindAddress o) (mo_SecureServing o) (mo_TLSOpts o) (mo_FilterProvider o) (mo_CertDir o)
    (mo_CertName o) (mo_KeyName o).

Record managerOptions := mkManagerOptions {
  mg_Metrics : metricsOptions;
  mg_WebhookServer : webhookOptions;
  mg_HealthProbeBindAddress : string;
  mg_DefaultNamespaces : gset string;      (* empty: every namespace *)
  mg_LeaderElection : bool;
  mg_LeaderElectionID : string;
}.

Definition disableHTTP2 (c : tlsConfig) : tlsConfig := mkTLSConfig ["http/1.1"].

Definition tlsOpts (f : flags) : list (tlsConfig → tlsConfig) :=
  if negb (enableHTTP2 f) then [disableHTTP2] else [].

Definition webhookServerOptions (f : flags) : webhookOptions :=
  let o := mkWebhookOptions (tlsOpts f) "" "" "" in
  if (0 <? String.length (webhookCertPath f))%nat
  then o <| wo_CertDir := webhookCertPath f |> <| wo_CertName := webhookCertName f |>
         <| wo_KeyName := webhookCertKey f |>
  else o.

Definition metricsServerOptions (f : flags) : metricsOptions :=
  let o := mkMetricsOptions (metricsAddr f) (secureMetrics f) (tlsOpts f) None "" "" "" in
  let o := if secureMetrics f then o <| mo_FilterProvider := Some WithAuthenticationAndAuthorization |> else o in
  if (0 <? String.length (metricsCertPath f))%nat
  then o <| mo_CertDir := metricsCertPath f |> <| mo_CertName := metricsCertName f |>
         <| mo_KeyName := metricsCertKey f |>
  else o.

Definition cacheNamespaces (watchNamespace : string) : gset string :=
  if negb (String.eqb watchNamespace "") then {[watchNamespace]} else ∅.

Definition managerConfig (f : flags) (watchNamespace : string) : managerOptions :=
  mkManagerOptions (metricsServerOptions f) (webhookServerOptions f) (probeAddr f)
    (cacheNamespaces watchNamespace) (enableLeaderElection f) "261535e5.kahunakv.io".

(** ** The scheme (groupversion_info.go, kahunacluster_types.go) *)

(** A runtime.Scheme and what is done to it. *)
Class SchemeAPI := {
  scheme : Type;
  newScheme : scheme;
  clientgo_AddToScheme : scheme → result scheme;
  AddToGroupVersion : string * string → scheme → scheme;
  AddKnownTypes : string * string → list string → scheme → scheme;
}.

Section scheme.
Context `{!SchemeAPI}.

Definition SchemeGroupVersion : string * string := ("kahuna.kahunakv.io", "v1alpha1").

(** What init registers with the builder. *)
Definition registerTypes (s : scheme) : result scheme :=
  Ok (AddKnownTypes SchemeGroupVersion ["KahunaCluster"; "KahunaClusterList"] s).

(** The builder as the package's variable and then its init leave it. *)
Definition SchemeBuilder : list (scheme → result scheme) :=
  [λ s, Ok (AddToGroupVersion SchemeGroupVersion s)] ++ [registerTypes].

(** SchemeBuilder.AddToScheme: the functions in order, up to the first error. *)
Definition AddToScheme (s : scheme) : result scheme :=
  foldl (λ r f, match r with Ok s => f s | Err e => Err e end) (Ok s) SchemeBuilder.

(** init of package main: utilruntime.Must panics on an error. *)
Definition mainScheme : option scheme :=
  match clientgo_AddToScheme newScheme with
  | Err _ => None
  | Ok s => match AddToScheme s with Err _ => None | Ok s => Some s end
  end.
End scheme.

(** ** The controller *)

(** Where the reconciler reads its cluster from: the cached client, or the API server itself. *)
Inductive readerSource := CachedClient | APIReader.

Record reconcilerConfig := mkReconcilerConfig {
  rc_Reader : option readerSource;         (* None: nil, which falls back to the client *)
  rc_Kahuna : HTTPClient;
}.

(** Which reader [Reconcile] uses. *)
Definition readerOf (r : reconcilerConfig) : readerSource :=
  match rc_Reader r with
  | Some reader => reader
  | None => CachedClient
  end.

Inductive objectKind := KindKahunaCluster | KindStatefulSet | KindService | KindConfigMap | KindPodDisruptionBudget.

Record controller := mkController {
  ct_For : objectKind;
  ct_Owns : list objectKind;
  ct_Named : string;
  ct_MaxConcurrentReconciles : Z;
  ct_Reconciler : reconcilerConfig;
}.

Definition maxConcurrentReconciles : Z := 4.

(** The manager of controller-runtime, in the order main uses it.  [Complete] registers a controller. *)
Class Manager (W : Type) := {
  GetConfig : go W (option error);
  NewManager : managerOptions → go W (option error);
  Complete : controller → go W (option error);
  AddHealthzCheck : string → go W (option error);
  AddReadyzCheck : string → go W (option error);
  Start : go W (option error);
}.

Context {W : Type} `{!Manager W}.

Definition registration (r : reconcilerConfig) : controller :=
  mkController KindKahunaCluster [KindStatefulSet; KindService; KindConfigMap; KindPodDisruptionBudget]
    "kahunacluster" maxConcurrentReconciles r.

Definition SetupWithManager (r : reconcilerConfig) : go W (option error) := Complete (registration r).

Definition mainReconciler : reconcilerConfig :=
  mkReconcilerConfig (Some APIReader) (NewHTTPClient DefaultReadTimeout DefaultLeaveTimeout).

(** The controller that main registers reads clusters from the API server, which the laws of the refinement
    rely on. *)
Example mainReconciler_uncached : readerOf mainReconciler = APIReader.
Proof. reflexivity. Qed.

(** A step of main: on an error, the process exits with code 1. *)
Definition orExit (m : go W (option error)) (next : go W Z) : go W Z :=
  err ← m;
  match err with
  | Some _ => mret 1
  | None => next
  end.

(** main after flag.Parse; the value of WATCH_NAMESPACE is an argument. *)
Definition runManager (f : flags) (watchNamespace : string) : go W Z :=
  orExit GetConfig
  (orExit (NewManager (managerConfig f watchNamespace))
  (orExit (SetupWithManager mainReconciler)
  (orExit (AddHealthzCheck "healthz")
  (orExit (AddReadyzCheck "readyz")
  (orExit Start (mret 0)))))).

(** The exit code of the process. *)
Definition main (args : list string) (watchNamespace : string) : go W Z :=
  match parseArgs commandLine (defaultFlags, zapDefault) args with
  | ParseHelp => mret 0
  | ParseError => mret 2
  | Parsed st _ => runManager st.1 watchNamespace
  end.
End main.

(** ** The command line *)

Section flags_spec.
Context `{!ZapFlags}.

Definition boolText (b : bool) : string := if b then "true" else "false".

(** A command line that sets every flag. *)
Definition printFlags (f : flags) : list string :=
  ["--metrics-bind-address=" +:+ metricsAddr f; "--health-probe-bind-address=" +:+ probeAddr f;
   "--leader-elect=" +:+ boolText (enableLeaderElection f); "--metrics-secure=" +:+ boolText (secureMetrics f);
   "--webhook-cert-path=" +:+ webhookCertPath f; "--webhook-cert-name=" +:+ webhookCertName f;
   "--webhook-cert-key=" +:+ webhookCertKey f; "--metrics-cert-path=" +:+ metricsCertPath f;
   "--metrics-cert-name=" +:+ metricsCertName f; "--metrics-cert-key=" +:+ metricsCertKey f;
   "--enable-http2=" +:+ boolText (enableHTTP2 f)].

(** C34: the command line that prints a set of flags parses back to it, whatever text the values hold and
    whatever was set before it, and parsing goes on with the arguments that follow. *)
Theorem printFlags_parse f f0 z rest :
  parseArgs commandLine (f0, z) (printFlags f ++ rest) = parseArgs commandLine (f, z) rest.
Proof. by destruct f as [? ? [] [] ? ? ? ? ? ? []], f0. Qed.

(** The argument asks for HTTP/2. *)
Definition asksHTTP2 (arg : string) : Prop :=
  ∃ value, classify arg = FlagArg "enable-http2" value ∧ ParseBool (default "true" value) = Some true.

Lemma lookupFlag_In (name : string) (f : flagDef (flags * zapOptions)) :
  lookupFlag commandLine name = Some f → f ∈ commandLine ∧ fl_name f = name.
Proof.
  unfold lookupFlag. intros ([i g] & (Hl & Hn & _)%list_find_Some & ->)%fmap_Some. simpl in *.
  split; [by eapply list_elem_of_lookup_2|done].
Qed.

(** Only one flag touches [enableHTTP2]. *)
Lemma commandLine_http2 f v st st' :
  f ∈ commandLine → fl_set f v st = Some st' →
  enableHTTP2 st'.1 = enableHTTP2 st.1 ∨
  fl_name f = "enable-http2" ∧ fl_bool f = true ∧ ParseBool v = Some (enableHTTP2 st'.1).
Proof.
  unfold commandLine. rewrite elem_of_app, list_elem_of_fmap. intros [Hf|(z & -> & _)].
  - repeat (apply elem_of_cons in Hf as [->|Hf]); try (by apply elem_of_nil in Hf).
    all: unfold StringVar, BoolVar; cbn [fl_set fl_name fl_bool].
    all: try (intros [= <-]; by left).
    all: intros (b & Hb & [= <-])%bind_Some; (by left) || (right; split_and!; [done..|]; by rewrite Hb).
  - simpl. intros (o & _ & [= <-])%bind_Some. by left.
Qed.

Lemma parse_http2 args : ∀ st st' rest,
  parseArgs commandLine st args = Parsed st' rest → enableHTTP2 st'.1 = true →
  enableHTTP2 st.1 = true ∨ ∃ arg, arg ∈ args ∧ asksHTTP2 arg.
Proof.
  induction args as [args IH] using (well_founded_induction (Wf_nat.well_founded_ltof _ (@length string))).
  intros st st' rest. destruct args as [|s args]; simpl; [intros [= <- <-]; by left|].
  destruct (classify s) as [| | |name value] eqn:Hs; [intros [= <- <-]; by left|intros [= <- <-]; by left|done|].
  destruct (lookupFlag commandLine name) as [f|] eqn:Hf; [|by case_bool_decide].
  apply lookupFlag_In in Hf as [Hin Hname].
  assert (∀ v st1 args' , fl_set f v st = Some st1 → (length args' ≤ length args)%nat → args' ⊆ args →
    (fl_bool f = true → v = default "true" value) →
    parseArgs commandLine st1 args' = Parsed st' rest → enableHTTP2 st'.1 = true →
    enableHTTP2 st.1 = true ∨ ∃ arg, arg ∈ s :: args ∧ asksHTTP2 arg) as Hstep.
  { intros v st1 args' Hset Hlen Hsub Hv Hp Hon.
    destruct (IH args' ltac:(unfold Wf_nat.ltof; simpl; lia) st1 st' rest Hp Hon) as [Hst1|(a & Ha & Hask)].
    - destruct (commandLine_http2 f v st st1 Hin Hset) as [Heq|(Hn & Hb & Hpb)]; [left; congruence|right].
      exists s. split; [by left|]. exists value. split; [congruence|]. rewrite <- (Hv Hb). congruence.
    - right. exists a. split; [right; by apply Hsub|done]. }
  destruct (fl_bool f) eqn:Hb.
  - destruct (fl_set f _ st) as [st1|] eqn:Hset; [|done]. by eapply Hstep.
  - destruct value as [v|].
    + destruct (fl_set f v st) as [st1|] eqn:Hset; [|done]. by eapply Hstep.
    + destruct args as [|v args']; [done|]. destruct (fl_set f v st) as [st1|] eqn:Hset; [|done].
      eapply Hstep; [done|simpl; lia|set_solver|done].
Qed.

(** What a server's TLS configuration is after its options. *)
Definition applyTLS (opts : list (tlsConfig → tlsConfig)) (c : tlsConfig) : tlsConfig := foldl (λ c o, o c) c opts.

(** C35: HTTP/2 is off unless it was asked for.  Whatever else is on the command line, when no argument sets
    enable-http2 to true, both the webhook and the metrics server the manager is given negotiate HTTP/1.1
    and nothing else; and the metrics server checks its callers whenever it is served over TLS. *)
Theorem http2_off_by_default args st rest ns :
  parseArgs commandLine (defaultFlags, zapDefault) args = Parsed st rest →
  (∀ arg, arg ∈ args → ¬ asksHTTP2 arg) →
  let cfg := managerConfig st.1 ns in
  (∀ c, NextProtos (applyTLS (wo_TLSOpts (mg_WebhookServer cfg)) c) = ["http/1.1"]) ∧
  (∀ c, NextProtos (applyTLS (mo_TLSOpts (mg_Metrics cfg)) c) = ["http/1.1"]) ∧
  (mo_SecureServing (mg_Metrics cfg) = true ↔
     mo_FilterProvider (mg_Metrics cfg) = Some WithAuthenticationAndAuthorization).
Proof.
  intros Hp Hno.
  assert (enableHTTP2 st.1 = false) as Hoff.
  { apply not_true_iff_false. intros Hon.
    destruct (parse_http2 args _ _ _ Hp Hon) as [[=]|(arg & Ha & Hask)]. by apply (Hno arg). }
  unfold managerConfig, metricsServerOptions, webhookServerOptions, tlsOpts; simpl. rewrite Hoff.
  split_and!; intros; repeat case_match; simpl; done.
Qed.
End flags_spec.

(** ** The exit code *)

Section exit_spec.
Context `{!ZapFlags} {W : Type} `{!Manager W}.

(** The steps of main after the flags are parsed, in order. *)
Definition startupSteps (f : flags) (ns : string) : list (go W (option error)) :=
  [GetConfig; NewManager (managerConfig f ns); SetupWithManager mainReconciler; AddHealthzCheck "healthz";
   AddReadyzCheck "readyz"; Start].

(** Every step of a list succeeded, in turn. *)
Inductive allDone : list (go W (option error)) → W → W → Prop :=
  | allDone_nil w : allDone [] w w
  | allDone_cons m ms w w1 w' : m w = (Some None, w1) → allDone ms w1 w' → allDone (m :: ms) w w'.

Definition orExitAll (steps : list (go W (option error))) : go W Z := foldr orExit (mret 0) steps.

Lemma orExitAll_spec steps w code w' :
  orExitAll steps w = (Some code, w') →
  (code = 0 ∧ allDone steps w w') ∨
  (code = 1 ∧ ∃ before m after w1 e, steps = before ++ m :: after ∧ allDone before w w1 ∧
     m w1 = (Some (Some e), w')).
Proof.
  revert w. induction steps as [|m steps IH]; intros w; simpl.
  { intros [= <- <-]. left. split; [done|constructor]. }
  intros ([e|] & w1 & Hm & Hr)%go_bind_Some.
  - injection Hr as <- <-. right. split; [done|]. exists [], m, steps, w, e. split_and!; [done|constructor|done].
  - destruct (IH w1 Hr) as [[-> Hd]|(-> & before & m' & after & w2 & e & -> & Hd & Hf)].
    + left. split; [done|]. by econstructor.
    + right. split; [done|]. exists (m :: before), m', after, w2, e. split_and!; [done|by econstructor|done].
Qed.

(** C33: the exit code says what happened.  2 exactly when the command line does not parse, and then nothing
    was touched; 1 only when a step failed, and then every step before it had succeeded and none after it
    was tried; 0 only for a request for help, or when every step succeeded in order, so the manager has run
    with the controller and both health checks registered. *)
Theorem main_exit args ns w code w' :
  main args ns w = (Some code, w') →
  match parseArgs commandLine (defaultFlags, zapDefault) args with
  | ParseHelp => code = 0 ∧ w' = w
  | ParseError => code = 2 ∧ w' = w
  | Parsed st _ =>
      (code = 0 ∧ allDone (startupSteps st.1 ns) w w') ∨
      (code = 1 ∧ ∃ before m after w1 e, startupSteps st.1 ns = before ++ m :: after ∧ allDone before w w1 ∧
         m w1 = (Some (Some e), w'))
  end.
Proof.
  unfold main. destruct (parseArgs _ _ _) as [st rest| |].
  - apply (orExitAll_spec (startupSteps st.1 ns)).
  - by intros [= <- <-].
  - by intros [= <- <-].
Qed.
End exit_spec.

(** ** The scheme *)

(** What a scheme knows after its types were added. *)
Class SchemeLaws `{!SchemeAPI} (knows : scheme → string * string → string → Prop) : Prop := {
  known_added gv kinds s kind : kind ∈ kinds → knows (AddKnownTypes gv kinds s) gv kind;
}.

(** The process starts with a scheme that knows both kinds of the API group, unless the Kubernetes types
    themselves cannot be added. *)
Theorem mainScheme_knows `{!SchemeAPI, !SchemeLaws knows} :
  match clientgo_AddToScheme newScheme with
  | Err _ => mainScheme = None
  | Ok _ => ∃ s, mainScheme = Some s ∧ knows s SchemeGroupVersion "KahunaCluster" ∧
                 knows s SchemeGroupVersion "KahunaClusterList"
  end.
Proof.
  unfold mainScheme. destruct (clientgo_AddToScheme newScheme) as [s|e]; [|done].
  eexists. split; [reflexivity|]. split; apply known_added; set_solver.
Qed.

(** ** Witnesses: no flags of the logger, and a manager that records its calls. *)

Definition noZapFlags : ZapFlags := {| zapOptions := unit; zapDefault := tt; zapFlags := [] |}.

Lemma http2_off_by_default_witness :
  let _ := noZapFlags in
  let args := ["--leader-elect"; "-metrics-bind-address"; ":8443"] in
  ∃ st, parseArgs commandLine (defaultFlags, zapDefault) args = Parsed st [] ∧
    metricsAddr st.1 = ":8443" ∧
    ∀ c, NextProtos (applyTLS (mo_TLSOpts (mg_Metrics (managerConfig st.1 ""))) c) = ["http/1.1"].
Proof.
  intros z args.
  eexists (defaultFlags <| enableLeaderElection := true |> <| metricsAddr := ":8443" |>, tt).
  split; [reflexivity|]. split; [reflexivity|].
  apply (http2_off_by_default args _ [] ""); [reflexivity|].
  intros arg Ha (value & Hc & _). unfold args in Ha.
  repeat (apply elem_of_cons in Ha as [->|Ha]; [discriminate Hc|]). by apply elem_of_nil in Ha.
Defined.

Definition loggedStep (name : string) (err : option error) : go (list string) (option error) :=
  λ w, (Some err, w ++ [name]).

Definition failingManager : Manager (list string) := {|
  GetConfig := loggedStep "config" None;
  NewManager _ := loggedStep "manager" None;
  Complete _ := loggedStep "controller" None;
  AddHealthzCheck _ := loggedStep "healthz" (Some (ErrorText "taken"));
  AddReadyzCheck _ := loggedStep "readyz" None;
  Start := loggedStep "start" None;
|}.

(** A health check that cannot be registered ends the process before the manager starts. *)
Lemma main_exit_witness :
  let z := noZapFlags in let mg := failingManager in
  main [] "" [] = (Some 1, ["config"; "manager"; "controller"; "healthz"]) ∧
  ∃ before m after w1 e, startupSteps defaultFlags "" = before ++ m :: after ∧ allDone before [] w1 ∧
    m w1 = (Some (Some e), ["config"; "manager"; "controller"; "healthz"]).
Proof.
  intros z mg. assert (main [] "" [] = (Some 1, ["config"; "manager"; "controller"; "healthz"])) as E
    by reflexivity.
  split; [exact E|]. destruct (main_exit [] "" [] 1 _ E) as [[H _]|[_ H]]; [discriminate H|exact H].
Defined.
